(* ===== verification/_CoqProject ===== *)
-Q . S2P
Prelude.v
CStd.v
Buffer.v
HttpRequest.v
HttpRequestParser.v
HttpResponse.v
Channel.v
Epoller.v
Timestamp.v
RBTreeTimer.v
Printf.v
LogStream.v
Logging.v
LogFile.v
AsyncLogging.v
LogPipeline.v
TcpConnection.v
EventLoop.v
Pages.v
HttpServer.v
TcpSafety.v
Session.v
Races.v
Visit.v
Reactor.v
LoopThreadPool.v
Cluster.v
Dialogue.v
Projection.v
Service.v
IdleTimers.v
Acceptor.v
Descriptors.v
Startup.v
TcpServer.v
ThreadPool.v
LockFreeQueue.v
TestMuduo.v
