(* ===== verification/Prelude.v ===== *)
(** * MyMuduo: a verification development

    MyMuduo is an HTTP server on an event-driven network library in C++: one
    loop per thread over epoll, an acceptor that deals connections to the loops,
    buffers, an HTTP parser and responses, timers in an ordered set over a
    timerfd, and an asynchronous log.  This library models its components from
    the source under src/ and proves what makes each of them correct, together
    with the places where the code does not do what it means to.

    ** The parts, and where they are

    - Prelude.v (this file): bytes, the result monad with the ways a call can
      end, machine integers, the memory of a vector, and the lemmas and tactics
      the components share; a path like Net/channel stands for its .h and .cpp
      files.  CStd.v: what the source uses of the C and C++
      libraries on ranges of bytes ([std::find], [std::search], [isspace],
      [std::to_string] and the like).
    - Buffer.v, module [Buf] (Net/buffer.h, Net/buffer.cpp): the connection
      buffer over a vector that is really written; [readFd] takes the answer of
      [readv].
    - HttpRequest.v, module [Request] (Http/httprequest): the request and the
      parsing of its lines and of a form, on the bytes a pointer pair delimits.
    - HttpRequestParser.v, module [Parser] (Http/httprequestparser): the state
      machine over a [Buf.Buffer].  HttpResponse.v, module [Response]
      (Http/httpresponse).  Pages.v (Http/httpresponsefile.h): the two files
      the server serves.
    - Channel.v, module [Chan] (Net/channel): interest masks and dispatch.
      Epoller.v, module [Epoll] (Net/epoller): the poller over the class
      [EpollKernel], which states what epoll_ctl does.
    - Timestamp.v, module [Ts] (Timer/timestamp.h).  RBTreeTimer.v, module
      [Timers] (Timer/timer.h, Timer/rbtreetimer, and [runAfter] and [runEvery]
      of Net/eventloop.h): the timer queue of a loop.
    - LogStream.v, module [Fixed]; Logging.v, module [Log]; LogFile.v, module
      [File]; AsyncLogging.v, module [Async] (Logging/): formatting, a log
      statement, the log file, and the two-sided buffers of the writing thread.
      Printf.v: what snprintf does with "%.12g", on binary64 numbers.
    - TcpConnection.v, module [Tcp] (Net/tcpconnection): the state machine of
      a connection, its buffers, its channel, its socket.
    - EventLoop.v, module [Loop] (Net/eventloop): the loop and the functors
      other threads hand it.
    - LoopThreadPool.v, module [LoopPool]; Acceptor.v, module [Accept];
      TcpServer.v, modules [Serve] and [TcpConn] (Net/loopthreadpool,
      Net/acceptor, Net/tcpserver).
    - HttpServer.v, module [Server] (Http/httpserver, and [resCallback] of
      main.cpp).  ThreadPool.v, module [Pool] (threadpool.hpp).
      LockFreeQueue.v, module [Lfq] (lockfreequeue.hpp): [push], one access of
      the shared memory a step.  TestMuduo.v, module [TestMuduo]
      (testMuduo.cpp), over type classes for the muduo library.
    - The compositions.  LogPipeline.v, module [Pipe]: log statements over the
      asynchronous log.  TcpSafety.v, module [Safe], and Session.v, module
      [Life]: one connection with the handlers of HttpServer, TcpServer,
      TcpConnection, Channel and Epoller, over every event that can reach it.
      Visit.v, module [Visit]: one request from socket to socket, and a silent
      client.  Reactor.v, module [React]: a loop and all its connections over
      one poller.  Cluster.v, module [Clust]: the table of connections and the
      pool over all the loops.  Dialogue.v, module [Talk]: what one connection
      answers over its life, as a pure machine on the messages it reads;
      Projection.v, module [Proj]: every connection of the server of Cluster.v
      lives a life of Session.v, and so has the answers of Dialogue.v.
      Service.v, module [Service]: conversely, what Session.v and Visit.v have
      one connection do is done by the server among its other connections.
      IdleTimers.v, module [IdleWatch]: that server
      with the timer queue that holds its idle checks.  Races.v, module [Race]:
      one connection with [shutDown] and [forceClose] in other threads, the test
      of the state and its setting apart.  The section [Backlog] of Acceptor.v:
      the listening socket over time.  Descriptors.v, module [Descr]: the
      acceptor in front of the server of Cluster.v, and who holds each open
      descriptor of the process.  Startup.v, module [Main]: main() and the
      constructors it runs (main.cpp, Net/eventloop.cpp, Http/httpserver).

    A class is a Record with the fields of the source and a member function a
    definition of the same name.  A call that can fail returns [res]; the
    constructor [Fault] tells how it ended.  State the C++ object reaches
    through a pointer or a system call (a poller, the answers of a socket, the
    readings of a clock, the calls made) is a further field of the Record of the
    object that reaches it.

    ** How they interact

    A loop polls [Epoller] and runs the handlers of the ready [Channel]s and
    then the queued functors (EventLoop.v).  The acceptor's handler hands a
    descriptor to [TcpServer], which makes a connection on a loop of the pool
    and queues functors for its establishment, removal and destruction
    (TcpServer.v, against the interface [ServerConn]).  A connection reads into
    its input buffer and calls [HttpServer.onMessage] (HttpServer.v), which
    parses, builds a response and sends it back through the connection
    (TcpConnection.v), and its timer checks for idle connections.  Every
    component logs: a statement formats one line into a [LogStream] and gives it
    to the output function, which appends it to [AsyncLogging]; its thread
    writes to a [LogFile].

    ** What the theorems show

    - Safety of the whole: the server survives all its connections in all its
      loops, whatever the clients do ([server_never_crashes]; for one loop and
      one connection [loop_never_crashes], [session_never_crashes]); its table
      is exact ([server_table]) and no open connection is left unwatched
      ([loop_watches]); the life of a connection ([session_invariant],
      [session_isolated]) and its end ([session_drains], in the server
      [server_drains]); main() reaches its
      loop with the listening socket watched ([main_starts]); no idle connection
      is without a check ([idle_checks_cover]), and the check, which runs in
      another thread than the connection, cannot break it
      ([idle_race_harmless]); no descriptor is leaked, shared or closed twice,
      also when the process runs out of them ([descriptors_accounted], where
      what [server_never_crashes] asks of a new descriptor is shown).  The one exception
      is part of the statements: a request without a Connection header
      dereferences a dangling reference.
    - Functional correctness of the whole: over any run of a connection, and of
      every connection of the server with all its loops interleaved, what is
      sent is the answers of a pure machine to the messages read from that
      connection, in order ([session_answers], [server_answers]); the theorems
      on one connection hold of those of the server ([connection_projects]).
    - End to end: a client that sends a request gets exactly the response of
      the callback, closed as it says, however its socket takes the writes
      ([visitor_served]), whatever the server and its other clients have done
      before ([server_serves]); a silent one is closed between eight and sixteen
      seconds later ([idle_visitor_closed]), and the server's timer does it
      ([silent_connection_shut]); a refused request gets a 400
      ([bad_input_answered]); the connection is a reliable byte stream with one
      half-close after the last byte ([connection_stream]); what log statements
      say reaches the file in order ([log_pipeline]).
    - Refinement: the buffer is a byte queue, the parser a machine on lines
      (so input may come in pieces), the poller's kernel set the channels'
      interests, the log stream a bounded text.
    - Round trips: requests, headers, forms, responses, log times, integers.
    - Concurrency, as transition systems over all interleavings: functors run
      once and in order and no wake-up is lost; connections stay in the table
      while open and leave it and their descriptor when closed; the log loses
      nothing it accepted while it runs; the thread pool starts tasks in order
      and loses no wake-up; the linked queue holds what was pushed, in the order
      of the exchanges of its tail ([push_linearizes], [push_alone_returns]).
    - Bounds: the buffer of a number in the log stream ([numeric_in_bounds]).
    - Timers: what a wake-up fires, reschedules and arms.
    - Where the code falls short, theorems state what it does instead:
      [append_reuse_stale], [partial_input_dropped], [handleRead_error_closes],
      [stop_loses_tail], [shutdown_drops_tasks], [handleRead_stalls],
      [appends_never_roll], [late_send_overwritten] (a buffer sent from another
      thread), [force_close_race] (a call from another thread that
      its comment allows ends the server), [backlog_never_drains] (connections
      that arrive together), [stopped_push_blocks] (the queue is not lock free).

    ** Bounds and fuel

    An [int] operation that can overflow is checked ([int_op]) and faults; a
    conversion to [size_t] wraps ([to_size_t]).  Where recursion is not
    structural the fuel is computed from the input and a theorem excludes
    [OutOfFuel]: the parser's loop takes the number of readable bytes plus one
    (each turn consumes a line end), the digit loops the binary logarithm plus
    one, the write loop of the log file the length of the data (each [fwrite]
    is assumed to make progress), the form parser the length of the body plus one, the
    calendar of [gmtime] the days since 1970, the decimal exponent of a double
    400, which every binary64 number is within.

    The theorems on sessions take a bound on the serialised responses, for which
    that of main.cpp is 8192 bytes ([resCallback_bound]), and ask that the
    number of reads times the bound fits an [int], the type of the indices of
    the output buffer; the input buffer needs no such bound, since it is emptied
    at every read and stays below 128 KB ([kInputMax]).  IdleTimers.v considers a
    run up to a number of readings of the clock ([horizon], any number), over
    which the clock is strictly increasing and eight seconds can be added to it.

    ** What is not modelled

    The kernel and the clocks are arguments or classes with their documented
    contracts.  Not modelled: the benchmark test/kwebbench (third-party C) and
    the files CMake generated.  The three counting functions that
    lockfreequeue.hpp calls and nobody declares are a class with laws.
    Destructors that only close a descriptor have no definition of their own.
    Log lines inside components are not represented there (they are the subject
    of Logging.v), except where error branches are counted.  Data races on plain
    members are undefined in C++; where two threads do share one (Races.v) an
    access is taken as atomic.

    ** What could follow

    The server of IdleTimers.v behind the acceptor of Descriptors.v, so that a
    silent client's descriptor is free again by a bound; the destructor of the
    server with functors still queued. *)

From Stdlib Require Import ZArith Lia Ascii String.
From stdpp Require Export base list gmap strings.
From stdpp Require Import options.

Open Scope Z_scope.

(** ** Bytes

    A C [char] is an [ascii]; memory, strings and network data are lists of
    them. *)
Abbreviation bytes := (list ascii).

(** The bytes of a string literal. *)
Definition bs (s : string) : bytes := String.list_ascii_of_string s.

#[global] Arguments bs : simpl never.

Definition CR : ascii := "013"%char.
Definition LF : ascii := "010"%char.

(** [kCRLF] of buffer.h and [CRLF] of httpresponse.cpp. *)
Definition CRLF : bytes := [CR; LF].

Definition zlen {A} (l : list A) : Z := Z.of_nat (length l).

(** ** Faults and the result monad

    What can end a call other than by returning: a failed [assert] (the build
    type is Debug, so asserts are compiled in), undefined behaviour of C++
    (an access outside an array, a read through a dangling reference, a signed
    overflow), [exit]/[abort], and the model's own fuel running out, which the
    termination theorems exclude. *)
Inductive fault :=
| AssertFailed
| Undefined
| Exited
| OutOfFuel.

#[global] Instance fault_eq_dec : EqDecision fault.
Proof. solve_decision. Defined.

Inductive res (A : Type) : Type :=
| Ok (a : A)
| Fault (f : fault).
Arguments Ok {A} _.
Arguments Fault {A} _.

#[global] Instance res_ret : MRet res := fun A a => Ok a.
#[global] Instance res_bind : MBind res := fun A B k m =>
  match m with Ok a => k a | Fault f => Fault f end.

(** [assert(b)] *)
Definition assert_ (b : bool) : res unit :=
  if b then Ok tt else Fault AssertFailed.

Definition is_ok {A} (m : res A) : Prop := exists a, m = Ok a.

(** ** Machine integers

    An [int] is a [Z]; what the source computes in [int] arithmetic is a fault
    when it leaves the range, what it computes on [std::atomic<int>] or by a
    narrowing cast wraps around. *)
Definition INT_MIN : Z := -2147483648.
Definition INT_MAX : Z := 2147483647.

Definition in_int (z : Z) : bool := (INT_MIN <=? z) && (z <=? INT_MAX).

Definition int_op (z : Z) : res Z := if in_int z then Ok z else Fault Undefined.

Definition wrap32 (z : Z) : Z := (z + 2147483648) mod 4294967296 - 2147483648.

Definition to_size_t (z : Z) : Z := z mod 18446744073709551616.

(** ** Memory

    A block of memory is a list of bytes; a pointer into it is an offset.
    [slice i j l] is the range [[i, j)]; [write_at] is [std::copy] into the
    block, undefined when it leaves the block. *)
Definition slice {A} (i j : Z) (l : list A) : list A :=
  take (Z.to_nat (j - i)) (drop (Z.to_nat i) l).

Definition write_at {A} (i : Z) (d l : list A) : res (list A) :=
  if (0 <=? i) && (i + zlen d <=? zlen l)
  then Ok (take (Z.to_nat i) l ++ d ++ drop (Z.to_nat (i + zlen d)) l)
  else Fault Undefined.

(** [vector::resize]: cut or value-initialise up to the new size. *)
Definition resize {A} (x : A) (n : Z) (l : list A) : list A :=
  take (Z.to_nat n) l ++ replicate (Z.to_nat n - length l)%nat x.

(** ** Tactics *)

(** Case analysis on the scrutinee of the first [match] or [if] found. *)
Ltac split_match :=
  match goal with
  | |- context [match ?x with _ => _ end] =>
      lazymatch x with
      | context [match _ with _ => _ end] => fail
      | _ => destruct x eqn:?
      end
  | H : context [match ?x with _ => _ end] |- _ =>
      lazymatch x with
      | context [match _ with _ => _ end] => fail
      | _ => destruct x eqn:?
      end
  end.

(** Turns boolean comparisons in hypotheses into propositions. *)
Ltac reflect_bools :=
  repeat match goal with
    | H : _ && _ = true |- _ => apply andb_true_iff in H as [??]
    | H : _ && _ = false |- _ => apply andb_false_iff in H
    | H : _ || _ = false |- _ => apply orb_false_iff in H as [??]
    | H : _ || _ = true |- _ => apply orb_true_iff in H
    | H : negb _ = true |- _ => apply negb_true_iff in H
    | H : negb _ = false |- _ => apply negb_false_iff in H
    | H : (_ <=? _) = true |- _ => apply Z.leb_le in H
    | H : (_ <=? _) = false |- _ => apply Z.leb_gt in H
    | H : (_ <? _) = true |- _ => apply Z.ltb_lt in H
    | H : (_ <? _) = false |- _ => apply Z.ltb_ge in H
    | H : (_ =? _) = true |- _ => apply Z.eqb_eq in H
    | H : (_ =? _) = false |- _ => apply Z.eqb_neq in H
    end.

Ltac zsimpl := unfold zlen, INT_MAX, INT_MIN in *.

(** Arithmetic on lengths of lists. *)
Ltac len_lia :=
  zsimpl; repeat (rewrite ?length_app, ?length_take, ?length_drop, ?length_replicate in *;
                  simpl length in *); lia.

(** Decides a boolean comparison of the goal by [lia]. *)
Ltac decide_bool :=
  repeat match goal with
    | |- context [?a <=? ?b] =>
        first [ rewrite (proj2 (Z.leb_le a b)) by len_lia
              | rewrite (proj2 (Z.leb_gt a b)) by len_lia ]
    | |- context [?a <? ?b] =>
        first [ rewrite (proj2 (Z.ltb_lt a b)) by len_lia
              | rewrite (proj2 (Z.ltb_ge a b)) by len_lia ]
    | |- context [?a =? ?b] =>
        first [ rewrite (proj2 (Z.eqb_eq a b)) by len_lia
              | rewrite (proj2 (Z.eqb_neq a b)) by len_lia ]
    end; cbn [andb orb negb].

(** ** Hint databases *)
Create HintDb muduo.
Create Rewrite HintDb muduo_len.

(** ** Generic lemmas: results *)

#[export] Instance Ok_inj {A} : Inj (=) (=) (@Ok A).
Proof. by intros a b [= ->]. Qed.

Lemma bind_Ok_inv {A B} (m : res A) (k : A -> res B) b :
  (m ≫= k) = Ok b -> exists a, m = Ok a /\ k a = Ok b.
Proof. destruct m; simpl; intros H; [eauto | discriminate]. Qed.

Lemma bind_ext {A B} (m : res A) (k k' : A -> res B) :
  (forall a, k a = k' a) -> (m ≫= k) = (m ≫= k').
Proof. intros H. destruct m; [apply H | done]. Qed.

Lemma bind_assoc {A B C} (m : res A) (k : A -> res B) (k' : B -> res C) :
  ((m ≫= k) ≫= k') = (m ≫= (fun a => k a ≫= k')).
Proof. by destruct m. Qed.

Lemma bind_ret_r {A} (m : res A) : (m ≫= Ok) = m.
Proof. by destruct m. Qed.

Lemma assert_Ok b : assert_ b = Ok tt <-> b = true.
Proof. destruct b; simpl; split; congruence. Qed.

Lemma int_op_Ok z : INT_MIN <= z <= INT_MAX -> int_op z = Ok z.
Proof. intros H. unfold int_op, in_int. zsimpl. by decide_bool. Qed.

Lemma int_op_bind {B} z (k : Z -> res B) :
  INT_MIN <= z <= INT_MAX -> (int_op z ≫= k) = k z.
Proof. intros H. by rewrite int_op_Ok. Qed.

Lemma wrap32_id z : INT_MIN <= z <= INT_MAX -> wrap32 z = z.
Proof. intros H. unfold wrap32. zsimpl. rewrite Z.mod_small; lia. Qed.

Lemma wrap32_range z : INT_MIN <= wrap32 z <= INT_MAX.
Proof.
  unfold wrap32. zsimpl.
  pose proof (Z.mod_pos_bound (z + 2147483648) 4294967296). lia.
Qed.

Lemma to_size_t_id z : 0 <= z < 18446744073709551616 -> to_size_t z = z.
Proof. intros. by apply Z.mod_small. Qed.

(** Runs an [int] operation of the goal that stays in range. *)
Ltac int_ok := rewrite int_op_bind by (zsimpl; lia); cbv beta.

(** Peels one successful bind off a hypothesis. *)
Ltac bind_inv H :=
  let x := fresh "x" in let Hx := fresh "Hx" in
  apply bind_Ok_inv in H as (x & Hx & H).

(** ** Generic lemmas: lists and slices *)

Lemma zlen_nonneg {A} (l : list A) : 0 <= zlen l.
Proof. unfold zlen; lia. Qed.

Lemma zlen_app {A} (l k : list A) : zlen (l ++ k) = zlen l + zlen k.
Proof. len_lia. Qed.

Lemma zlen_nil_inv {A} (l : list A) : zlen l = 0 -> l = [].
Proof. destruct l; [done | unfold zlen; simpl; lia]. Qed.

Lemma zlen_slice {A} i j (l : list A) :
  0 <= i -> i <= j -> j <= zlen l -> zlen (slice i j l) = j - i.
Proof. intros. unfold slice. len_lia. Qed.

Lemma slice_empty {A} i (l : list A) : slice i i l = [].
Proof. unfold slice. by rewrite Z.sub_diag. Qed.

Lemma slice_all {A} (l : list A) : slice 0 (zlen l) l = l.
Proof.
  unfold slice, zlen. rewrite Z.sub_0_r, Nat2Z.id. simpl.
  by rewrite drop_0, take_ge.
Qed.

(** The middle of a concatenation, by its offsets. *)
Lemma slice_mid {A} i j (a b c : list A) :
  i = zlen a -> j = zlen a + zlen b -> slice i j (a ++ b ++ c) = b.
Proof.
  intros -> ->. unfold slice. rewrite drop_app_length' by len_lia.
  apply take_app_length'. len_lia.
Qed.

Lemma slice_head {A} j (a b : list A) : j = zlen a -> slice 0 j (a ++ b) = a.
Proof. intros. by apply (slice_mid 0 j []). Qed.

Lemma slice_tail {A} i j (a b : list A) :
  i = zlen a -> j = zlen (a ++ b) -> slice i j (a ++ b) = b.
Proof.
  intros -> ->. rewrite <- (app_nil_r b) at 2. apply slice_mid; [done | apply zlen_app].
Qed.

Lemma zlen_cons {A} (x : A) l : zlen (x :: l) = 1 + zlen l.
Proof. len_lia. Qed.

(** A list without a character, or split at its first occurrence. *)
Lemma first_split (c : ascii) (l : bytes) :
  (c ∉ l) \/ exists a b, l = a ++ c :: b /\ (c ∉ a).
Proof.
  destruct (decide (c ∈ l)) as [H|H]; [right | by left].
  by apply list_elem_of_split_l in H.
Qed.

(** A range splits at any point inside it. *)
Lemma slice_split {A} i j k (l : list A) :
  0 <= i -> i <= j -> j <= k -> k <= zlen l ->
  slice i k l = slice i j l ++ slice j k l.
Proof.
  intros. unfold slice.
  replace (drop (Z.to_nat j) l) with (drop (Z.to_nat (j - i)) (drop (Z.to_nat i) l)).
  - rewrite take_take_drop. f_equal. len_lia.
  - rewrite drop_drop. f_equal. len_lia.
Qed.

Lemma slice_of_slice {A} i j a b (l : list A) :
  0 <= i -> 0 <= a -> a <= b -> b <= j - i ->
  slice a b (slice i j l) = slice (i + a) (i + b) l.
Proof.
  intros. unfold slice.
  rewrite skipn_firstn_comm, take_take, drop_drop. f_equal; [lia | f_equal; lia].
Qed.

Lemma take_slice {A} n i j (l : list A) :
  0 <= n -> n <= j - i -> take (Z.to_nat n) (slice i j l) = slice i (i + n) l.
Proof. intros. unfold slice. rewrite take_take. f_equal. lia. Qed.

Lemma slice_app_l {A} i j (l k : list A) :
  0 <= i -> i <= j -> j <= zlen l -> slice i j (l ++ k) = slice i j l.
Proof.
  intros. unfold slice. rewrite drop_app_le by len_lia.
  rewrite take_app_le by len_lia. done.
Qed.

Lemma slice_prefix {A} j (l : list A) : slice 0 j l = take (Z.to_nat j) l.
Proof. unfold slice. by rewrite Z.sub_0_r, drop_0. Qed.

Lemma write_at_Ok {A} i (d l : list A) :
  0 <= i -> i + zlen d <= zlen l ->
  write_at i d l = Ok (take (Z.to_nat i) l ++ d ++ drop (Z.to_nat (i + zlen d)) l).
Proof. intros. unfold write_at. by decide_bool. Qed.

Lemma write_at_inv {A} i (d l l' : list A) :
  write_at i d l = Ok l' ->
  0 <= i /\ i + zlen d <= zlen l /\
  l' = take (Z.to_nat i) l ++ d ++ drop (Z.to_nat (i + zlen d)) l.
Proof.
  unfold write_at. intros H. split_match; simplify_eq; reflect_bools; auto.
Qed.

Lemma write_at_zlen {A} i (d l l' : list A) :
  write_at i d l = Ok l' -> zlen l' = zlen l.
Proof. intros (?&?&->)%write_at_inv. len_lia. Qed.

(** Two adjacent writes are one. *)
Lemma write_at_app {A} i (a b l : list A) :
  0 <= i -> i + zlen a + zlen b <= zlen l ->
  (d ← write_at i a l; write_at (i + zlen a) b d) = write_at i (a ++ b) l.
Proof.
  intros Hi Hr. pose proof (zlen_nonneg a). pose proof (zlen_nonneg b).
  rewrite write_at_Ok by lia. simpl.
  rewrite !write_at_Ok; rewrite ?zlen_app; try len_lia. f_equal.
  set (p := take (Z.to_nat i) l). assert (length p = Z.to_nat i) as Hp by (unfold p; len_lia).
  rewrite (app_assoc p a). rewrite take_app_length' by len_lia.
  rewrite <- !app_assoc. do 3 f_equal. rewrite (app_assoc p a).
  rewrite drop_app_ge by len_lia. rewrite drop_drop. f_equal. len_lia.
Qed.

(** Reading below a write is unaffected by it. *)
Lemma slice_write_before {A} i j w (d l l' : list A) :
  write_at w d l = Ok l' -> 0 <= i -> i <= j -> j <= w ->
  slice i j l' = slice i j l.
Proof.
  intros (?&?&->)%write_at_inv ???.
  rewrite slice_app_l by len_lia. unfold slice.
  rewrite skipn_firstn_comm, take_take. f_equal. lia.
Qed.

Lemma slice_write_same {A} w (d l l' : list A) :
  write_at w d l = Ok l' -> slice w (w + zlen d) l' = d.
Proof.
  intros (?&?&->)%write_at_inv. unfold slice.
  rewrite drop_app_length' by len_lia. apply take_app_length'. len_lia.
Qed.

(** What a write at the end of a range appends to the range. *)
Lemma slice_write_append {A} r w (d l l' : list A) :
  write_at w d l = Ok l' -> 0 <= r -> r <= w ->
  slice r (w + zlen d) l' = slice r w l ++ d.
Proof.
  intros Hw ??. pose proof (write_at_inv _ _ _ _ Hw) as (?&?&_).
  pose proof (write_at_zlen _ _ _ _ Hw). pose proof (zlen_nonneg d).
  rewrite (slice_split r w) by lia.
  by rewrite (slice_write_before _ _ _ _ _ _ Hw), (slice_write_same _ _ _ _ Hw) by lia.
Qed.

Lemma resize_grow {A} (x : A) n (l : list A) :
  zlen l <= n -> resize x n l = l ++ replicate (Z.to_nat n - length l)%nat x.
Proof. intros. unfold resize. by rewrite take_ge by len_lia. Qed.

Lemma zlen_resize {A} (x : A) n (l : list A) : 0 <= n -> zlen (resize x n l) = n.
Proof. intros. unfold resize. len_lia. Qed.

Lemma slice_resize_grow {A} (x : A) i j n (l : list A) :
  0 <= i -> i <= j -> j <= zlen l -> zlen l <= n ->
  slice i j (resize x n l) = slice i j l.
Proof. intros. rewrite resize_grow by done. by apply slice_app_l. Qed.

#[export] Hint Resolve zlen_nonneg : muduo.
