(* ===== verification/CStd.v ===== *)
(** * CStd: the standard-library functions the server calls

    [std::find], [std::search], [isspace], [strncasecmp] and [std::to_string]
    on ranges of bytes, with the lemmas the parser, the response writer and
    the log stream share.  A range is a list; a pointer returned into it is
    the offset of its element, and the length of the list for its end. *)

From Stdlib Require Import ZArith Lia Ascii String.
From stdpp Require Import options.
From S2P Require Import Prelude.

(** ** Definitions *)

(** [std::find(first, last, c) - first] *)
Fixpoint find_char (c : ascii) (l : bytes) : nat :=
  match l with
  | [] => 0
  | x :: l' => if decide (x = c) then 0 else S (find_char c l')
  end%nat.

Fixpoint is_prefix (p l : bytes) : bool :=
  match p, l with
  | [], _ => true
  | _ :: _, [] => false
  | x :: p', y :: l' => bool_decide (x = y) && is_prefix p' l'
  end.

(** [std::search(first, last, p, p + |p|) - first] *)
Fixpoint search (p l : bytes) : nat :=
  match l with
  | [] => 0
  | _ :: l' => if is_prefix p l then 0 else S (search p l')
  end%nat.

(** [isspace] in the "C" locale: tab, newline, vertical tab, form feed,
    carriage return, space. *)
Definition isspace (c : ascii) : bool :=
  let n := nat_of_ascii c in ((9 <=? n) && (n <=? 13) || (n =? 32))%nat.

Definition tolower (c : ascii) : ascii :=
  let n := nat_of_ascii c in
  if ((65 <=? n) && (n <=? 90))%nat then ascii_of_nat (n + 32) else c.

(** [strncasecmp(a, b, n) == 0]; both arguments have at least [n] bytes. *)
Fixpoint strncaseeq (n : nat) (a b : bytes) : bool :=
  match n, a, b with
  | O, _, _ => true
  | S n', x :: a', y :: b' =>
      if decide (tolower x = tolower y)
      then (if decide (x = "000"%char) then true else strncaseeq n' a' b')
      else false
  | _, _, _ => false
  end.

(** The first line of the bytes and what follows its CR LF. *)
Definition cut_line (c : bytes) : option (bytes * bytes) :=
  let n := search CRLF c in
  if decide (n = length c) then None else Some (take n c, drop (n + 2) c).

Definition digit_char (d : Z) : ascii := ascii_of_nat (48 + Z.to_nat d).

Fixpoint dec_digits (fuel : nat) (n : Z) (acc : bytes) : bytes :=
  match fuel with
  | O => acc
  | S f => let acc' := digit_char (n mod 10) :: acc in
           if n / 10 =? 0 then acc' else dec_digits f (n / 10) acc'
  end.

(** Fuel: a number has at most one more decimal digit than its base-2
    logarithm. *)
Definition udec (n : Z) : bytes := dec_digits (S (Z.to_nat (Z.log2 n))) n [].

(** [std::to_string] on the integer types. *)
Definition to_string (z : Z) : bytes :=
  if z <? 0 then "-"%char :: udec (- z) else udec z.

#[global] Arguments to_string : simpl never.

(** The value of a string of decimal digits, the reference for the printers. *)
Definition digit_value (c : ascii) : Z := Z.of_nat (nat_of_ascii c) - 48.

Definition dec_value (l : bytes) : Z :=
  fold_left (fun v c => 10 * v + digit_value c) l 0.

Definition read_dec (l : bytes) : Z :=
  match l with
  | c :: l' => if decide (c = "-"%char) then - dec_value l' else dec_value l
  | [] => 0
  end.

Definition is_digit (c : ascii) : Prop := 0 <= digit_value c < 10.

(** ** Searching *)

Lemma find_char_le c l : (find_char c l <= length l)%nat.
Proof. induction l; simpl; [lia | case_decide; lia]. Qed.

Lemma find_char_app c a b : c ∉ a -> find_char c (a ++ c :: b) = length a.
Proof.
  induction a as [|x a IH]; intros Hn; simpl.
  - by rewrite decide_True.
  - apply not_elem_of_cons in Hn as [Hx Ha].
    rewrite decide_False by congruence. auto.
Qed.

Lemma find_char_notin c l : c ∉ l -> find_char c l = length l.
Proof.
  induction l as [|x l IH]; intros Hn; simpl; [done|].
  apply not_elem_of_cons in Hn as [Hx Hl].
  rewrite decide_False by congruence. auto.
Qed.

(** A position before the end holds the character, and splits the range. *)
Lemma find_char_lt c l :
  (find_char c l < length l)%nat ->
  l = take (find_char c l) l ++ c :: drop (S (find_char c l)) l /\
  c ∉ take (find_char c l) l.
Proof.
  induction l as [|x l IH]; simpl; intros H; [lia|].
  case_decide as E; subst; simpl; [split; [done | apply not_elem_of_nil] |].
  destruct IH as [IH1 IH2]; [lia|]. split; [by f_equal|].
  rewrite not_elem_of_cons. split; [congruence | done].
Qed.

Lemma is_prefix_app p l : is_prefix p (p ++ l) = true.
Proof.
  induction p; simpl; [done|]. by rewrite bool_decide_true.
Qed.

Lemma is_prefix_spec p l : is_prefix p l = true <-> exists k, l = p ++ k.
Proof.
  split.
  - revert l. induction p as [|x p IH]; intros l; simpl; [eauto|].
    destruct l; [done|]. intros H. reflect_bools.
    destruct (IH _ ltac:(eassumption)) as [k ->].
    exists k. f_equal. by apply bool_decide_eq_true in H.
  - intros [k ->]. apply is_prefix_app.
Qed.

Lemma search_le p l : (search p l <= length l)%nat.
Proof. induction l; simpl; [lia | destruct (is_prefix _ _); lia]. Qed.

(** When the search succeeds the pattern stands at the position. *)
Lemma search_found p l :
  (search p l < length l)%nat ->
  l = take (search p l) l ++ p ++ drop (search p l + length p) l.
Proof.
  induction l as [|x l IH]; simpl; intros H; [lia|].
  destruct (is_prefix p (x :: l)) eqn:E.
  - apply is_prefix_spec in E as [k E]. rewrite E. simpl.
    by rewrite drop_app_length.
  - simpl. f_equal. apply IH. lia.
Qed.

(** Appending data does not move a match that was already there. *)
Lemma search_app_found p l k :
  (search p l < length l)%nat -> search p (l ++ k) = search p l.
Proof.
  induction l as [|x l IH]; simpl; intros H; [lia|].
  destruct (is_prefix p (x :: l)) eqn:E.
  - apply is_prefix_spec in E as [k' E].
    rewrite app_comm_cons, E, <- app_assoc, is_prefix_app. done.
  - destruct (is_prefix p (x :: l ++ k)) eqn:E'; [|f_equal; apply IH; lia].
    exfalso. apply is_prefix_spec in E' as [k' E'].
    assert (length p <= length (x :: l))%nat as Hp.
    { pose proof (search_found p l ltac:(lia)) as Hs.
      apply (f_equal length) in Hs. rewrite !length_app in Hs. simpl. lia. }
    apply not_true_iff_false in E. apply E, is_prefix_spec.
    exists (drop (length p) (x :: l)).
    rewrite <- (take_drop (length p) (x :: l)) at 1. f_equal.
    rewrite <- (take_app_le (x :: l) k) by done. simpl app. rewrite E'.
    by rewrite take_app_length.
Qed.

(** ** Lines *)

Lemma cut_line_spec c line rest :
  cut_line c = Some (line, rest) -> c = line ++ CRLF ++ rest.
Proof.
  unfold cut_line. case_decide as E; [done|]. intros. simplify_eq.
  apply search_found. pose proof (search_le CRLF c). lia.
Qed.

Lemma cut_line_length c line rest :
  cut_line c = Some (line, rest) -> (length rest < length c)%nat.
Proof. intros ->%cut_line_spec. rewrite !length_app. simpl. lia. Qed.

Lemma cut_line_app c line rest k :
  cut_line c = Some (line, rest) -> cut_line (c ++ k) = Some (line, rest ++ k).
Proof.
  intros H. pose proof (cut_line_spec _ _ _ H) as Hc. revert H.
  unfold cut_line. case_decide as E; [done|]. intros [= <- <-].
  pose proof (search_le CRLF c) as Hle.
  rewrite search_app_found by lia.
  assert (search CRLF c + 2 <= length c)%nat.
  { apply (f_equal length) in Hc. revert Hc. rewrite !length_app, length_take, length_drop. simpl. lia. }
  rewrite decide_False by (rewrite length_app; lia).
  rewrite take_app_le, drop_app_le by lia. done.
Qed.

(** The line rendered in front of the bytes is the line cut off. *)
Lemma search_crlf_app line rest : CR ∉ line -> search CRLF (line ++ CRLF ++ rest) = length line.
Proof.
  intros Hn. induction line as [|x line IH]; simpl; [done|].
  apply not_elem_of_cons in Hn as [Hx Hl].
  rewrite (bool_decide_eq_false_2 (CR = x)) by congruence. simpl. f_equal. by apply IH.
Qed.

Lemma cut_line_app_crlf line rest :
  CR ∉ line -> cut_line (line ++ CRLF ++ rest) = Some (line, rest).
Proof.
  intros Hn. unfold cut_line. rewrite search_crlf_app by done.
  rewrite decide_False by (rewrite !length_app; simpl; lia).
  rewrite take_app_length. f_equal. f_equal. rewrite app_assoc.
  apply drop_app_length'. rewrite length_app. done.
Qed.

(** ** Decimal numbers *)

Lemma digit_char_value d : 0 <= d < 10 -> digit_value (digit_char d) = d.
Proof.
  intros. unfold digit_value, digit_char. rewrite nat_ascii_embedding; lia.
Qed.

Lemma digit_char_is_digit d : 0 <= d < 10 -> is_digit (digit_char d).
Proof. intros. unfold is_digit. by rewrite digit_char_value. Qed.

Lemma dec_value_app a b :
  dec_value (a ++ b) = dec_value a * 10 ^ zlen b + dec_value b.
Proof.
  unfold dec_value. rewrite fold_left_app. generalize (fold_left (fun v c => 10 * v + digit_value c) a 0).
  induction b as [|c b IH] using rev_ind; intros v; simpl.
  - change (zlen (@nil ascii)) with 0. lia.
  - rewrite !fold_left_app. simpl. rewrite IH, zlen_app.
    change (zlen [c]) with 1. rewrite Z.pow_add_r by auto using zlen_nonneg with lia. lia.
Qed.

Lemma dec_digits_value fuel n acc :
  0 <= n -> n < 2 ^ Z.of_nat fuel -> (0 < fuel)%nat ->
  dec_value (dec_digits fuel n acc) = n * 10 ^ zlen acc + dec_value acc.
Proof.
  revert n acc. induction fuel as [|f IH]; intros n acc Hn Hf Hpos; [lia|]. simpl.
  pose proof (Z.mod_pos_bound n 10 ltac:(lia)) as Hm.
  pose proof (Z.div_mod n 10 ltac:(lia)) as Hd.
  assert (dec_value (digit_char (n mod 10) :: acc)
          = (n mod 10) * 10 ^ zlen acc + dec_value acc) as Hc.
  { rewrite (dec_value_app [digit_char (n mod 10)] acc : dec_value (_ :: _) = _).
    unfold dec_value at 1. simpl. rewrite digit_char_value by lia. f_equal. }
  destruct (Z.eqb_spec (n / 10) 0) as [E|E].
  - rewrite Hc. f_equal. f_equal. lia.
  - assert (2 ^ Z.of_nat (S f) = 2 * 2 ^ Z.of_nat f) as Hpow
      by (rewrite Nat2Z.inj_succ, Z.pow_succ_r; lia).
    assert (1 <= n / 10) by (pose proof (Z.div_pos n 10); lia).
    assert (n / 10 < 2 ^ Z.of_nat f) by lia.
    rewrite IH.
    + rewrite Hc. change (zlen (?x :: acc)) with (zlen ([x] ++ acc)).
      rewrite zlen_app. change (zlen [_]) with 1.
      rewrite Z.pow_add_r by auto using zlen_nonneg with lia. lia.
    + lia.
    + done.
    + destruct f; [simpl in *; lia | lia].
Qed.

Lemma udec_value n : 0 <= n -> dec_value (udec n) = n.
Proof.
  intros Hn. unfold udec. rewrite dec_digits_value.
  - change (zlen (@nil ascii)) with 0. unfold dec_value. simpl. lia.
  - done.
  - rewrite Nat2Z.inj_succ, Z2Nat.id by apply Z.log2_nonneg.
    destruct (Z.eq_dec n 0) as [->|]; [done|]. apply Z.log2_spec. lia.
  - lia.
Qed.

Lemma dec_digits_is_digit fuel n acc :
  Forall is_digit acc -> Forall is_digit (dec_digits fuel n acc).
Proof.
  revert n acc. induction fuel as [|f IH]; intros n acc H; simpl; [done|].
  assert (Forall is_digit (digit_char (n mod 10) :: acc)).
  { constructor; [|done]. apply digit_char_is_digit, Z.mod_pos_bound. lia. }
  split_match; auto.
Qed.

Lemma udec_is_digit n : Forall is_digit (udec n).
Proof. apply dec_digits_is_digit. constructor. Qed.

Lemma dec_digits_nonempty fuel n acc : (0 < fuel)%nat -> dec_digits fuel n acc <> [].
Proof.
  revert n acc. induction fuel as [|f IH]; intros n acc H; simpl; [lia|].
  split_match; [done|]. destruct f; [done | apply IH; lia].
Qed.

Lemma dec_digits_length fuel n acc w :
  0 <= n < 10 ^ Z.of_nat w -> (0 < w)%nat ->
  (length (dec_digits fuel n acc) <= w + length acc)%nat.
Proof.
  revert n acc w. induction fuel as [|f IH]; intros n acc w Hn Hw; simpl; [lia|].
  destruct (Z.eqb_spec (n / 10) 0); [simpl; lia|].
  destruct w as [|w]; [lia|].
  rewrite Nat2Z.inj_succ, Z.pow_succ_r in Hn by lia.
  assert (1 <= n / 10) by (pose proof (Z.div_pos n 10); lia).
  assert (n / 10 < 10 ^ Z.of_nat w) by (apply Z.div_lt_upper_bound; lia).
  destruct w as [|w]; [simpl in *; lia|].
  etrans; [apply (IH _ _ (S w)); lia | simpl; lia].
Qed.

Lemma udec_length w n :
  0 <= n < 10 ^ Z.of_nat w -> (0 < w)%nat -> (length (udec n) <= w)%nat.
Proof.
  intros. unfold udec. etrans; [by apply (dec_digits_length _ _ _ w)|]. simpl. lia.
Qed.

Lemma dec_digits_acc fuel n acc : dec_digits fuel n acc = dec_digits fuel n [] ++ acc.
Proof.
  revert n acc. induction fuel as [|f IH]; intros n acc; simpl; [done|].
  destruct (n / 10 =? 0); [done|]. rewrite IH, (IH _ [_]), <- app_assoc. done.
Qed.

(** Halving bounds the quotient by ten. *)
Lemma div10_lt n m : 0 <= n < 2 ^ Z.of_nat (S m) -> 0 <= n / 10 < 2 ^ Z.of_nat m.
Proof.
  rewrite Nat2Z.inj_succ, Z.pow_succ_r by lia. intros. split; [apply Z.div_pos; lia|].
  apply Z.div_lt_upper_bound; lia.
Qed.

Lemma dec_digits_fuel f1 f2 n :
  0 <= n < 2 ^ Z.of_nat f1 -> 0 <= n < 2 ^ Z.of_nat f2 -> (0 < f1)%nat -> (0 < f2)%nat ->
  dec_digits f1 n [] = dec_digits f2 n [].
Proof.
  revert f2 n. induction f1 as [|f1 IH]; intros [|f2] n H1 H2 P1 P2; try lia. simpl.
  destruct (Z.eqb_spec (n / 10) 0) as [|E]; [done|].
  apply div10_lt in H1, H2.
  rewrite (dec_digits_acc f1), (dec_digits_acc f2). f_equal. apply IH; try done.
  - destruct f1; [simpl in *; lia | lia].
  - destruct f2; [simpl in *; lia | lia].
Qed.

Lemma log2_fuel n : 0 <= n -> n < 2 ^ Z.of_nat (S (Z.to_nat (Z.log2 n))).
Proof.
  intros Hn. rewrite Nat2Z.inj_succ, Z2Nat.id by apply Z.log2_nonneg.
  destruct (Z.eq_dec n 0) as [->|]; [done|]. apply Z.log2_spec. lia.
Qed.

(** The last digit, and the digits before it. *)
Lemma udec_step n :
  0 <= n ->
  udec n = (if n / 10 =? 0 then [] else udec (n / 10)) ++ [digit_char (n mod 10)].
Proof.
  intros Hn. unfold udec at 1. simpl. destruct (Z.eqb_spec (n / 10) 0) as [|E]; [done|].
  rewrite dec_digits_acc. f_equal. pose proof (div10_lt n _ (conj Hn (log2_fuel n Hn))) as Hd.
  apply dec_digits_fuel; [done | split; [tauto|] | | lia].
  - apply log2_fuel. tauto.
  - destruct (Z.to_nat (Z.log2 n)); [simpl in *; lia | lia].
Qed.

Lemma dec_value_bound l : Forall is_digit l -> 0 <= dec_value l < 10 ^ zlen l.
Proof.
  intros Hl. induction l as [|c l IH] using rev_ind; [done|].
  apply Forall_app in Hl as [Hl Hc]. inversion_clear Hc as [|?? Hd].
  rewrite dec_value_app, zlen_app. change (zlen [c]) with 1.
  rewrite Z.pow_add_r by auto using zlen_nonneg with lia.
  specialize (IH Hl). unfold is_digit in Hd.
  change (dec_value [c]) with (10 * 0 + digit_value c). lia.
Qed.

Lemma dec_value_zeros n l : dec_value (replicate n "0"%char ++ l) = dec_value l.
Proof.
  rewrite dec_value_app.
  assert (dec_value (replicate n "0"%char) = 0) as ->; [|lia].
  induction n as [|n IH]; [done|]. rewrite replicate_S_end, dec_value_app, IH. done.
Qed.

(** Printing a number and reading it back gives the number. *)
Lemma read_dec_to_string z : read_dec (to_string z) = z.
Proof.
  unfold to_string. destruct (Z.ltb_spec z 0).
  - simpl. rewrite udec_value by lia. lia.
  - pose proof (udec_is_digit z) as Hd. pose proof (udec_value z ltac:(lia)) as Hv.
    destruct (udec z) as [|c l] eqn:E.
    { exfalso. unfold udec in E. by eapply dec_digits_nonempty in E; [|lia]. }
    unfold read_dec. rewrite decide_False; [done|].
    intros ->. inversion_clear Hd as [|?? Hc]. by destruct Hc.
Qed.

#[export] Hint Resolve find_char_le search_le : muduo.
