(* ===== verification/Buffer.v ===== *)
(** * Buffer: Net/buffer.h and Net/buffer.cpp

    The connection buffer: a [vector<char>] with a read index and a write
    index.  What it promises its clients is a queue of bytes, the range
    between the indices ([content]).  The theorems say when each operation
    keeps that promise; [append] does not in the branch that reuses the space
    in front of the read index, because the copy that should move the data
    there is commented out in the source. *)

From Stdlib Require Import ZArith Lia Ascii.
From stdpp Require Import options.
From S2P Require Import Prelude CStd.

Definition kPrePendIndex : Z := 8.
Definition kInitialSize : Z := 1024.

(** What [::readv] returns: an errno, or the bytes it stored, in order, in
    the two blocks it was given. *)
Inductive readv_result :=
| ReadvErr (errno : Z)
| ReadvOk (data : bytes).

Module Buf.

Record Buffer := mkBuffer {
  m_buffer : bytes;
  m_read_index : Z;
  m_write_index : Z
}.

(** ** Operations *)

Definition new (init_buffer_size : Z) : Buffer :=
  {| m_buffer := replicate (Z.to_nat init_buffer_size) "000"%char;
     m_read_index := 0; m_write_index := 0 |}.

Definition readableBytes (b : Buffer) : Z := m_write_index b - m_read_index b.
Definition writeableBytes (b : Buffer) : Z := zlen (m_buffer b) - m_write_index b.
Definition prependableBytes (b : Buffer) : Z := m_read_index b.

(** Pointers are offsets from [begin()]. *)
Definition curReadPtr (b : Buffer) : Z := m_read_index b.
Definition curWritePtr (b : Buffer) : Z := m_write_index b.
Definition peek (b : Buffer) : Z := curReadPtr b.

(** The indices are [std::atomic<int>], whose [+=] wraps. *)
Definition moveReadIndex (len : Z) (b : Buffer) : Buffer :=
  {| m_buffer := m_buffer b; m_read_index := wrap32 (m_read_index b + len);
     m_write_index := m_write_index b |}.
Definition moveWriteIndex (len : Z) (b : Buffer) : Buffer :=
  {| m_buffer := m_buffer b; m_read_index := m_read_index b;
     m_write_index := wrap32 (m_write_index b + len) |}.

Definition retrieveAll (b : Buffer) : Buffer :=
  {| m_buffer := m_buffer b; m_read_index := kPrePendIndex;
     m_write_index := kPrePendIndex |}.

Definition retrieve (len : Z) (b : Buffer) : res Buffer :=
  _ ← assert_ (len <=? readableBytes b);
  if len <? readableBytes b then Ok (moveReadIndex len b)
  else Ok (retrieveAll b).

Definition retrieveUntilIndex (index : Z) (b : Buffer) : res Buffer :=
  _ ← assert_ (curReadPtr b <=? index);
  _ ← assert_ (index <=? curWritePtr b);
  retrieve (index - curReadPtr b) b.

(** The second branch sets the indices and moves no data. *)
Definition ensureWriteableBytes (len : Z) (b : Buffer) : res Buffer :=
  if len <=? writeableBytes b then Ok b
  else
    free ← int_op (writeableBytes b + prependableBytes b);
    need ← int_op (len + kPrePendIndex);
    if need <=? free then
      w ← int_op (kPrePendIndex + readableBytes b);
      Ok {| m_buffer := m_buffer b; m_read_index := kPrePendIndex;
            m_write_index := w |}
    else
      n ← int_op (m_write_index b + len);
      if n <? 0 then Fault Exited
      else Ok {| m_buffer := resize "000"%char n (m_buffer b);
                 m_read_index := m_read_index b;
                 m_write_index := m_write_index b |}.

(** [append(const char* data, int len)] *)
Definition append (data : bytes) (len : Z) (b : Buffer) : res Buffer :=
  b1 ← ensureWriteableBytes len b;
  if (len <? 0) || (zlen data <? len) then Fault Undefined
  else
    mem ← write_at (curWritePtr b1) (take (Z.to_nat len) data) (m_buffer b1);
    Ok (moveWriteIndex len
          {| m_buffer := mem; m_read_index := m_read_index b1;
             m_write_index := m_write_index b1 |}).

(** [append(const string& msg)], and [append(const char* msg)] on the bytes
    before the terminator. *)
Definition append_string (msg : bytes) (b : Buffer) : res Buffer :=
  append msg (wrap32 (zlen msg)) b.

(** [findCRLF]: the offset of the first CR LF of the readable range. *)
Definition findCRLF (b : Buffer) : option Z :=
  let range := slice (curReadPtr b) (curWritePtr b) (m_buffer b) in
  let crlf := curReadPtr b + Z.of_nat (search CRLF range) in
  if crlf =? curWritePtr b then None else Some crlf.

Definition retrieveAllAsString (b : Buffer) : bytes * Buffer :=
  (slice (curReadPtr b) (curWritePtr b) (m_buffer b), retrieveAll b).

Definition extrabuf_size : Z := 64 * 1024.

(** [writeable < sizeof(extrabuf)] compares as [size_t]. *)
Definition iovcnt (b : Buffer) : Z :=
  if to_size_t (writeableBytes b) <? extrabuf_size then 2 else 1.

(** [readFd(int fd, int saved_err)]: the error number is stored in the
    by-value parameter, so the caller does not see it. *)
Definition readFd (rv : readv_result) (saved_err : Z) (b : Buffer) : res (Buffer * Z) :=
  let writeable := writeableBytes b in
  match rv with
  | ReadvErr errno => let _saved_err := errno in Ok (b, -1)
  | ReadvOk data =>
      let n := wrap32 (zlen data) in
      mem ← write_at (curWritePtr b) (take (Z.to_nat writeable) data) (m_buffer b);
      if n <=? writeable then
        Ok (moveWriteIndex n
              {| m_buffer := mem; m_read_index := m_read_index b;
                 m_write_index := m_write_index b |}, n)
      else
        b' ← append (drop (Z.to_nat writeable) data) (n - writeable)
               {| m_buffer := mem; m_read_index := m_read_index b;
                  m_write_index := wrap32 (zlen mem) |};
        Ok (b', n)
  end.

(** ** The queue the buffer implements *)

Definition content (b : Buffer) : bytes :=
  slice (m_read_index b) (m_write_index b) (m_buffer b).

(** The invariant: the indices are ordered and inside the block, the block
    holds the reserved prefix, and everything fits an [int]. *)
Record wf (b : Buffer) : Prop := {
  wf_read : 0 <= m_read_index b;
  wf_order : m_read_index b <= m_write_index b;
  wf_write : m_write_index b <= zlen (m_buffer b);
  wf_prepend : kPrePendIndex <= zlen (m_buffer b);
  wf_int : zlen (m_buffer b) <= INT_MAX
}.

(** The branch of [ensureWriteableBytes] that reuses the space before the
    read index. *)
Definition compacts (len : Z) (b : Buffer) : bool :=
  (writeableBytes b <? len) &&
  (len + kPrePendIndex <=? writeableBytes b + prependableBytes b).

(** What [::readv] documents: it stores at most the bytes the blocks hold. *)
Definition readv_fits (data : bytes) (b : Buffer) : Prop :=
  zlen data <= writeableBytes b + (if iovcnt b =? 2 then extrabuf_size else 0).

(** The operations clients perform, on the buffer and on the queue. *)
Inductive buf_op :=
| AppendOp (d : bytes)
| RetrieveOp (n : Z)
| RetrieveAllOp
| ReadFdOp (rv : readv_result).

Definition run_op (op : buf_op) (b : Buffer) : res Buffer :=
  match op with
  | AppendOp d => append_string d b
  | RetrieveOp n => retrieve n b
  | RetrieveAllOp => Ok (retrieveAll b)
  | ReadFdOp rv => '(b', _) ← readFd rv 0 b; Ok b'
  end.

Definition queue_op (op : buf_op) (q : bytes) : bytes :=
  match op with
  | AppendOp d | ReadFdOp (ReadvOk d) => q ++ d
  | RetrieveOp n => drop (Z.to_nat n) q
  | RetrieveAllOp => []
  | ReadFdOp (ReadvErr _) => q
  end.

(** When an operation is a queue operation: sizes stay in [int], a
    [retrieve] asks for at most what is there, [::readv] keeps its contract,
    and no data stands before a reused prefix. *)
Definition op_pre (op : buf_op) (b : Buffer) : Prop :=
  match op with
  | AppendOp d =>
      m_write_index b + zlen d + kPrePendIndex <= INT_MAX /\
      compacts (zlen d) b = false
  | RetrieveOp n => 0 <= n <= readableBytes b
  | RetrieveAllOp => True
  | ReadFdOp (ReadvErr _) => True
  | ReadFdOp (ReadvOk d) =>
      readv_fits d b /\ zlen (m_buffer b) + zlen d + kPrePendIndex <= INT_MAX /\
      m_read_index b <= kPrePendIndex
  end.

Fixpoint run_ops (ops : list buf_op) (b : Buffer) : res Buffer :=
  match ops with
  | [] => Ok b
  | op :: ops' => b' ← run_op op b; run_ops ops' b'
  end.

Fixpoint ops_pre (ops : list buf_op) (b : Buffer) : Prop :=
  match ops with
  | [] => True
  | op :: ops' => op_pre op b /\ forall b', run_op op b = Ok b' -> ops_pre ops' b'
  end.

(** ** Lemmas *)

Ltac unfold_buf :=
  simpl in *; unfold content, compacts, readableBytes, writeableBytes, prependableBytes,
    curReadPtr, curWritePtr, kPrePendIndex in *; simpl in *.

(** Opens the invariant of a buffer into its five inequalities. *)
Ltac open_wf :=
  repeat match goal with
    | H : wf _ |- _ => destruct H
    end; unfold_buf.

Lemma zlen_content b : wf b -> zlen (content b) = readableBytes b.
Proof. intros. open_wf. by apply zlen_slice. Qed.

Lemma readable_nonneg b : wf b -> 0 <= readableBytes b.
Proof. intros. open_wf. lia. Qed.

Lemma new_wf n : kPrePendIndex <= n <= INT_MAX -> wf (new n).
Proof. intros. unfold_buf. split; unfold_buf; len_lia. Qed.

Lemma new_content n : content (new n) = [].
Proof. done. Qed.

Lemma retrieveAll_wf b : wf b -> wf (retrieveAll b).
Proof. intros. open_wf. split; unfold_buf; lia. Qed.

Lemma retrieveAll_content b : content (retrieveAll b) = [].
Proof. apply slice_empty. Qed.

(** The growing and the roomy branch keep the data and make room. *)
Lemma ensureWriteableBytes_plain len b :
  wf b -> 0 <= len -> m_write_index b + len <= INT_MAX -> len + kPrePendIndex <= INT_MAX ->
  compacts len b = false ->
  exists b', ensureWriteableBytes len b = Ok b' /\ wf b' /\
    m_read_index b' = m_read_index b /\ m_write_index b' = m_write_index b /\
    content b' = content b /\ len <= writeableBytes b'.
Proof.
  intros Hwf Hlen Hint Hint8 Hc. unfold ensureWriteableBytes.
  destruct (Z.leb_spec len (writeableBytes b)) as [Hle|Hgt].
  { exists b. auto 10. }
  unfold compacts in Hc. apply andb_false_iff in Hc as [Hc|Hc]; reflect_bools; [lia|].
  open_wf. do 2 int_ok. decide_bool. int_ok. decide_bool.
  eexists; split; [done|].
  assert (zlen (resize "000"%char (m_write_index b + len) (m_buffer b))
          = m_write_index b + len) as Hz by (apply zlen_resize; lia).
  repeat split; unfold_buf; rewrite ?Hz; try lia.
  apply slice_resize_grow; lia.
Qed.

(** The reusing branch makes room too, but the readable range becomes
    whatever bytes stand at the front of the block. *)
Lemma ensureWriteableBytes_compacts len b :
  wf b -> len + kPrePendIndex <= INT_MAX -> compacts len b = true ->
  exists b', ensureWriteableBytes len b = Ok b' /\ wf b' /\
    content b' = slice kPrePendIndex (kPrePendIndex + readableBytes b) (m_buffer b) /\
    readableBytes b' = readableBytes b /\ len <= writeableBytes b' /\ m_read_index b' = kPrePendIndex.
Proof.
  intros Hwf Hint8 Hc. unfold ensureWriteableBytes.
  unfold compacts in Hc. reflect_bools. decide_bool.
  open_wf. do 2 int_ok. decide_bool. int_ok.
  eexists; split; [done|]. repeat split; unfold_buf; lia.
Qed.

(** Storing into the room that [ensureWriteableBytes] made. *)
Lemma append_after_ensure d b b1 :
  ensureWriteableBytes (zlen d) b = Ok b1 -> wf b1 -> zlen d <= writeableBytes b1 ->
  exists b', append d (zlen d) b = Ok b' /\ wf b' /\
    content b' = content b1 ++ d /\ m_read_index b' = m_read_index b1.
Proof.
  intros He Hwf Hroom. unfold append. rewrite He. simpl.
  pose proof (zlen_nonneg d).
  assert ((zlen d <? 0) || (zlen d <? zlen d) = false) as ->
    by (apply orb_false_iff; split; apply Z.ltb_ge; lia).
  replace (take (Z.to_nat (zlen d)) d) with d by (rewrite take_ge; [done | len_lia]).
  open_wf.
  destruct (write_at (m_write_index b1) d (m_buffer b1)) as [mem|] eqn:Hw.
  2: { rewrite write_at_Ok in Hw by lia. discriminate. }
  simpl. pose proof (write_at_zlen _ _ _ _ Hw) as Hz.
  assert (wrap32 (m_write_index b1 + zlen d) = m_write_index b1 + zlen d) as Hwr
    by (apply wrap32_id; zsimpl; lia).
  eexists; split; [done|]. unfold moveWriteIndex.
  repeat split; unfold_buf; rewrite ?Hz, ?Hwr; try lia.
  apply (slice_write_append _ _ _ _ _ Hw); lia.
Qed.

Lemma compacts_false_low len b :
  m_read_index b <= kPrePendIndex -> compacts len b = false.
Proof.
  intros. unfold_buf. apply andb_false_iff.
  destruct (Z.ltb_spec (zlen (m_buffer b) - m_write_index b) len); [right | by left].
  apply Z.leb_gt. lia.
Qed.

Lemma append_plain d b :
  wf b -> m_write_index b + zlen d <= INT_MAX -> zlen d + kPrePendIndex <= INT_MAX ->
  compacts (zlen d) b = false ->
  exists b', append d (zlen d) b = Ok b' /\ wf b' /\
    content b' = content b ++ d /\ m_read_index b' = m_read_index b.
Proof.
  intros Hwf Hi Hi8 Hc.
  destruct (ensureWriteableBytes_plain (zlen d) b) as (b1 & He & Hwf1 & Hr & Hw & Hcont & Hroom);
    auto using zlen_nonneg.
  destruct (append_after_ensure d b b1) as (b' & Ha & Hwf' & Hcont' & Hr'); auto.
  exists b'. rewrite Hcont', Hcont, Hr', Hr. auto.
Qed.

(** Either branch: the sizes of the outcome, and how far the write index moves. *)
Lemma append_any d b :
  wf b -> m_write_index b + zlen d <= INT_MAX -> zlen d + kPrePendIndex <= INT_MAX ->
  exists b', append d (zlen d) b = Ok b' /\ wf b' /\
    zlen (content b') = zlen (content b) + zlen d /\ m_write_index b' <= m_write_index b + zlen d.
Proof.
  intros Hwf Hi Hi8. pose proof (zlen_nonneg d).
  assert (exists b1, ensureWriteableBytes (zlen d) b = Ok b1 /\ wf b1 /\
    readableBytes b1 = readableBytes b /\ zlen d <= writeableBytes b1 /\
    m_read_index b1 <= m_read_index b) as (b1 & He & Hwf1 & Hr1 & Hroom & Hidx).
  { destruct (compacts (zlen d) b) eqn:Hc.
    - destruct (ensureWriteableBytes_compacts (zlen d) b) as (b1 & He & Hwf1 & _ & Hr & Hroom & Hidx); auto.
      exists b1. split_and!; [done..|]. unfold compacts in Hc. reflect_bools. unfold_buf. lia.
    - destruct (ensureWriteableBytes_plain (zlen d) b) as (b1 & He & Hwf1 & Hr & Hw & _ & Hroom); auto.
      exists b1. split_and!; [done.. | | done | lia]. unfold readableBytes. lia. }
  destruct (append_after_ensure d b b1) as (b' & Ha & Hwf' & Hc' & Hr'); auto.
  exists b'. split_and!; [done..| |].
  - rewrite Hc', zlen_app, !zlen_content by done. lia.
  - pose proof (zlen_content b' Hwf') as Hz. rewrite Hc', zlen_app, zlen_content in Hz by done.
    unfold readableBytes in *. lia.
Qed.

Lemma append_string_eq d b :
  zlen d <= INT_MAX -> append_string d b = append d (zlen d) b.
Proof.
  intros. unfold append_string. rewrite wrap32_id; [done|].
  pose proof (zlen_nonneg d). zsimpl; lia.
Qed.

Lemma retrieve_ok n b :
  wf b -> 0 <= n <= readableBytes b ->
  exists b', retrieve n b = Ok b' /\ wf b' /\
    content b' = drop (Z.to_nat n) (content b) /\ m_buffer b' = m_buffer b.
Proof.
  intros Hwf Hn. unfold retrieve.
  rewrite (proj2 (assert_Ok _)) by (apply Z.leb_le; lia). simpl.
  destruct (Z.ltb_spec n (readableBytes b)).
  - open_wf. eexists; split; [done|]. unfold moveReadIndex.
    assert (wrap32 (m_read_index b + n) = m_read_index b + n) as Hwr
      by (apply wrap32_id; zsimpl; lia).
    repeat split; unfold_buf; rewrite ?Hwr; try lia.
    rewrite (slice_split (m_read_index b) (m_read_index b + n)) by lia.
    rewrite drop_app_length'; [done|].
    pose proof (zlen_slice (m_read_index b) (m_read_index b + n) (m_buffer b)). len_lia.
  - eexists; split; [done|]. repeat split; try apply retrieveAll_wf; auto.
    rewrite retrieveAll_content. pose proof (zlen_content b Hwf).
    rewrite drop_ge; [done | len_lia].
Qed.

(** Retrieving moves indices only. *)
Lemma retrieveUntilIndex_block i b b' : retrieveUntilIndex i b = Ok b' -> m_buffer b' = m_buffer b.
Proof.
  unfold retrieveUntilIndex, retrieve. intros H. do 3 bind_inv H.
  destruct (_ <? _); by apply Ok_inj in H as <-.
Qed.

Lemma findCRLF_spec b :
  wf b ->
  findCRLF b = (if decide (search CRLF (content b) = length (content b)) then None
                else Some (m_read_index b + Z.of_nat (search CRLF (content b)))).
Proof.
  intros Hwf. pose proof (zlen_content b Hwf) as Hz. unfold findCRLF.
  fold (content b) in *. change (slice (curReadPtr b) (curWritePtr b) (m_buffer b)) with (content b).
  case_decide as E; unfold_buf; zsimpl.
  - rewrite (proj2 (Z.eqb_eq _ _)); [done | lia].
  - rewrite (proj2 (Z.eqb_neq _ _)); [done | lia].
Qed.

(** Storing [data] directly behind the readable range. *)
Lemma store_ok d b mem :
  wf b -> zlen d <= writeableBytes b -> write_at (m_write_index b) d (m_buffer b) = Ok mem ->
  let b' := moveWriteIndex (zlen d)
              {| m_buffer := mem; m_read_index := m_read_index b;
                 m_write_index := m_write_index b |} in
  wf b' /\ content b' = content b ++ d /\ m_read_index b' = m_read_index b.
Proof.
  intros Hwf Hroom Hw. pose proof (zlen_nonneg d). open_wf.
  pose proof (write_at_zlen _ _ _ _ Hw) as Hz.
  assert (wrap32 (m_write_index b + zlen d) = m_write_index b + zlen d) as Hwr
    by (apply wrap32_id; zsimpl; lia).
  repeat split; unfold_buf; rewrite ?Hz, ?Hwr; try lia.
  apply (slice_write_append _ _ _ _ _ Hw); lia.
Qed.

Lemma readFd_ok d e b :
  wf b -> readv_fits d b -> zlen (m_buffer b) + zlen d + kPrePendIndex <= INT_MAX ->
  m_read_index b <= kPrePendIndex ->
  exists b', readFd (ReadvOk d) e b = Ok (b', zlen d) /\ wf b' /\
    content b' = content b ++ d /\ m_read_index b' = m_read_index b.
Proof.
  intros Hwf Hfit Hint Hr. unfold readFd. pose proof (zlen_nonneg d).
  rewrite wrap32_id by (open_wf; zsimpl; lia).
  destruct (write_at (curWritePtr b) (take (Z.to_nat (writeableBytes b)) d) (m_buffer b))
    as [mem|] eqn:Hw.
  2: { rewrite write_at_Ok in Hw; [discriminate | open_wf; lia | open_wf; len_lia]. }
  simpl. destruct (Z.leb_spec (zlen d) (writeableBytes b)) as [Hle|Hgt].
  - rewrite take_ge in Hw by len_lia.
    destruct (store_ok d b mem) as (?&?&?); eauto 10.
  - destruct (store_ok (take (Z.to_nat (writeableBytes b)) d) b mem) as (Hwf1 & Hc1 & _); auto.
    { open_wf. len_lia. }
    assert (zlen (take (Z.to_nat (writeableBytes b)) d) = writeableBytes b) as Ht
      by (open_wf; len_lia).
    pose proof (write_at_zlen _ _ _ _ Hw) as Hz.
    assert (m_write_index b + writeableBytes b = zlen mem) as Hend by (open_wf; lia).
    unfold moveWriteIndex in Hwf1, Hc1; simpl in Hwf1, Hc1. rewrite Ht, Hend in Hwf1, Hc1.
    assert (zlen d - writeableBytes b = zlen (drop (Z.to_nat (writeableBytes b)) d)) as Hd
      by (open_wf; len_lia).
    rewrite Hd.
    destruct (append_plain (drop (Z.to_nat (writeableBytes b)) d) _ Hwf1)
      as (b' & Ha & Hwf' & Hc' & Hr').
    + simpl. rewrite wrap32_id by (open_wf; zsimpl; lia). rewrite <- Hd. open_wf. lia.
    + rewrite <- Hd. open_wf. lia.
    + by apply compacts_false_low.
    + rewrite Ha. simpl. eexists; split; [done|]. rewrite Hc', Hc1.
      rewrite <- app_assoc, take_drop. auto.
Qed.

Lemma run_op_ok op b :
  wf b -> op_pre op b ->
  exists b', run_op op b = Ok b' /\ wf b' /\ content b' = queue_op op (content b).
Proof.
  intros Hwf Hpre. destruct op as [d|n| |[e|d]]; cbn [run_op queue_op op_pre] in *.
  - destruct Hpre as [Hi Hc]. pose proof (zlen_nonneg d).
    rewrite append_string_eq by (open_wf; lia).
    destruct (append_plain d b) as (b' & Ha & Hwf' & Hcont & _); eauto;
      open_wf; lia.
  - destruct (retrieve_ok n b) as (b' & ?&?&?&_); eauto.
  - eauto using retrieveAll_wf, retrieveAll_content.
  - eauto.
  - destruct Hpre as (Hfit & Hi & Hr).
    destruct (readFd_ok d 0 b) as (b' & -> & Hwf' & Hcont & _); eauto.
Qed.

(** How large the block may become. *)
Lemma ensureWriteableBytes_size len b b1 :
  ensureWriteableBytes len b = Ok b1 ->
  zlen (m_buffer b1) <= Z.max (zlen (m_buffer b)) (m_write_index b + len).
Proof.
  unfold ensureWriteableBytes. intros H. destruct (_ <=? _); [apply Ok_inj in H as <-; lia|].
  bind_inv H. bind_inv H. destruct (_ <=? _).
  - bind_inv H. apply Ok_inj in H as <-. simpl. lia.
  - bind_inv H. destruct (Z.ltb_spec x1 0); [done|]. apply Ok_inj in H as <-. simpl.
    rewrite zlen_resize by done. unfold int_op in Hx1. destruct (in_int _); [|done].
    apply Ok_inj in Hx1 as <-. lia.
Qed.

Lemma append_size d len b b' :
  append d len b = Ok b' -> zlen (m_buffer b') <= Z.max (zlen (m_buffer b)) (m_write_index b + len).
Proof.
  unfold append. intros H. bind_inv H. destruct (_ || _); [done|]. bind_inv H.
  apply Ok_inj in H as <-. simpl. rewrite (write_at_zlen _ _ _ _ Hx0). by apply ensureWriteableBytes_size.
Qed.

(** The block grows only through the auxiliary block, by at most its size. *)
Lemma readFd_size d e b b' n :
  wf b -> readv_fits d b -> m_read_index b <= kPrePendIndex ->
  zlen (m_buffer b) + zlen d + kPrePendIndex <= INT_MAX ->
  readFd (ReadvOk d) e b = Ok (b', n) ->
  zlen (m_buffer b') <= Z.max (zlen (m_buffer b)) (2 * extrabuf_size + m_write_index b).
Proof.
  intros Hwf Hfit Hr Hint H. unfold readFd in H. pose proof (zlen_nonneg d).
  rewrite wrap32_id in H by (open_wf; zsimpl; lia). bind_inv H.
  pose proof (write_at_zlen _ _ _ _ Hx) as Hz.
  destruct (Z.leb_spec (zlen d) (writeableBytes b)) as [Hle|Hgt].
  { apply Ok_inj in H as [= <- <-]. unfold moveWriteIndex. simpl. lia. }
  unfold readv_fits, iovcnt in Hfit. rewrite to_size_t_id in Hfit by (open_wf; zsimpl; lia).
  destruct (Z.ltb_spec (writeableBytes b) extrabuf_size) as [Hsmall|]; [|simpl in Hfit; lia].
  simpl in Hfit. bind_inv H. apply Ok_inj in H as [= <- <-].
  apply append_size in Hx0. simpl in Hx0. rewrite wrap32_id in Hx0 by (open_wf; zsimpl; lia).
  open_wf. unfold extrabuf_size in *. lia.
Qed.

#[export] Hint Resolve new_wf retrieveAll_wf retrieveAll_content : muduo.

(** ** Properties *)

(** C11. The buffer implements a byte queue: any sequence of client operations
    that satisfies [op_pre] at each step runs to the end without a fault, keeps
    the index invariant, and the readable bytes are the queue after the
    sequence (append and [readFd] add at the end, [retrieve] drops at the
    front). *)
Theorem buffer_run_refines ops b :
  wf b -> ops_pre ops b ->
  exists b', run_ops ops b = Ok b' /\ wf b' /\
             content b' = fold_left (fun q op => queue_op op q) ops (content b).
Proof.
  revert b. induction ops as [|op ops IH]; simpl; intros b Hwf Hpre; [eauto|].
  destruct Hpre as [Hp Hrest].
  destruct (run_op_ok op b Hwf Hp) as (b' & Hr & Hwf' & Hc).
  rewrite Hr. simpl. rewrite <- Hc. eauto.
Qed.

Lemma buffer_run_refines_witness :
  exists b', run_ops [AppendOp (bs "abcd"); RetrieveOp 2; ReadFdOp (ReadvOk (bs "ef"))] (new 64)
             = Ok b' /\ wf b' /\ content b' = bs "cdef".
Proof.
  apply (buffer_run_refines
           [AppendOp (bs "abcd"); RetrieveOp 2; ReadFdOp (ReadvOk (bs "ef"))] (new 64)).
  - apply new_wf. vm_compute. split; congruence.
  - split; [vm_compute; split; congruence|]. intros b1 H1. vm_compute in H1. simplify_eq.
    split; [vm_compute; split; congruence|]. intros b2 H2. vm_compute in H2. simplify_eq.
    split; [vm_compute; repeat split; congruence|]. intros b3 H3. exact I.
Defined.

(** Where [append] reuses the space before the read index it does not
    move the data there: the pending bytes are replaced by the stale bytes at
    the front of the block. *)
Theorem append_reuse_stale d b :
  wf b -> zlen d + kPrePendIndex <= INT_MAX -> compacts (zlen d) b = true ->
  exists b', append d (zlen d) b = Ok b' /\ wf b' /\
    content b' = slice kPrePendIndex (kPrePendIndex + readableBytes b) (m_buffer b) ++ d.
Proof.
  intros Hwf Hi Hc.
  destruct (ensureWriteableBytes_compacts (zlen d) b) as (b1 & He & Hwf1 & Hc1 & _ & Hroom & _); auto.
  destruct (append_after_ensure d b b1) as (b' & Ha & Hwf' & Hc' & _); auto.
  rewrite <- Hc1. eauto.
Qed.

(** A buffer of ten pending bytes behind 990 consumed ones. *)
Definition reuse_example : Buffer :=
  {| m_buffer := replicate 990 "c"%char ++ bs "0123456789" ++ replicate 24 "000"%char;
     m_read_index := 990; m_write_index := 1000 |}.

Lemma append_reuse_stale_witness :
  run_ops [AppendOp (replicate 990 "c"%char ++ bs "0123456789"); RetrieveOp 990] (new 1024)
    = Ok reuse_example /\
  content reuse_example = bs "0123456789" /\
  exists b', append (replicate 600 "x"%char) (zlen (replicate 600 "x"%char)) reuse_example = Ok b'
    /\ wf b' /\ content b' = bs "cccccccccc" ++ replicate 600 "x"%char.
Proof.
  split; [vm_compute; reflexivity|]. split; [vm_compute; reflexivity|].
  apply (append_reuse_stale (replicate 600 "x"%char) reuse_example).
  - split; vm_compute; congruence.
  - vm_compute; congruence.
  - vm_compute; reflexivity.
Defined.

End Buf.
