(* ===== verification/HttpRequest.v ===== *)
(** * HttpRequest: Http/httprequest.h and Http/httprequest.cpp

    The parsed request: the request line, the header lines and the form of a
    POST body.  The pointer pairs of the source are the bytes between them;
    [std::find] over a pair gives an offset into them.  The theorems
    characterise exactly which request lines are accepted and what they set,
    what a header line stores, and what the form parser extracts. *)

From Stdlib Require Import ZArith Lia Ascii String.
From stdpp Require Import options.
From S2P Require Import Prelude CStd.

Module Request.

Inductive Method :=
| kGet | kPost | kHead | kPut | kDelete | kTrace | kOptions | kConnect | kPatch
| kInvalidMethod.

Inductive Version := kHttp10 | kHttp11 | kInvalidVersion.

#[global] Instance Method_eq_dec : EqDecision Method.
Proof. solve_decision. Defined.
#[global] Instance Version_eq_dec : EqDecision Version.
Proof. solve_decision. Defined.

Record HttpRequest := mkRequest {
  m_method : Method;
  m_version : Version;
  m_path : bytes;
  m_query : bytes;
  m_headers : gmap bytes bytes;
  m_post : gmap bytes bytes
}.

(** [HttpRequest()] *)
Definition new : HttpRequest :=
  {| m_method := kInvalidMethod; m_version := kInvalidVersion;
     m_path := []; m_query := []; m_headers := ∅; m_post := ∅ |}.

(** ** Setters *)

Definition stringToMethod (method : bytes) : Method :=
  if decide (method = bs "GET") then kGet
  else if decide (method = bs "POST") then kPost
  else if decide (method = bs "HEAD") then kHead
  else if decide (method = bs "PUT") then kPut
  else if decide (method = bs "DELETE") then kDelete
  else if decide (method = bs "TRACE") then kTrace
  else if decide (method = bs "OPTIONS") then kOptions
  else if decide (method = bs "CONNECT") then kConnect
  else if decide (method = bs "PATCH") then kPatch
  else kInvalidMethod.

Definition setMethod (s : bytes) (r : HttpRequest) : HttpRequest :=
  {| m_method := stringToMethod s; m_version := m_version r; m_path := m_path r;
     m_query := m_query r; m_headers := m_headers r; m_post := m_post r |}.

Definition setVersion (v : Version) (r : HttpRequest) : HttpRequest :=
  {| m_method := m_method r; m_version := v; m_path := m_path r;
     m_query := m_query r; m_headers := m_headers r; m_post := m_post r |}.

Definition setPath (s : bytes) (r : HttpRequest) : HttpRequest :=
  {| m_method := m_method r; m_version := m_version r; m_path := s;
     m_query := m_query r; m_headers := m_headers r; m_post := m_post r |}.

Definition setQuery (s : bytes) (r : HttpRequest) : HttpRequest :=
  {| m_method := m_method r; m_version := m_version r; m_path := m_path r;
     m_query := s; m_headers := m_headers r; m_post := m_post r |}.

Definition setHeader (f v : bytes) (r : HttpRequest) : HttpRequest :=
  {| m_method := m_method r; m_version := m_version r; m_path := m_path r;
     m_query := m_query r; m_headers := <[f := v]> (m_headers r); m_post := m_post r |}.

Definition setPost (f v : bytes) (r : HttpRequest) : HttpRequest :=
  {| m_method := m_method r; m_version := m_version r; m_path := m_path r;
     m_query := m_query r; m_headers := m_headers r; m_post := <[f := v]> (m_post r) |}.

(** [header(field)] returns a reference; when the field is absent it refers
    to the local [res], dead at the return, and reading it is undefined. *)
Definition header (field : bytes) (r : HttpRequest) : res bytes :=
  match m_headers r !! field with
  | Some v => Ok v
  | None => Fault Undefined
  end.

(** [swap(that)]: the two requests after the call. *)
Definition swap (r that : HttpRequest) : HttpRequest * HttpRequest :=
  ({| m_method := m_method that; m_version := m_version that; m_path := m_path that;
      m_query := m_query that; m_headers := m_headers that; m_post := m_post r |},
   {| m_method := m_method r; m_version := m_version r; m_path := m_path r;
      m_query := m_query r; m_headers := m_headers r; m_post := m_post that |}).

(** ** The request line *)

(** [std::find(start, end, c)] inside the line, as an offset. *)
Definition find_in (c : ascii) (start stop : Z) (line : bytes) : Z :=
  start + Z.of_nat (find_char c (slice start stop line)).

(** [parseRequestLine(start, end)] on the line [start, end): what it returns
    and the request it leaves, also when it fails. *)
Definition parseRequestLine (line : bytes) (r : HttpRequest) : bool * HttpRequest :=
  let stop := zlen line in
  let space := find_in " " 0 stop line in
  if space =? stop then (false, r)
  else
    let r := setMethod (slice 0 space line) r in
    if decide (m_method r = kInvalidMethod) then (false, r)
    else
      let path_start := space + 1 in
      let space := find_in " " path_start stop line in
      if space =? stop then (false, r)
      else
        let r := setPath (slice path_start space line) r in
        let query_start := find_in "?" path_start space line in
        let r :=
          if negb (query_start =? space)
          then setQuery (slice (query_start + 1) space line)
                 (setPath (slice path_start query_start line) r)
          else setPath (slice path_start space line) r in
        let version_start := space + 1 in
        let version := slice version_start stop line in
        if negb (stop - version_start =? 8) then (false, r)
        else if strncaseeq 8 version (bs "HTTP/1.1") then (true, setVersion kHttp11 r)
        else if strncaseeq 8 version (bs "HTTP/1.0") then (true, setVersion kHttp10 r)
        else (false, r).

(** ** Header lines *)

(** [while (colon < end && isspace( *colon)) ++colon] *)
Fixpoint skip_space (l : bytes) : bytes :=
  match l with
  | c :: l' => if isspace c then skip_space l' else l
  | [] => []
  end.

(** [while (!value.empty() && isspace(value[size - 1])) value.resize(size - 1)] *)
Definition strip_end (l : bytes) : bytes := rev (skip_space (rev l)).

(** [addHeader(start, colon, end)], [colon] an offset into the line. *)
Definition addHeader (line : bytes) (colon : Z) (r : HttpRequest) : HttpRequest :=
  let field := slice 0 colon line in
  let value := strip_end (skip_space (slice (colon + 1) (zlen line) line)) in
  setHeader field value r.

(** ** The form of a POST body *)

Definition is_sep (c : ascii) : bool :=
  bool_decide (c = "="%char) || bool_decide (c = "&"%char).

(** The longest prefix of field characters, and the rest. *)
Fixpoint span_field (l : bytes) : bytes * bytes :=
  match l with
  | c :: l' => if is_sep c then ([], l)
               else let '(a, b) := span_field l' in (c :: a, b)
  | [] => ([], [])
  end.

(** A match of the pattern (field characters, an equals sign, field
    characters) at the start of the text: the two groups and the suffix. *)
Definition match_here (l : bytes) : option (bytes * bytes * bytes) :=
  let '(k, rest) := span_field l in
  match rest with
  | c :: rest' =>
      if decide (c = "="%char) then let '(v, suffix) := span_field rest' in Some (k, v, suffix)
      else None
  | [] => None
  end.

(** [std::regex_search]: the leftmost match. *)
Fixpoint regex_search (l : bytes) : option (bytes * bytes * bytes) :=
  match match_here l with
  | Some m => Some m
  | None => match l with [] => None | _ :: l' => regex_search l' end
  end.

Fixpoint parsePost_loop (fuel : nat) (body : bytes) (r : HttpRequest) : res HttpRequest :=
  match fuel with
  | O => Fault OutOfFuel
  | S f =>
      match regex_search body with
      | None => Ok r
      | Some (k, v, suffix) => parsePost_loop f suffix (setPost k v r)
      end
  end.

(** Fuel: every match consumes at least its "=". *)
Definition parsePost (body : bytes) (r : HttpRequest) : res (bool * HttpRequest) :=
  r' ← parsePost_loop (S (length body)) body r; Ok (true, r').

Definition parseRequestBody (body : bytes) (r : HttpRequest) : res (bool * HttpRequest) :=
  if decide (m_method r = kPost) then parsePost body r else Ok (true, r).

(** ** What a request line means *)

Definition method_name (m : Method) : bytes :=
  match m with
  | kGet => bs "GET" | kPost => bs "POST" | kHead => bs "HEAD" | kPut => bs "PUT"
  | kDelete => bs "DELETE" | kTrace => bs "TRACE" | kOptions => bs "OPTIONS"
  | kConnect => bs "CONNECT" | kPatch => bs "PATCH" | kInvalidMethod => []
  end.

(** A request target: the path, with or without a query. *)
Inductive target := Target (path : bytes) (query : option bytes).

Definition target_bytes (t : target) : bytes :=
  match t with
  | Target p None => p
  | Target p (Some q) => p ++ "?"%char :: q
  end.

Definition target_ok (t : target) : Prop :=
  match t with
  | Target p q => (" "%char ∉ p) /\ ("?"%char ∉ p) /\ (" "%char ∉ default [] q)
  end.

Definition set_target (t : target) (r : HttpRequest) : HttpRequest :=
  match t with
  | Target p None => setPath p r
  | Target p (Some q) => setQuery q (setPath p r)
  end.

Definition version_bytes (v : bytes) (ver : Version) : Prop :=
  length v = 8%nat /\
  match ver with
  | kHttp11 => map tolower v = map tolower (bs "HTTP/1.1")
  | kHttp10 => map tolower v = map tolower (bs "HTTP/1.0")
  | kInvalidVersion => False
  end.

(** The grammar: METHOD SP path[?query] SP HTTP/1.x, the version in any case. *)
Inductive request_line : bytes -> Method -> target -> Version -> Prop :=
| RequestLine m t v ver :
    m <> kInvalidMethod -> target_ok t -> version_bytes v ver ->
    request_line (method_name m ++ " "%char :: target_bytes t ++ " "%char :: v) m t ver.

(** ** Lemmas: the request line *)

Lemma stringToMethod_name m : stringToMethod (method_name m) = m.
Proof. by destruct m. Qed.

Lemma stringToMethod_inv s : stringToMethod s <> kInvalidMethod -> s = method_name (stringToMethod s).
Proof. unfold stringToMethod. intros H. repeat case_decide; subst; done. Qed.

Lemma method_name_nospace m : " "%char ∉ method_name m.
Proof. apply (bool_decide_unpack _). by destruct m; vm_compute. Qed.

(** A search in a range that starts after [a] and ends before [c]. *)
Lemma find_in_app ch a b c d i j :
  ch ∉ b -> i = zlen a -> j = zlen a + zlen (b ++ ch :: c) ->
  find_in ch i j (a ++ (b ++ ch :: c) ++ d) = zlen a + zlen b.
Proof.
  intros Hn -> ->. unfold find_in. rewrite slice_mid by done.
  by rewrite find_char_app.
Qed.

Lemma find_in_start ch b c :
  ch ∉ b -> find_in ch 0 (zlen (b ++ ch :: c)) (b ++ ch :: c) = zlen b.
Proof.
  intros Hn. unfold find_in. rewrite slice_all. by rewrite find_char_app.
Qed.

Lemma find_in_notin ch a b d i j :
  ch ∉ b -> i = zlen a -> j = zlen a + zlen b ->
  find_in ch i j (a ++ b ++ d) = j.
Proof.
  intros Hn -> ->. unfold find_in. rewrite slice_mid by done.
  by rewrite find_char_notin.
Qed.

(** The target as the code cuts it: at the first question mark. *)
Definition cut_target (t : bytes) : target :=
  let n := find_char "?" t in
  if decide (n = length t) then Target t None
  else Target (take n t) (Some (drop (S n) t)).

Lemma cut_target_bytes t : target_bytes (cut_target t) = t.
Proof.
  unfold cut_target. case_decide as E; simpl; [done|].
  destruct (find_char_lt "?" t) as [H _]; [|by symmetry].
  pose proof (find_char_le "?" t). lia.
Qed.

Lemma cut_target_ok t : " "%char ∉ t -> target_ok (cut_target t).
Proof.
  intros Hs. unfold cut_target. case_decide as E; simpl.
  - split_and!; [done | | apply not_elem_of_nil].
    intros Hq. apply list_elem_of_split_l in Hq as (a & b & -> & Ha).
    rewrite find_char_app, length_app in E by done. simpl in E. lia.
  - pose proof (find_char_le "?" t).
    destruct (find_char_lt "?" t) as [H1 H2]; [lia|].
    rewrite H1, elem_of_app, elem_of_cons in Hs. tauto.
Qed.

Lemma cut_target_complete t : target_ok t -> cut_target (target_bytes t) = t.
Proof.
  destruct t as [p [q|]]; simpl; intros (Hs & Hq & Hs'); unfold cut_target.
  - rewrite find_char_app by done. rewrite decide_False by (rewrite length_app; simpl; lia).
    rewrite take_app_length, drop_app_ge by lia.
    replace (S (length p) - length p)%nat with 1%nat by lia. done.
  - rewrite find_char_notin by done. by rewrite decide_True.
Qed.

(** The last part of the function: the eight bytes of the version. *)
Definition finish_version (v : bytes) (r : HttpRequest) : bool * HttpRequest :=
  if negb (zlen v =? 8) then (false, r)
  else if strncaseeq 8 v (bs "HTTP/1.1") then (true, setVersion kHttp11 r)
  else if strncaseeq 8 v (bs "HTTP/1.0") then (true, setVersion kHttp10 r)
  else (false, r).

(** The cut of the target inside the line. *)
Lemma target_stage a t c i j r :
  i = zlen a -> j = zlen a + zlen t ->
  (let q := find_in "?" i j (a ++ t ++ c) in
   if negb (q =? j)
   then setQuery (slice (q + 1) j (a ++ t ++ c)) (setPath (slice i q (a ++ t ++ c)) r)
   else setPath (slice i j (a ++ t ++ c)) r) = set_target (cut_target t) r.
Proof.
  intros -> ->. unfold find_in. rewrite slice_mid by done.
  unfold cut_target. cbv zeta.
  destruct (first_split "?" t) as [Hn | (p & q & -> & Hp)].
  - rewrite find_char_notin by done. fold (zlen t). rewrite Z.eqb_refl. simpl.
    by rewrite decide_True.
  - rewrite find_char_app by done. fold (zlen p).
    pose proof (zlen_nonneg q).
    rewrite (proj2 (Z.eqb_neq _ _)) by (rewrite zlen_app, zlen_cons; lia).
    rewrite decide_False by (rewrite length_app; simpl; lia).
    rewrite take_app_length, drop_app_ge by lia.
    replace (S (length p) - length p)%nat with 1%nat by lia. simpl.
    f_equal; [|f_equal].
    + replace (a ++ (p ++ "?"%char :: q) ++ c) with ((a ++ p ++ ["?"%char]) ++ q ++ c)
        by (rewrite <- !app_assoc; done).
      apply slice_mid; len_lia.
    + rewrite <- app_assoc. by apply slice_mid.
Qed.

(** The function on a line cut at its first two spaces. *)
Lemma parseRequestLine_split m t v r :
  " "%char ∉ m -> " "%char ∉ t ->
  parseRequestLine (m ++ " "%char :: t ++ " "%char :: v) r =
  if decide (stringToMethod m = kInvalidMethod) then (false, setMethod m r)
  else finish_version v (set_target (cut_target t) (setMethod m r)).
Proof.
  intros Hm Ht. unfold parseRequestLine.
  set (line := m ++ " "%char :: t ++ " "%char :: v).
  assert (zlen line = zlen m + 1 + zlen t + 1 + zlen v) as Hlen.
  { unfold line. rewrite zlen_app, zlen_cons, zlen_app, zlen_cons. lia. }
  pose proof (zlen_nonneg m). pose proof (zlen_nonneg t). pose proof (zlen_nonneg v).
  assert (zlen (m ++ [" "%char]) = zlen m + 1) as Hz1 by (rewrite zlen_app; done).
  assert (line = (m ++ [" "%char]) ++ t ++ (" "%char :: v)) as Hl.
  { unfold line. by rewrite <- app_assoc. }
  assert (find_in " " 0 (zlen line) line = zlen m) as -> by (by apply find_in_start).
  rewrite (proj2 (Z.eqb_neq _ _)) by lia.
  replace (slice 0 (zlen m) line) with m
    by (symmetry; by apply slice_head).
  simpl m_method. case_decide; [done|].
  assert (find_in " " (zlen m + 1) (zlen line) line = zlen m + 1 + zlen t) as ->.
  { rewrite Hlen, Hl, <- (app_nil_r (t ++ _)).
    rewrite find_in_app; [by rewrite Hz1 | done | done |].
    rewrite Hz1, zlen_app, zlen_cons. lia. }
  rewrite (proj2 (Z.eqb_neq _ _)) by lia.
  replace (slice (zlen m + 1 + zlen t + 1) (zlen line) line) with v.
  2: { replace line with ((m ++ [" "%char] ++ t ++ [" "%char]) ++ v)
         by (unfold line; rewrite <- !app_assoc; done).
       symmetry. apply slice_tail; [len_lia | done]. }
  replace (zlen line - (zlen m + 1 + zlen t + 1)) with (zlen v) by lia.
  rewrite Hl. rewrite target_stage by lia.
  unfold finish_version. by destruct (cut_target t) as [p [q|]].
Qed.

(** A line with fewer than two spaces is refused. *)
Lemma parseRequestLine_no_space line r :
  " "%char ∉ line -> fst (parseRequestLine line r) = false.
Proof.
  intros Hn. unfold parseRequestLine.
  assert (find_in " " 0 (zlen line) line = zlen line) as ->; [|by rewrite Z.eqb_refl].
  rewrite <- (app_nil_r line) at 2. by apply (find_in_notin _ []).
Qed.

Lemma parseRequestLine_one_space m rest r :
  " "%char ∉ m -> " "%char ∉ rest ->
  fst (parseRequestLine (m ++ " "%char :: rest) r) = false.
Proof.
  intros Hm Hr. unfold parseRequestLine.
  set (line := m ++ " "%char :: rest).
  assert (zlen line = zlen m + 1 + zlen rest) as Hlen.
  { unfold line. rewrite zlen_app, zlen_cons. lia. }
  pose proof (zlen_nonneg rest).
  assert (find_in " " 0 (zlen line) line = zlen m) as -> by (by apply find_in_start).
  rewrite (proj2 (Z.eqb_neq _ _)) by lia.
  case_decide; [done|].
  assert (find_in " " (zlen m + 1) (zlen line) line = zlen line) as ->;
    [|by rewrite Z.eqb_refl].
  assert (line = (m ++ [" "%char]) ++ rest ++ []) as Hl.
  { unfold line. by rewrite app_nil_r, <- app_assoc. }
  rewrite Hlen, Hl. apply find_in_notin; [done | |];
    rewrite zlen_app; change (zlen [" "%char]) with 1; lia.
Qed.

Lemma tolower_nul x y :
  tolower x = tolower y -> y <> "000"%char -> x <> "000"%char.
Proof.
  intros H Hy ->. change (tolower "000") with "000"%char in H.
  unfold tolower in H. destruct (_ && _)%nat eqn:E; [|congruence].
  apply andb_true_iff in E as [E1%Nat.leb_le E2%Nat.leb_le].
  apply (f_equal nat_of_ascii) in H. rewrite nat_ascii_embedding in H by lia.
  change (nat_of_ascii "000") with 0%nat in H. lia.
Qed.

(** [strncasecmp] against a literal is equality up to case. *)
Lemma strncaseeq_spec n a b :
  length a = n -> length b = n -> Forall (fun c => c <> "000"%char) b ->
  strncaseeq n a b = true <-> map tolower a = map tolower b.
Proof.
  revert a b. induction n as [|n IH]; intros [|x a] [|y b] Ha Hb Hf;
    simplify_eq/=; [done|].
  inversion_clear Hf as [|?? Hy Hf']. case_decide as E.
  - rewrite decide_False by eauto using tolower_nul.
    rewrite IH by done. split; congruence.
  - split; [done | congruence].
Qed.

Lemma finish_version_true v r r' :
  finish_version v r = (true, r') <->
  exists ver, version_bytes v ver /\ r' = setVersion ver r.
Proof.
  unfold finish_version, version_bytes. destruct (Z.eqb_spec (zlen v) 8) as [E|E]; cbn [negb].
  2: { split; [done|]. intros (ver & [Hl _] & _). unfold zlen in E. lia. }
  assert (length v = 8%nat) as Hl by (unfold zlen in E; lia).
  pose proof (strncaseeq_spec 8 v (bs "HTTP/1.1") Hl eq_refl
                ltac:(repeat constructor; discriminate)) as H11.
  pose proof (strncaseeq_spec 8 v (bs "HTTP/1.0") Hl eq_refl
                ltac:(repeat constructor; discriminate)) as H10.
  split.
  - intros H. destruct (strncaseeq 8 v (bs "HTTP/1.1")); simplify_eq.
    { exists kHttp11. split_and!; [done | by apply H11 | done]. }
    destruct (strncaseeq 8 v (bs "HTTP/1.0")); simplify_eq.
    exists kHttp10. split_and!; [done | by apply H10 | done].
  - intros (ver & [_ Hv] & ->). destruct ver; [| |done].
    + rewrite (proj2 H10 Hv). destruct (strncaseeq 8 v (bs "HTTP/1.1")); [|done].
      rewrite (proj1 H11 eq_refl) in Hv. discriminate.
    + by rewrite (proj2 H11 Hv).
Qed.

Lemma parseRequestLine_iff line r r' :
  parseRequestLine line r = (true, r') <->
  exists m t ver, request_line line m t ver /\
    r' = setVersion ver (set_target t (setMethod (method_name m) r)).
Proof.
  split.
  - intros H. destruct (first_split " " line) as [Hn | (m & l & -> & Hm)].
    { by rewrite (surjective_pairing (parseRequestLine _ _)), parseRequestLine_no_space in H. }
    destruct (first_split " " l) as [Hn | (t & v & -> & Ht)].
    { by rewrite (surjective_pairing (parseRequestLine _ _)), parseRequestLine_one_space in H. }
    rewrite parseRequestLine_split in H by done. case_decide as Hv; [done|].
    apply finish_version_true in H as (ver & Hver & ->).
    exists (stringToMethod m), (cut_target t), ver. split.
    + rewrite (stringToMethod_inv m Hv) at 1. rewrite <- (cut_target_bytes t) at 1.
      constructor; auto using cut_target_ok.
    + by rewrite <- (stringToMethod_inv m Hv).
  - intros (m & t & ver & Hl & ->). inversion_clear Hl as [??? ? Hm Ht Hv].
    rewrite parseRequestLine_split.
    + rewrite stringToMethod_name, decide_False, cut_target_complete by done.
      apply finish_version_true. eauto.
    + apply method_name_nospace.
    + destruct t as [p [q|]]; simpl in *; destruct Ht as (?&?&?); [|done].
      rewrite elem_of_app, elem_of_cons. intros [?|[?|?]]; done.
Qed.

(** Accepted or not, a request line leaves headers and form alone. *)
Lemma parseRequestLine_frame line r :
  let r' := snd (parseRequestLine line r) in
  m_headers r' = m_headers r /\ m_post r' = m_post r.
Proof.
  unfold parseRequestLine. cbv zeta.
  repeat match goal with |- context [if ?b then _ else _] => destruct b end; done.
Qed.

(** ** Lemmas: header lines *)

Lemma skip_space_app s v :
  Forall (fun c => isspace c = true) s ->
  (forall c v', v = c :: v' -> isspace c = false) -> skip_space (s ++ v) = v.
Proof.
  intros Hs Hv. induction Hs as [|c s Hc Hs IH]; simpl.
  - destruct v as [|c v]; simpl; [done|]. by rewrite (Hv c v).
  - by rewrite Hc.
Qed.

Lemma skip_space_all s : Forall (fun c => isspace c = true) s -> skip_space s = [].
Proof. intros. rewrite <- (app_nil_r s). by apply skip_space_app. Qed.

(** A value without white space at either end. *)
Definition trimmed (v : bytes) : Prop :=
  (forall c v', v = c :: v' -> isspace c = false) /\
  (forall c v', v = v' ++ [c] -> isspace c = false).

Lemma strip_end_app v s :
  Forall (fun c => isspace c = true) s -> trimmed v -> strip_end (v ++ s) = v.
Proof.
  intros Hs [_ Hv]. unfold strip_end. rewrite rev_app_distr, skip_space_app.
  - apply rev_involutive.
  - by apply Forall_rev.
  - intros c v' E. apply (Hv c (rev v')). by rewrite <- (rev_involutive v), E.
Qed.

Lemma strip_skip_trim s1 v s2 :
  Forall (fun c => isspace c = true) s1 -> Forall (fun c => isspace c = true) s2 ->
  trimmed v -> strip_end (skip_space (s1 ++ v ++ s2)) = v.
Proof.
  intros H1 H2 Hv. destruct v as [|c v].
  - simpl. rewrite skip_space_all; [done|]. by apply Forall_app.
  - rewrite skip_space_app; [by apply strip_end_app | done|].
    intros c' v' E. simplify_eq/=. by eapply (proj1 Hv).
Qed.

Lemma addHeader_line f rest r :
  addHeader (f ++ ":"%char :: rest) (zlen f) r =
  setHeader f (strip_end (skip_space rest)) r.
Proof.
  unfold addHeader. rewrite slice_head by done.
  replace (f ++ ":"%char :: rest) with ((f ++ [":"%char]) ++ rest)
    by (rewrite <- app_assoc; done).
  rewrite slice_tail; [done | len_lia | done].
Qed.

(** ** Lemmas: the form *)

Lemma span_field_length l : (length (snd (span_field l)) <= length l)%nat.
Proof.
  induction l as [|c l IH]; simpl; [done|]. destruct (is_sep c); simpl; [done|].
  destruct (span_field l); simpl in *; lia.
Qed.

Lemma span_field_app a c l :
  Forall (fun x => is_sep x = false) a -> is_sep c = true ->
  span_field (a ++ c :: l) = (a, c :: l).
Proof.
  intros Ha Hc. induction Ha as [|x a Hx Ha IH]; simpl; [by rewrite Hc|].
  by rewrite Hx, IH.
Qed.

Lemma span_field_nosep a : Forall (fun x => is_sep x = false) a -> span_field a = (a, []).
Proof. intros Ha. induction Ha as [|x a Hx Ha IH]; simpl; [done|]. by rewrite Hx, IH. Qed.

Lemma match_here_length l k v s :
  match_here l = Some (k, v, s) -> (length s < length l)%nat.
Proof.
  unfold match_here. pose proof (span_field_length l) as H1.
  destruct (span_field l) as [k' [|c rest]]; [done|]. simpl in H1.
  case_decide; [|done]. pose proof (span_field_length rest) as H2.
  destruct (span_field rest). intros. simplify_eq/=. lia.
Qed.

Lemma regex_search_length l k v s :
  regex_search l = Some (k, v, s) -> (length s < length l)%nat.
Proof.
  induction l as [|c l IH]; [done|]. simpl regex_search.
  destruct (match_here (c :: l)) as [[[k' v'] s']|] eqn:E.
  - intros. simplify_eq. by eapply match_here_length.
  - intros H. apply IH in H. simpl. lia.
Qed.

Lemma parsePost_loop_ok fuel body r :
  (length body < fuel)%nat -> exists r', parsePost_loop fuel body r = Ok r'.
Proof.
  revert body r. induction fuel as [|f IH]; intros body r H; [lia|]. simpl.
  destruct (regex_search body) as [[[k v] s]|] eqn:E; [|eauto].
  apply IH. apply regex_search_length in E. lia.
Qed.

(** More fuel than the text needs gives the same result. *)
Lemma parsePost_loop_fuel f1 f2 body r :
  (length body < f1)%nat -> (length body < f2)%nat ->
  parsePost_loop f1 body r = parsePost_loop f2 body r.
Proof.
  revert f2 body r. induction f1 as [|f1 IH]; intros [|f2] body r H1 H2; [lia..|].
  simpl. destruct (regex_search body) as [[[k v] s]|] eqn:E; [|done].
  apply regex_search_length in E. apply IH; lia.
Qed.

(** The encoding of a form, and the request it describes. *)
Fixpoint render_form (kvs : list (bytes * bytes)) : bytes :=
  match kvs with
  | [] => []
  | [(k, v)] => k ++ "="%char :: v
  | (k, v) :: kvs' => k ++ "="%char :: v ++ "&"%char :: render_form kvs'
  end.

Definition set_form (kvs : list (bytes * bytes)) (r : HttpRequest) : HttpRequest :=
  fold_left (fun r kv => setPost kv.1 kv.2 r) kvs r.

Definition field_ok (kv : bytes * bytes) : Prop :=
  Forall (fun c => is_sep c = false) kv.1 /\ Forall (fun c => is_sep c = false) kv.2.

(** The first pair of a form is the leftmost match. *)
Lemma regex_search_pair k v s :
  field_ok (k, v) -> s = [] \/ (exists s', s = "&"%char :: s') ->
  regex_search (k ++ "="%char :: v ++ s) = Some (k, v, s).
Proof.
  intros [Hk Hv] Hs. simpl in Hk, Hv.
  assert (match_here (k ++ "="%char :: v ++ s) = Some (k, v, s)) as Hm.
  { unfold match_here. rewrite span_field_app by done. simpl.
    destruct Hs as [-> | [s' ->]].
    - by rewrite app_nil_r, span_field_nosep.
    - by rewrite span_field_app. }
  by destruct k; simpl regex_search; simpl in Hm; rewrite Hm.
Qed.

Lemma parsePost_loop_amp fuel l r :
  (S (length l) < fuel)%nat ->
  parsePost_loop fuel ("&"%char :: l) r = parsePost_loop fuel l r.
Proof. destruct fuel; [lia | done]. Qed.

Lemma parsePost_loop_form kvs fuel r :
  Forall field_ok kvs -> (length (render_form kvs) < fuel)%nat ->
  parsePost_loop fuel (render_form kvs) r = Ok (set_form kvs r).
Proof.
  intros Hf. revert fuel r. induction Hf as [|[k v] kvs Hkv Hf IH]; intros fuel r Hl.
  { destruct fuel; [simpl in Hl; lia | done]. }
  assert (exists s, render_form ((k, v) :: kvs) = k ++ "="%char :: v ++ s /\
            ((s = [] /\ kvs = []) \/ s = "&"%char :: render_form kvs)) as (s & Hr & Hs).
  { destruct kvs as [|kv kvs]; [exists [] | exists ("&"%char :: render_form (kv :: kvs))];
      rewrite ?app_nil_r; auto. }
  rewrite Hr in *. rewrite length_app in Hl. simpl in Hl. rewrite length_app in Hl.
  destruct fuel as [|f]; [lia|]. simpl parsePost_loop.
  rewrite regex_search_pair; [|done | destruct Hs as [[-> _] | ->]; eauto].
  destruct Hs as [[-> ->] | ->]; simpl in Hl.
  - destruct f; [lia | done].
  - rewrite parsePost_loop_amp by lia. rewrite IH by lia. done.
Qed.

(** ** Properties *)

(** C22. [parseRequestLine] accepts exactly the request lines of the grammar
    (a known method, a target without spaces, HTTP/1.0 or HTTP/1.1 in any
    case), and then sets the method, the path, the query when the target has
    a question mark, and the version. *)
Theorem parseRequestLine_correct line r r' :
  parseRequestLine line r = (true, r') <->
  exists m t ver, request_line line m t ver /\
    r' = setVersion ver (set_target t (setMethod (method_name m) r)).
Proof. apply parseRequestLine_iff. Qed.

(** A header line "field: value" stores the value under the field, without
    the white space around it, and no other header changes; [header] then
    reads it back. *)
Theorem addHeader_roundtrip f s1 v s2 r :
  Forall (fun c => isspace c = true) s1 -> Forall (fun c => isspace c = true) s2 ->
  trimmed v ->
  let r' := addHeader (f ++ ":"%char :: s1 ++ v ++ s2) (zlen f) r in
  header f r' = Ok v /\ (forall g, g <> f -> header g r' = header g r) /\
  m_method r' = m_method r /\ m_path r' = m_path r /\ m_post r' = m_post r.
Proof.
  intros H1 H2 Hv. cbv zeta. rewrite addHeader_line, strip_skip_trim by done.
  unfold header; simpl. split_and!; try done.
  - by rewrite lookup_insert_eq.
  - intros g Hg. by rewrite lookup_insert_ne.
Qed.

Lemma addHeader_roundtrip_witness :
  let r' := addHeader (bs "Host" ++ ":"%char :: bs " " ++ bs "a b" ++ bs " ") (zlen (bs "Host")) new in
  header (bs "Host") r' = Ok (bs "a b") /\ (forall g, g <> bs "Host" -> header g r' = header g new) /\
  m_method r' = m_method new /\ m_path r' = m_path new /\ m_post r' = m_post new.
Proof.
  apply (addHeader_roundtrip (bs "Host") (bs " ") (bs "a b") (bs " ") new).
  - repeat constructor.
  - repeat constructor.
  - split; intros c v' E.
    + vm_compute in E. simplify_eq. reflexivity.
    + change (bs "a b") with (bs "a " ++ ["b"%char]) in E.
      apply app_inj_tail in E as [_ <-]. reflexivity.
Defined.

(** C40. The form parser reads back an encoded form: on the text
    k1=v1&...&kn=vn, with no separator inside a field, it terminates, reports
    success and stores exactly those pairs, a later pair overriding an earlier
    one with the same key. *)
Theorem parsePost_form kvs r :
  Forall field_ok kvs -> parsePost (render_form kvs) r = Ok (true, set_form kvs r).
Proof.
  intros Hf. unfold parsePost. rewrite parsePost_loop_form by (done || lia). done.
Qed.

Lemma parsePost_form_witness :
  parsePost (bs "a=1&b=&a=2") new =
  Ok (true, set_form [(bs "a", bs "1"); (bs "b", []); (bs "a", bs "2")] new).
Proof.
  apply (parsePost_form [(bs "a", bs "1"); (bs "b", []); (bs "a", bs "2")] new).
  repeat constructor.
Defined.

(** The form parser terminates on every body: the fuel of [parsePost] is
    enough on any text, it reports success, and nothing but the form
    changes. *)
Theorem parsePost_total body r :
  exists r', parsePost body r = Ok (true, r') /\
    m_method r' = m_method r /\ m_version r' = m_version r /\
    m_path r' = m_path r /\ m_query r' = m_query r /\ m_headers r' = m_headers r.
Proof.
  unfold parsePost. destruct (parsePost_loop_ok (S (length body)) body r) as [r' H]; [lia|].
  rewrite H. simpl. exists r'. split; [done|]. clear -H.
  revert H. generalize (S (length body)) as fuel. intros fuel.
  revert body r. induction fuel as [|f IH]; intros body r H; [done|]. simpl in H.
  destruct (regex_search body) as [[[k v] s]|]; simplify_eq; [|done].
  by apply IH in H.
Qed.

End Request.
