(* ===== verification/HttpRequestParser.v ===== *)
(** * HttpRequestParser: Http/httprequestparser.h, Http/httprequestparser.cpp
      and the parse states of Http/httpstate.h

    The state machine that takes complete lines off the connection's buffer
    and feeds them to the request.  [parse_bytes] is the same machine on the
    readable bytes alone; [parseContent] refines it.  The theorems: the loop
    terminates and never faults, it does not matter how the bytes are cut
    into calls, a rendered request is parsed back, and what the machine does
    after a complete request. *)

From Stdlib Require Import ZArith Lia Ascii String.
From stdpp Require Import options.
From S2P Require Import Prelude CStd Buffer HttpRequest.

Module Parser.
Import Request.

Inductive HttpRequestParseState :=
| kParseRequestLine
| kParseHeader
| kParseBody
| kParseGotCompleteRequest
| kParseErrno.

#[global] Instance ParseState_eq_dec : EqDecision HttpRequestParseState.
Proof. solve_decision. Defined.

Record HttpRequestParser := mkParser {
  m_request : HttpRequest;
  m_state : HttpRequestParseState
}.

(** [HttpRequestParser()] *)
Definition new : HttpRequestParser :=
  {| m_request := Request.new; m_state := kParseRequestLine |}.

Definition gotAll (p : HttpRequestParser) : bool :=
  bool_decide (m_state p = kParseGotCompleteRequest).

Definition getRequest (p : HttpRequestParser) : HttpRequest := m_request p.

(** [reset()]: swap with a default request; the second component of the swap
    is what [m_request] becomes. *)
Definition reset (p : HttpRequestParser) : HttpRequestParser :=
  {| m_request := snd (Request.swap Request.new (m_request p));
     m_state := kParseRequestLine |}.

(** The [switch] of [parseContent] on one line: the parser after it, and
    whether the case returns from the function. *)
Definition parse_line (line : bytes) (p : HttpRequestParser) : res (HttpRequestParser * bool) :=
  match m_state p with
  | kParseRequestLine =>
      let '(ok, r) := parseRequestLine line (m_request p) in
      if ok then Ok (mkParser r kParseHeader, false)
      else Ok (mkParser r kParseErrno, true)
  | kParseHeader =>
      let colon := find_in ":" 0 (zlen line) line in
      if decide (line = []) then Ok (mkParser (m_request p) kParseGotCompleteRequest, false)
      else if negb (colon =? zlen line)
      then Ok (mkParser (addHeader line colon (m_request p)) kParseHeader, false)
      else Ok (mkParser (m_request p) kParseErrno, true)
  | kParseBody =>
      if decide (line = []) then Ok (mkParser (m_request p) kParseGotCompleteRequest, true)
      else
        '(ok, r) ← parseRequestBody line (m_request p);
        if ok : bool then Ok (mkParser r kParseGotCompleteRequest, true)
        else Ok (mkParser r kParseErrno, true)
  | kParseGotCompleteRequest | kParseErrno =>
      Ok (mkParser (m_request p) kParseErrno, true)
  end.

(** The end of the loop body: a body that was read to the last byte is
    complete. *)
Definition end_of_line (readable : Z) (p : HttpRequestParser) : HttpRequestParser :=
  if (readable =? 0) && bool_decide (m_state p = kParseBody)
  then mkParser (m_request p) kParseGotCompleteRequest else p.

Fixpoint parseContent_loop (fuel : nat) (p : HttpRequestParser) (buffer : Buf.Buffer)
    : res (HttpRequestParser * Buf.Buffer) :=
  match fuel with
  | O => Fault OutOfFuel
  | S f =>
      if negb (0 <? Buf.readableBytes buffer) then Ok (p, buffer)
      else
        match Buf.findCRLF buffer with
        | None => Ok (p, buffer)
        | Some crlf =>
            let lineStart := Buf.curReadPtr buffer in
            buffer' ← Buf.retrieveUntilIndex (crlf + 2) buffer;
            let line := slice lineStart crlf (Buf.m_buffer buffer') in
            '(p', returns) ← parse_line line p;
            if returns : bool then Ok (p', buffer')
            else parseContent_loop f (end_of_line (Buf.readableBytes buffer') p') buffer'
        end
  end.

(** [parseContent(buffer)]; it returns [m_state] of the parser it leaves.
    Fuel: every iteration that goes on consumes a CR LF. *)
Definition parseContent (p : HttpRequestParser) (buffer : Buf.Buffer)
    : res (HttpRequestParser * Buf.Buffer) :=
  parseContent_loop (S (Z.to_nat (Buf.readableBytes buffer))) p buffer.

(** ** The machine on bytes *)

Fixpoint parse_bytes_loop (fuel : nat) (p : HttpRequestParser) (c : bytes)
    : res (HttpRequestParser * bytes) :=
  match fuel with
  | O => Fault OutOfFuel
  | S f =>
      match cut_line c with
      | None => Ok (p, c)
      | Some (line, rest) =>
          '(p', returns) ← parse_line line p;
          if returns : bool then Ok (p', rest)
          else parse_bytes_loop f (end_of_line (zlen rest) p') rest
      end
  end.

Definition parse_bytes (p : HttpRequestParser) (c : bytes) : res (HttpRequestParser * bytes) :=
  parse_bytes_loop (S (length c)) p c.

(** ** Lemmas *)

Lemma parse_line_ok line p : exists p' ret, parse_line line p = Ok (p', ret).
Proof.
  unfold parse_line. destruct (m_state p); eauto.
  - destruct (parseRequestLine line (m_request p)) as [[] ?]; eauto.
  - repeat case_decide; eauto. destruct (negb _); eauto.
  - case_decide; [eauto|]. unfold parseRequestBody. case_decide; simpl; [|eauto].
    destruct (parsePost_loop_ok (S (length line)) line (m_request p)) as [r Hr]; [lia|].
    unfold parsePost. rewrite Hr. simpl. eauto.
Qed.

Lemma parse_bytes_loop_ok fuel p c :
  (length c < fuel)%nat -> exists p' c', parse_bytes_loop fuel p c = Ok (p', c').
Proof.
  revert p c. induction fuel as [|f IH]; intros p c H; [lia|]. simpl.
  destruct (cut_line c) as [[line rest]|] eqn:E; [|eauto].
  apply cut_line_length in E.
  destruct (parse_line_ok line p) as (p' & [] & ->); simpl; [eauto|].
  apply IH. lia.
Qed.

Lemma parse_bytes_loop_fuel f1 f2 p c :
  (length c < f1)%nat -> (length c < f2)%nat ->
  parse_bytes_loop f1 p c = parse_bytes_loop f2 p c.
Proof.
  revert f2 p c. induction f1 as [|f1 IH]; intros [|f2] p c H1 H2; [lia..|]. simpl.
  destruct (cut_line c) as [[line rest]|] eqn:E; [|done].
  apply cut_line_length in E.
  destruct (parse_line line p) as [[p' []]|]; simpl; [done| |done].
  apply IH; lia.
Qed.

(** One unfolding of the machine, without fuel. *)
Lemma parse_bytes_unfold p c :
  parse_bytes p c =
  match cut_line c with
  | None => Ok (p, c)
  | Some (line, rest) =>
      '(p', returns) ← parse_line line p;
      if returns : bool then Ok (p', rest)
      else parse_bytes (end_of_line (zlen rest) p') rest
  end.
Proof.
  unfold parse_bytes at 1. simpl.
  destruct (cut_line c) as [[line rest]|] eqn:E; [|done].
  apply cut_line_length in E.
  destruct (parse_line line p) as [[p' []]|]; simpl; [done| |done].
  apply parse_bytes_loop_fuel; lia.
Qed.

(** Taking one line off the buffer. *)
Lemma take_line b line rest :
  Buf.wf b -> cut_line (Buf.content b) = Some (line, rest) ->
  exists crlf b', Buf.findCRLF b = Some crlf /\
    Buf.retrieveUntilIndex (crlf + 2) b = Ok b' /\ Buf.wf b' /\
    Buf.content b' = rest /\
    slice (Buf.curReadPtr b) crlf (Buf.m_buffer b') = line.
Proof.
  intros Hwf Hcut. pose proof (cut_line_spec _ _ _ Hcut) as Hc.
  pose proof (Buf.zlen_content b Hwf) as Hz.
  rewrite Buf.findCRLF_spec by done. revert Hcut. unfold cut_line.
  set (n := search CRLF (Buf.content b)) in *.
  case_decide as E; [done|]. intros [= <- <-].
  assert (Z.of_nat n + 2 <= Buf.readableBytes b) as Hn.
  { rewrite <- Hz. apply (f_equal length) in Hc. revert Hc.
    rewrite !length_app, length_take, length_drop. unfold zlen. simpl. lia. }
  destruct (Buf.retrieve_ok (Z.of_nat n + 2) b) as (b' & Hr & Hwf' & Hc' & Hm); [done|lia|].
  exists (Buf.m_read_index b + Z.of_nat n), b'. split; [done|]. split.
  { unfold Buf.retrieveUntilIndex, Buf.curReadPtr, Buf.curWritePtr.
    unfold Buf.readableBytes in Hn.
    rewrite (proj2 (assert_Ok _)) by (apply Z.leb_le; lia). simpl.
    rewrite (proj2 (assert_Ok _)) by (apply Z.leb_le; lia). simpl.
    rewrite <- Hr. f_equal. lia. }
  split; [done|]. split; [rewrite Hc'; f_equal; lia|].
  rewrite Hm. unfold Buf.content, Buf.curReadPtr, Buf.readableBytes in *.
  rewrite <- (Nat2Z.id n) at 2. rewrite take_slice; [done | lia | lia].
Qed.

Lemma no_line b : Buf.wf b -> cut_line (Buf.content b) = None -> Buf.findCRLF b = None.
Proof.
  intros Hwf. rewrite Buf.findCRLF_spec by done. unfold cut_line. by case_decide.
Qed.

Lemma parseContent_loop_refines fuel p b :
  Buf.wf b -> (length (Buf.content b) < fuel)%nat ->
  exists p' b', parseContent_loop fuel p b = Ok (p', b') /\ Buf.wf b' /\
    parse_bytes p (Buf.content b) = Ok (p', Buf.content b').
Proof.
  revert p b. induction fuel as [|f IH]; intros p b Hwf Hf; [lia|]. simpl.
  rewrite parse_bytes_unfold. pose proof (Buf.zlen_content b Hwf) as Hz.
  destruct (cut_line (Buf.content b)) as [[line rest]|] eqn:E.
  - pose proof (cut_line_length _ _ _ E) as Hl.
    rewrite (proj2 (Z.ltb_lt _ _)) by (unfold zlen in Hz; lia). simpl.
    destruct (take_line b line rest) as (crlf & b' & -> & -> & Hwf' & Hc & Hline); auto.
    simpl. rewrite Hline.
    destruct (parse_line_ok line p) as (p' & [] & ->); simpl.
    + rewrite <- Hc. eauto.
    + rewrite <- Hc, (Buf.zlen_content b' Hwf'). apply IH; [done|]. rewrite Hc. lia.
  - rewrite no_line by done. destruct (negb _); eauto.
Qed.

Lemma parseContent_spec p b :
  Buf.wf b ->
  exists p' b', parseContent p b = Ok (p', b') /\ Buf.wf b' /\
    parse_bytes p (Buf.content b) = Ok (p', Buf.content b').
Proof.
  intros Hwf. apply parseContent_loop_refines; [done|].
  pose proof (Buf.zlen_content b Hwf). unfold zlen in *. lia.
Qed.

(** The parser never enters the body state by itself, nor touches the form. *)
(** Parsing does not touch the block of the buffer. *)
Lemma parseContent_block p b p' b' : parseContent p b = Ok (p', b') -> Buf.m_buffer b' = Buf.m_buffer b.
Proof.
  unfold parseContent. generalize (S (Z.to_nat (Buf.readableBytes b))). intros fuel. revert p b.
  induction fuel as [|f IH]; intros p b H; simpl in H; [done|].
  destruct (negb _); [by apply Ok_inj in H as [= _ <-]|].
  destruct (Buf.findCRLF b) as [crlf|]; [|by apply Ok_inj in H as [= _ <-]].
  bind_inv H. apply Buf.retrieveUntilIndex_block in Hx. bind_inv H. destruct x0 as [p1 ret].
  destruct ret; [by apply Ok_inj in H as [= _ <-]|]. by rewrite (IH _ _ H).
Qed.

Lemma parse_line_no_body line p p' ret :
  m_state p <> kParseBody -> parse_line line p = Ok (p', ret) ->
  m_state p' <> kParseBody /\ m_post (m_request p') = m_post (m_request p).
Proof.
  unfold parse_line. intros Hb H.
  destruct (m_state p) eqn:Es; simplify_eq; try done.
  - pose proof (parseRequestLine_frame line (m_request p)) as [_ Hp].
    destruct (parseRequestLine line (m_request p)) as [[] r]; by simplify_eq.
  - case_decide; [by simplify_eq|]. destruct (negb _); by simplify_eq.
Qed.

Lemma end_of_line_id n p : m_state p <> kParseBody -> end_of_line n p = p.
Proof.
  intros. unfold end_of_line. by rewrite bool_decide_eq_false_2, andb_false_r.
Qed.

(** Outside the body state a case that returns is an error. *)
Lemma parse_line_returns line p p' :
  m_state p <> kParseBody -> parse_line line p = Ok (p', true) -> m_state p' = kParseErrno.
Proof.
  unfold parse_line. intros Hb H. destruct (m_state p); simplify_eq; try done.
  - destruct (parseRequestLine line (m_request p)) as [[] r]; by simplify_eq.
  - case_decide; [by simplify_eq|]. destruct (negb _); by simplify_eq.
Qed.

Lemma parse_bytes_no_body p c p' c' :
  m_state p <> kParseBody -> parse_bytes p c = Ok (p', c') ->
  m_state p' <> kParseBody /\ m_post (m_request p') = m_post (m_request p).
Proof.
  revert p. induction c as [c IH] using (induction_ltof1 _ length).
  intros p Hb. rewrite parse_bytes_unfold.
  destruct (cut_line c) as [[line rest]|] eqn:E; [|intros; by simplify_eq].
  apply cut_line_length in E.
  destruct (parse_line line p) as [[p1 ret]|] eqn:Ep; [|done]. simpl.
  apply parse_line_no_body in Ep as [Hb1 Hp1]; [|done].
  destruct ret; [intros; by simplify_eq|].
  rewrite end_of_line_id by done. intros H. apply IH in H as [??]; [|done|done].
  split; congruence.
Qed.

Lemma parse_bytes_app p c k p1 c1 :
  m_state p <> kParseBody -> parse_bytes p c = Ok (p1, c1) -> m_state p1 <> kParseErrno ->
  parse_bytes p (c ++ k) = parse_bytes p1 (c1 ++ k).
Proof.
  revert p. induction c as [c IH] using (induction_ltof1 _ length).
  intros p Hb. rewrite (parse_bytes_unfold p c).
  destruct (cut_line c) as [[line rest]|] eqn:E; [|intros; by simplify_eq].
  pose proof (cut_line_length _ _ _ E).
  rewrite (parse_bytes_unfold p (c ++ k)), (cut_line_app _ _ _ k E).
  destruct (parse_line line p) as [[p' ret]|] eqn:Ep; [|done]. simpl.
  destruct ret.
  - intros [= -> ->] Herr. by apply parse_line_returns in Ep.
  - apply parse_line_no_body in Ep as [Hb' _]; [|done].
    rewrite !end_of_line_id by done. intros. by apply IH.
Qed.

(** ** Rendering a request *)

Definition render_header (h : bytes * bytes) : bytes :=
  h.1 ++ ":"%char :: " "%char :: h.2 ++ CRLF.

Definition render_request (line : bytes) (hs : list (bytes * bytes)) : bytes :=
  line ++ CRLF ++ concat (map render_header hs) ++ CRLF.

Definition header_ok (h : bytes * bytes) : Prop :=
  (CR ∉ h.1) /\ (":"%char ∉ h.1) /\ (CR ∉ h.2) /\ trimmed h.2.

Definition set_headers (hs : list (bytes * bytes)) (r : HttpRequest) : HttpRequest :=
  fold_left (fun r h => setHeader h.1 h.2 r) hs r.

(** A header line in the header state. *)
Lemma parse_header_line h r :
  header_ok h ->
  parse_line (h.1 ++ ":"%char :: " "%char :: h.2) (mkParser r kParseHeader) =
  Ok (mkParser (setHeader h.1 h.2 r) kParseHeader, false).
Proof.
  destruct h as [f v]. intros (Hf & Hc & Hv & Ht). cbn [fst snd] in *. unfold parse_line. cbn [m_state m_request].
  rewrite find_in_start by done. rewrite decide_False by (by destruct f).
  rewrite (proj2 (Z.eqb_neq _ _)) by len_lia. simpl.
  rewrite addHeader_line.
  pose proof (strip_skip_trim [" "%char] v []) as Hs. rewrite app_nil_r in Hs.
  simpl app in Hs. rewrite Hs; [done | by constructor | constructor | done].
Qed.

Lemma parse_headers hs r :
  Forall header_ok hs ->
  parse_bytes (mkParser r kParseHeader) (concat (map render_header hs) ++ CRLF) =
  Ok (mkParser (set_headers hs r) kParseGotCompleteRequest, []).
Proof.
  intros Hh. revert r. induction Hh as [|h hs Hok Hh IH]; intros r; simpl.
  - by rewrite parse_bytes_unfold.
  - rewrite parse_bytes_unfold.
    replace ((render_header h ++ concat (map render_header hs)) ++ CRLF)
      with ((h.1 ++ ":"%char :: " "%char :: h.2) ++ CRLF ++ (concat (map render_header hs) ++ CRLF)).
    2: { unfold render_header. rewrite <- !app_assoc. simpl. by rewrite <- !app_assoc. }
    rewrite cut_line_app_crlf.
    + rewrite parse_header_line by done. simpl. rewrite end_of_line_id by done. apply IH.
    + destruct Hok as (H1 & _ & H2 & _).
      rewrite elem_of_app, !elem_of_cons. intros [?|[?|[?|?]]]; done.
Qed.

(** The whole of a rendered request. *)
Lemma parse_request_bytes line m t ver hs :
  request_line line m t ver -> CR ∉ line -> Forall header_ok hs ->
  parse_bytes new (render_request line hs) =
  Ok (mkParser (set_headers hs (setVersion ver (set_target t
                  (setMethod (method_name m) Request.new)))) kParseGotCompleteRequest, []).
Proof.
  intros Hl Hcr Hh. unfold render_request. rewrite parse_bytes_unfold.
  rewrite cut_line_app_crlf by done.
  unfold parse_line at 1. simpl m_state. simpl m_request. cbv iota.
  erewrite (proj2 (parseRequestLine_iff line Request.new _)) by eauto.
  simpl. rewrite end_of_line_id by done. by apply parse_headers.
Qed.

(** ** Properties *)

(** C6. [parseContent] always returns: its loop terminates within the fuel
    and no assertion of the buffer fails; the parser state and the unread
    bytes are those of the line machine on the readable bytes, and the buffer
    invariant is kept. *)
Theorem parseContent_refines p b :
  Buf.wf b ->
  exists p' b', parseContent p b = Ok (p', b') /\ Buf.wf b' /\
    parse_bytes p (Buf.content b) = Ok (p', Buf.content b').
Proof. apply parseContent_spec. Qed.

Lemma parseContent_refines_witness :
  exists p' b', parseContent new (Buf.new 1024) = Ok (p', b') /\ Buf.wf b' /\
    parse_bytes new (Buf.content (Buf.new 1024)) = Ok (p', Buf.content b').
Proof.
  apply (parseContent_refines new (Buf.new 1024)). apply Buf.new_wf.
  vm_compute. split; congruence.
Defined.

(** C26. It does not matter how a request is cut into reads: parsing the first
    bytes and then, on what the first call left plus the rest, calling again,
    gives the parser and the unread bytes of one call on all of them, unless
    the first call already reported an error. *)
Theorem parseContent_chunks p b1 p1 b1' k b2 b12 :
  Buf.wf b1 -> Buf.wf b2 -> Buf.wf b12 -> m_state p <> kParseBody ->
  parseContent p b1 = Ok (p1, b1') -> m_state p1 <> kParseErrno ->
  Buf.content b2 = Buf.content b1' ++ k -> Buf.content b12 = Buf.content b1 ++ k ->
  exists p' b b', parseContent p1 b2 = Ok (p', b) /\ parseContent p b12 = Ok (p', b') /\
    Buf.content b = Buf.content b'.
Proof.
  intros Hwf1 Hwf2 Hwf12 Hb H1 Herr Hc2 Hc12.
  destruct (parseContent_spec p b1 Hwf1) as (q & c & E1 & _ & S1).
  rewrite H1 in E1. injection E1 as <- <-.
  destruct (parseContent_spec p1 b2 Hwf2) as (p2 & c2 & E2 & _ & S2).
  destruct (parseContent_spec p b12 Hwf12) as (p3 & c3 & E3 & _ & S3).
  pose proof (parse_bytes_app _ _ k _ _ Hb S1 Herr) as Happ.
  rewrite <- Hc12, <- Hc2, S2, S3 in Happ. simplify_eq. eauto 10.
Qed.

(** A buffer holding the bytes [c]. *)
Definition buffer_of (c : bytes) : Buf.Buffer :=
  Buf.mkBuffer (c ++ replicate 8 "000"%char) 0 (zlen c).

Lemma buffer_of_wf c : zlen c + 8 <= INT_MAX -> Buf.wf (buffer_of c).
Proof.
  intros. unfold buffer_of.
  split; unfold kPrePendIndex; cbn [Buf.m_buffer Buf.m_read_index Buf.m_write_index]; len_lia.
Qed.

(** C7. A request is parsed back: a fresh parser on a buffer that holds a
    request line of the grammar, header lines and the empty line consumes all
    of it, ends in the complete state, and its request holds the method,
    target, version and every header. *)
Theorem parse_render line m t ver hs b :
  request_line line m t ver -> CR ∉ line -> Forall header_ok hs ->
  Buf.wf b -> Buf.content b = render_request line hs ->
  exists b', parseContent new b =
    Ok (mkParser (set_headers hs (setVersion ver (set_target t
          (setMethod (method_name m) Request.new)))) kParseGotCompleteRequest, b') /\
    Buf.wf b' /\ Buf.content b' = [].
Proof.
  intros Hl Hcr Hh Hwf Hc. destruct (parseContent_spec new b Hwf) as (p & b' & Hp & Hwf' & Hb).
  rewrite Hc, (parse_request_bytes line m t ver hs) in Hb by done.
  injection Hb as <- E. exists b'. by rewrite <- E.
Qed.

Lemma sample_line : request_line (bs "GET /a?b HTTP/1.1") kGet (Target (bs "/a") (Some (bs "b"))) kHttp11.
Proof.
  apply (RequestLine kGet (Target (bs "/a") (Some (bs "b"))) (bs "HTTP/1.1") kHttp11);
    [discriminate | | by vm_compute].
  split_and!; apply (bool_decide_unpack _); by vm_compute.
Qed.

Lemma sample_headers : Forall header_ok [(bs "Host", bs "h")].
Proof.
  constructor; [|constructor]. split_and!; try (apply (bool_decide_unpack _); by vm_compute).
  split; intros c v' E.
  + vm_compute in E. simplify_eq. reflexivity.
  + change (bs "h") with ([] ++ ["h"%char]) in E. apply app_inj_tail in E as [_ <-]. reflexivity.
Qed.

Lemma parse_render_witness :
  exists b', parseContent new (buffer_of (render_request (bs "GET /a?b HTTP/1.1") [(bs "Host", bs "h")])) =
    Ok (mkParser (set_headers [(bs "Host", bs "h")] (setVersion kHttp11
        (set_target (Target (bs "/a") (Some (bs "b"))) (setMethod (method_name kGet) Request.new))))
        kParseGotCompleteRequest, b') /\
    Buf.wf b' /\ Buf.content b' = [].
Proof.
  apply (parse_render (bs "GET /a?b HTTP/1.1") kGet (Target (bs "/a") (Some (bs "b"))) kHttp11).
  - apply sample_line.
  - apply (bool_decide_unpack _). by vm_compute.
  - apply sample_headers.
  - apply buffer_of_wf. by vm_compute.
  - reflexivity.
Defined.


Lemma parseContent_chunks_witness :
  exists p' b b',
    parseContent new (buffer_of (bs "GET / HTTP/1.1")) = Ok (p', b) /\
    parseContent new (buffer_of (bs "GET / HTTP/1.1")) = Ok (p', b') /\
    Buf.content b = Buf.content b'.
Proof.
  apply (parseContent_chunks new (buffer_of (bs "GET / HT")) new (buffer_of (bs "GET / HT"))
           (bs "TP/1.1") (buffer_of (bs "GET / HTTP/1.1")) (buffer_of (bs "GET / HTTP/1.1")));
    first [ apply buffer_of_wf; vm_compute; congruence | discriminate | reflexivity ].
Defined.

(** The parser is not ready for a second request: in the complete state any
    further line makes it report an error, and the request it holds does not
    change. *)
Theorem parseContent_after_complete p b line rest :
  Buf.wf b -> m_state p = kParseGotCompleteRequest ->
  cut_line (Buf.content b) = Some (line, rest) ->
  exists b', parseContent p b = Ok (mkParser (m_request p) kParseErrno, b') /\
    Buf.content b' = rest.
Proof.
  intros Hwf Hst Hcut.
  destruct (parseContent_spec p b Hwf) as (p' & b' & H & _ & Hs).
  rewrite parse_bytes_unfold, Hcut in Hs. unfold parse_line in Hs. rewrite Hst in Hs.
  simpl in Hs. simplify_eq. eauto.
Qed.

(** The body of a request is never parsed: from any other state
    [parseContent] does not enter the body state, and the form of the request
    stays as it was. *)
Theorem parseContent_no_body p b p' b' :
  Buf.wf b -> m_state p <> kParseBody -> parseContent p b = Ok (p', b') ->
  m_state p' <> kParseBody /\ m_post (m_request p') = m_post (m_request p).
Proof.
  intros Hwf Hb H.
  destruct (parseContent_spec p b Hwf) as (? & ? & E & _ & Hs).
  rewrite H in E. simplify_eq.
  by eapply parse_bytes_no_body.
Qed.

(** The second request of a connection. *)
Lemma parseContent_after_complete_witness :
  exists b', parseContent (mkParser Request.new kParseGotCompleteRequest)
               (buffer_of (bs "GET / HTTP/1.1" ++ CRLF)) = Ok (mkParser Request.new kParseErrno, b') /\
    Buf.content b' = [].
Proof.
  apply (parseContent_after_complete (mkParser Request.new kParseGotCompleteRequest)
           (buffer_of (bs "GET / HTTP/1.1" ++ CRLF)) (bs "GET / HTTP/1.1") []);
    first [ apply buffer_of_wf; vm_compute; congruence | reflexivity ].
Defined.

Lemma parseContent_no_body_witness :
  m_state new <> kParseBody /\ m_post (m_request new) = m_post (m_request new).
Proof.
  apply (parseContent_no_body new (buffer_of (bs "POST")) new (buffer_of (bs "POST")));
    first [ apply buffer_of_wf; vm_compute; congruence | discriminate | reflexivity ].
Defined.

(** [reset] makes the parser as new only when the form is empty: the swap it
    uses exchanges every member but [m_post]. *)
Lemma reset_new_iff p : reset p = new <-> m_post (m_request p) = ∅.
Proof.
  unfold reset, new, Request.new, Request.swap. simpl. split; [congruence|].
  by intros ->.
Qed.

End Parser.
