(* ===== verification/HttpResponse.v ===== *)
(** * HttpResponse: Http/httpresponse.h, Http/httpresponse.cpp and the status
      codes of Http/httpstate.h

    The response and its serialisation into a buffer.  The theorems: the
    buffer receives exactly [serialize], and a client that reads lines up to
    the empty one recovers the status line, the headers and the body, with
    the announced length. *)

From Stdlib Require Import ZArith Lia Ascii String.
From stdpp Require Import options.
From S2P Require Import Prelude CStd Buffer.

Module Response.

Inductive HttpStatusCode :=
| k100Continue
| k200OK
| k400BadRequest
| k403Forbidden
| k404NotFound
| k500InternalServerErrno.

#[global] Instance StatusCode_eq_dec : EqDecision HttpStatusCode.
Proof. solve_decision. Defined.

(** The value of the enumerator. *)
Definition status_value (c : HttpStatusCode) : Z :=
  match c with
  | k100Continue => 100
  | k200OK => 200
  | k400BadRequest => 400
  | k403Forbidden => 403
  | k404NotFound => 404
  | k500InternalServerErrno => 500
  end.

Record HttpResponse := mkResponse {
  m_status_code : HttpStatusCode;
  m_status_message : bytes;
  m_body : bytes;
  m_type : bytes;
  m_close_connection : bool
}.

Definition m_server_name : bytes := bs "Ymirth server".

Definition new (close : bool) : HttpResponse :=
  {| m_status_code := k200OK; m_status_message := []; m_body := [];
     m_type := bs "text/html"; m_close_connection := close |}.

Definition setStatusCode (code : HttpStatusCode) (r : HttpResponse) : HttpResponse :=
  mkResponse code (m_status_message r) (m_body r) (m_type r) (m_close_connection r).
Definition setStatusMessage (message : bytes) (r : HttpResponse) : HttpResponse :=
  mkResponse (m_status_code r) message (m_body r) (m_type r) (m_close_connection r).
Definition setCloseConnection (on : bool) (r : HttpResponse) : HttpResponse :=
  mkResponse (m_status_code r) (m_status_message r) (m_body r) (m_type r) on.
Definition setContentType (type : bytes) (r : HttpResponse) : HttpResponse :=
  mkResponse (m_status_code r) (m_status_message r) (m_body r) type (m_close_connection r).
Definition setBody (body : bytes) (r : HttpResponse) : HttpResponse :=
  mkResponse (m_status_code r) (m_status_message r) body (m_type r) (m_close_connection r).
Definition closeConnection (r : HttpResponse) : bool := m_close_connection r.

(** [appendToBuffer(buffer)] *)
Definition appendToBuffer (r : HttpResponse) (buffer : Buf.Buffer) : res Buf.Buffer :=
  let code := status_value (m_status_code r) in
  b ← Buf.append_string (bs "HTTP/1.1 " ++ to_string code ++ bs " " ++ m_status_message r ++ CRLF) buffer;
  b ← (if m_close_connection r
       then Buf.append_string (bs "Connection: close" ++ CRLF) b
       else
         b ← Buf.append_string (bs "Content-length: " ++ to_string (zlen (m_body r)) ++ CRLF) b;
         Buf.append_string (bs "Connection: Keep-Alive" ++ CRLF) b);
  b ← Buf.append_string (bs "Content-type: " ++ m_type r ++ CRLF) b;
  b ← Buf.append_string (bs "Server: " ++ m_server_name ++ CRLF) b;
  b ← Buf.append_string CRLF b;
  Buf.append_string (m_body r) b.

(** ** The message on the wire *)

(** The lines of the head: the status line and the headers. *)
Definition head_lines (r : HttpResponse) : list bytes :=
  (bs "HTTP/1.1 " ++ to_string (status_value (m_status_code r)) ++ bs " " ++ m_status_message r) ::
  (if m_close_connection r then [bs "Connection: close"]
   else [bs "Content-length: " ++ to_string (zlen (m_body r)); bs "Connection: Keep-Alive"]) ++
  [bs "Content-type: " ++ m_type r; bs "Server: " ++ m_server_name].

Definition serialize (r : HttpResponse) : bytes :=
  concat (map (fun l => l ++ CRLF) (head_lines r)) ++ CRLF ++ m_body r.

(** A client: lines up to the empty one, then the body. *)
Fixpoint read_head (fuel : nat) (c : bytes) : option (list bytes * bytes) :=
  match fuel with
  | O => None
  | S f =>
      match cut_line c with
      | None => None
      | Some ([], rest) => Some ([], rest)
      | Some (line, rest) =>
          match read_head f rest with
          | Some (ls, body) => Some (line :: ls, body)
          | None => None
          end
      end
  end.

(** ** Lemmas *)

Fixpoint append_all (l : list bytes) (b : Buf.Buffer) : res Buf.Buffer :=
  match l with
  | [] => Ok b
  | s :: l' => b' ← Buf.append_string s b; append_all l' b'
  end.

(** Appends to a buffer whose data starts no later than the reserved prefix
    are all queue appends. *)
Lemma append_all_ok l b :
  Buf.wf b -> Buf.m_read_index b <= kPrePendIndex ->
  zlen (Buf.content b) + zlen (concat l) + 2 * kPrePendIndex <= INT_MAX ->
  exists b', append_all l b = Ok b' /\ Buf.wf b' /\ Buf.content b' = Buf.content b ++ concat l /\
    Buf.m_read_index b' = Buf.m_read_index b.
Proof.
  revert b. induction l as [|s l IH]; intros b Hwf Hr Hi; simpl in *.
  { exists b. rewrite app_nil_r. auto. }
  rewrite zlen_app in Hi. pose proof (zlen_nonneg s). pose proof (zlen_nonneg (concat l)).
  pose proof (Buf.zlen_content b Hwf) as Hz. pose proof (zlen_nonneg (Buf.content b)).
  unfold kPrePendIndex in *. rewrite Buf.append_string_eq by lia.
  destruct (Buf.append_plain s b) as (b1 & -> & Hwf1 & Hc1 & Hr1);
    [done | unfold Buf.readableBytes in *; lia | unfold kPrePendIndex; lia
     | by apply Buf.compacts_false_low |].
  simpl. destruct (IH b1) as (b' & -> & Hwf' & Hc' & Hr'); [done | lia | |].
  { rewrite Hc1, zlen_app. lia. }
  exists b'. rewrite Hc', Hc1, <- app_assoc. split_and!; auto. lia.
Qed.

Definition pieces (r : HttpResponse) : list bytes :=
  map (fun l => l ++ CRLF) (head_lines r) ++ [CRLF; m_body r].

Lemma concat_pieces r : concat (pieces r) = serialize r.
Proof. unfold pieces, serialize. rewrite concat_app. simpl. by rewrite app_nil_r. Qed.

Lemma appendToBuffer_all r b : appendToBuffer r b = append_all (pieces r) b.
Proof.
  unfold appendToBuffer, pieces, head_lines.
  destruct (m_close_connection r); cbn [map app append_all]; rewrite <- !app_assoc;
    repeat (rewrite ?bind_assoc; apply bind_ext; intros ?); by rewrite bind_ret_r.
Qed.

Lemma read_head_lines ls body fuel :
  Forall (fun l => l <> [] /\ (CR ∉ l)) ls -> (length ls < fuel)%nat ->
  read_head fuel (concat (map (fun l => l ++ CRLF) ls) ++ CRLF ++ body) = Some (ls, body).
Proof.
  intros Hls. revert fuel. induction Hls as [|l ls [Hne Hcr] Hls IH]; intros [|f] Hf;
    cbn [length] in *; [lia| |lia|]; cbn [read_head map concat].
  - by rewrite (cut_line_app_crlf [] body) by apply not_elem_of_nil.
  - rewrite <- !app_assoc. rewrite cut_line_app_crlf by done.
    destruct l; [done|]. by rewrite IH by lia.
Qed.

Lemma to_string_no_CR z : CR ∉ to_string z.
Proof.
  intros H. assert (Forall (fun c => is_digit c \/ c = "-"%char) (to_string z)) as Hf.
  { unfold to_string. split_match; [constructor; [by right|]|];
      (eapply Forall_impl; [apply udec_is_digit | by left]). }
  rewrite Forall_forall in Hf. apply Hf in H as [[H _]|H]; [|done].
  by apply H.
Qed.

Lemma head_lines_ok r :
  CR ∉ m_status_message r -> CR ∉ m_type r ->
  Forall (fun l => l <> [] /\ (CR ∉ l)) (head_lines r).
Proof.
  intros Hm Ht.
  assert (forall s, bool_decide (CR ∉ bs s) = true -> CR ∉ bs s) as Hlit
    by (intros s Hs; by apply bool_decide_eq_true in Hs).
  pose proof (to_string_no_CR (status_value (m_status_code r))).
  pose proof (to_string_no_CR (zlen (m_body r))).
  unfold head_lines, m_server_name.
  destruct (m_close_connection r); repeat constructor; try done;
    rewrite ?elem_of_app; intros Hin;
    repeat match goal with H : _ \/ _ |- _ => destruct H end; try done;
    match goal with H : CR ∈ bs ?s |- _ => revert H; by apply Hlit end.
Qed.

(** ** Properties *)

(** [appendToBuffer] on a buffer whose data starts at the front, as the
    fresh one of [handleRequest] does, appends exactly the serialised
    response: no fault, no byte lost or reordered. *)
Theorem appendToBuffer_correct r b :
  Buf.wf b -> Buf.m_read_index b <= kPrePendIndex ->
  zlen (Buf.content b) + zlen (serialize r) + 2 * kPrePendIndex <= INT_MAX ->
  exists b', appendToBuffer r b = Ok b' /\ Buf.wf b' /\
    Buf.content b' = Buf.content b ++ serialize r.
Proof.
  intros Hwf Hr Hi. rewrite appendToBuffer_all. rewrite <- concat_pieces in *.
  destruct (append_all_ok (pieces r) b) as (b' & ?&?&?&_); eauto.
Qed.

Lemma appendToBuffer_correct_witness :
  exists b', appendToBuffer (new true) (Buf.new 1024) = Ok b' /\ Buf.wf b' /\
    Buf.content b' = Buf.content (Buf.new 1024) ++ serialize (new true).
Proof.
  apply (appendToBuffer_correct (new true) (Buf.new 1024)).
  - apply Buf.new_wf. vm_compute. split; congruence.
  - vm_compute. congruence.
  - vm_compute. congruence.
Defined.

(** A client recovers the response: reading lines up to the empty one gives
    the status line and the headers, and what follows is the body; a
    keep-alive response announces the length of that body. *)
Theorem response_readback r :
  CR ∉ m_status_message r -> CR ∉ m_type r ->
  read_head 6 (serialize r) = Some (head_lines r, m_body r) /\
  (m_close_connection r = false ->
   exists n, bs "Content-length: " ++ n ∈ head_lines r /\ read_dec n = zlen (m_body r)).
Proof.
  intros Hm Ht. split.
  - apply read_head_lines; [by apply head_lines_ok|].
    unfold head_lines. destruct (m_close_connection r); simpl; lia.
  - intros Hc. exists (to_string (zlen (m_body r))). split; [|apply read_dec_to_string].
    unfold head_lines. rewrite Hc. simpl. set_solver.
Qed.

Lemma response_readback_witness :
  read_head 6 (serialize (setBody (bs "Hello") (new false))) =
    Some (head_lines (setBody (bs "Hello") (new false)), bs "Hello") /\
  (false = false ->
   exists n, bs "Content-length: " ++ n ∈ head_lines (setBody (bs "Hello") (new false)) /\
             read_dec n = zlen (bs "Hello")).
Proof.
  apply (response_readback (setBody (bs "Hello") (new false)));
    apply (bool_decide_unpack _); by vm_compute.
Defined.

End Response.
