(* ===== verification/Channel.v ===== *)
(** * Channel: Net/channel.h and Net/channel.cpp

    A file descriptor with the events it is interested in, the events epoll
    reported and its callbacks.  Here are its data, its event masks and the
    dispatch of reported events; the operations that reach the poller
    ([update], the [enable*]/[disable*] family, the destructor) are in
    Epoller.v, with the poller they call.

    A callback is a function on the state of the program, which the dispatch
    is parametric in; an empty [std::function] is [None]. *)

From Stdlib Require Import ZArith Lia.
From stdpp Require Import options.
From S2P Require Import Prelude.

(** The bits of sys/epoll.h. *)
Definition EPOLLIN : Z := 1.
Definition EPOLLPRI : Z := 2.
Definition EPOLLOUT : Z := 4.
Definition EPOLLERR : Z := 8.
Definition EPOLLHUP : Z := 16.
Definition EPOLLRDHUP : Z := 8192.
Definition EPOLLET : Z := 2147483648.

Inductive ChannelIndex := kNew | kAdded | kDeleted.

#[global] Instance ChannelIndex_eq_dec : EqDecision ChannelIndex.
Proof. solve_decision. Defined.

(** [enum EventType] *)
Definition kNoneEvent : Z := 0.
Definition kReadEvent : Z := Z.lor EPOLLIN EPOLLPRI.
Definition kWriteEvent : Z := EPOLLOUT.
Definition kErrorEvent : Z := EPOLLERR.

Module Chan.

Record Channel := mkChannel {
  m_fd : Z;
  m_events : Z;
  m_revents : Z;
  m_index : ChannelIndex;
  m_tied : bool
}.

Definition new (n_fd : Z) : Channel :=
  {| m_fd := n_fd; m_events := 0; m_revents := 0; m_index := kNew; m_tied := false |}.

Definition setEvents (evt : Z) (c : Channel) : Channel :=
  mkChannel (m_fd c) evt (m_revents c) (m_index c) (m_tied c).
Definition setRevents (revt : Z) (c : Channel) : Channel :=
  mkChannel (m_fd c) (m_events c) revt (m_index c) (m_tied c).
Definition setIndex (idx : ChannelIndex) (c : Channel) : Channel :=
  mkChannel (m_fd c) (m_events c) (m_revents c) idx (m_tied c).
(** [Tie(obj)]; whether the tied object is still alive is an argument of
    [handleEvent]. *)
Definition Tie (c : Channel) : Channel :=
  mkChannel (m_fd c) (m_events c) (m_revents c) (m_index c) true.

Definition isRegistered (c : Channel) : bool := negb (m_events c =? 0).

(** [x & mask] as a condition. *)
Definition has_bits (x mask : Z) : bool := negb (Z.land x mask =? 0).

Definition isWriting (c : Channel) : bool := has_bits (m_events c) kWriteEvent.
Definition isReading (c : Channel) : bool := has_bits (m_events c) kReadEvent.

(** The masks the [enable*]/[disable*] functions store before [update()]. *)
Definition reading_on (c : Channel) : Channel := setEvents (Z.lor (m_events c) kReadEvent) c.
Definition writing_on (c : Channel) : Channel := setEvents (Z.lor (m_events c) kWriteEvent) c.
Definition reading_off (c : Channel) : Channel :=
  setEvents (Z.land (m_events c) (Z.lnot kReadEvent)) c.
Definition writing_off (c : Channel) : Channel :=
  setEvents (Z.land (m_events c) (Z.lnot kWriteEvent)) c.
Definition all_off (c : Channel) : Channel := setEvents kNoneEvent c.

(** ** Dispatch *)

Section Dispatch.
Context {S : Type}.

Record Callbacks := mkCallbacks {
  m_read_callback : option (S -> res S);
  m_write_callback : option (S -> res S);
  m_error_callback : option (S -> res S);
  m_close_callback : option (S -> res S)
}.

(** [if (cb) cb();] *)
Definition call (cb : option (S -> res S)) (s : S) : res S :=
  match cb with Some f => f s | None => Ok s end.

Definition handleEventWithGuard (revents : Z) (cbs : Callbacks) (s : S) : res S :=
  s ← (if has_bits revents kErrorEvent then call (m_error_callback cbs) s else Ok s);
  s ← (if has_bits revents EPOLLHUP && negb (has_bits revents EPOLLIN)
       then call (m_close_callback cbs) s else Ok s);
  s ← (if has_bits revents (Z.lor kReadEvent EPOLLRDHUP)
       then call (m_read_callback cbs) s else Ok s);
  if has_bits revents kWriteEvent then call (m_write_callback cbs) s else Ok s.

(** [alive]: whether [m_tie.lock()] gives the object. *)
Definition handleEvent (c : Channel) (alive : bool) (cbs : Callbacks) (s : S) : res S :=
  if m_tied c then
    (if alive then handleEventWithGuard (m_revents c) cbs s else Ok s)
  else handleEventWithGuard (m_revents c) cbs s.

(** ** The dispatch table *)

Inductive handler := HError | HClose | HRead | HWrite.

(** Which handlers run for reported events, in order. *)
Definition dispatched (revents : Z) : list handler :=
  (if has_bits revents kErrorEvent then [HError] else []) ++
  (if has_bits revents EPOLLHUP && negb (has_bits revents EPOLLIN) then [HClose] else []) ++
  (if has_bits revents (Z.lor kReadEvent EPOLLRDHUP) then [HRead] else []) ++
  (if has_bits revents kWriteEvent then [HWrite] else []).

Definition callback_of (cbs : Callbacks) (h : handler) : option (S -> res S) :=
  match h with
  | HError => m_error_callback cbs
  | HClose => m_close_callback cbs
  | HRead => m_read_callback cbs
  | HWrite => m_write_callback cbs
  end.

Fixpoint run_handlers (cbs : Callbacks) (hs : list handler) (s : S) : res S :=
  match hs with
  | [] => Ok s
  | h :: hs' => s' ← call (callback_of cbs h) s; run_handlers cbs hs' s'
  end.

End Dispatch.
Arguments Callbacks : clear implicits.

(** ** Lemmas *)

(** A mask of one bit, or of two, is a test of those bits. *)
Lemma has_bits_pow2 x n : 0 <= n -> has_bits x (2 ^ n) = Z.testbit x n.
Proof.
  intros Hn. unfold has_bits. rewrite <- (Z.shiftl_1_l n).
  destruct (Z.testbit x n) eqn:E.
  - apply negb_true_iff, Z.eqb_neq. intros H.
    assert (Z.testbit (Z.land x (Z.shiftl 1 n)) n = true) as Ht.
    { rewrite Z.land_spec, E, Z.shiftl_1_l, Z.pow2_bits_true by done. done. }
    rewrite H, Z.bits_0 in Ht. done.
  - apply negb_false_iff, Z.eqb_eq. apply Z.bits_inj'. intros k Hk.
    rewrite Z.land_spec, Z.bits_0, Z.shiftl_1_l, Z.pow2_bits_eqb by done.
    destruct (Z.eqb_spec n k); [subst; by rewrite E | by rewrite andb_false_r].
Qed.

Lemma has_bits_lor x a b : has_bits x (Z.lor a b) = has_bits x a || has_bits x b.
Proof.
  unfold has_bits. rewrite Z.land_lor_distr_r.
  destruct (Z.eqb_spec (Z.land x a) 0) as [->|Ha]; [done|]. simpl.
  apply negb_true_iff, Z.eqb_neq. rewrite Z.lor_eq_0_iff. tauto.
Qed.

Lemma isWriting_bit c : isWriting c = Z.testbit (m_events c) 2.
Proof. apply (has_bits_pow2 _ 2). lia. Qed.

Lemma isReading_bits c :
  isReading c = Z.testbit (m_events c) 0 || Z.testbit (m_events c) 1.
Proof.
  unfold isReading, kReadEvent. rewrite has_bits_lor. f_equal.
  - apply (has_bits_pow2 _ 0). lia.
  - apply (has_bits_pow2 _ 1). lia.
Qed.

#[local] Ltac bits :=
  rewrite ?isWriting_bit, ?isReading_bits; simpl m_events;
  rewrite ?Z.lor_spec, ?Z.land_spec, ?Z.lnot_spec by lia;
  repeat match goal with
    | |- context [Z.testbit ?k ?n] =>
        lazymatch k with
        | kReadEvent => let v := eval vm_compute in (Z.testbit k n) in change (Z.testbit k n) with v
        | kWriteEvent => let v := eval vm_compute in (Z.testbit k n) in change (Z.testbit k n) with v
        end
    end; cbn [negb];
  rewrite ?orb_true_r, ?orb_false_r, ?andb_true_r, ?andb_false_r; try done.

Lemma writing_on_bits c :
  isWriting (writing_on c) = true /\ isReading (writing_on c) = isReading c.
Proof. unfold writing_on. split; bits. Qed.

Lemma writing_off_bits c :
  isWriting (writing_off c) = false /\ isReading (writing_off c) = isReading c.
Proof. unfold writing_off. split; bits. Qed.

Lemma reading_on_bits c :
  isReading (reading_on c) = true /\ isWriting (reading_on c) = isWriting c.
Proof. unfold reading_on. split; bits. Qed.

Lemma reading_off_bits c :
  isReading (reading_off c) = false /\ isWriting (reading_off c) = isWriting c.
Proof. unfold reading_off. split; bits. Qed.

Lemma all_off_bits c : isReading (all_off c) = false /\ isWriting (all_off c) = false.
Proof. done. Qed.

(** ** Properties *)

(** The interest masks are independent: turning reading or writing on or
    off changes exactly that interest and leaves the other as it was. *)
Theorem interest_masks_independent c :
  (isWriting (writing_on c) = true /\ isReading (writing_on c) = isReading c) /\
  (isWriting (writing_off c) = false /\ isReading (writing_off c) = isReading c) /\
  (isReading (reading_on c) = true /\ isWriting (reading_on c) = isWriting c) /\
  (isReading (reading_off c) = false /\ isWriting (reading_off c) = isWriting c).
Proof.
  auto using writing_on_bits, writing_off_bits, reading_on_bits, reading_off_bits.
Qed.


End Chan.
