(* ===== verification/Epoller.v ===== *)
(** * Epoller: Net/epoller.h, Net/epoller.cpp, and the part of Net/channel.h
      and Net/channel.cpp that goes through the poller

    The map from descriptors to channels and its mirror in the kernel.  The
    channels live in a store, shared by the poller, the loop and their
    owners; a pointer to one is its key there.

    [epoll_ctl] is the kernel's: the class [EpollKernel] is what its manual
    page promises, and everything here is proved against it. *)

From Stdlib Require Import ZArith Lia.
From stdpp Require Import options.
From S2P Require Import Prelude Channel.

Inductive epoll_op := EPOLL_CTL_ADD | EPOLL_CTL_MOD | EPOLL_CTL_DEL.

(** A pointer to a channel. *)
Abbreviation chan_ptr := positive.

(** The interest list of an epoll instance: for each registered descriptor the
    events and the user data. [epoll_ctl] returns the new state and 0, or a
    negative number and the state unchanged. *)
Class EpollKernel (K : Type) := {
  epoll_ctl : K -> epoll_op -> Z -> Z * chan_ptr -> K * Z;
  interest : K -> gmap Z (Z * chan_ptr);
  ctl_error_unchanged : forall k op fd e,
    (epoll_ctl k op fd e).2 < 0 -> interest (epoll_ctl k op fd e).1 = interest k;
  ctl_add : forall k fd e, interest k !! fd = None ->
    (epoll_ctl k EPOLL_CTL_ADD fd e).2 = 0 /\
    interest (epoll_ctl k EPOLL_CTL_ADD fd e).1 = <[fd := e]> (interest k);
  ctl_add_exists : forall k fd e, is_Some (interest k !! fd) ->
    (epoll_ctl k EPOLL_CTL_ADD fd e).2 < 0;
  ctl_mod : forall k fd e, is_Some (interest k !! fd) ->
    (epoll_ctl k EPOLL_CTL_MOD fd e).2 = 0 /\
    interest (epoll_ctl k EPOLL_CTL_MOD fd e).1 = <[fd := e]> (interest k);
  ctl_del : forall k fd e, is_Some (interest k !! fd) ->
    (epoll_ctl k EPOLL_CTL_DEL fd e).2 = 0 /\
    interest (epoll_ctl k EPOLL_CTL_DEL fd e).1 = delete fd (interest k);
  ctl_absent : forall k op fd e, op <> EPOLL_CTL_ADD -> interest k !! fd = None ->
    (epoll_ctl k op fd e).2 < 0
}.

(** What [epoll_wait] returns: an errno, or the ready list. *)
Inductive wait_result :=
| WaitErr (errno : Z)
| WaitOk (evs : list (Z * chan_ptr)).

Module Epoll.
Import Chan.

Section WithKernel.
Context {K : Type} `{!EpollKernel K}.

(** The poller with the store of channels, the state of its epoll instance and
    the number of errors [update] logged. *)
Record Epoller := mkEpoller {
  m_channels : gmap Z chan_ptr;
  channels : gmap chan_ptr Channel;
  kernel : K;
  logged : nat
}.

Definition set_channel (p : chan_ptr) (c : Channel) (e : Epoller) : Epoller :=
  mkEpoller (m_channels e) (<[p := c]> (channels e)) (kernel e) (logged e).

(** The constructor: [epoll_fd] is the answer of [epoll_create1], [k] the state
    of the new epoll instance; the channel objects are those of the process. *)
Definition create (epoll_fd : Z) (k : K) (store : gmap chan_ptr Channel) : res Epoller :=
  if epoll_fd <? 0 then Fault Exited else Ok (mkEpoller ∅ store k 0).

(** Dereferencing a channel pointer. *)
Definition deref (p : chan_ptr) (e : Epoller) : res Channel :=
  match channels e !! p with Some c => Ok c | None => Fault Undefined end.

(** ** Epoller *)

Definition hasChannel (p : chan_ptr) (e : Epoller) : res bool :=
  c ← deref p e;
  Ok (match m_channels e !! m_fd c with Some q => bool_decide (q = p) | None => false end).

(** [update(op, channel)]: a failing [epoll_ctl] is logged and ignored. *)
Definition update (op : epoll_op) (p : chan_ptr) (e : Epoller) : res Epoller :=
  c ← deref p e;
  let '(k, ret) := epoll_ctl (kernel e) op (m_fd c) (m_events c, p) in
  Ok (mkEpoller (m_channels e) (channels e) k
        (if ret <? 0 then S (logged e) else logged e)).

(** [m_channels.find(fd) != end() && m_channels[fd] == channel] *)
Definition registered_as (fd : Z) (p : chan_ptr) (e : Epoller) : bool :=
  bool_decide (m_channels e !! fd = Some p).

Definition updateChannel (p : chan_ptr) (e : Epoller) : res Epoller :=
  c ← deref p e;
  match m_index c with
  | kNew =>
      let e := mkEpoller (<[m_fd c := p]> (m_channels e)) (channels e) (kernel e) (logged e) in
      update EPOLL_CTL_ADD p (set_channel p (setIndex kAdded c) e)
  | kDeleted =>
      _ ← assert_ (registered_as (m_fd c) p e);
      update EPOLL_CTL_ADD p (set_channel p (setIndex kAdded c) e)
  | kAdded =>
      _ ← assert_ (registered_as (m_fd c) p e);
      if isRegistered c then update EPOLL_CTL_MOD p e
      else
        e ← update EPOLL_CTL_DEL p e;
        Ok (set_channel p (setIndex kDeleted c) e)
  end.

Definition removeChannel (p : chan_ptr) (e : Epoller) : res Epoller :=
  c ← deref p e;
  _ ← assert_ (registered_as (m_fd c) p e);
  _ ← assert_ (bool_decide (m_index c = kAdded \/ m_index c = kDeleted));
  e ← (if decide (m_index c = kAdded)
       then e ← update EPOLL_CTL_DEL p e; Ok (set_channel p (setIndex kDeleted c) e)
       else Ok e);
  Ok (mkEpoller (delete (m_fd c) (m_channels e)) (channels e) (kernel e) (logged e)).

Fixpoint fillActiveChannels (evs : list (Z * chan_ptr)) (active : list chan_ptr) (e : Epoller)
    : res (list chan_ptr * Epoller) :=
  match evs with
  | [] => Ok (active, e)
  | (revents, p) :: evs' =>
      c ← deref p e;
      fillActiveChannels evs' (active ++ [p]) (set_channel p (setRevents revents c) e)
  end.

(** [poll(active_channels)]; the error branches only log. *)
Definition poll (w : wait_result) (active : list chan_ptr) (e : Epoller)
    : res (list chan_ptr * Epoller) :=
  match w with
  | WaitErr _ => Ok (active, e)
  | WaitOk evs => fillActiveChannels evs active e
  end.

(** ** Channel operations through the poller *)

(** [m_events = f(m_events); update();] *)
Definition change_events (f : Channel -> Channel) (p : chan_ptr) (e : Epoller) : res Epoller :=
  c ← deref p e; updateChannel p (set_channel p (f c) e).

Definition enableReading : chan_ptr -> Epoller -> res Epoller := change_events reading_on.
Definition enableWriting : chan_ptr -> Epoller -> res Epoller := change_events writing_on.
Definition disableReading : chan_ptr -> Epoller -> res Epoller := change_events reading_off.
Definition disableWriting : chan_ptr -> Epoller -> res Epoller := change_events writing_off.
Definition disableAll : chan_ptr -> Epoller -> res Epoller := change_events all_off.

(** [~Channel()] *)
Definition destroy (p : chan_ptr) (e : Epoller) : res Epoller :=
  has ← hasChannel p e;
  e ← (if has : bool then e ← disableAll p e; removeChannel p e else Ok e);
  Ok (mkEpoller (m_channels e) (delete p (channels e)) (kernel e) (logged e)).

(** ** The invariant *)

(** What the kernel should watch for a descriptor: the events of the channel
    registered under it, when that channel is in the added state. *)
Definition watched (e : Epoller) (fd : Z) : option (Z * chan_ptr) :=
  p ← m_channels e !! fd;
  c ← channels e !! p;
  if decide (m_index c = kAdded) then Some (m_events c, p) else None.

Record wf (e : Epoller) : Prop := {
  wf_map : forall fd p, m_channels e !! fd = Some p ->
    exists c, channels e !! p = Some c /\ m_fd c = fd /\ m_index c <> kNew;
  wf_added : forall p c, channels e !! p = Some c -> m_index c = kAdded ->
    m_channels e !! m_fd c = Some p;
  wf_kernel : forall fd, interest (kernel e) !! fd = watched e fd
}.

(** When [updateChannel] may be called: a new channel whose descriptor is free,
    or a channel that is in the map. *)
Definition may_update (p : chan_ptr) (e : Epoller) : Prop :=
  exists c, channels e !! p = Some c /\
    match m_index c with
    | kNew => m_channels e !! m_fd c = None
    | kAdded | kDeleted => m_channels e !! m_fd c = Some p
    end.

(** Only events, reported events and ties change, not the descriptor. *)
Definition keeps_identity (f : Channel -> Channel) : Prop :=
  forall c, m_fd (f c) = m_fd c /\ m_index (f c) = m_index c.

(** ** Lemmas *)

Lemma deref_Ok p e c : channels e !! p = Some c -> deref p e = Ok c.
Proof. unfold deref. by intros ->. Qed.

Lemma registered_as_Ok fd p e :
  m_channels e !! fd = Some p -> assert_ (registered_as fd p e) = Ok tt.
Proof. intros. unfold registered_as. by rewrite bool_decide_eq_true_2. Qed.

(** The invariant after a change at one channel [p] and its descriptor [fd]. *)
Lemma wf_change e e' p c c' fd :
  wf e -> channels e !! p = Some c -> m_fd c = fd ->
  (m_channels e !! fd = None \/ m_channels e !! fd = Some p) ->
  (forall fd', fd' <> fd -> m_channels e' !! fd' = m_channels e !! fd') ->
  (forall q, q <> p -> channels e' !! q = channels e !! q) ->
  (forall fd', fd' <> fd -> interest (kernel e') !! fd' = interest (kernel e) !! fd') ->
  channels e' !! p = Some c' -> m_fd c' = fd ->
  (m_channels e' !! fd = Some p /\ m_index c' <> kNew \/
   m_channels e' !! fd = None /\ m_index c' <> kAdded) ->
  interest (kernel e') !! fd = watched e' fd ->
  wf e'.
Proof.
  intros Hwf Hp Hfd Hown Hm Hc Hk Hp' Hfd' Hst Hint.
  assert (forall fd' q, fd' <> fd -> m_channels e !! fd' = Some q -> q <> p) as Hne.
  { intros fd' q Hd Hq ->. destruct (wf_map e Hwf _ _ Hq) as (c0 & Hc0 & Hf & _).
    rewrite Hp in Hc0. congruence. }
  split.
  - intros fd' q Hq. destruct (decide (fd' = fd)) as [->|Hd].
    + destruct Hst as [[Hq' Hi]|[Hq' _]]; rewrite Hq' in Hq; simplify_eq. eauto.
    + rewrite Hm in Hq by done. rewrite Hc by eauto. by apply wf_map.
  - intros q cq Hq Hi. destruct (decide (q = p)) as [->|Hd].
    + rewrite Hp' in Hq. simplify_eq. destruct Hst as [[??]|[??]]; congruence.
    + rewrite Hc in Hq by done. pose proof (wf_added e Hwf _ _ Hq Hi) as Hq'.
      destruct (decide (m_fd cq = fd)) as [E|E].
      * rewrite E in Hq'. destruct Hown as [Ho|Ho]; rewrite Ho in Hq'; congruence.
      * by rewrite Hm.
  - intros fd'. destruct (decide (fd' = fd)) as [->|Hd]; [done|].
    rewrite Hk, (wf_kernel e Hwf) by done. unfold watched. rewrite Hm by done.
    destruct (m_channels e !! fd') as [q|] eqn:Eq; [|done]. simpl.
    by rewrite Hc by eauto.
Qed.

(** What [watched] is at a descriptor whose channel is known. *)
Lemma watched_at e fd p c :
  m_channels e !! fd = Some p -> channels e !! p = Some c ->
  watched e fd = if decide (m_index c = kAdded) then Some (m_events c, p) else None.
Proof. intros H1 H2. unfold watched. rewrite H1. simpl. by rewrite H2. Qed.

(** [update] when the kernel accepts the operation. *)
Lemma update_ok op p e c k :
  channels e !! p = Some c ->
  epoll_ctl (kernel e) op (m_fd c) (m_events c, p) = (k, 0) ->
  update op p e = Ok (mkEpoller (m_channels e) (channels e) k (logged e)).
Proof. intros Hc Hk. unfold update. rewrite (deref_Ok _ _ _ Hc). simpl. by rewrite Hk. Qed.

(** The state of the channel after [updateChannel]. *)
Definition updated (c : Channel) : Channel :=
  setIndex (if decide (m_index c = kAdded)
            then (if isRegistered c then kAdded else kDeleted) else kAdded) c.

Lemma setIndex_id c : setIndex (m_index c) c = c.
Proof. by destruct c. Qed.

(** The poller with [c'] stored under [p], [p] registered under its descriptor
    and a new kernel state. *)
Definition with_channel (p : chan_ptr) (c' : Channel) (k : K) (e : Epoller) : Epoller :=
  mkEpoller (<[m_fd c' := p]> (m_channels e)) (<[p := c']> (channels e)) k (logged e).

Lemma wf_with_channel p c c' k e :
  wf e -> channels e !! p = Some c -> m_fd c' = m_fd c -> m_index c' <> kNew ->
  (m_channels e !! m_fd c = None \/ m_channels e !! m_fd c = Some p) ->
  (forall fd', fd' <> m_fd c -> interest k !! fd' = interest (kernel e) !! fd') ->
  interest k !! m_fd c = (if decide (m_index c' = kAdded) then Some (m_events c', p) else None) ->
  wf (with_channel p c' k e).
Proof.
  intros Hwf Hc Hfd Hi Hown Hk Hint.
  assert (channels (with_channel p c' k e) !! p = Some c') as Hp by apply lookup_insert_eq.
  assert (m_channels (with_channel p c' k e) !! m_fd c = Some p) as Hm.
  { simpl. rewrite <- Hfd. apply lookup_insert_eq. }
  apply (wf_change e _ p c c' (m_fd c)); auto.
  - intros fd' Hd. simpl. rewrite lookup_insert_ne; congruence.
  - intros q Hq. simpl. by rewrite lookup_insert_ne.
  - simpl. rewrite Hint. symmetry. by apply watched_at.
Qed.

(** The kernel operation that goes with each index keeps the invariant. *)
Lemma ctl_step p c c1 e :
  wf e -> channels e !! p = Some c -> m_fd c1 = m_fd c -> m_index c1 = m_index c ->
  may_update p e ->
  let op := if decide (m_index c = kAdded)
            then (if isRegistered c1 then EPOLL_CTL_MOD else EPOLL_CTL_DEL)
            else EPOLL_CTL_ADD in
  exists k, epoll_ctl (kernel e) op (m_fd c1) (m_events c1, p) = (k, 0) /\
    wf (with_channel p (updated c1) k e).
Proof.
  intros Hwf Hc Hfd Hi (c0 & Hc0 & Hmay). rewrite Hc in Hc0. simplify_eq. rename c0 into c.
  assert (m_channels e !! m_fd c = None \/ m_channels e !! m_fd c = Some p) as Hown
    by (destruct (m_index c); auto).
  pose proof (wf_kernel e Hwf (m_fd c)) as Hk. cbv zeta.
  assert (watched e (m_fd c) = if decide (m_index c = kAdded) then Some (m_events c, p) else None)
    as Hw.
  { destruct (m_index c) eqn:Ei; [unfold watched; by rewrite Hmay | |];
      by rewrite (watched_at _ _ _ _ Hmay Hc), Ei. }
  rewrite Hw in Hk. unfold updated. rewrite Hi. case_decide as Ei.
  - destruct (isRegistered c1).
    + destruct (ctl_mod (kernel e) (m_fd c1) (m_events c1, p)) as [Hr Hs].
      { rewrite Hfd, Hk. eauto. }
      destruct (epoll_ctl _ _ _ _) as [k ret]. simpl in *. subst. exists k. split; [done|].
      eapply wf_with_channel; eauto; simpl; rewrite ?Hs, ?Hfd;
        intros; rewrite ?lookup_insert_eq, ?lookup_insert_ne; done.
    + destruct (ctl_del (kernel e) (m_fd c1) (m_events c1, p)) as [Hr Hs].
      { rewrite Hfd, Hk. eauto. }
      destruct (epoll_ctl _ _ _ _) as [k ret]. simpl in *. subst. exists k. split; [done|].
      eapply wf_with_channel; eauto; simpl; rewrite ?Hs, ?Hfd;
        intros; rewrite ?lookup_delete_eq, ?lookup_delete_ne; done.
  - destruct (ctl_add (kernel e) (m_fd c1) (m_events c1, p)) as [Hr Hs].
    { by rewrite Hfd, Hk. }
    destruct (epoll_ctl _ _ _ _) as [k ret]. simpl in *. subst. exists k. split; [done|].
    eapply wf_with_channel; eauto; simpl; rewrite ?Hs, ?Hfd;
      intros; rewrite ?lookup_insert_eq, ?lookup_insert_ne; done.
Qed.

Lemma change_events_ok f p e c :
  wf e -> channels e !! p = Some c -> may_update p e -> keeps_identity f ->
  exists k, change_events f p e = Ok (with_channel p (updated (f c)) k e) /\
    wf (with_channel p (updated (f c)) k e).
Proof.
  intros Hwf Hc Hmay Hf. destruct (Hf c) as [Hfd Hidx].
  destruct (ctl_step p c (f c) e) as (k & Hctl & Hwf'); auto.
  exists k. split; [|done]. clear Hwf'.
  destruct Hmay as (c0 & Hc0 & Hmay). rewrite Hc in Hc0. simplify_eq. rename c0 into c.
  unfold change_events. rewrite (deref_Ok _ _ _ Hc). simpl.
  assert (channels (set_channel p (f c) e) !! p = Some (f c)) as Hc1 by apply lookup_insert_eq.
  unfold updateChannel. rewrite (deref_Ok _ _ _ Hc1). simpl. unfold with_channel, updated.
  rewrite Hidx in *. destruct (m_index c) eqn:Ei; simpl in *.
  - erewrite update_ok; [|apply lookup_insert_eq | exact Hctl]. simpl.
    by rewrite insert_insert_eq.
  - rewrite registered_as_Ok by (simpl; by rewrite Hfd). simpl.
    destruct (isRegistered (f c)); (erewrite update_ok; [|exact Hc1 | exact Hctl]); simpl.
    + replace (setIndex kAdded (f c)) with (f c) by (by rewrite <- Hidx, setIndex_id).
      by rewrite Hfd, (insert_id (m_channels e)).
    + unfold set_channel; simpl. by rewrite insert_insert_eq, Hfd, (insert_id (m_channels e)).
  - rewrite registered_as_Ok by (simpl; by rewrite Hfd). simpl.
    erewrite update_ok; [|apply lookup_insert_eq | exact Hctl]. simpl.
    by rewrite insert_insert_eq, Hfd, (insert_id (m_channels e)).
Qed.

Lemma may_update_in p e c :
  channels e !! p = Some c -> m_channels e !! m_fd c = Some p -> m_index c <> kNew -> may_update p e.
Proof. intros H1 H2 H3. exists c. split; [done|]. by destruct (m_index c). Qed.

Lemma removeChannel_ok p e c :
  wf e -> channels e !! p = Some c -> m_channels e !! m_fd c = Some p ->
  exists e', removeChannel p e = Ok e' /\ wf e' /\ logged e' = logged e /\
    m_channels e' = delete (m_fd c) (m_channels e) /\
    channels e' = <[p := setIndex kDeleted c]> (channels e) /\
    interest (kernel e') = delete (m_fd c) (interest (kernel e)).
Proof.
  intros Hwf Hc Hm. destruct (wf_map e Hwf _ _ Hm) as (c0 & Hc0 & _ & Hnew).
  rewrite Hc in Hc0. injection Hc0 as <-.
  pose proof (wf_kernel e Hwf (m_fd c)) as Hk. rewrite (watched_at _ _ _ _ Hm Hc) in Hk.
  unfold removeChannel. rewrite (deref_Ok _ _ _ Hc). simpl.
  rewrite registered_as_Ok by done. simpl.
  rewrite bool_decide_eq_true_2 by (destruct (m_index c); [done | auto | auto]). simpl.
  assert (exists k, (if decide (m_index c = kAdded)
       then e ← update EPOLL_CTL_DEL p e; Ok (set_channel p (setIndex kDeleted c) e)
       else Ok e) = Ok (mkEpoller (m_channels e) (<[p := setIndex kDeleted c]> (channels e)) k (logged e))
       /\ interest k = delete (m_fd c) (interest (kernel e))) as (k & -> & Hs).
  { case_decide as Ei.
    - destruct (ctl_del (kernel e) (m_fd c) (m_events c, p)) as [Hr Hs]; [rewrite Hk; eauto|].
      destruct (epoll_ctl (kernel e) EPOLL_CTL_DEL (m_fd c) (m_events c, p)) as [k ret] eqn:E.
      simpl in *. subst. exists k. by rewrite (update_ok _ _ _ _ k Hc E).
    - exists (kernel e). rewrite delete_id by done. split; [|done].
      assert (m_index c = kDeleted) as Ei' by (by destruct (m_index c)).
      rewrite insert_id; [by destruct e|]. rewrite Hc. by destruct c; simpl in *; subst. }
  simpl. eexists. split; [done|]. split_and!; try done.
  apply (wf_change e _ p c (setIndex kDeleted c) (m_fd c)); auto; simpl.
  - intros. by rewrite lookup_delete_ne.
  - intros. by rewrite lookup_insert_ne.
  - intros. by rewrite Hs, lookup_delete_ne.
  - apply lookup_insert_eq.
  - right. by rewrite lookup_delete_eq.
  - unfold watched. simpl. by rewrite Hs, !lookup_delete_eq.
Qed.

(** An operation of a client on a channel. *)
Inductive chan_op := EnableReading | EnableWriting | DisableReading | DisableWriting | DisableAll.

Definition run_chan_op (op : chan_op) : chan_ptr -> Epoller -> res Epoller :=
  match op with
  | EnableReading => enableReading
  | EnableWriting => enableWriting
  | DisableReading => disableReading
  | DisableWriting => disableWriting
  | DisableAll => disableAll
  end.

Definition mask_of (op : chan_op) : Channel -> Channel :=
  match op with
  | EnableReading => reading_on
  | EnableWriting => writing_on
  | DisableReading => reading_off
  | DisableWriting => writing_off
  | DisableAll => all_off
  end.

Lemma run_chan_op_eq op p e :
  run_chan_op op p e = change_events (mask_of op) p e.
Proof. by destruct op. Qed.

Lemma keeps_identity_mask op : keeps_identity (mask_of op).
Proof. by destruct op. Qed.

Lemma wf_delete p e :
  wf e -> (forall fd, m_channels e !! fd <> Some p) ->
  wf (mkEpoller (m_channels e) (delete p (channels e)) (kernel e) (logged e)).
Proof.
  intros Hwf Hnot. split; simpl.
  - intros fd q Hq. rewrite lookup_delete_ne by (intros ->; exact (Hnot _ Hq)). by apply wf_map.
  - intros q c Hq Hi. apply lookup_delete_Some in Hq as [_ Hq]. by apply wf_added.
  - intros fd. rewrite (wf_kernel e Hwf). unfold watched. simpl.
    destruct (m_channels e !! fd) as [q|] eqn:Eq; [|done]. simpl.
    rewrite lookup_delete_ne; [done|]. intros ->. exact (Hnot _ Eq).
Qed.

Lemma map_injective e fd fd' p : wf e ->
  m_channels e !! fd = Some p -> m_channels e !! fd' = Some p -> fd = fd'.
Proof.
  intros Hwf H1 H2. destruct (wf_map e Hwf _ _ H1) as (c1 & Hc1 & <- & _).
  destruct (wf_map e Hwf _ _ H2) as (c2 & Hc2 & <- & _). congruence.
Qed.

Lemma watch_frame p c' k e fd :
  wf e -> m_channels e !! m_fd c' = Some p -> fd <> m_fd c' ->
  wf (with_channel p c' k e) -> interest k !! fd = interest (kernel e) !! fd.
Proof.
  intros Hwf Hm Hfd Hwf'. pose proof (wf_kernel _ Hwf' fd) as Hk. simpl in Hk.
  rewrite Hk, (wf_kernel _ Hwf). unfold watched. simpl. rewrite lookup_insert_ne by done.
  destruct (m_channels e !! fd) as [q|] eqn:Eq; [|done]. simpl.
  rewrite lookup_insert_ne; [done|]. intros <-.
  exact (Hfd (map_injective e _ _ _ Hwf Eq Hm)).
Qed.

(** The body of the destructor: disable and remove, if registered. *)
Lemma unregister_ok p e c :
  wf e -> channels e !! p = Some c ->
  exists e1, (if match m_channels e !! m_fd c with
                 | Some q => bool_decide (q = p) | None => false end
              then e ← disableAll p e; removeChannel p e else Ok e) = Ok e1 /\
    wf e1 /\ (forall fd, m_channels e1 !! fd <> Some p) /\
    (forall fd, fd <> m_fd c -> interest (kernel e1) !! fd = interest (kernel e) !! fd).
Proof.
  intros Hwf Hc.
  assert (m_channels e !! m_fd c <> Some p -> forall fd, m_channels e !! fd <> Some p) as Habs.
  { intros Hn fd Hfd. destruct (wf_map e Hwf _ _ Hfd) as (c0 & Hc0 & <- & _). congruence. }
  destruct (m_channels e !! m_fd c) as [q|] eqn:Em; [|by exists e; auto].
  case_bool_decide as Eq; [subst q|exists e; split_and!; auto; apply Habs; congruence].
  destruct (wf_map e Hwf _ _ Em) as (c0 & Hc0 & _ & Hnew).
  rewrite Hc in Hc0. injection Hc0 as <-.
  destruct (change_events_ok all_off p e c) as (k & Hd & Hwf1);
    [done | done | by eapply may_update_in | done |].
  unfold disableAll. rewrite Hd. simpl.
  destruct (removeChannel_ok p _ (updated (all_off c)) Hwf1)
    as (e2 & -> & Hwf2 & _ & Hm2 & _ & Hk2); [apply lookup_insert_eq..|].
  exists e2. split_and!; [done | done | |].
  - intros fd Hfd. rewrite Hm2 in Hfd. simpl in Hfd.
    apply lookup_delete_Some in Hfd as [Hne Hfd]. rewrite lookup_insert_ne in Hfd by done.
    exact (Hne (map_injective e _ _ _ Hwf Em Hfd)).
  - intros fd Hfd. rewrite Hk2, lookup_delete_ne by done.
    apply (watch_frame p (updated (all_off c)) k e fd); done.
Qed.

Lemma set_revents_wf p c r e :
  wf e -> channels e !! p = Some c -> wf (set_channel p (setRevents r c) e).
Proof.
  intros Hwf Hc. split; simpl.
  - intros fd q Hq. destruct (wf_map e Hwf _ _ Hq) as (cq & Hcq & Hfd & Hi).
    destruct (decide (q = p)) as [->|].
    + rewrite Hc in Hcq. simplify_eq. rewrite lookup_insert_eq. eauto.
    + rewrite lookup_insert_ne by done. eauto.
  - intros q cq Hq Hi. destruct (decide (q = p)) as [->|].
    + rewrite lookup_insert_eq in Hq. simplify_eq. exact (wf_added e Hwf _ _ Hc Hi).
    + rewrite lookup_insert_ne in Hq by done. exact (wf_added e Hwf _ _ Hq Hi).
  - intros fd. rewrite (wf_kernel e Hwf). unfold watched. simpl.
    destruct (m_channels e !! fd) as [q|]; [|done]. simpl.
    destruct (decide (q = p)) as [->|]; [|by rewrite lookup_insert_ne].
    by rewrite Hc, lookup_insert_eq.
Qed.

(** A new channel object joins the store. *)
Lemma wf_new_channel p c e :
  wf e -> channels e !! p = None -> m_index c <> kAdded -> wf (set_channel p c e).
Proof.
  intros Hwf Hp Hi. split; simpl.
  - intros fd q Hq. destruct (wf_map e Hwf _ _ Hq) as (cq & Hcq & H).
    exists cq. rewrite lookup_insert_ne by congruence. by split.
  - intros q cq Hq Hadd. destruct (decide (q = p)) as [->|].
    + rewrite lookup_insert_eq in Hq. congruence.
    + rewrite lookup_insert_ne in Hq by done. by apply wf_added.
  - intros fd. rewrite (wf_kernel e Hwf). unfold watched. simpl.
    destruct (m_channels e !! fd) as [q|] eqn:Eq; [|done]. simpl.
    destruct (wf_map e Hwf _ _ Eq) as (cq & Hcq & _). by rewrite lookup_insert_ne by congruence.
Qed.

Lemma fillActiveChannels_ok evs active e :
  wf e -> Forall (fun ev => is_Some (channels e !! ev.2)) evs -> NoDup evs.*2 ->
  exists e', fillActiveChannels evs active e = Ok (active ++ evs.*2, e') /\ wf e' /\
    kernel e' = kernel e /\ m_channels e' = m_channels e /\
    (forall r p, (r, p) ∈ evs -> exists c, channels e' !! p = Some c /\ m_revents c = r) /\
    (forall p, p ∉ evs.*2 -> channels e' !! p = channels e !! p).
Proof.
  revert active e. induction evs as [|[r p] evs IH]; intros active e Hwf Hlive Hnd; simpl.
  { exists e. rewrite app_nil_r. split_and!; try done. intros r p []%not_elem_of_nil. }
  inversion_clear Hlive as [|?? [c Hc] Hl]. simpl in Hc.
  inversion_clear Hnd as [|?? Hp Hnd'].
  rewrite (deref_Ok _ _ _ Hc). simpl.
  destruct (IH (active ++ [p]) (set_channel p (setRevents r c) e))
    as (e' & -> & Hwf' & Hk & Hm & Hin & Hout); auto using set_revents_wf.
  { eapply Forall_impl; [exact Hl|]. intros ev Hev. simpl.
    destruct (decide (ev.2 = p)) as [->|]; [rewrite lookup_insert_eq; eauto|].
    by rewrite lookup_insert_ne. }
  exists e'. rewrite <- app_assoc. split_and!; try done.
  - intros r' p' [E|E]%elem_of_cons; [|eauto]. simplify_eq.
    rewrite Hout by done. simpl. rewrite lookup_insert_eq. eauto.
  - intros q [Hq Hq']%not_elem_of_cons. rewrite Hout by done. simpl.
    by rewrite lookup_insert_ne.
Qed.

(** ** Properties *)


(** Destroying a channel always succeeds and leaves no trace of it: it is
    not in the map, the kernel does not watch it, its memory is released, and
    every other channel is watched as before. *)
Theorem destroy_unregisters p e c :
  wf e -> channels e !! p = Some c ->
  exists e', destroy p e = Ok e' /\ wf e' /\ channels e' !! p = None /\
    (forall fd ev, interest (kernel e') !! fd <> Some (ev, p)) /\
    (forall fd, fd <> m_fd c -> interest (kernel e') !! fd = interest (kernel e) !! fd).
Proof.
  intros Hwf Hc. destruct (unregister_ok p e c) as (e1 & Hu & Hwf1 & Hnot & Hoth); auto.
  unfold destroy, hasChannel. rewrite (deref_Ok _ _ _ Hc). simpl. rewrite Hu. simpl.
  eexists. split; [done|]. split_and!; simpl.
  - by apply wf_delete.
  - apply lookup_delete_eq.
  - intros fd ev. rewrite (wf_kernel _ Hwf1). unfold watched.
    destruct (m_channels e1 !! fd) as [q|] eqn:Eq; [|done]. simpl.
    destruct (channels e1 !! q); [|done]. simpl. case_decide; [|done].
    intros ?. simplify_eq. exact (Hnot _ Eq).
  - done.
Qed.

(** Polling is safe: when [epoll_wait] reports entries of the interest
    list, every reported pointer is a live channel; [poll] returns them in
    order, records their events and keeps the invariant. *)
Theorem poll_safe evs active e :
  wf e -> Forall (fun ev => exists fd m, interest (kernel e) !! fd = Some (m, ev.2)) evs ->
  NoDup evs.*2 ->
  exists e', poll (WaitOk evs) active e = Ok (active ++ evs.*2, e') /\ wf e' /\
    kernel e' = kernel e /\ m_channels e' = m_channels e /\
    (forall r p, (r, p) ∈ evs -> exists c, channels e' !! p = Some c /\ m_revents c = r).
Proof.
  intros Hwf Hevs Hnd. cbn [poll].
  assert (Forall (fun ev => is_Some (channels e !! ev.2)) evs) as Hlive.
  { eapply Forall_impl; [exact Hevs|]. intros [r p] (fd & mm & H). simpl in *.
    rewrite (wf_kernel _ Hwf) in H. unfold watched in H.
    destruct (m_channels e !! fd) as [q|]; [|done]. simpl in H.
    destruct (channels e !! q) eqn:E; [|done]. simpl in H. case_decide; simplify_eq. eauto. }
  destruct (fillActiveChannels_ok evs active e) as (e' & ?&?&?&?&?&_); eauto 10.
Qed.

End WithKernel.
Arguments Epoller : clear implicits.

(** ** Moving a poller: its descriptor and its array of events *)

Record Handle := mkHandle { m_epoll_fd : Z; m_events_size : Z }.

(** [Epoller(Epoller &&)]: the new object and the old one. *)
Definition move_construct (from : Handle) : Handle * Handle :=
  (mkHandle (-1) (m_events_size from), mkHandle (m_epoll_fd from) 0).

(** [operator=(Epoller &&)]; [self] tells whether both are one object. *)
Definition move_assign (self : bool) (this from : Handle) : Handle * Handle :=
  if self then (this, this)
  else (mkHandle (m_epoll_fd from) (m_events_size from), mkHandle (-1) 0).

(** The assignment hands the descriptor over, the constructor does not: the new
    object has none and the old one closes it. *)
Lemma move_descriptors this from :
  m_epoll_fd (move_assign false this from).1 = m_epoll_fd from /\
  m_epoll_fd (move_construct from).1 = -1 /\ m_epoll_fd (move_construct from).2 = m_epoll_fd from.
Proof. done. Qed.

(** ** A kernel that keeps the contract *)

Definition map_ctl (k : gmap Z (Z * chan_ptr)) (op : epoll_op) (fd : Z) (ev : Z * chan_ptr)
    : gmap Z (Z * chan_ptr) * Z :=
  match op, k !! fd with
  | EPOLL_CTL_ADD, None => (<[fd := ev]> k, 0)
  | EPOLL_CTL_MOD, Some _ => (<[fd := ev]> k, 0)
  | EPOLL_CTL_DEL, Some _ => (delete fd k, 0)
  | _, _ => (k, -1)
  end.

#[global] Program Instance map_kernel : EpollKernel (gmap Z (Z * chan_ptr)) :=
  {| epoll_ctl := map_ctl; interest := fun k => k |}.
Next Obligation. intros k [] fd e; unfold map_ctl; destruct (k !! fd); simpl; done. Qed.
Next Obligation. intros k fd e H. unfold map_ctl. by rewrite H. Qed.
Next Obligation. intros k fd e [x H]. unfold map_ctl. by rewrite H. Qed.
Next Obligation. intros k fd e [x H]. unfold map_ctl. by rewrite H. Qed.
Next Obligation. intros k fd e [x H]. unfold map_ctl. by rewrite H. Qed.
Next Obligation. intros k [] fd e Hop H; unfold map_ctl; rewrite H; done. Qed.

(** A poller with one new channel, of descriptor 7. *)
Definition one_channel : Epoller (gmap Z (Z * chan_ptr)) :=
  mkEpoller ∅ {[1%positive := new 7]} ∅ 0.

Lemma one_channel_wf : wf one_channel.
Proof.
  split; simpl.
  - intros fd p H. by rewrite lookup_empty in H.
  - intros p c [<- <-]%lookup_singleton_Some. done.
  - intros fd. by rewrite lookup_empty.
Qed.

Lemma one_channel_may_update : may_update 1%positive one_channel.
Proof. exists (new 7). split; [apply lookup_singleton_eq | apply lookup_empty]. Qed.


(** The same poller with the channel added for reading. *)
Definition one_added : Epoller (gmap Z (Z * chan_ptr)) :=
  mkEpoller {[7 := 1%positive]} {[1%positive := setIndex kAdded (reading_on (new 7))]}
    {[7 := (3, 1%positive)]} 0.

Lemma one_added_wf : wf one_added.
Proof.
  split; simpl.
  - intros fd p [<- <-]%lookup_singleton_Some. eexists. split; [apply lookup_singleton_eq | done].
  - intros p c [<- <-]%lookup_singleton_Some. done.
  - intros fd. destruct (decide (fd = 7)) as [->|]; [done|].
    unfold watched. simpl. by rewrite !lookup_singleton_ne.
Qed.

Lemma destroy_unregisters_witness :
  exists e', destroy 1%positive one_added = Ok e' /\ wf e' /\ channels e' !! 1%positive = None /\
    (forall fd ev, interest (kernel e') !! fd <> Some (ev, 1%positive)) /\
    (forall fd, fd <> 7 -> interest (kernel e') !! fd = interest (kernel one_added) !! fd).
Proof.
  apply (destroy_unregisters 1%positive one_added (setIndex kAdded (reading_on (new 7)))
           one_added_wf).
  apply lookup_singleton_eq.
Defined.

Lemma poll_safe_witness :
  exists e', poll (WaitOk [(1, 1%positive)]) [] one_added = Ok ([] ++ [(1, 1%positive)].*2, e') /\
    wf e' /\ kernel e' = kernel one_added /\ m_channels e' = m_channels one_added /\
    (forall r p, (r, p) ∈ [(1, 1%positive)] -> exists c, channels e' !! p = Some c /\ m_revents c = r).
Proof.
  apply (poll_safe [(1, 1%positive)] [] one_added one_added_wf).
  - repeat constructor. exists 7, 3. reflexivity.
  - apply NoDup_singleton.
Defined.

End Epoll.
