(* ===== verification/Timestamp.v ===== *)
(** * Timestamp: Timer/timestamp.h

    A point of the steady clock, in nanoseconds since the clock's epoch.
    [double] seconds are binary64 numbers of SpecFloat, so that the
    conversion to microseconds truncates as the code does.  The calendar is
    that of [std::gmtime], for the times a steady clock gives (not before
    its epoch). *)

From Stdlib Require Import ZArith Lia Ascii String SpecFloat.
From stdpp Require Import options.
From S2P Require Import Prelude CStd.

(** ** Doubles *)

Abbreviation double := spec_float.

Definition double_of_Z (z : Z) : double := binary_normalize 53 1024 z 0 false.
Definition fmul : double -> double -> double := SFmul 53 1024.
Definition double_ltb : double -> double -> bool := SFltb.

(** The integer part, for finite numbers. *)
Definition trunc_double (x : double) : option Z :=
  match x with
  | S754_zero _ => Some 0
  | S754_finite s m e =>
      let a := if 0 <=? e then Z.pos m * 2 ^ e else Z.pos m / 2 ^ (- e) in
      Some (if s then - a else a)
  | _ => None
  end.

Definition INT64_MAX : Z := 9223372036854775807.
Definition int64_op (z : Z) : res Z :=
  if (- INT64_MAX - 1 <=? z) && (z <=? INT64_MAX) then Ok z else Fault Undefined.

Lemma int64_op_Ok z : - INT64_MAX - 1 <= z <= INT64_MAX -> int64_op z = Ok z.
Proof. intros. unfold int64_op. by decide_bool. Qed.

(** ** The calendar of [gmtime] *)

Record tm := mkTm {
  tm_year : Z; tm_mon : Z; tm_mday : Z; tm_hour : Z; tm_min : Z; tm_sec : Z
}.

Definition is_leap (y : Z) : bool :=
  ((y mod 4 =? 0) && negb (y mod 100 =? 0)) || (y mod 400 =? 0).

Definition days_in_year (y : Z) : Z := if is_leap y then 366 else 365.

Definition month_lengths (y : Z) : list Z :=
  [31; if is_leap y then 29 else 28; 31; 30; 31; 30; 31; 31; 30; 31; 30; 31].

(** The year that holds day [d] counted from 1 January of year [y]. *)
Fixpoint year_of (fuel : nat) (y d : Z) : Z * Z :=
  match fuel with
  | O => (y, d)
  | S f => if d <? days_in_year y then (y, d) else year_of f (y + 1) (d - days_in_year y)
  end.

(** The month that holds day [d], months counted from [m]. *)
Fixpoint month_of (ls : list Z) (m d : Z) : Z * Z :=
  match ls with
  | [] => (m, d)
  | l :: ls' => if d <? l then (m, d) else month_of ls' (m + 1) (d - l)
  end.

(** [std::gmtime]; [tm_year] counts from 1900, [tm_mon] from 0. *)
Definition gmtime (time : Z) : tm :=
  let days := time / 86400 in
  let secs := time mod 86400 in
  let '(y, d) := year_of (S (Z.to_nat (days / 365))) 1970 days in
  let '(mon, md) := month_of (month_lengths y) 0 d in
  {| tm_year := y - 1900; tm_mon := mon; tm_mday := md + 1;
     tm_hour := secs / 3600; tm_min := secs mod 3600 / 60; tm_sec := secs mod 60 |}.

(** [printf] conversions of non-negative numbers: width [w], padded with [c]. *)
Definition pad_left (c : ascii) (w : nat) (s : bytes) : bytes :=
  replicate (w - length s)%nat c ++ s.
Definition fmt_d (w : nat) (z : Z) : bytes := pad_left " " w (to_string z).
Definition fmt_0d (w : nat) (z : Z) : bytes := pad_left "0" w (to_string z).

Module Ts.

(** Nanoseconds since the epoch of the clock. *)
Record Timestamp := mkTimestamp { m_time_point : Z }.

#[global] Instance Timestamp_eq_dec : EqDecision Timestamp.
Proof. solve_decision. Defined.

Definition zero : Timestamp := mkTimestamp 0.

Definition gt (a b : Timestamp) : bool := m_time_point b <? m_time_point a.
Definition lt (a b : Timestamp) : bool := m_time_point a <? m_time_point b.
Definition eq (a b : Timestamp) : bool := m_time_point a =? m_time_point b.

(** [duration_cast] truncates towards zero. *)
Definition secondsSinceEpoch (t : Timestamp) : Z := Z.quot (m_time_point t) 1000000000.
Definition microsecondsSinceEpoch (t : Timestamp) : Z := Z.quot (m_time_point t) 1000.

Definition kMicroSecondsPerSecond : Z := 1000 * 1000.

Definition timeDifference (high low : Timestamp) : Z :=
  Z.quot (m_time_point high - m_time_point low) 1000.

(** [duration_cast<microseconds>(duration<double>(seconds))] *)
Definition to_microseconds (seconds : double) : res Z :=
  match trunc_double (fmul seconds (double_of_Z 1000000)) with
  | Some us => int64_op us
  | None => Fault Undefined
  end.

Definition addTime (timestamp : Timestamp) (seconds : double) : res Timestamp :=
  us ← to_microseconds seconds;
  ns ← int64_op (us * 1000);
  t ← int64_op (m_time_point timestamp + ns);
  Ok (mkTimestamp t).

(** [snprintf(buf, 32, "%4d%02d%02d %02d:%02d:%02d.%06ld", ...)] *)
Definition toString (t : Timestamp) : bytes :=
  let seconds := secondsSinceEpoch t in
  let microseconds_part := microsecondsSinceEpoch t - seconds * 1000000 in
  let c := gmtime seconds in
  take 31 (fmt_d 4 (tm_year c + 1900) ++ fmt_0d 2 (tm_mon c + 1) ++ fmt_0d 2 (tm_mday c) ++
           bs " " ++ fmt_0d 2 (tm_hour c) ++ bs ":" ++ fmt_0d 2 (tm_min c) ++ bs ":" ++
           fmt_0d 2 (tm_sec c) ++ bs "." ++ fmt_0d 6 microseconds_part).

(** The first 17 characters of the same text. *)
Definition toDefaultLogString (t : Timestamp) : bytes := take 17 (toString t).

(** ** Reading a log time back *)

(** Days before 1 January of the [n]-th year after 1970. *)
Fixpoint days_before (n : nat) : Z :=
  match n with
  | O => 0
  | S n' => days_before n' + days_in_year (1970 + Z.of_nat n')
  end.

Definition sum_Z (l : list Z) : Z := foldr Z.add 0 l.

Definition seconds_of_civil (y mon md h mi s : Z) : Z :=
  (days_before (Z.to_nat (y - 1970)) + sum_Z (take (Z.to_nat (mon - 1)) (month_lengths y)) + (md - 1))
    * 86400 + h * 3600 + mi * 60 + s.

Definition read_log_time (l : bytes) : Z :=
  seconds_of_civil (dec_value (slice 0 4 l)) (dec_value (slice 4 6 l)) (dec_value (slice 6 8 l))
    (dec_value (slice 9 11 l)) (dec_value (slice 12 14 l)) (dec_value (slice 15 17 l)).

(** ** Lemmas: fixed-width numbers *)

Lemma fmt_0d_spec w z :
  0 <= z < 10 ^ Z.of_nat w -> (0 < w)%nat ->
  length (fmt_0d w z) = w /\ dec_value (fmt_0d w z) = z.
Proof.
  intros Hz Hw. unfold fmt_0d, pad_left, to_string.
  rewrite (proj2 (Z.ltb_ge z 0)) by lia. split.
  - pose proof (udec_length w z Hz Hw). rewrite length_app, length_replicate. lia.
  - rewrite dec_value_zeros. apply udec_value. lia.
Qed.

(** A four-digit number needs no padding. *)
Lemma fmt_d_four z : 1000 <= z <= 9999 -> length (fmt_d 4 z) = 4%nat /\ dec_value (fmt_d 4 z) = z.
Proof.
  intros Hz. unfold fmt_d, pad_left, to_string.
  rewrite (proj2 (Z.ltb_ge z 0)) by lia.
  assert (length (udec z) = 4)%nat as Hl.
  { pose proof (udec_length 4 z ltac:(lia) ltac:(lia)).
    pose proof (dec_value_bound _ (udec_is_digit z)) as Hb.
    rewrite udec_value in Hb by lia.
    destruct (decide (length (udec z) = 4%nat)) as [|Hn]; [done|].
    assert (10 ^ zlen (udec z) <= 10 ^ 3) by (apply Z.pow_le_mono_r; unfold zlen; lia). lia. }
  rewrite Hl. simpl. split; [done | apply udec_value; lia].
Qed.

(** ** Lemmas: the calendar *)

Lemma days_in_year_bounds y : 365 <= days_in_year y <= 366.
Proof. unfold days_in_year. destruct (is_leap y); lia. Qed.

Lemma days_before_bound n : 365 * Z.of_nat n <= days_before n.
Proof.
  induction n as [|n IH]; [done|]. cbn [days_before].
  pose proof (days_in_year_bounds (1970 + Z.of_nat n)). lia.
Qed.

Lemma year_of_spec fuel n d :
  0 <= d < 365 * Z.of_nat fuel ->
  exists n' d', year_of fuel (1970 + Z.of_nat n) d = (1970 + Z.of_nat n', d') /\
    days_before n' + d' = days_before n + d /\ 0 <= d' < days_in_year (1970 + Z.of_nat n').
Proof.
  revert n d. induction fuel as [|f IH]; intros n d Hd; [lia|]. cbn [year_of].
  destruct (Z.ltb_spec d (days_in_year (1970 + Z.of_nat n))) as [Hlt|Hge].
  - exists n, d. repeat split; lia.
  - pose proof (days_in_year_bounds (1970 + Z.of_nat n)).
    destruct (IH (S n) (d - days_in_year (1970 + Z.of_nat n))) as (n' & d' & Hy & Hs & Hr); [lia|].
    exists n', d'. replace (1970 + Z.of_nat n + 1) with (1970 + Z.of_nat (S n)) by lia.
    rewrite Hy. split_and!; auto; cbn [days_before] in Hs; lia.
Qed.

Lemma month_of_spec ls m d :
  Forall (fun l => l <= 31) ls -> 0 <= d < sum_Z ls ->
  exists k d', month_of ls m d = (m + Z.of_nat k, d') /\ (k < length ls)%nat /\
    sum_Z (take k ls) + d' = d /\ 0 <= d' < 31.
Proof.
  intros Hls. revert m d. induction Hls as [|l ls Hl Hls IH]; intros m d Hd; simpl in *; [lia|].
  destruct (Z.ltb_spec d l) as [Hlt|Hge].
  - exists 0%nat, d. simpl. repeat split; (lia || f_equal; lia).
  - destruct (IH (m + 1) (d - l)) as (k & d' & -> & Hk & Hs & Hr); [lia|].
    exists (S k), d'. simpl. repeat split; (lia || f_equal; lia).
Qed.

Lemma month_lengths_sum y : sum_Z (month_lengths y) = days_in_year y.
Proof. unfold month_lengths, days_in_year. destruct (is_leap y); done. Qed.

Lemma month_lengths_bound y : Forall (fun l => l <= 31) (month_lengths y).
Proof. unfold month_lengths. destruct (is_leap y); repeat (constructor; [lia|]); constructor. Qed.

(** [gmtime] gives fields in range that denote the time. *)
Lemma gmtime_spec time :
  0 <= time <= INT64_MAX / 1000000000 ->
  let c := gmtime time in
  1000 <= tm_year c + 1900 <= 9999 /\ 0 <= tm_mon c < 12 /\ 0 <= tm_mday c < 100 /\
  0 <= tm_hour c < 24 /\ 0 <= tm_min c < 60 /\ 0 <= tm_sec c < 60 /\
  seconds_of_civil (tm_year c + 1900) (tm_mon c + 1) (tm_mday c) (tm_hour c) (tm_min c) (tm_sec c)
  = time.
Proof.
  intros Ht. change (INT64_MAX / 1000000000) with 9223372036 in Ht. unfold gmtime.
  set (days := time / 86400). set (secs := time mod 86400).
  assert (0 <= days <= 106751 /\ 0 <= secs < 86400 /\ days * 86400 + secs = time)
    as (Hdays & Hsecs & Hsum) by (unfold days, secs; Z.div_mod_to_equations; lia).
  destruct (year_of_spec (S (Z.to_nat (days / 365))) 0 days) as (n & d & Hy & Hs & Hr);
    [Z.div_mod_to_equations; lia|].
  change (1970 + Z.of_nat 0) with 1970 in Hy. rewrite Hy.
  pose proof (days_before_bound n). simpl in Hs.
  destruct (month_of_spec (month_lengths (1970 + Z.of_nat n)) 0 d) as (k & d' & Hm & Hk & Hms & Hmr).
  { apply month_lengths_bound. }
  { by rewrite month_lengths_sum. }
  rewrite Hm. cbn [tm_year tm_mon tm_mday tm_hour tm_min tm_sec].
  change (length (month_lengths _)) with 12%nat in Hk.
  split_and!; try (clear -Hsecs Hs Hr Hdays H Hk Hmr; Z.div_mod_to_equations; lia).
  unfold seconds_of_civil.
  replace (1970 + Z.of_nat n - 1900 + 1900) with (1970 + Z.of_nat n) by lia.
  replace (Z.to_nat (1970 + Z.of_nat n - 1970)) with n by lia.
  replace (Z.to_nat (0 + Z.of_nat k + 1 - 1)) with k by lia.
  clear -Hsum Hs Hms Hsecs. Z.div_mod_to_equations. lia.
Qed.

(** Where the fields of the fixed-width text stand. *)
Lemma log_layout (A B C D E F rest : bytes) :
  length A = 4%nat -> length B = 2%nat -> length C = 2%nat ->
  length D = 2%nat -> length E = 2%nat -> length F = 2%nat ->
  let text := A ++ B ++ C ++ bs " " ++ D ++ bs ":" ++ E ++ bs ":" ++ F in
  take 17 (take 31 (A ++ B ++ C ++ bs " " ++ D ++ bs ":" ++ E ++ bs ":" ++ F ++ rest)) = text /\
  length text = 17%nat /\
  slice 0 4 text = A /\ slice 4 6 text = B /\ slice 6 8 text = C /\
  slice 9 11 text = D /\ slice 12 14 text = E /\ slice 15 17 text = F.
Proof.
  intros HA HB HC HD HE HF text.
  assert (length (bs " ") = 1%nat) as H1 by done. assert (length (bs ":") = 1%nat) as H2 by done.
  assert (length text = 17%nat) as Hl.
  { unfold text. rewrite !length_app. lia. }
  split_and!; [| done | ..].
  - rewrite take_take. replace (A ++ _) with (text ++ rest) by (unfold text; by rewrite <- !app_assoc).
    by rewrite take_app_length'.
  - unfold text. apply slice_head. unfold zlen. lia.
  - unfold text. apply slice_mid; len_lia.
  - unfold text. rewrite (app_assoc A). apply slice_mid; len_lia.
  - replace text with ((A ++ B ++ C ++ bs " ") ++ D ++ (bs ":" ++ E ++ bs ":" ++ F))
      by (unfold text; by rewrite <- !app_assoc).
    apply slice_mid; len_lia.
  - replace text with ((A ++ B ++ C ++ bs " " ++ D ++ bs ":") ++ E ++ (bs ":" ++ F))
      by (unfold text; by rewrite <- !app_assoc).
    apply slice_mid; len_lia.
  - replace text with ((A ++ B ++ C ++ bs " " ++ D ++ bs ":" ++ E ++ bs ":") ++ F)
      by (unfold text; by rewrite <- !app_assoc).
    apply slice_tail; len_lia.
Qed.

(** ** Properties *)

(** The time of a log line is fixed-width and exact to the second: 17
    characters that, read back as a calendar date and time, denote the whole
    seconds of the timestamp. *)
Theorem log_time_roundtrip t :
  0 <= m_time_point t <= INT64_MAX ->
  length (toDefaultLogString t) = 17%nat /\
  read_log_time (toDefaultLogString t) = secondsSinceEpoch t.
Proof.
  intros Ht.
  assert (0 <= secondsSinceEpoch t <= INT64_MAX / 1000000000) as Hs.
  { unfold secondsSinceEpoch. rewrite Z.quot_div_nonneg by lia.
    unfold INT64_MAX in *. Z.div_mod_to_equations. lia. }
  pose proof (gmtime_spec _ Hs) as Hg. cbv zeta in Hg. unfold toDefaultLogString, toString.
  set (c := gmtime (secondsSinceEpoch t)) in *.
  destruct Hg as (Hy & Hmo & Hd & Hh & Hmi & Hse & Hval).
  destruct (fmt_d_four _ Hy) as [Ly Vy].
  destruct (fmt_0d_spec 2 (tm_mon c + 1)) as [Lmo Vmo]; [simpl; lia..|].
  destruct (fmt_0d_spec 2 (tm_mday c)) as [Ld Vd]; [simpl; lia..|].
  destruct (fmt_0d_spec 2 (tm_hour c)) as [Lh Vh]; [simpl; lia..|].
  destruct (fmt_0d_spec 2 (tm_min c)) as [Lmi Vmi]; [simpl; lia..|].
  destruct (fmt_0d_spec 2 (tm_sec c)) as [Lse Vse]; [simpl; lia..|].
  destruct (log_layout _ _ _ _ _ _ (bs "." ++ fmt_0d 6 (microsecondsSinceEpoch t -
              secondsSinceEpoch t * 1000000)) Ly Lmo Ld Lh Lmi Lse)
    as (-> & Hlen & S1 & S2 & S3 & S4 & S5 & S6).
  split; [done|]. unfold read_log_time. by rewrite S1, S2, S3, S4, S5, S6, Vy, Vmo, Vd, Vh, Vmi, Vse.
Qed.

Lemma log_time_roundtrip_witness :
  length (toDefaultLogString (mkTimestamp 4444911557050000)) = 17%nat /\
  read_log_time (toDefaultLogString (mkTimestamp 4444911557050000)) =
    secondsSinceEpoch (mkTimestamp 4444911557050000).
Proof. apply (log_time_roundtrip (mkTimestamp 4444911557050000)). simpl. unfold INT64_MAX. lia. Defined.

(** The timeout of an idle connection, added to a time. *)
Lemma addTime_eight t :
  0 <= m_time_point t <= INT64_MAX - 8000000000 ->
  addTime t (double_of_Z 8) = Ok (mkTimestamp (m_time_point t + 8000000000)).
Proof.
  intros Ht. unfold addTime.
  change (to_microseconds (double_of_Z 8)) with (@Ok Z 8000000). simpl.
  unfold int64_op at 1. unfold INT64_MAX in *. simpl.
  unfold int64_op. unfold INT64_MAX. decide_bool. done.
Qed.

End Ts.
