(* ===== verification/RBTreeTimer.v ===== *)
(** * RBTreeTimer: Timer/timer.h, Timer/rbtreetimer.h and
      Timer/rbtreetimer.cpp

    The timer queue of an event loop: a [std::set] of timers ordered by
    expiration alone, and one timerfd armed for the first of them.  The set
    is its elements in order; an insertion of an element equivalent to one
    that is there does nothing, as for [std::set].

    The timerfd is the kernel's ([TimerfdKernel], from its manual page), the
    clock is the sequence of readings [Timestamp::now()] gives, and the user's
    callbacks are a parameter. *)

From Stdlib Require Import ZArith Lia Sorted SpecFloat.
From stdpp Require Import options.
From S2P Require Import Prelude Channel Epoller Timestamp.
Import Ts.

(** [it_value] of [struct itimerspec]; [it_interval] is always zero here. *)
Record itimerspec := mkSpec { tv_sec : Z; tv_nsec : Z }.

Definition spec_valid (v : itimerspec) : bool :=
  (0 <=? tv_sec v) && (0 <=? tv_nsec v) && (tv_nsec v <=? 999999999).

Definition spec_ns (v : itimerspec) : Z := tv_sec v * 1000000000 + tv_nsec v.

(** [timerfd_settime]: a malformed value is refused and changes nothing, a
    zero value disarms the timer, any other arms it. *)
Class TimerfdKernel (T : Type) := {
  timerfd_settime : T -> itimerspec -> T * Z;
  armed : T -> option Z;
  settime_invalid : forall t v, spec_valid v = false ->
    (timerfd_settime t v).2 <> 0 /\ armed (timerfd_settime t v).1 = armed t;
  settime_valid : forall t v, spec_valid v = true ->
    (timerfd_settime t v).2 = 0 /\
    armed (timerfd_settime t v).1 = (if spec_ns v =? 0 then None else Some (spec_ns v))
}.

Module Timers.

Section WithKernel.
Context {K T Cb : Type} `{!EpollKernel K} `{!TimerfdKernel T}.

(** ** Timer *)

Record Timer := mkTimer {
  m_callback : Cb;
  m_expiration : Timestamp;
  m_interval : double;
  m_repeat : bool
}.

Definition newTimer (cb : Cb) (when : Timestamp) (interval : double) : Timer :=
  mkTimer cb when interval (double_ltb (double_of_Z 0) interval).

Definition restart (now : Timestamp) (t : Timer) : res Timer :=
  e ← addTime now (m_interval t);
  Ok (mkTimer (m_callback t) e (m_interval t) (m_repeat t)).

(** [operator<] *)
Definition timer_lt (a b : Timer) : bool := lt (m_expiration a) (m_expiration b).

(** ** The queue *)

(** [m_timer] in order, the channel of the timerfd, the timerfd, the poller it
    is registered with, the clock, the timers whose [addTimerInLoop] is queued
    in the loop, the errors logged, and the callbacks run so far. *)
Record RBTreeTimer := mkQueue {
  m_timer : list Timer;
  m_timer_channel : chan_ptr;
  timerfd : T;
  poller : Epoll.Epoller K;
  readings : nat -> Timestamp;
  clock : nat;
  queued : list Timer;
  errors : nat;
  fired : list Cb
}.

Definition set_timers (l : list Timer) (q : RBTreeTimer) : RBTreeTimer :=
  mkQueue l (m_timer_channel q) (timerfd q) (poller q) (readings q) (clock q) (queued q)
    (errors q) (fired q).

Definition set_poller (e : Epoll.Epoller K) (q : RBTreeTimer) : RBTreeTimer :=
  mkQueue (m_timer q) (m_timer_channel q) (timerfd q) e (readings q) (clock q) (queued q)
    (errors q) (fired q).

(** The constructor: [fd] is the new timerfd, which is disarmed, and [p] the
    address of its channel. *)
Definition new (p : chan_ptr) (timer_fd : Z) (fd : T) (readings : nat -> Timestamp) (e : Epoll.Epoller K)
    : RBTreeTimer :=
  mkQueue [] p fd (Epoll.set_channel p (Chan.new timer_fd) e) readings 0 [] 0 [].

(** [Timestamp::now()] *)
Definition now (q : RBTreeTimer) : Timestamp * RBTreeTimer :=
  (readings q (clock q),
   mkQueue (m_timer q) (m_timer_channel q) (timerfd q) (poller q) (readings q) (S (clock q))
     (queued q) (errors q) (fired q)).

(** [m_timer.insert(timer)] *)
Fixpoint set_insert (t : Timer) (l : list Timer) : list Timer :=
  match l with
  | [] => [t]
  | x :: l' =>
      if timer_lt t x then t :: l
      else if timer_lt x t then x :: set_insert t l'
      else l
  end.

Definition insertTimer (t : Timer) (q : RBTreeTimer) : bool * RBTreeTimer :=
  let earliestChanged :=
    match m_timer q with
    | [] => true
    | first :: _ => lt (m_expiration t) (m_expiration first)
    end in
  (earliestChanged, set_timers (set_insert t (m_timer q)) q).

Definition enableTimerfd (q : RBTreeTimer) : res RBTreeTimer :=
  c ← Epoll.deref (m_timer_channel q) (poller q);
  if negb (Chan.isRegistered c)
  then e ← Epoll.enableReading (m_timer_channel q) (poller q); Ok (set_poller e q)
  else Ok q.

(** The value [resetTimerFd] passes, with the division and remainder of C. *)
Definition reset_spec (expiration now : Timestamp) : itimerspec :=
  let diff := timeDifference expiration now in
  mkSpec (Z.quot diff kMicroSecondsPerSecond)
         (Z.rem diff kMicroSecondsPerSecond * 1000).

Definition resetTimerFd (t : Timer) (q : RBTreeTimer) : RBTreeTimer :=
  let '(n, q) := now q in
  let '(fd, ret) := timerfd_settime (timerfd q) (reset_spec (m_expiration t) n) in
  mkQueue (m_timer q) (m_timer_channel q) fd (poller q) (readings q) (clock q) (queued q)
    (if ret =? 0 then errors q else S (errors q)) (fired q).

(** [addTimerInLoop(timer)], in the loop thread. *)
Definition addTimerInLoop (t : Timer) (q : RBTreeTimer) : res RBTreeTimer :=
  q ← enableTimerfd q;
  let '(earliestChanged, q) := insertTimer t q in
  Ok (if earliestChanged : bool then resetTimerFd t q else q).

(** [addTimer(cb, when, interval)]: [runInLoop] runs the insertion at once in
    the loop thread and queues it elsewhere. *)
Definition addTimer (in_loop : bool) (cb : Cb) (when : Timestamp) (interval : double)
    (q : RBTreeTimer) : res RBTreeTimer :=
  let t := newTimer cb when interval in
  if in_loop then addTimerInLoop t q
  else Ok (mkQueue (m_timer q) (m_timer_channel q) (timerfd q) (poller q) (readings q) (clock q)
             (queued q ++ [t]) (errors q) (fired q)).

(** [EventLoop::runAfter(second, cb)] *)
Definition runAfter (in_loop : bool) (second : double) (cb : Cb) (q : RBTreeTimer) : res RBTreeTimer :=
  let '(n, q) := now q in
  when ← addTime n second;
  addTimer in_loop cb when (double_of_Z 0) q.

(** [EventLoop::runEvery(second, cb)] *)
Definition runEvery (in_loop : bool) (second : double) (cb : Cb) (q : RBTreeTimer) : res RBTreeTimer :=
  let '(n, q) := now q in
  when ← addTime n second;
  addTimer in_loop cb when second q.

Definition handleRepeatTimer (t : Timer) (q : RBTreeTimer) : res RBTreeTimer :=
  if m_repeat t then
    let '(n, q) := now q in
    t' ← restart n t;
    Ok (insertTimer t' q).2
  else Ok q.

(** [m_timer.lower_bound(now)]: the timers before it, and the rest. *)
Fixpoint split_expired (n : Timestamp) (l : list Timer) : list Timer * list Timer :=
  match l with
  | [] => ([], [])
  | x :: l' => if lt (m_expiration x) n
               then let '(a, b) := split_expired n l' in (x :: a, b) else ([], l)
  end.

(** The user's callbacks, run in the loop thread; they may add timers and
    change what they reach, of the type [W]. *)
Context {W : Type}.
Variable run_callback : Cb -> W -> RBTreeTimer -> res (W * RBTreeTimer).

(** [timer->run()] *)
Definition run (t : Timer) (w : W) (q : RBTreeTimer) : res (W * RBTreeTimer) :=
  run_callback (m_callback t) w
    (mkQueue (m_timer q) (m_timer_channel q) (timerfd q) (poller q) (readings q) (clock q)
       (queued q) (errors q) (fired q ++ [m_callback t])).

Fixpoint run_expired (l : list Timer) (w : W) (q : RBTreeTimer) : res (W * RBTreeTimer) :=
  match l with
  | [] => Ok (w, q)
  | t :: l' => '(w, q) ← run t w q; q ← handleRepeatTimer t q; run_expired l' w q
  end.

(** [handleRead()]; [read_ok]: the eight bytes of the timerfd could be read. *)
Definition handleRead (read_ok : bool) (w : W) (q : RBTreeTimer) : res (W * RBTreeTimer) :=
  if negb read_ok then Ok (w, q)
  else
    let '(n, q) := now q in
    let '(expired, rest) := split_expired n (m_timer q) in
    '(w, q) ← run_expired expired w (set_timers rest q);
    Ok (w, match m_timer q with
           | [] => q
           | first :: _ => resetTimerFd first q
           end).

(** ** The order of the set *)

Definition earlier (a b : Timer) : Prop :=
  m_time_point (m_expiration a) < m_time_point (m_expiration b).

(** Strictly ordered by expiration, so no two expire together. *)
Definition ordered (l : list Timer) : Prop := StronglySorted earlier l.

(** ** Lemmas: the set *)

Lemma timer_lt_spec a b : timer_lt a b = true <-> earlier a b.
Proof. apply Z.ltb_lt. Qed.

Definition same_time (a b : Timer) : Prop := m_expiration a = m_expiration b.

Lemma not_lt_same a b : timer_lt a b = false -> timer_lt b a = false -> same_time a b.
Proof.
  unfold timer_lt, lt, same_time. intros. reflect_bools.
  destruct (m_expiration a), (m_expiration b). simpl in *. f_equal. lia.
Qed.

Lemma set_insert_elem t l x : x ∈ set_insert t l -> x = t \/ x ∈ l.
Proof.
  induction l as [|y l IH]; simpl; [set_solver|].
  destruct (timer_lt t y); [set_solver|]. destruct (timer_lt y t); set_solver.
Qed.

Lemma set_insert_keeps t l x : x ∈ l -> x ∈ set_insert t l.
Proof.
  induction l as [|y l IH]; simpl; [set_solver|].
  destruct (timer_lt t y); [set_solver|]. destruct (timer_lt y t); set_solver.
Qed.

Lemma set_insert_ordered t l : ordered l -> ordered (set_insert t l).
Proof.
  induction 1 as [|x l Hl IH Hx]; simpl; [repeat constructor|].
  destruct (timer_lt t x) eqn:E1.
  - apply timer_lt_spec in E1. constructor; [by constructor|]. constructor; [done|].
    eapply Forall_impl; [exact Hx|]. unfold earlier in *. simpl. lia.
  - destruct (timer_lt x t) eqn:E2; [|by constructor].
    constructor; [done|]. apply Forall_forall. intros y [->|Hy]%set_insert_elem.
    + by apply timer_lt_spec.
    + rewrite Forall_forall in Hx. auto.
Qed.

(** Inserted, unless a timer with the same expiration is there. *)
Lemma set_insert_cases t l :
  ordered l ->
  (exists x, x ∈ l /\ same_time t x /\ set_insert t l = l) \/
  ((forall x, x ∈ l -> ~ same_time t x) /\ set_insert t l ≡ₚ t :: l).
Proof.
  induction 1 as [|x l Hl IH Hx]; simpl; [right; set_solver|].
  destruct (timer_lt t x) eqn:E1.
  - right. split; [|done]. apply timer_lt_spec in E1. rewrite Forall_forall in Hx.
    intros y Hy Hs. unfold same_time in Hs. unfold earlier in *.
    apply elem_of_cons in Hy as [->|Hy]; [rewrite Hs in E1; lia|].
    specialize (Hx _ Hy). rewrite <- Hs in Hx. lia.
  - destruct (timer_lt x t) eqn:E2.
    + apply timer_lt_spec in E2. destruct IH as [(y & Hy & Hs & Heq)|[Hn Hp]].
      * left. exists y. rewrite Heq. set_solver.
      * right. split; [|by rewrite Hp, Permutation_swap].
        intros y [->|Hy]%elem_of_cons; [|auto]. unfold same_time, earlier in *. intros Hs.
        rewrite Hs in E2. lia.
    + left. exists x. split_and!; [set_solver | | done]. by apply not_lt_same.
Qed.

(** The code's test for a new earliest timer is that it goes to the front. *)
Lemma earliest_front t q :
  ordered (m_timer q) ->
  (insertTimer t q).1 = true <-> set_insert t (m_timer q) = t :: m_timer q.
Proof.
  unfold insertTimer. simpl. destruct 1 as [|x l Hl Hx]; simpl; [done|].
  change (lt (m_expiration t) (m_expiration x)) with (timer_lt t x).
  destruct (timer_lt t x) eqn:E1; [done|]. split; [done|]. intros H.
  assert (length (x :: l) < length (t :: x :: l))%nat by (simpl; lia).
  destruct (timer_lt x t) eqn:E2; injection H as -> H.
  - apply timer_lt_spec in E2. unfold earlier in E2. lia.
  - apply (f_equal length) in H. simpl in H. lia.
Qed.

(** Whether a timer expires before [n], the test of [lower_bound]. *)
Definition expired (n : Timestamp) (t : Timer) : Prop := lt (m_expiration t) n = true.

#[global] Instance expired_dec n t : Decision (expired n t).
Proof. apply bool_eq_dec. Defined.

Lemma filter_none {A} (P : A -> Prop) `{!forall x, Decision (P x)} l :
  Forall (fun x => ~ P x) l -> filter P l = [].
Proof. induction 1; [done|]. by rewrite filter_cons, decide_False. Qed.

Lemma split_expired_spec n l :
  ordered l ->
  exists rest, split_expired n l = (filter (expired n) l, rest) /\
    filter (expired n) l ++ rest = l /\ ordered rest.
Proof.
  induction 1 as [|x l Hl IH Hx]; simpl; [by exists []; repeat constructor|].
  rewrite filter_cons. destruct (lt (m_expiration x) n) eqn:E.
  - destruct IH as (rest & -> & Heq & Ho). rewrite decide_True by done.
    exists rest. simpl. split_and!; [done | by rewrite Heq | done].
  - rewrite decide_False by (unfold expired; congruence).
    rewrite filter_none; [exists (x :: l); split_and!; [done..|by constructor]|].
    eapply Forall_impl; [exact Hx|]. unfold expired, earlier, lt in *. intros y Hy H.
    reflect_bools. lia.
Qed.

(** ** Lemmas: what an insertion and a callback may do *)

(** Time goes on, timers are only added, and the order is kept. *)
Record additive (q q' : RBTreeTimer) : Prop := {
  add_ordered : ordered (m_timer q) -> ordered (m_timer q');
  add_keeps : forall t, t ∈ m_timer q -> t ∈ m_timer q';
  add_readings : readings q' = readings q;
  add_clock : (clock q <= clock q')%nat;
  add_fired : fired q' = fired q
}.

#[global] Instance additive_preorder : PreOrder additive.
Proof.
  split; [intros q; by split|]. intros a b c [] []. split; auto; try congruence; lia.
Qed.

Lemma insertTimer_additive t q : additive q (insertTimer t q).2.
Proof. split; simpl; auto using set_insert_ordered, set_insert_keeps. Qed.

Lemma now_additive q : additive q (now q).2.
Proof. split; simpl; auto. Qed.

(** After the insertion some timer has the expiration asked for. *)
Lemma set_insert_has t l :
  ordered l -> exists x, x ∈ set_insert t l /\ same_time t x.
Proof.
  intros [(x & Hx & Hs & ->)|[_ Hp]]%(set_insert_cases t); [eauto|].
  exists t. by rewrite Hp; split; [left|].
Qed.

(** The callbacks return, and only add timers. *)
Definition callbacks_ok : Prop :=
  forall cb w q, exists w' q', run_callback cb w q = Ok (w', q') /\ additive q q'.

(** Restarting the repeating timers of the queue does not overflow the clock. *)
Definition restarts_ok (l : list Timer) (q : RBTreeTimer) : Prop :=
  forall t k, t ∈ l -> m_repeat t = true -> is_ok (addTime (readings q k) (m_interval t)).

(** What the expired timer [t] leaves in the queue: if it repeats, a timer at
    the time of a later reading of the clock plus its interval. *)
Definition rescheduled (t : Timer) (k0 : nat) (q : RBTreeTimer) : Prop :=
  m_repeat t = true ->
  exists k e x, (k0 <= k)%nat /\ addTime (readings q k) (m_interval t) = Ok e /\
    x ∈ m_timer q /\ m_expiration x = e.

Lemma rescheduled_mono t k k' q q' :
  (k <= k')%nat -> additive q q' -> rescheduled t k' q -> rescheduled t k q'.
Proof.
  intros Hk [_ Hkeep Hr _ _] H Hrep. destruct (H Hrep) as (i & e & x & Hi & He & Hx & Hxe).
  exists i, e, x. rewrite Hr. split_and!; auto. lia.
Qed.

Lemma handleRepeatTimer_ok t q :
  ordered (m_timer q) -> restarts_ok [t] q ->
  exists q', handleRepeatTimer t q = Ok q' /\ additive q q' /\ rescheduled t (clock q) q'.
Proof.
  intros Ho Hr. unfold handleRepeatTimer. destruct (m_repeat t) eqn:Et.
  - simpl. destruct (Hr t (clock q)) as [e He]; [set_solver | done |].
    unfold restart. rewrite He. simpl. eexists. split; [done|]. split.
    + transitivity (now q).2; [apply now_additive | exact (insertTimer_additive _ (now q).2)].
    + intros _. destruct (set_insert_has (mkTimer (m_callback t) e (m_interval t) (m_repeat t))
        (m_timer q) Ho) as (x & Hx & Hs).
      exists (clock q), e, x. by split_and!.
  - exists q. split_and!; [done | done | intros H; congruence].
Qed.

Lemma run_expired_ok l w q :
  callbacks_ok -> ordered (m_timer q) -> restarts_ok l q ->
  exists w' q', run_expired l w q = Ok (w', q') /\
    fired q' = fired q ++ (m_callback <$> l) /\ ordered (m_timer q') /\
    (forall t, t ∈ m_timer q -> t ∈ m_timer q') /\ readings q' = readings q /\
    (clock q <= clock q')%nat /\
    (forall t, t ∈ l -> rescheduled t (clock q) q').
Proof.
  intros Hcb. revert w q. induction l as [|t l IH]; intros w q Ho Hr; simpl.
  { exists w, q. rewrite app_nil_r. split_and!; auto. set_solver. }
  unfold run. set (q0 := mkQueue _ _ _ _ _ _ _ _ _).
  destruct (Hcb (m_callback t) w q0) as (w1 & q1 & -> & Ha1). simpl.
  destruct Ha1 as [Ho1 Hk1 Hr1 Hc1 Hf1].
  destruct (handleRepeatTimer_ok t q1) as (q2 & -> & Ha2 & Hs2).
  { auto. }
  { intros t' k Ht'. rewrite Hr1. apply Hr. set_solver. }
  simpl. pose proof Ha2 as [Ho2 Hk2 Hr2 Hc2 Hf2].
  destruct (IH w1 q2) as (w3 & q3 & -> & Hf3 & Ho3 & Hk3 & Hr3 & Hc3 & Hs3).
  { auto. }
  { intros t' k Ht'. rewrite Hr2, Hr1. apply Hr. set_solver. }
  exists w3, q3. subst q0; simpl in *. split_and!; auto.
  - rewrite Hf3, Hf2, Hf1. by rewrite <- app_assoc.
  - congruence.
  - lia.
  - intros t' [->|Ht']%elem_of_cons.
    + intros Hrep. destruct (Hs2 Hrep) as (k & e & x & Hk & He & Hx & Hxe).
      exists k, e, x. rewrite Hr3. split_and!; auto. lia.
    + intros Hrep. destruct (Hs3 t' Ht' Hrep) as (k & e & x & Hk & H). exists k, e, x.
      split; [lia | done].
Qed.

Lemma resetTimerFd_frame t q :
  m_timer (resetTimerFd t q) = m_timer q /\ fired (resetTimerFd t q) = fired q /\
  readings (resetTimerFd t q) = readings q /\ poller (resetTimerFd t q) = poller q /\
  m_timer_channel (resetTimerFd t q) = m_timer_channel q.
Proof. unfold resetTimerFd, now. simpl. by destruct (timerfd_settime _ _). Qed.

(** The value passed to the kernel, for [us] microseconds. *)
Lemma spec_of_us us :
  let v := mkSpec (Z.quot us kMicroSecondsPerSecond) (Z.rem us kMicroSecondsPerSecond * 1000) in
  spec_valid v = (0 <=? us) /\ spec_ns v = us * 1000.
Proof.
  unfold spec_valid, spec_ns, kMicroSecondsPerSecond. cbn [tv_sec tv_nsec].
  change (1000 * 1000) with 1000000. pose proof (Z.quot_rem' us 1000000).
  split; [|lia]. destruct (Z.leb_spec 0 us).
  - pose proof (Z.rem_bound_pos us 1000000). pose proof (Z.quot_pos us 1000000).
    rewrite !(proj2 (Z.leb_le _ _)) by lia. done.
  - assert (-1000000 < Z.rem us 1000000 <= 0) by (Z.to_euclidean_division_equations; lia).
    destruct (decide (Z.rem us 1000000 = 0)) as [E|E].
    + rewrite (proj2 (Z.leb_gt 0 (Z.quot us 1000000))) by lia. done.
    + rewrite (proj2 (Z.leb_gt 0 (Z.rem us 1000000 * 1000))) by lia.
      by rewrite andb_false_r.
Qed.

(** What the kernel makes of it, by the nanoseconds left. *)
Lemma settime_reset fd e n :
  let d := m_time_point e - m_time_point n in
  let '(fd', ret) := timerfd_settime fd (reset_spec e n) in
  (1000 <= d -> armed fd' = Some (d / 1000 * 1000) /\ ret = 0) /\
  (-1000 < d < 1000 -> armed fd' = None /\ ret = 0) /\
  (d <= -1000 -> armed fd' = armed fd /\ ret <> 0).
Proof.
  intros d. set (v := reset_spec _ _).
  assert (v = mkSpec (Z.quot (Z.quot d 1000) kMicroSecondsPerSecond)
                (Z.rem (Z.quot d 1000) kMicroSecondsPerSecond * 1000)) as Hv by done.
  clearbody v.
  pose proof (settime_valid fd v) as Hok. pose proof (settime_invalid fd v) as Hbad.
  destruct (timerfd_settime fd v) as [fd' ret]. simpl in *.
  destruct (spec_of_us (Z.quot d 1000)) as [Hvalid Hns].
  rewrite <- Hv in Hvalid, Hns. rewrite Hvalid, Hns in Hok. rewrite Hvalid in Hbad.
  assert (Z.quot d 1000 = if 0 <=? d then d / 1000 else - (- d / 1000)) as HD.
  { destruct (Z.leb_spec 0 d); Z.to_euclidean_division_equations; lia. }
  rewrite HD in *. clear HD Hv Hvalid Hns.
  split_and!; intros Hd.
  - rewrite (proj2 (Z.leb_le 0 d)) in * by lia.
    destruct Hok as [-> ->]; [apply Z.leb_le; Z.div_mod_to_equations; lia|].
    by rewrite (proj2 (Z.eqb_neq _ 0)) by (Z.div_mod_to_equations; lia).
  - replace (if 0 <=? d then d / 1000 else - (- d / 1000)) with 0 in *
      by (destruct (Z.leb_spec 0 d); Z.div_mod_to_equations; lia).
    by destruct Hok as [-> ->].
  - rewrite (proj2 (Z.leb_gt 0 d)) in * by lia.
    destruct Hbad as [Hret ->]; [apply Z.leb_gt; Z.div_mod_to_equations; lia|]. done.
Qed.

Lemma resetTimerFd_arms t q :
  let d := m_time_point (m_expiration t) - m_time_point (readings q (clock q)) in
  (1000 <= d -> armed (timerfd (resetTimerFd t q)) = Some (d / 1000 * 1000)) /\
  (-1000 < d < 1000 -> armed (timerfd (resetTimerFd t q)) = None).
Proof.
  intros d. pose proof (settime_reset (timerfd q) (m_expiration t) (readings q (clock q))) as H.
  unfold resetTimerFd, now. simpl. destruct (timerfd_settime _ _) as [fd ret]. simpl.
  split; intros; by apply H.
Qed.

(** ** Properties *)


(** C34. Inserting a timer keeps the queue ordered and answers whether the timer
    went to the front.  The timer is added unless one with the very same
    expiration is queued; then it is dropped and the queue is unchanged. *)
Theorem insertTimer_spec t q :
  ordered (m_timer q) ->
  ordered (m_timer (insertTimer t q).2) /\
  ((insertTimer t q).1 = true <-> m_timer (insertTimer t q).2 = t :: m_timer q) /\
  ((exists x, x ∈ m_timer q /\ same_time t x) -> m_timer (insertTimer t q).2 = m_timer q) /\
  ((forall x, x ∈ m_timer q -> ~ same_time t x) ->
   m_timer (insertTimer t q).2 ≡ₚ t :: m_timer q).
Proof.
  intros Ho. split_and!.
  - by apply set_insert_ordered.
  - by apply earliest_front.
  - intros (x & Hx & Hs). destruct (set_insert_cases t _ Ho) as [(y & _ & _ & H)|[Hn _]]; [done|].
    by destruct (Hn x).
  - intros Hn. destruct (set_insert_cases t _ Ho) as [(y & Hy & Hs & _)|[_ H]]; [|done].
    by destruct (Hn y).
Qed.

(** What [resetTimerFd] arms, by the nanoseconds from now to the expiration:
    the whole microseconds of them when there is at least one; a disarmed
    timerfd when there is less than one either way; and for a timer at least
    a microsecond late, a malformed value the kernel refuses, so the timerfd
    stays as it was and the error is logged. *)
Theorem resetTimerFd_spec t q :
  let d := m_time_point (m_expiration t) - m_time_point (readings q (clock q)) in
  let q' := resetTimerFd t q in
  m_timer q' = m_timer q /\
  (1000 <= d -> armed (timerfd q') = Some (d / 1000 * 1000) /\ errors q' = errors q) /\
  (-1000 < d < 1000 -> armed (timerfd q') = None /\ errors q' = errors q) /\
  (d <= -1000 -> armed (timerfd q') = armed (timerfd q) /\ errors q' = S (errors q)).
Proof.
  intros d q'. split; [apply resetTimerFd_frame|].
  pose proof (settime_reset (timerfd q) (m_expiration t) (readings q (clock q))) as H.
  fold d in H. subst q'. unfold resetTimerFd, now. simpl.
  destruct (timerfd_settime _ _) as [fd ret]. simpl in *. destruct H as (H1 & H2 & H3).
  split_and!; intros Hd.
  - by destruct (H1 Hd) as [? ->].
  - by destruct (H2 Hd) as [? ->].
  - destruct (H3 Hd) as [? ?]. by rewrite (proj2 (Z.eqb_neq ret 0)).
Qed.

(** A wake-up before the first timer is due, when less than a microsecond is
    left by the second reading of the clock, disarms the timerfd with the
    queue not empty: nothing runs, and no timer will until one is added. *)
Theorem handleRead_stalls first rest w q :
  m_timer q = first :: rest -> ordered (m_timer q) ->
  m_time_point (readings q (clock q)) <= m_time_point (m_expiration first) ->
  -1000 < m_time_point (m_expiration first) - m_time_point (readings q (S (clock q))) < 1000 ->
  exists q', handleRead true w q = Ok (w, q') /\ m_timer q' = m_timer q /\ fired q' = fired q /\
    armed (timerfd q') = None.
Proof.
  intros Hq Ho Hdue Hleft. unfold handleRead. simpl.
  rewrite Hq. simpl. unfold lt. rewrite (proj2 (Z.ltb_ge _ _)) by done. simpl.
  set (q1 := set_timers _ _). exists (resetTimerFd first q1).
  destruct (resetTimerFd_frame first q1) as (-> & -> & _). split_and!; [done..|].
  by apply (resetTimerFd_arms first q1).
Qed.

(** Adding a timer in the loop thread always succeeds on a well-formed
    poller: it leaves the timerfd's channel registered, the poller well-formed
    and the queue ordered, with a timer at the expiration asked for; and a
    timer that becomes the first one and is at least a microsecond ahead arms
    the timerfd for it. *)
Theorem addTimerInLoop_ok t q c :
  Epoll.wf (poller q) -> Epoll.may_update (m_timer_channel q) (poller q) ->
  Epoll.channels (poller q) !! m_timer_channel q = Some c -> ordered (m_timer q) ->
  exists q' c', addTimerInLoop t q = Ok q' /\ Epoll.wf (poller q') /\
    Epoll.channels (poller q') !! m_timer_channel q = Some c' /\ Chan.isRegistered c' = true /\
    m_timer q' = set_insert t (m_timer q) /\ ordered (m_timer q') /\
    (let d := m_time_point (m_expiration t) - m_time_point (readings q (clock q)) in
     (insertTimer t q).1 = true -> 1000 <= d -> armed (timerfd q') = Some (d / 1000 * 1000)).
Proof.
  intros Hwf Hmay Hc Ho. unfold addTimerInLoop, enableTimerfd.
  rewrite (Epoll.deref_Ok _ _ _ Hc). simpl.
  assert (exists q1 c', (if negb (Chan.isRegistered c)
     then Epoll.enableReading (m_timer_channel q) (poller q) ≫= (λ e, Ok (set_poller e q))
     else Ok q) = Ok q1 /\ Epoll.wf (poller q1) /\
     Epoll.channels (poller q1) !! m_timer_channel q = Some c' /\ Chan.isRegistered c' = true /\
     m_timer q1 = m_timer q /\ readings q1 = readings q /\ clock q1 = clock q)
    as (q1 & c' & -> & Hwf1 & Hc1 & Hreg & Ht1 & Hr1 & Hk1).
  { destruct (Chan.isRegistered c) eqn:E; simpl; [by exists q, c; split_and!|].
    destruct (Epoll.change_events_ok Chan.reading_on _ _ _ Hwf Hc Hmay) as (k & Hrun & Hwf').
    { intros c0. by destruct c0. }
    unfold Epoll.enableReading. rewrite Hrun. simpl. eexists _, _. split_and!; try done.
    - apply lookup_insert_eq.
    - unfold Epoll.updated, Chan.isRegistered in *. simpl. apply negb_false_iff, Z.eqb_eq in E.
      by rewrite E. }
  simpl. set (q2 := set_timers _ _).
  destruct (resetTimerFd_frame t q2) as (Hm & _ & _ & Hp & _).
  destruct (resetTimerFd_arms t q2) as [Harm _].
  assert (m_timer q2 = set_insert t (m_timer q)) as Hm2 by (simpl; by rewrite Ht1).
  assert (poller q2 = poller q1 /\ readings q2 = readings q /\ clock q2 = clock q)
    as (Hp2 & Hr2 & Hk2) by (split_and!; done).
  rewrite Ht1. clearbody q2. rewrite Hr2, Hk2 in Harm.
  change (match m_timer q with [] => true | first :: _ => _ end) with (insertTimer t q).1.
  destruct (insertTimer t q).1 eqn:E.
  - exists (resetTimerFd t q2), c'. rewrite Hm, Hp, Hm2, Hp2.
    split_and!; auto using set_insert_ordered.
  - exists q2, c'. rewrite Hm2, Hp2. split_and!; auto using set_insert_ordered. discriminate.
Qed.

(** [runAfter] adds a one-shot timer, [runEvery] one that repeats when its
    period is positive. *)
Lemma runAfter_one_shot second cb q e :
  addTime (readings q (clock q)) second = Ok e ->
  runAfter true second cb q = addTimerInLoop (mkTimer cb e (double_of_Z 0) false) (now q).2.
Proof. intros He. unfold runAfter. simpl. rewrite He. reflexivity. Qed.

Lemma runEvery_repeats second cb q e :
  addTime (readings q (clock q)) second = Ok e ->
  runEvery true second cb q =
    addTimerInLoop (mkTimer cb e second (double_ltb (double_of_Z 0) second)) (now q).2.
Proof. intros He. unfold runEvery. simpl. rewrite He. reflexivity. Qed.

End WithKernel.
Arguments RBTreeTimer : clear implicits.
Arguments Timer : clear implicits.

(** ** A timerfd that keeps the contract: what it is armed with *)

#[global] Program Instance option_timerfd : TimerfdKernel (option Z) :=
  {| timerfd_settime := fun t v =>
       if spec_valid v then (if spec_ns v =? 0 then None else Some (spec_ns v), 0) else (t, -1);
     armed := fun t => t |}.
Next Obligation. intros t v H. simpl. by rewrite H. Qed.
Next Obligation. intros t v H. simpl. by rewrite H. Qed.

Abbreviation Queue := (RBTreeTimer (gmap Z (Z * chan_ptr)) (option Z) nat).
Abbreviation Timer_ := (Timer nat).

Definition timer_at (cb : nat) (us : Z) (seconds : Z) : Timer_ :=
  newTimer cb (mkTimestamp (us * 1000)) (double_of_Z seconds).

(** Timers due at 5, 6 and 9 ms, the second repeating each second; the clock
    shows 7 ms and then a millisecond more at each of nine readings. *)
Definition three_timers : Queue :=
  mkQueue [timer_at 1 5000 0; timer_at 2 6000 1; timer_at 3 9000 0] 1%positive None Epoll.one_channel
    (fun k => mkTimestamp (7000000 + Z.of_nat (k `min` 9) * 1000000)) 0 [] 0 [].

(** Callback 1 adds a timer; all count how often they run. *)
Definition adds_one (cb : nat) (runs : nat) (q : Queue) : res (nat * Queue) :=
  if (cb =? 1)%nat then Ok (S runs, (insertTimer (timer_at 4 6500 0) q).2) else Ok (S runs, q).

Lemma adds_one_ok : callbacks_ok adds_one.
Proof.
  intros cb n q. unfold adds_one. destruct (cb =? 1)%nat; eexists _, _; (split; [done|]).
  - apply insertTimer_additive.
  - by split.
Qed.

Lemma three_timers_ordered : ordered (m_timer three_timers).
Proof. repeat constructor. Qed.

Lemma three_timers_restarts : restarts_ok (m_timer three_timers) three_timers.
Proof.
  intros t k Ht Hr.
  assert (m_interval t = double_of_Z 1) as ->.
  { cbn [m_timer three_timers] in Ht.
    repeat (apply elem_of_cons in Ht as [->|Ht]; [by try discriminate Hr|]).
    by apply elem_of_nil in Ht. }
  unfold addTime. change (to_microseconds (double_of_Z 1)) with (@Ok Z 1000000).
  cbn [readings three_timers m_time_point]. simpl mbind.
  rewrite !int64_op_Ok by (unfold INT64_MAX; lia). by eexists.
Qed.


(** Callbacks 1 and 2 run; timer 4, the one at 9 ms and the next turn of timer 2
    are left. *)
Example three_timers_run :
  ('(n, q) ← handleRead adds_one true 0%nat three_timers;
   Ok (n, fired q, (fun t => (m_callback t, m_time_point (m_expiration t))) <$> m_timer q)) =
  Ok (2%nat, [1; 2]%nat, [(4%nat, 6500000); (3%nat, 9000000); (2%nat, 1008000000)]).
Proof. vm_compute. reflexivity. Qed.

Lemma insertTimer_spec_witness :
  let t := timer_at 5 6000 0 in
  ordered (m_timer (insertTimer t three_timers).2) /\
  ((insertTimer t three_timers).1 = true <->
   m_timer (insertTimer t three_timers).2 = t :: m_timer three_timers) /\
  ((exists x, x ∈ m_timer three_timers /\ same_time t x) ->
   m_timer (insertTimer t three_timers).2 = m_timer three_timers) /\
  ((forall x, x ∈ m_timer three_timers -> ~ same_time t x) ->
   m_timer (insertTimer t three_timers).2 ≡ₚ t :: m_timer three_timers).
Proof. apply (insertTimer_spec (timer_at 5 6000 0) three_timers three_timers_ordered). Defined.

(** A timer due at 5 ms when the clock shows 5 ms, and half a microsecond less. *)
Definition too_early : Queue :=
  mkQueue [timer_at 1 5000 0] 1%positive (Some 1000) Epoll.one_channel
    (fun k => mkTimestamp (4999500 + Z.of_nat k)) 0 [] 0 [].

Lemma handleRead_stalls_witness :
  exists q', handleRead adds_one true 0%nat too_early = Ok (0%nat, q') /\ m_timer q' = m_timer too_early /\
    fired q' = fired too_early /\ armed (timerfd q') = None.
Proof.
  apply (handleRead_stalls adds_one (timer_at 1 5000 0) [] 0%nat too_early);
    [reflexivity | repeat constructor | simpl; lia | simpl; lia].
Defined.

Lemma addTimerInLoop_ok_witness :
  exists q' c', addTimerInLoop (timer_at 5 8000 0) three_timers = Ok q' /\ Epoll.wf (poller q') /\
    Epoll.channels (poller q') !! m_timer_channel three_timers = Some c' /\
    Chan.isRegistered c' = true /\
    m_timer q' = set_insert (timer_at 5 8000 0) (m_timer three_timers) /\ ordered (m_timer q') /\
    (let d := m_time_point (m_expiration (timer_at 5 8000 0)) -
              m_time_point (readings three_timers (clock three_timers)) in
     (insertTimer (timer_at 5 8000 0) three_timers).1 = true -> 1000 <= d ->
     armed (timerfd q') = Some (d / 1000 * 1000)).
Proof.
  apply (addTimerInLoop_ok (timer_at 5 8000 0) three_timers (Chan.new 7)).
  - apply Epoll.one_channel_wf.
  - apply Epoll.one_channel_may_update.
  - reflexivity.
  - apply three_timers_ordered.
Defined.

End Timers.
