(* ===== verification/Printf.v ===== *)
(** * Printf: snprintf with "%.12g" on a double

    The one floating-point conversion the program asks of the C library: the
    value rounded to twelve significant digits, half to even as glibc does,
    in positional or exponential form, without trailing zeros.  A [double] is
    a binary64 number of SpecFloat; its value is a ratio of integers, so that
    the rounding is exact. *)

From Stdlib Require Import ZArith Lia Ascii String SpecFloat.
From stdpp Require Import options.
From S2P Require Import Prelude CStd.

(** ** Rounding *)

(** [n / d] to the nearest integer, half to even. *)
Definition round_half_even (n d : Z) : Z :=
  let q := n / d in
  match 2 * (n mod d) ?= d with
  | Lt => q
  | Gt => q + 1
  | Eq => if Z.even q then q else q + 1
  end.

Lemma round_half_even_near n d : 0 < d -> 2 * Z.abs (round_half_even n d * d - n) <= d.
Proof.
  intros Hd. unfold round_half_even. pose proof (Z.div_mod n d ltac:(lia)) as H.
  pose proof (Z.mod_pos_bound n d Hd). set (q := n / d) in *. set (r := n mod d) in *.
  destruct (Z.compare_spec (2 * r) d); [destruct (Z.even q)| |]; nia.
Qed.

Lemma round_half_even_bounds n d a b :
  0 < d -> a * d <= n -> n < b * d -> a <= round_half_even n d <= b.
Proof.
  intros Hd Ha Hb. unfold round_half_even.
  assert (a <= n / d) by (apply Z.div_le_lower_bound; lia).
  assert (n / d < b) by (apply Z.div_lt_upper_bound; lia).
  destruct (2 * (n mod d) ?= d); [destruct (Z.even _)| |]; lia.
Qed.

(** ** The decimal exponent *)

Fixpoint exponent_up (fuel : nat) (n d X : Z) : Z :=
  match fuel with
  | O => X
  | S f => if n <? d * 10 then X else exponent_up f n (d * 10) (X + 1)
  end.

Fixpoint exponent_down (fuel : nat) (n d X : Z) : Z :=
  match fuel with
  | O => X
  | S f => if d <=? n then X else exponent_down f (n * 10) d (X - 1)
  end.

(** Fuel: a double is below [10 ^ 400] and, unless zero, above its inverse. *)
Definition exponent_fuel : nat := 400.

Definition exponent (n d : Z) : Z :=
  if d <=? n then exponent_up exponent_fuel n d 0 else exponent_down exponent_fuel n d 0.

(** [n / d * 10 ^ k] as a ratio. *)
Definition scale (n d k : Z) : Z * Z :=
  if 0 <=? k then (n * 10 ^ k, d) else (n, d * 10 ^ (- k)).

Lemma pow10_next k : 0 <= k -> 10 ^ (k + 1) = 10 * 10 ^ k.
Proof. intros. rewrite Z.add_1_r. by apply Z.pow_succ_r. Qed.

Lemma exponent_up_ok fuel : forall n d X,
  0 < d -> d <= n < d * 10 ^ Z.of_nat fuel ->
  exists k, exponent_up fuel n d X = X + k /\ 0 <= k < Z.of_nat fuel /\ d * 10 ^ k <= n < d * 10 ^ (k + 1).
Proof.
  induction fuel as [|f IH]; intros n d X Hd Hn; [simpl in Hn; lia|]. cbn [exponent_up].
  destruct (Z.ltb_spec n (d * 10)) as [Hlt|Hge].
  - exists 0. split_and!; [lia.. |]. simpl. lia.
  - rewrite Nat2Z.inj_succ, Z.pow_succ_r in Hn by lia.
    destruct (IH n (d * 10) (X + 1)) as (k & -> & Hk & H1); [lia | lia|].
    exists (k + 1). rewrite (pow10_next k), (pow10_next (k + 1)), (pow10_next k) in * by lia.
    rewrite <- !Z.mul_assoc in *. split_and!; [lia..|]. lia.
Qed.

Lemma exponent_down_ok fuel : forall n d X,
  0 < n -> 0 < d -> n < d * 10 -> d <= n * 10 ^ Z.of_nat fuel ->
  exists k, exponent_down fuel n d X = X - k /\ 0 <= k <= Z.of_nat fuel /\ d <= n * 10 ^ k < d * 10.
Proof.
  induction fuel as [|f IH]; intros n d X Hn Hd Hlt Hf; cbn [exponent_down].
  - exists 0. simpl in *. lia.
  - destruct (Z.leb_spec d n) as [Hle|Hgt].
    + exists 0. rewrite Z.pow_0_r. lia.
    + rewrite Nat2Z.inj_succ, Z.pow_succ_r in Hf by lia.
      destruct (IH (n * 10) d (X - 1)) as (k & -> & Hk & H1); [lia.. |].
      exists (k + 1). rewrite (pow10_next k), Z.mul_assoc by lia. lia.
Qed.

(** The exponent, and its bounds. *)
Lemma exponent_ok n d :
  0 < n -> 0 < d -> n < d * 10 ^ 400 -> d <= n * 10 ^ 400 ->
  let X := exponent n d in
  -400 <= X < 400 /\
  if 0 <=? X then d * 10 ^ X <= n < d * 10 ^ (X + 1) else d <= n * 10 ^ (- X) < d * 10.
Proof.
  intros Hn Hd Hup Hdown. cbv zeta. unfold exponent. change (10 ^ 400) with (10 ^ Z.of_nat exponent_fuel) in *.
  assert (Z.of_nat exponent_fuel = 400) as E by done.
  destruct (Z.leb_spec d n) as [Hle|Hgt].
  - destruct (exponent_up_ok exponent_fuel n d 0 Hd ltac:(lia)) as (k & -> & Hk & H1).
    rewrite Z.add_0_l, (proj2 (Z.leb_le 0 k)) by lia. lia.
  - destruct (exponent_down_ok exponent_fuel n d 0 Hn Hd ltac:(lia) Hdown) as (k & -> & Hk & H1).
    rewrite Z.sub_0_l. destruct (Z.leb_spec 0 (- k)).
    + assert (k = 0) as -> by lia. simpl in *. lia.
    + rewrite Z.opp_involutive. lia.
Qed.

(** ** Twelve significant digits *)

(** The digits as an integer of twelve digits, and the exponent of the first. *)
Definition digits12 (n d : Z) : Z * Z :=
  let X := exponent n d in
  let '(n', d') := scale n d (11 - X) in
  let D := round_half_even n' d' in
  if D =? 10 ^ 12 then (10 ^ 11, X + 1) else (D, X).

Lemma scale_pos n d k : 0 < d -> 0 < (scale n d k).2.
Proof.
  intros Hd. unfold scale. destruct (Z.leb_spec 0 k); [done|]. cbn [snd].
  pose proof (Z.pow_pos_nonneg 10 (- k)). nia.
Qed.

(** A value with exponent [X] has twelve digits before the point once scaled. *)
Lemma scale_range n d X :
  0 < d -> (if 0 <=? X then d * 10 ^ X <= n < d * 10 ^ (X + 1) else d <= n * 10 ^ (- X) < d * 10) ->
  let '(n', d') := scale n d (11 - X) in 10 ^ 11 * d' <= n' < 10 ^ 12 * d'.
Proof.
  intros Hd HX. unfold scale. destruct (Z.leb_spec 0 X) as [Hpos|Hneg].
  - rewrite pow10_next in HX by done. destruct (Z.leb_spec 0 (11 - X)) as [Hk|Hk].
    + assert (10 ^ 11 = 10 ^ X * 10 ^ (11 - X)) as E by (rewrite <- Z.pow_add_r by lia; f_equal; lia).
      change (10 ^ 12) with (10 * 10 ^ 11). rewrite E.
      pose proof (Z.pow_pos_nonneg 10 (11 - X)). generalize dependent (10 ^ (11 - X)). generalize dependent (10 ^ X).
      intros a Ha b _ Hb. nia.
    + assert (10 ^ X = 10 ^ (- (11 - X)) * 10 ^ 11) as E by (rewrite <- Z.pow_add_r by lia; f_equal; lia).
      change (10 ^ 12) with (10 * 10 ^ 11). rewrite E in HX.
      generalize dependent (10 ^ (- (11 - X))). intros a Ha _. nia.
  - rewrite (proj2 (Z.leb_le 0 (11 - X))) by lia.
    assert (10 ^ (11 - X) = 10 ^ (- X) * 10 ^ 11) as -> by (rewrite <- Z.pow_add_r by lia; f_equal; lia).
    change (10 ^ 12) with (10 * 10 ^ 11). generalize dependent (10 ^ (- X)). intros a Ha. nia.
Qed.

(** The digits are the value scaled, to the nearest integer: the error is at
    most half a unit of the last digit. *)
Lemma digits12_ok n d :
  0 < n -> 0 < d -> n < d * 10 ^ 400 -> d <= n * 10 ^ 400 ->
  let '(D, X) := digits12 n d in
  10 ^ 11 <= D < 10 ^ 12 /\ -400 <= X <= 400 /\
  let '(n', d') := scale n d (11 - X) in 2 * Z.abs (D * d' - n') <= d'.
Proof.
  intros Hn Hd Hup Hdown. unfold digits12.
  destruct (exponent_ok n d Hn Hd Hup Hdown) as [Hrange HX]. set (X := exponent n d) in *. clearbody X.
  pose proof (scale_range n d X Hd HX) as Hs. pose proof (scale_pos n d (11 - X) Hd) as Hd'.
  destruct (scale n d (11 - X)) as [n' d'] eqn:Es. cbn [snd] in Hd'.
  pose proof (round_half_even_near n' d' Hd') as Hnear.
  pose proof (round_half_even_bounds n' d' (10 ^ 11) (10 ^ 12) Hd') as Hb.
  destruct (Z.eqb_spec (round_half_even n' d') (10 ^ 12)) as [E|E].
  - rewrite E in Hnear. split_and!; [lia.. |]. unfold scale in *.
    destruct (Z.leb_spec 0 (11 - X)) as [Hk|Hk]; injection Es as <- <-.
    + destruct (Z.leb_spec 0 (11 - (X + 1))) as [Hk1|Hk1].
      * replace (11 - X) with (11 - (X + 1) + 1) in Hnear by lia. rewrite pow10_next in Hnear by lia.
        change (10 ^ 12) with (10 * 10 ^ 11) in Hnear. lia.
      * assert (X = 11) as -> by lia. simpl in *. lia.
    + rewrite (proj2 (Z.leb_gt 0 (11 - (X + 1)))) by lia.
      replace (- (11 - (X + 1))) with (- (11 - X) + 1) by lia. rewrite pow10_next by lia.
      change (10 ^ 12) with (10 * 10 ^ 11) in Hnear. lia.
  - rewrite Es. split_and!; [lia | lia | lia | lia | exact Hnear].
Qed.

(** ** The text *)

(** Without trailing zeros. *)
Fixpoint strip_zeros (l : bytes) : bytes :=
  match l with
  | [] => []
  | c :: l' =>
      match strip_zeros l' with
      | [] => if decide (c = "0"%char) then [] else [c]
      | r => c :: r
      end
  end.

Definition with_point (a b : bytes) : bytes :=
  match strip_zeros b with [] => a | b' => a ++ ["."%char] ++ b' end.

(** The exponent of "%e": a sign and at least two digits. *)
Definition exponent_text (X : Z) : bytes :=
  (if X <? 0 then bs "e-" else bs "e+") ++ (if Z.abs X <? 10 then bs "0" else []) ++ udec (Z.abs X).

(** Positional form when the exponent is from -4 to 11. *)
Definition text12 (D X : Z) : bytes :=
  let s := udec D in
  if (-4 <=? X) && (X <? 12) then
    (if 0 <=? X then with_point (take (S (Z.to_nat X)) s) (drop (S (Z.to_nat X)) s)
     else with_point (bs "0") (replicate (Z.to_nat (- X - 1)) "0"%char ++ s))
  else with_point (take 1 s) (drop 1 s) ++ exponent_text X.

(** "%.12g" *)
Definition fmt_g (x : spec_float) : bytes :=
  match x with
  | S754_nan => bs "nan"
  | S754_infinity s => if s then bs "-inf" else bs "inf"
  | S754_zero s => if s then bs "-0" else bs "0"
  | S754_finite s m e =>
      let '(D, X) := digits12 (Z.pos m * 2 ^ Z.max e 0) (2 ^ Z.max (- e) 0) in
      (if s then bs "-" else []) ++ text12 D X
  end.

(** ** Lemmas on the text *)

Lemma strip_zeros_length l : (length (strip_zeros l) <= length l)%nat.
Proof.
  induction l as [|c l IH]; simpl; [done|]. destruct (strip_zeros l); [case_decide; simpl in *; lia | simpl in *; lia].
Qed.

Lemma with_point_length a b : zlen (with_point a b) <= zlen a + 1 + zlen b.
Proof.
  unfold with_point. pose proof (strip_zeros_length b) as H. pose proof (zlen_nonneg b).
  destruct (strip_zeros b); [lia|]. unfold zlen in *. rewrite !length_app. simpl in *. lia.
Qed.

Lemma udec_short w n : 0 <= n < 10 ^ Z.of_nat w -> (0 < w)%nat -> zlen (udec n) <= Z.of_nat w.
Proof. intros H Hw. pose proof (udec_length w n H Hw). unfold zlen. lia. Qed.

Lemma text12_short D X : 0 <= D < 10 ^ 12 -> -400 <= X <= 400 -> zlen (text12 D X) <= 19.
Proof.
  intros HD HX. pose proof (udec_short 12 D HD ltac:(lia)) as Hs. unfold text12.
  set (s := udec D) in *. clearbody s.
  destruct ((-4 <=? X) && (X <? 12)) eqn:Eform.
  - apply andb_true_iff in Eform as [H1%Z.leb_le H2%Z.ltb_lt]. destruct (Z.leb_spec 0 X).
    + etrans; [apply with_point_length|]. unfold zlen in *. rewrite length_take, length_drop. lia.
    + etrans; [apply with_point_length|]. change (zlen (bs "0")) with 1. rewrite zlen_app.
      unfold zlen at 1. rewrite length_replicate. lia.
  - rewrite zlen_app. pose proof (with_point_length (take 1 s) (drop 1 s)) as Hp.
    assert (zlen (exponent_text X) <= 5).
    { unfold exponent_text. pose proof (udec_short 3 (Z.abs X) ltac:(simpl; lia) ltac:(lia)) as H3.
      rewrite !zlen_app. destruct (Z.ltb_spec (Z.abs X) 10) as [H|H].
      - pose proof (udec_short 1 (Z.abs X) ltac:(simpl; lia) ltac:(lia)) as H1.
        destruct (X <? 0); [change (zlen (bs "e-")) with 2 | change (zlen (bs "e+")) with 2];
          change (zlen (bs "0")) with 1; lia.
      - destruct (X <? 0); [change (zlen (bs "e-")) with 2 | change (zlen (bs "e+")) with 2];
          change (zlen (@nil ascii)) with 0; lia. }
    unfold zlen in *. rewrite length_take, length_drop in Hp. lia.
Qed.

(** The range of the finite doubles. *)
Lemma digits2_bound m : Z.pos m < 2 ^ Z.pos (digits2_pos m).
Proof.
  induction m as [m IH|m IH|]; cbn [digits2_pos]; [| |done];
    rewrite Pos2Z.inj_succ, Z.pow_succ_r by lia; lia.
Qed.

Lemma finite_range s m e :
  valid_binary 53 1024 (S754_finite s m e) = true -> Z.pos m < 2 ^ 53 /\ -1074 <= e <= 971.
Proof.
  unfold valid_binary, bounded, canonical_mantissa, fexp, emin. intros [H1%Z.eqb_eq H2%Z.leb_le]%andb_true_iff.
  pose proof (digits2_bound m). split; [|lia].
  eapply Z.lt_le_trans; [eassumption|]. apply Z.pow_le_mono_r; lia.
Qed.

Lemma finite_ratio s m e :
  valid_binary 53 1024 (S754_finite s m e) = true ->
  let n := Z.pos m * 2 ^ Z.max e 0 in let d := 2 ^ Z.max (- e) 0 in
  0 < n /\ 0 < d /\ n < d * 10 ^ 400 /\ d <= n * 10 ^ 400.
Proof.
  intros [Hm He]%finite_range n d.
  assert (1 <= 2 ^ Z.max e 0 <= 2 ^ 971) as Ha.
  { split; [apply (Z.pow_le_mono_r 2 0) | apply Z.pow_le_mono_r]; lia. }
  assert (1 <= d <= 2 ^ 1074) as Hb.
  { unfold d. split; [apply (Z.pow_le_mono_r 2 0) | apply Z.pow_le_mono_r]; lia. }
  assert (1 <= n) by (unfold n; nia).
  assert (n <= 2 ^ 53 * 2 ^ 971) by (unfold n; apply Z.mul_le_mono_nonneg; lia).
  assert (2 ^ 53 * 2 ^ 971 < 10 ^ 400 /\ 2 ^ 1074 <= 10 ^ 400) as [H1 H2] by (split; [by vm_compute | by vm_compute]).
  generalize dependent (10 ^ 400). intros P. intros. split_and!; [lia | lia | nia | nia].
Qed.

(** The text of a double is short, and its digits are as near as twelve can
    be. *)
Lemma fmt_g_short x : valid_binary 53 1024 x = true -> zlen (fmt_g x) <= 20.
Proof.
  intros Hx. destruct x as [[]|[]| |s m e]; [by vm_compute..|]. unfold fmt_g.
  destruct (finite_ratio s m e Hx) as (Hn & Hd & Hup & Hdown).
  pose proof (digits12_ok _ _ Hn Hd Hup Hdown) as H. destruct (digits12 _ _) as [D X].
  destruct H as (HD & HX & _). rewrite zlen_app. pose proof (text12_short D X ltac:(lia) HX).
  destruct s; [change (zlen (bs "-")) with 1 | change (zlen (@nil ascii)) with 0]; lia.
Qed.

(** ** Examples, as glibc prints them *)

Definition of_ratio (n d : Z) : spec_float :=
  SFdiv 53 1024 (binary_normalize 53 1024 n 0 false) (binary_normalize 53 1024 d 0 false).

Example fmt_g_examples :
  map fmt_g [of_ratio 8 1; of_ratio 1 10; of_ratio (-1) 3; of_ratio 123456789 1000; of_ratio (10 ^ 21) 1;
             of_ratio 999999999999 1; of_ratio 9999999999996 10; of_ratio 1 100000; of_ratio 15 100000] =
  [bs "8"; bs "0.1"; bs "-0.333333333333"; bs "123456.789"; bs "1e+21"; bs "999999999999"; bs "1e+12";
   bs "1e-05"; bs "0.00015"].
Proof. vm_compute. reflexivity. Qed.
