(* ===== verification/LogStream.v ===== *)
(** * LogStream: Logging/logstream.h and Logging/logstream.cpp

    The fixed-size buffer of the logger and the stream that formats values
    into it.  A [FixedBuffer<SIZE>] is its array, of [SIZE] bytes, and the
    offset of its write pointer; its cookie functions do nothing and are left
    out.  What does not fit is dropped whole.  Floating-point values are
    printed by [snprintf]: Printf. *)

From Stdlib Require Import ZArith Lia Ascii String SpecFloat.
From stdpp Require Import options.
From S2P Require Import Prelude CStd Printf.

Definition kSmallBuffer : Z := 4096.
Definition kLargeBuffer : Z := 4096 * 1000.
Definition kMaxNumericSize : Z := 48.

Definition NUL : ascii := "000"%char.

(** [digits]; [zero] points at its ninth character. *)
Definition digits : bytes := bs "9876543210123456789".

(** [zero[remainder]] *)
Definition zero_at (remainder : Z) : res ascii :=
  match (if 0 <=? 9 + remainder then digits !! Z.to_nat (9 + remainder) else None) with
  | Some c => Ok c
  | None => Fault Undefined
  end.

(** [std::reverse] on the range [[i, j)] of a block. *)
Definition reverse_range (i j : Z) (l : bytes) : bytes :=
  take (Z.to_nat i) l ++ reverse (slice i j l) ++ drop (Z.to_nat j) l.

Module Fixed.

Record FixedBuffer := mkFixed { m_data : bytes; m_cur : Z }.

(** The array is uninitialised: [data]. *)
Definition new (data : bytes) : FixedBuffer := mkFixed data 0.

Definition toString (b : FixedBuffer) : bytes := slice 0 (m_cur b) (m_data b).
Definition setZero (b : FixedBuffer) : FixedBuffer :=
  mkFixed (replicate (length (m_data b)) NUL) 0.
Definition reset (b : FixedBuffer) : FixedBuffer := mkFixed (m_data b) 0.

Definition len (b : FixedBuffer) : Z := wrap32 (m_cur b).
Definition avail (b : FixedBuffer) : Z := wrap32 (zlen (m_data b) - m_cur b).
Definition add (n : Z) (b : FixedBuffer) : FixedBuffer := mkFixed (m_data b) (m_cur b + n).

(** [append(buf, len)] with [len] the length of [buf]. *)
Definition append (buf : bytes) (b : FixedBuffer) : res FixedBuffer :=
  if wrap32 (zlen buf) <? avail b then
    d ← write_at (m_cur b) buf (m_data b);
    Ok (mkFixed d (m_cur b + zlen buf))
  else Ok b.

(** The write pointer stays inside the array. *)
Record wf (SIZE : Z) (b : FixedBuffer) : Prop := {
  wf_size : zlen (m_data b) = SIZE;
  wf_cur : 0 <= m_cur b <= SIZE
}.

(** ** LogStream *)

(** The do-while loop of [formatInteger]: [*(now++) = zero[num % 10]]. *)
Fixpoint digit_loop (fuel : nat) (num : Z) (data : bytes) (now : Z) : res (bytes * Z) :=
  match fuel with
  | O => Fault OutOfFuel
  | S f =>
      c ← zero_at (Z.rem num 10);
      data ← write_at now [c] data;
      let num := Z.quot num 10 in
      if negb (num =? 0) then digit_loop f num data (now + 1) else Ok (data, now + 1)
  end.

(** Fuel: a number has at most one more decimal digit than its base-2
    logarithm. *)
Definition digit_fuel (num : Z) : nat := S (Z.to_nat (Z.log2 (Z.abs num))).

Definition formatInteger (num : Z) (b : FixedBuffer) : res FixedBuffer :=
  if kMaxNumericSize <=? avail b then
    let buf := m_cur b in
    let negative := num <? 0 in
    '(data, now) ← digit_loop (digit_fuel num) num (m_data b) buf;
    '(data, now) ← (if negative then d ← write_at now ["-"%char] data; Ok (d, now + 1)
                    else Ok (data, now));
    data ← write_at now [NUL] data;
    let data := reverse_range buf now data in
    Ok (add (wrap32 (now - buf)) (mkFixed data buf))
  else Ok b.

(** Lower-case hexadecimal, as "%x" prints it. *)
Definition hex_char (d : Z) : ascii :=
  ascii_of_nat ((if (d <? 10)%Z then 48 else 87) + Z.to_nat d).

Fixpoint hex_digits (fuel : nat) (n : Z) (acc : bytes) : bytes :=
  match fuel with
  | O => acc
  | S f => let acc' := hex_char (n mod 16) :: acc in
           if n / 16 =? 0 then acc' else hex_digits f (n / 16) acc'
  end.

(** What glibc prints for "%p" on a 64-bit address. *)
Definition fmt_p (n : Z) : bytes :=
  if n =? 0 then bs "(nil)" else bs "0x" ++ hex_digits 16 n [].

(** [operator<<] on a pointer: "0x", then at most 45 characters of "%p" and
    the terminating zero. *)
Definition put_pointer (num : Z) (b : FixedBuffer) : res FixedBuffer :=
  if kMaxNumericSize <=? avail b then
    let s := fmt_p num in
    d ← write_at (m_cur b) (bs "0x") (m_data b);
    d ← write_at (m_cur b + 2) (take 45 s ++ [NUL]) d;
    Ok (add (zlen s + 2) (mkFixed d (m_cur b)))
  else Ok b.

(** [operator<<] on a [double]: at most 47 characters of "%.12g" and the
    terminating zero. *)
Definition put_double (num : spec_float) (b : FixedBuffer) : res FixedBuffer :=
  if kMaxNumericSize <=? avail b then
    let s := fmt_g num in
    d ← write_at (m_cur b) (take 47 s ++ [NUL]) (m_data b);
    Ok (add (zlen s) (mkFixed d (m_cur b)))
  else Ok b.

(** The arguments of the overloads of [operator<<]. *)
Inductive value :=
| VBool (v : bool)
| VInt (num : Z)        (* int, short, and char, which is promoted to int *)
| VUInt (num : Z)       (* unsigned int, unsigned short *)
| VLong (num : Z)       (* long, long long *)
| VULong (num : Z)      (* unsigned long, unsigned long long *)
| VCStr (str : option bytes) (* the characters before the terminating zero *)
| VString (str : bytes)
| VPointer (num : Z)
| VDouble (num : spec_float). (* double, and float, which is converted *)

(** A [char] argument: no overload takes one. *)
Definition VChar (c : ascii) : value :=
  let n := Z.of_nat (nat_of_ascii c) in VInt (if n <? 128 then n else n - 256).

(** [operator<<] *)
Definition put (v : value) (b : FixedBuffer) : res FixedBuffer :=
  match v with
  | VBool v => append (if v then bs "1" else bs "0") b
  | VInt num | VUInt num | VLong num | VULong num => formatInteger num b
  | VCStr (Some str) => append str b
  | VCStr None => append (bs "(null)") b
  | VString str => append str b
  | VPointer num => put_pointer num b
  | VDouble num => put_double num b
  end.

(** [stream << v1 << v2 << ...] *)
Fixpoint put_all (vs : list value) (b : FixedBuffer) : res FixedBuffer :=
  match vs with
  | [] => Ok b
  | v :: vs' => b ← put v b; put_all vs' b
  end.

(** The range of each integer type, and lengths an [int] can hold. *)
Definition value_ok (v : value) : Prop :=
  match v with
  | VBool _ => True
  | VInt n => INT_MIN <= n <= INT_MAX
  | VUInt n => 0 <= n < 2 ^ 32
  | VLong n => - 2 ^ 63 <= n < 2 ^ 63
  | VULong n | VPointer n => 0 <= n < 2 ^ 64
  | VCStr (Some s) | VString s => zlen s <= INT_MAX
  | VCStr None => True
  | VDouble x => valid_binary 53 1024 x = true
  end.

(** ** What the stream promises *)

(** The text of a value. *)
Definition render (v : value) : bytes :=
  match v with
  | VBool v => if v then bs "1" else bs "0"
  | VInt num | VUInt num | VLong num | VULong num => to_string num
  | VCStr (Some str) => str
  | VCStr None => bs "(null)"
  | VString str => str
  | VPointer num => bs "0x" ++ fmt_p num
  | VDouble num => fmt_g num
  end.

(** The room a value asks for before it is written. *)
Definition room (v : value) : Z :=
  match v with
  | VInt _ | VUInt _ | VLong _ | VULong _ | VPointer _ | VDouble _ => kMaxNumericSize
  | _ => zlen (render v) + 1
  end.

(** A bounded text: a value is added whole or not at all. *)
Definition put_spec (SIZE : Z) (c : bytes) (v : value) : bytes :=
  if room v <=? SIZE - zlen c then c ++ render v else c.

(** ** Lemmas: the digit loop *)

Lemma zero_at_rem num : zero_at (Z.rem num 10) = Ok (digit_char (Z.abs num mod 10)).
Proof.
  assert (Z.abs num mod 10 = Z.abs (Z.rem num 10)) as ->.
  { rewrite <- Z.rem_abs, Z.rem_mod_nonneg by lia. done. }
  assert (-10 < Z.rem num 10 < 10) as H by (Z.to_euclidean_division_equations; lia).
  revert H. generalize (Z.rem num 10). intros r H.
  assert (r ∈ seqZ (-9) 19) as Hr by (apply elem_of_seqZ; lia).
  clear H. revert r Hr. apply Forall_forall. repeat (constructor; [reflexivity|]). constructor.
Qed.

(** The loop writes the decimal digits, last one first. *)
Lemma digit_loop_ok fuel num data now :
  Z.abs num < 2 ^ Z.of_nat fuel -> (0 < fuel)%nat ->
  0 <= now -> now + zlen (udec (Z.abs num)) <= zlen data ->
  digit_loop fuel num data now =
    (d ← write_at now (reverse (udec (Z.abs num))) data;
     Ok (d, now + zlen (udec (Z.abs num)))).
Proof.
  revert num data now. induction fuel as [|f IH]; intros num data now Hf Hp Hn Hr; [lia|].
  cbn [digit_loop]. rewrite zero_at_rem. simpl.
  assert (Z.abs (Z.quot num 10) = Z.abs num / 10) as Hq by (Z.to_euclidean_division_equations; lia).
  rewrite (udec_step (Z.abs num)) in * by lia. rewrite reverse_app, zlen_app in *. simpl.
  change (zlen [_]) with 1 in *.
  pose proof (div10_lt (Z.abs num) f ltac:(lia)) as Hd.
  destruct (Z.eqb_spec (Z.abs num / 10) 0) as [E|E].
  - rewrite (proj2 (Z.eqb_eq (Z.quot num 10) 0)) by lia. simpl. done.
  - rewrite (proj2 (Z.eqb_neq (Z.quot num 10) 0)) by lia. simpl.
    rewrite <- Hq in *. pose proof (zlen_nonneg (udec (Z.abs (Z.quot num 10)))) as Hl.
    change (digit_char ?d :: reverse ?r) with ([digit_char d] ++ reverse r).
    rewrite <- (write_at_app now [_] (reverse (udec (Z.abs (Z.quot num 10))))); [|lia|].
    2: { change (zlen [_]) with 1. unfold zlen in *. rewrite length_reverse. lia. }
    destruct (write_at now [_] data) as [d|] eqn:Ew; simpl; [|done].
    pose proof (write_at_zlen _ _ _ _ Ew) as Hz.
    rewrite IH; [| lia | destruct f; [simpl in *; lia | lia] | lia | lia].
    apply bind_ext. intros d'. do 2 f_equal. lia.
Qed.

(** ** Lemmas: the operations *)

Lemma avail_eq SIZE b : wf SIZE b -> SIZE <= INT_MAX -> avail b = SIZE - m_cur b.
Proof. intros [H1 H2] ?. unfold avail. rewrite H1. apply wrap32_id. zsimpl. lia. Qed.

Lemma zlen_toString SIZE b : wf SIZE b -> zlen (toString b) = m_cur b.
Proof. intros [H1 H2]. unfold toString. rewrite zlen_slice by lia. lia. Qed.

Lemma toString_prefix b : toString b = take (Z.to_nat (m_cur b)) (m_data b).
Proof. unfold toString. apply slice_prefix. Qed.

(** After a write at the write pointer, the first [n] bytes of it are added. *)
Lemma write_advance SIZE b d k data :
  wf SIZE b -> write_at (m_cur b) (d ++ k) (m_data b) = Ok data ->
  wf SIZE (mkFixed data (m_cur b + zlen d)) /\
  toString (mkFixed data (m_cur b + zlen d)) = toString b ++ d.
Proof.
  intros [H1 H2] Hw. pose proof (write_at_zlen _ _ _ _ Hw) as Hz.
  pose proof (write_at_inv _ _ _ _ Hw) as (_ & Hr & ->). rewrite zlen_app in Hr.
  pose proof (zlen_nonneg k). pose proof (zlen_nonneg d). split; [split; simpl; lia|].
  rewrite (toString_prefix b). unfold toString. simpl. rewrite <- app_assoc.
  rewrite app_assoc. apply slice_head. rewrite zlen_app. f_equal. len_lia.
Qed.

Lemma append_ok SIZE buf b :
  wf SIZE b -> SIZE <= INT_MAX -> zlen buf <= INT_MAX ->
  exists b', append buf b = Ok b' /\ wf SIZE b' /\
    toString b' = if zlen buf + 1 <=? SIZE - zlen (toString b) then toString b ++ buf else toString b.
Proof.
  intros Hwf HS Hl. pose proof (zlen_nonneg buf). unfold append.
  rewrite (avail_eq SIZE), (zlen_toString SIZE) by done.
  rewrite wrap32_id by (zsimpl; lia).
  destruct (Z.ltb_spec (zlen buf) (SIZE - m_cur b)); decide_bool; [|eauto].
  destruct (write_at (m_cur b) buf (m_data b)) as [d|] eqn:Ew.
  - simpl. eexists. split; [done|]. apply (write_advance SIZE b buf [] d); [done|].
    by rewrite app_nil_r.
  - destruct Hwf. rewrite write_at_Ok in Ew by lia. done.
Qed.

Lemma reverse_range_app p s q :
  reverse_range (zlen p) (zlen p + zlen s) (p ++ s ++ q) = p ++ reverse s ++ q.
Proof.
  unfold reverse_range. rewrite slice_mid by done.
  rewrite take_app_length' by len_lia. f_equal. f_equal.
  rewrite app_assoc. apply drop_app_length'. len_lia.
Qed.

Lemma to_string_reverse num :
  reverse (to_string num) =
    reverse (udec (Z.abs num)) ++ (if num <? 0 then ["-"%char] else []).
Proof.
  unfold to_string. destruct (Z.ltb_spec num 0).
  - rewrite Z.abs_neq by lia. by rewrite reverse_cons.
  - rewrite Z.abs_eq by lia. by rewrite app_nil_r.
Qed.

Lemma to_string_short num : Z.abs num < 10 ^ 20 -> zlen (to_string num) <= 21.
Proof.
  intros H. unfold to_string. destruct (Z.ltb_spec num 0); unfold zlen; simpl;
    [pose proof (udec_length 20 (- num))|pose proof (udec_length 20 num)]; lia.
Qed.

(** The digits and the sign are one write of the reversed text. *)
Lemma format_digits buf num data :
  Z.abs num < 10 ^ 20 -> 0 <= buf -> buf + zlen (to_string num) <= zlen data ->
  ('(data, now) ← digit_loop (digit_fuel num) num data buf;
   if num <? 0 then d ← write_at now ["-"%char] data; Ok (d, now + 1) else Ok (data, now)) =
  (d ← write_at buf (reverse (to_string num)) data; Ok (d, buf + zlen (to_string num))).
Proof.
  intros Hnum Hbuf Hfit. pose proof (to_string_reverse num) as Hrev.
  pose proof (f_equal zlen Hrev) as Hz. rewrite zlen_app in Hz. unfold zlen in Hz.
  rewrite !length_reverse in Hz. fold (zlen (to_string num)) (zlen (udec (Z.abs num))) in Hz.
  set (dg := udec (Z.abs num)) in *. pose proof (zlen_nonneg dg).
  set (sign := if num <? 0 then ["-"%char] else []) in *.
  change (Z.of_nat (length sign)) with (zlen sign) in Hz. pose proof (zlen_nonneg sign).
  rewrite digit_loop_ok; [| apply log2_fuel; lia | unfold digit_fuel; lia | lia | fold dg; lia]. fold dg.
  assert (zlen (reverse dg) = zlen dg) as Hrl by (unfold zlen; by rewrite length_reverse).
  destruct (write_at buf (reverse dg) data) as [d1|] eqn:E1; [|rewrite write_at_Ok in E1 by lia; done].
  cbn [mbind res_bind]. rewrite Hrev. subst sign. destruct (num <? 0).
  - change (zlen ["-"%char]) with 1 in *. rewrite <- write_at_app, E1, Hrl by (rewrite ?Hrl; change (zlen ["-"%char]) with 1; lia).
    simpl. apply bind_ext. intros d. do 2 f_equal. lia.
  - rewrite app_nil_r, E1. simpl. do 2 f_equal. change (zlen []) with 0 in Hz. lia.
Qed.

(** The buffer after a number was written with its terminating zero. *)
Definition written (text : bytes) (b : FixedBuffer) : FixedBuffer :=
  mkFixed (take (Z.to_nat (m_cur b)) (m_data b) ++ (text ++ [NUL]) ++
           drop (Z.to_nat (m_cur b + zlen text + 1)) (m_data b)) (m_cur b + zlen text).

Lemma write_text SIZE text b :
  wf SIZE b -> m_cur b + zlen text + 1 <= SIZE ->
  write_at (m_cur b) (text ++ [NUL]) (m_data b) = Ok (m_data (written text b)).
Proof.
  intros [H1 H2] Hfit. pose proof (zlen_nonneg text).
  assert (zlen (text ++ [NUL]) = zlen text + 1) as Hz by (rewrite zlen_app; done).
  rewrite write_at_Ok by lia. rewrite Hz. unfold written. simpl. do 4 f_equal. lia.
Qed.

Lemma written_ok SIZE text b :
  wf SIZE b -> m_cur b + zlen text + 1 <= SIZE ->
  wf SIZE (written text b) /\ toString (written text b) = toString b ++ text.
Proof. intros Hwf Hfit. exact (write_advance SIZE b text [NUL] _ Hwf (write_text _ _ _ Hwf Hfit)). Qed.

(** All the writes of [formatInteger] are one, of the text reversed. *)
Lemma formatInteger_run SIZE num b :
  wf SIZE b -> SIZE <= INT_MAX -> Z.abs num < 10 ^ 20 -> kMaxNumericSize <= SIZE - m_cur b ->
  formatInteger num b = Ok (written (to_string num) b).
Proof.
  intros Hwf HS Hnum Ha. unfold formatInteger. rewrite (avail_eq SIZE) by done.
  rewrite (proj2 (Z.leb_le _ _) Ha). unfold kMaxNumericSize in Ha.
  pose proof (to_string_short num Hnum) as Hlen. pose proof Hwf as [H1 H2].
  pose proof (zlen_nonneg (to_string num)) as Hpos.
  pose proof (format_digits (m_cur b) num (m_data b) Hnum ltac:(lia) ltac:(lia)) as Hdigits.
  assert (zlen (reverse (to_string num)) = zlen (to_string num)) as Hrl
    by (unfold zlen; by rewrite length_reverse).
  destruct (digit_loop (digit_fuel num) num (m_data b) (m_cur b)) as [[d1 now1]|] eqn:E1; cbn [mbind res_bind] in Hdigits |- *.
  2: { rewrite write_at_Ok in Hdigits by lia. done. }
  rewrite Hdigits.
  destruct (write_at (m_cur b) (reverse (to_string num)) (m_data b)) as [d2|] eqn:E2;
    [|rewrite write_at_Ok in E2 by lia; done].
  cbn [mbind res_bind].
  assert (write_at (m_cur b + zlen (to_string num)) [NUL] d2 =
          write_at (m_cur b) (reverse (to_string num) ++ [NUL]) (m_data b)) as ->.
  { rewrite <- write_at_app, E2, Hrl by (rewrite ?Hrl; change (zlen [NUL]) with 1; lia). done. }
  rewrite (write_text SIZE) by (done || lia). cbn [mbind res_bind]. unfold written. rewrite Hrl. simpl.
  set (p := take (Z.to_nat (m_cur b)) (m_data b)).
  assert (zlen p = m_cur b) as Hp by (unfold p; len_lia).
  rewrite <- !app_assoc. set (q := [NUL] ++ drop _ _).
  assert (reverse_range (m_cur b) (m_cur b + zlen (to_string num))
            (p ++ reverse (to_string num) ++ q) = p ++ to_string num ++ q) as ->.
  { rewrite <- Hp, <- Hrl, reverse_range_app, reverse_involutive. done. }
  unfold add. simpl. rewrite wrap32_id by (zsimpl; lia). do 2 f_equal. lia.
Qed.

(** What a number leaves, with room for it and without. *)
Lemma numeric_ok SIZE text b (r : res FixedBuffer) :
  wf SIZE b -> zlen text + 1 <= kMaxNumericSize ->
  (kMaxNumericSize <= SIZE - m_cur b -> r = Ok (written text b)) ->
  (SIZE - m_cur b < kMaxNumericSize -> r = Ok b) ->
  exists b', r = Ok b' /\ wf SIZE b' /\
    toString b' = if kMaxNumericSize <=? SIZE - zlen (toString b) then toString b ++ text else toString b.
Proof.
  intros Hwf Ht Hroom Hno. rewrite (zlen_toString SIZE) by done.
  destruct (Z.leb_spec kMaxNumericSize (SIZE - m_cur b)) as [Ha|Ha]; [|rewrite Hno by done; eauto].
  rewrite Hroom by done. destruct (written_ok SIZE text b Hwf) as [H1 H2]; [lia|]. eauto.
Qed.

Lemma formatInteger_ok SIZE num b :
  wf SIZE b -> SIZE <= INT_MAX -> Z.abs num < 10 ^ 20 ->
  exists b', formatInteger num b = Ok b' /\ wf SIZE b' /\
    toString b' = if kMaxNumericSize <=? SIZE - zlen (toString b)
                  then toString b ++ to_string num else toString b.
Proof.
  intros Hwf HS Hnum. pose proof (to_string_short num Hnum). apply numeric_ok; [done | unfold kMaxNumericSize; lia | |].
  - by apply formatInteger_run.
  - intros Ha. unfold formatInteger. rewrite (avail_eq SIZE) by done. by rewrite (proj2 (Z.leb_gt _ _) Ha).
Qed.

Lemma hex_digits_length fuel n acc : (length (hex_digits fuel n acc) <= fuel + length acc)%nat.
Proof.
  revert n acc. induction fuel as [|f IH]; intros n acc; simpl; [lia|].
  destruct (n / 16 =? 0); [simpl; lia|]. etrans; [apply IH|]. simpl. lia.
Qed.

Lemma fmt_p_short n : zlen (fmt_p n) <= 18.
Proof.
  unfold fmt_p. destruct (n =? 0); [by vm_compute|].
  rewrite zlen_app. change (zlen (bs "0x")) with 2.
  pose proof (hex_digits_length 16 n []). unfold zlen. simpl length in *. lia.
Qed.

Lemma put_pointer_run SIZE num b :
  wf SIZE b -> SIZE <= INT_MAX -> kMaxNumericSize <= SIZE - m_cur b ->
  put_pointer num b = Ok (written (bs "0x" ++ fmt_p num) b).
Proof.
  intros Hwf HS Ha. unfold put_pointer. rewrite (avail_eq SIZE) by done. rewrite (proj2 (Z.leb_le _ _) Ha).
  unfold kMaxNumericSize in Ha. pose proof (fmt_p_short num) as Hs. pose proof Hwf as [H1 H2].
  pose proof (zlen_nonneg (fmt_p num)). rewrite take_ge by (unfold zlen in *; lia).
  assert (zlen (bs "0x") = 2) as H0 by done. assert (zlen [NUL] = 1) as Hn by done.
  pose proof (write_at_app (m_cur b) (bs "0x") (fmt_p num ++ [NUL]) (m_data b)) as Happ.
  rewrite zlen_app, H0, Hn in Happ. specialize (Happ ltac:(lia) ltac:(lia)).
  destruct (write_at (m_cur b) (bs "0x") (m_data b)) as [d1|] eqn:E1;
    [|rewrite write_at_Ok in E1 by lia; done].
  cbn [mbind res_bind] in *. rewrite Happ. rewrite app_assoc.
  rewrite (write_text SIZE) by (try done; rewrite zlen_app; lia). cbn [mbind res_bind].
  unfold add, written. simpl m_cur. rewrite (zlen_app (bs "0x")), H0. do 2 f_equal. lia.
Qed.

Lemma put_pointer_ok SIZE num b :
  wf SIZE b -> SIZE <= INT_MAX ->
  exists b', put_pointer num b = Ok b' /\ wf SIZE b' /\
    toString b' = if kMaxNumericSize <=? SIZE - zlen (toString b)
                  then toString b ++ bs "0x" ++ fmt_p num else toString b.
Proof.
  intros Hwf HS. pose proof (fmt_p_short num). apply numeric_ok; [done | | |].
  - rewrite zlen_app. change (zlen (bs "0x")) with 2. unfold kMaxNumericSize. lia.
  - by apply put_pointer_run.
  - intros Ha. unfold put_pointer. rewrite (avail_eq SIZE) by done. by rewrite (proj2 (Z.leb_gt _ _) Ha).
Qed.

Lemma put_double_run SIZE num b :
  wf SIZE b -> SIZE <= INT_MAX -> valid_binary 53 1024 num = true -> kMaxNumericSize <= SIZE - m_cur b ->
  put_double num b = Ok (written (fmt_g num) b).
Proof.
  intros Hwf HS Hv Ha. unfold put_double. rewrite (avail_eq SIZE) by done. rewrite (proj2 (Z.leb_le _ _) Ha).
  unfold kMaxNumericSize in Ha. pose proof (fmt_g_short num Hv) as Hs.
  rewrite take_ge by (unfold zlen in *; lia). rewrite (write_text SIZE) by (done || lia). done.
Qed.

Lemma put_double_ok SIZE num b :
  wf SIZE b -> SIZE <= INT_MAX -> valid_binary 53 1024 num = true ->
  exists b', put_double num b = Ok b' /\ wf SIZE b' /\
    toString b' = if kMaxNumericSize <=? SIZE - zlen (toString b)
                  then toString b ++ fmt_g num else toString b.
Proof.
  intros Hwf HS Hv. pose proof (fmt_g_short num Hv). apply numeric_ok; [done | unfold kMaxNumericSize; lia | |].
  - by apply put_double_run.
  - intros Ha. unfold put_double. rewrite (avail_eq SIZE) by done. by rewrite (proj2 (Z.leb_gt _ _) Ha).
Qed.

Lemma put_ok SIZE v b :
  wf SIZE b -> SIZE <= INT_MAX -> value_ok v ->
  exists b', put v b = Ok b' /\ wf SIZE b' /\ toString b' = put_spec SIZE (toString b) v.
Proof.
  intros Hwf HS Hv. unfold put_spec.
  destruct v as [v|n|n|n|n|[s|]|s|n|x]; simpl in Hv |- *; unfold room; cbn [render];
    try (apply formatInteger_ok; [done..|zsimpl; lia]); try (by apply append_ok);
    try (by apply put_pointer_ok); try (by apply put_double_ok).
  - apply append_ok; [done..|]. by destruct v.
Qed.

Lemma put_all_ok SIZE vs b :
  wf SIZE b -> SIZE <= INT_MAX -> Forall value_ok vs ->
  exists b', put_all vs b = Ok b' /\ wf SIZE b' /\
    toString b' = fold_left (put_spec SIZE) vs (toString b).
Proof.
  intros Hwf HS Hvs. revert b Hwf. induction Hvs as [|v vs Hv Hvs IH]; intros b Hwf; simpl.
  { exists b. done. }
  destruct (put_ok SIZE v b) as (b1 & -> & Hwf1 & Hc); [done..|]. simpl.
  destruct (IH b1 Hwf1) as (b2 & -> & Hwf2 & Hc2). exists b2. by rewrite Hc2, Hc.
Qed.

(** While there is room for a number, nothing is dropped. *)
Lemma put_spec_fits SIZE c v :
  zlen c + room v <= SIZE -> put_spec SIZE c v = c ++ render v.
Proof. intros. unfold put_spec. by decide_bool. Qed.

Lemma put_spec_bound SIZE c v : value_ok v -> zlen c <= SIZE -> zlen (put_spec SIZE c v) <= SIZE.
Proof.
  intros Hv Hc. unfold put_spec. destruct (Z.leb_spec (room v) (SIZE - zlen c)) as [Hr|]; [|done].
  rewrite zlen_app. enough (zlen (render v) <= room v) by lia.
  unfold room, kMaxNumericSize, value_ok, INT_MAX, INT_MIN in *.
  destruct v; cbn [render]; try lia; try (etrans; [apply to_string_short; lia | lia]).
  - rewrite zlen_app. change (zlen (bs "0x")) with 2. pose proof (fmt_p_short num). lia.
  - pose proof (fmt_g_short num Hv). lia.
Qed.

(** ** Properties *)

(** [formatInteger], for every value of every integer type up to 64 bits,
    returns; with at least 48 bytes left it appends exactly the decimal text
    of the number, from which the number is read back, of at most 21
    characters; with less room it appends nothing.  No write leaves the
    array. *)
Theorem formatInteger_correct SIZE num b :
  wf SIZE b -> SIZE <= INT_MAX -> - 2 ^ 63 <= num < 2 ^ 64 ->
  exists b' text, formatInteger num b = Ok b' /\ wf SIZE b' /\
    toString b' = toString b ++ text /\
    (if kMaxNumericSize <=? SIZE - m_cur b
     then read_dec text = num /\ 1 <= zlen text <= 21 else text = []).
Proof.
  intros Hwf HS Hn. assert (Z.abs num < 10 ^ 20) as Hnum by lia.
  destruct (formatInteger_ok SIZE num b Hwf HS Hnum) as (b' & Hf & Hwf' & Hc).
  rewrite (zlen_toString SIZE b Hwf) in Hc.
  destruct (kMaxNumericSize <=? SIZE - m_cur b).
  - exists b', (to_string num). split_and!; auto using read_dec_to_string.
    + unfold to_string. destruct (num <? 0); [rewrite zlen_cons; pose proof (zlen_nonneg (udec (- num))); lia|].
      pose proof (dec_digits_nonempty (S (Z.to_nat (Z.log2 num))) num [] ltac:(lia)) as Hne.
      fold (udec num) in Hne. destruct (udec num); [done|]. rewrite zlen_cons.
      pose proof (zlen_nonneg l). lia.
    + by apply to_string_short.
  - exists b', []. by rewrite app_nil_r.
Qed.

(** The overloads that write a number. *)
Definition numeric (v : value) : bool :=
  match v with VInt _ | VUInt _ | VLong _ | VULong _ | VPointer _ | VDouble _ => true | _ => false end.

(** C29. The 48 bytes a number asks for are enough, for every value of every
    numeric type, pointers and doubles included: the text and its terminating
    zero are at most 22 bytes, exactly these are written at the write pointer
    and nothing else in the array is touched, and the pointer moves by the
    length of the text (what snprintf returns was not cut); with less room
    nothing is written. *)
Theorem numeric_in_bounds SIZE v b :
  wf SIZE b -> SIZE <= INT_MAX -> value_ok v -> numeric v = true ->
  zlen (render v) + 1 <= 22 /\
  put v b = Ok (if kMaxNumericSize <=? SIZE - m_cur b then written (render v) b else b).
Proof.
  intros Hwf HS Hv Hn.
  assert (forall n, - 2 ^ 63 <= n < 2 ^ 64 -> zlen (to_string n) + 1 <= 22 /\
    formatInteger n b = Ok (if kMaxNumericSize <=? SIZE - m_cur b then written (to_string n) b else b)) as Hint.
  { intros n Hrange. pose proof (to_string_short n ltac:(lia)). split; [lia|].
    destruct (Z.leb_spec kMaxNumericSize (SIZE - m_cur b)); [apply (formatInteger_run SIZE); (done || lia)|].
    unfold formatInteger. rewrite (avail_eq SIZE) by done. by rewrite (proj2 (Z.leb_gt _ _)). }
  destruct v as [|n|n|n|n| | |n|x]; try done; cbn [render put]; simpl in Hv; try (apply Hint; zsimpl; lia).
  - pose proof (fmt_p_short n). split; [rewrite zlen_app; change (zlen (bs "0x")) with 2; lia|].
    destruct (Z.leb_spec kMaxNumericSize (SIZE - m_cur b)); [by apply (put_pointer_run SIZE)|].
    unfold put_pointer. rewrite (avail_eq SIZE) by done. by rewrite (proj2 (Z.leb_gt _ _)).
  - pose proof (fmt_g_short x Hv). split; [lia|].
    destruct (Z.leb_spec kMaxNumericSize (SIZE - m_cur b)); [by apply (put_double_run SIZE)|].
    unfold put_double. rewrite (avail_eq SIZE) by done. by rewrite (proj2 (Z.leb_gt _ _)).
Qed.

Definition empty_small : FixedBuffer := new (replicate 4096 NUL).

Lemma empty_small_wf : wf 4096 empty_small.
Proof. split; [reflexivity | simpl; lia]. Qed.

Lemma numeric_in_bounds_witness :
  zlen (render (VULong 18446744073709551615)) + 1 <= 22 /\
  put (VULong 18446744073709551615) empty_small =
    Ok (if kMaxNumericSize <=? 4096 - m_cur empty_small
        then written (render (VULong 18446744073709551615)) empty_small else empty_small).
Proof.
  apply (numeric_in_bounds 4096 (VULong 18446744073709551615) empty_small empty_small_wf); [by vm_compute | simpl; lia | done].
Defined.

Lemma formatInteger_correct_witness :
  exists b' text, formatInteger (-9223372036854775808) empty_small = Ok b' /\ wf 4096 b' /\
    toString b' = toString empty_small ++ text /\
    (if kMaxNumericSize <=? 4096 - m_cur empty_small
     then read_dec text = -9223372036854775808 /\ 1 <= zlen text <= 21 else text = []).
Proof.
  apply (formatInteger_correct 4096 (-9223372036854775808) empty_small empty_small_wf);
    unfold INT_MAX; lia.
Defined.

(** C38. A chain of [<<] on the stream never writes outside the array and never
    stops: each value's text is appended whole when the room it asks for is
    left, and is skipped otherwise, as in the bounded-text specification. *)
Theorem stream_refines SIZE vs b :
  wf SIZE b -> SIZE <= INT_MAX -> Forall value_ok vs ->
  exists b', put_all vs b = Ok b' /\ wf SIZE b' /\
    toString b' = fold_left (put_spec SIZE) vs (toString b) /\ len b' = zlen (toString b').
Proof.
  intros Hwf HS Hvs. destruct (put_all_ok SIZE vs b Hwf HS Hvs) as (b' & Hp & Hwf' & Hc).
  exists b'. split_and!; [done..|]. rewrite (zlen_toString SIZE) by done.
  destruct Hwf'. apply wrap32_id. zsimpl. lia.
Qed.

Lemma stream_refines_witness :
  let vs := [VString (bs "fd "); VInt 7; VChar ":"; VCStr None; VPointer 255; VDouble (of_ratio 1 3)] in
  exists b', put_all vs empty_small = Ok b' /\ wf 4096 b' /\
    toString b' = fold_left (put_spec 4096) vs (toString empty_small) /\ len b' = zlen (toString b').
Proof.
  apply (stream_refines 4096 [VString (bs "fd "); VInt 7; VChar ":"; VCStr None; VPointer 255; VDouble (of_ratio 1 3)]
           empty_small empty_small_wf); [unfold INT_MAX; lia|].
  repeat (constructor; [vm_compute; intuition discriminate|]). constructor.
Defined.

(** A third, as it is printed. *)
Example double_text :
  (b ← put_all [VDouble (of_ratio 1 3); VCStr (Some (bs "s"))] empty_small; Ok (toString b)) =
  Ok (bs "0.333333333333s").
Proof. vm_compute. reflexivity. Qed.

(** A colon given as a character is printed as its code. *)
Example colon_is_58 :
  (b ← put_all [VString (bs "fd "); VInt (-7); VChar ":"; VPointer 255] empty_small; Ok (toString b)) =
  Ok (bs "fd -7580x0xff").
Proof. vm_compute. reflexivity. Qed.

End Fixed.
