(* ===== verification/Logging.v ===== *)
(** * Logging: Logging/logging.h and Logging/logging.cpp

    One log statement: the level test of the macro, the head written by the
    constructor of [Logger::Impl], the values streamed by the statement, and
    the tail and the output of the destructor.

    The global state is the level and what was passed to [g_output]; what a
    constructor reads from the system is [environment]. *)

From Stdlib Require Import ZArith Lia Ascii String.
From stdpp Require Import options.
From S2P Require Import Prelude CStd Timestamp LogStream.
Import Fixed.

Module Log.

Inductive LogLevel := DEBUG | INFO | WARN | ERROR.

#[global] Instance LogLevel_eq_dec : EqDecision LogLevel.
Proof. solve_decision. Defined.

Definition level_value (l : LogLevel) : Z :=
  match l with DEBUG => 0 | INFO => 1 | WARN => 2 | ERROR => 3 end.

(** ** SourceFile *)

(** [strrchr(s, c)], as the characters after the one found. *)
Fixpoint after_last (c : ascii) (s : bytes) : option bytes :=
  match s with
  | [] => None
  | x :: s' =>
      match after_last c s' with
      | Some r => Some r
      | None => if decide (x = c) then Some s' else None
      end
  end.

Definition SourceFile (filename : bytes) : bytes :=
  match after_last "/" filename with Some s => s | None => filename end.

(** ** The global state *)

Record Globals := mkGlobals {
  g_logLevel : LogLevel;
  g_output : list bytes;
  g_flush : nat
}.

Definition setLogLevel (level : LogLevel) (g : Globals) : Globals :=
  mkGlobals level (g_output g) (g_flush g).

Definition logLevel (g : Globals) : LogLevel := g_logLevel g.

(** ** Logger::Impl *)

(** The clocks, the hash of the thread id and the uninitialised array of the
    stream. *)
Record environment := mkEnv {
  system_seconds : Z;
  steady_now : Ts.Timestamp;
  tid_hash : Z;
  memory : bytes
}.

Record Impl := mkImpl {
  m_stream : FixedBuffer;
  m_level : LogLevel;
  m_line : Z;
  m_tid : Z;
  m_lastSecond : Z;
  m_basename : bytes
}.

Definition set_stream (s : FixedBuffer) (i : Impl) : Impl :=
  mkImpl s (m_level i) (m_line i) (m_tid i) (m_lastSecond i) (m_basename i).

Definition getLogLevel (i : Impl) : bytes :=
  match m_level i with
  | DEBUG => bs "DEBUG" | INFO => bs "INFO" | WARN => bs "WARN" | ERROR => bs "ERROR"
  end.

(** What [formatTime] streams: the date and time, the microseconds as an
    [int], the thread and the level. *)
Definition head_values (now : Ts.Timestamp) (i : Impl) : list value :=
  let microseconds := Z.rem (Ts.microsecondsSinceEpoch now) Ts.kMicroSecondsPerSecond in
  [VString (Ts.toDefaultLogString now); VCStr (Some (bs ".")); VInt microseconds;
   VCStr (Some (bs " ")); VString (to_string (m_tid i)); VCStr (Some (bs " "));
   VCStr (Some (getLogLevel i)); VCStr (Some (bs " "))].

Definition formatTime (now : Ts.Timestamp) (i : Impl) : res Impl :=
  let seconds := Z.quot (Ts.microsecondsSinceEpoch now) Ts.kMicroSecondsPerSecond in
  let i := mkImpl (m_stream i) (m_level i) (m_line i) (m_tid i)
             (if negb (seconds =? m_lastSecond i) then seconds else m_lastSecond i) (m_basename i) in
  s ← put_all (head_values now i) (m_stream i);
  Ok (set_stream s i).

(** [Impl::Impl(file, line, level)] *)
Definition newImpl (env : environment) (file : bytes) (line : Z) (level : LogLevel) : res Impl :=
  formatTime (steady_now env)
    (mkImpl (Fixed.new (memory env)) level line (tid_hash env) (system_seconds env) file).

(** What [finish] streams; the quoted characters are [char]s. *)
Definition tail_values (i : Impl) : list value :=
  [VCStr (Some (bs " - ")); VCStr (Some (m_basename i)); VChar ":"; VInt (m_line i); VChar LF].

Definition finish (i : Impl) : res Impl :=
  s ← put_all (tail_values i) (m_stream i); Ok (set_stream s i).

(** [Impl::~Impl()] *)
Definition destroyImpl (i : Impl) (g : Globals) : res Globals :=
  i ← finish i;
  let buf := m_stream i in
  let msg := slice 0 (len buf) (m_data buf) in
  let g := mkGlobals (g_logLevel g) (g_output g ++ [msg]) (g_flush g) in
  Ok (if decide (m_level i = ERROR) then mkGlobals (g_logLevel g) (g_output g) (S (g_flush g)) else g).

(** The condition of the macros. *)
Definition enabled (level : LogLevel) (g : Globals) : bool :=
  match level with
  | DEBUG => level_value (logLevel g) <=? level_value DEBUG
  | INFO => level_value (logLevel g) <=? level_value INFO
  | WARN | ERROR => true
  end.

(** [LOG_<level> << v1 << v2 ...;] in [filename] at [line]. *)
Definition LOG (env : environment) (level : LogLevel) (filename : bytes) (line : Z)
    (vs : list value) (g : Globals) : res Globals :=
  if enabled level g then
    i ← newImpl env (SourceFile filename) line level;
    s ← put_all vs (m_stream i);
    destroyImpl (set_stream s i) g
  else Ok g.

(** ** The line a statement should give *)

Definition line_text (env : environment) (level : LogLevel) (filename : bytes) (line : Z)
    (vs : list value) : bytes :=
  let i := mkImpl (Fixed.new []) level line (tid_hash env) 0 (SourceFile filename) in
  concat (map render (head_values (steady_now env) i)) ++ concat (map render vs) ++
  bs " - " ++ SourceFile filename ++ bs "58" ++ to_string line ++ bs "10".

(** ** Lemmas *)

Lemma after_last_app c a b : c ∉ b -> after_last c (a ++ c :: b) = Some b.
Proof.
  intros Hb. assert (after_last c b = None) as Hn.
  { induction b as [|x b IH]; simpl; [done|]. apply not_elem_of_cons in Hb as [Hx Hb].
    rewrite IH by done. by rewrite decide_False by congruence. }
  induction a as [|x a IH]; simpl; [by rewrite Hn, decide_True|]. by rewrite IH.
Qed.

Lemma after_last_none c s : c ∉ s -> after_last c s = None.
Proof.
  induction s as [|x s IH]; simpl; [done|]. intros [Hx Hs]%not_elem_of_cons.
  rewrite IH by done. by rewrite decide_False by congruence.
Qed.

Lemma room_bound v : room v <= zlen (render v) + kMaxNumericSize.
Proof.
  unfold room, kMaxNumericSize. pose proof (zlen_nonneg (render v)). destruct v; lia.
Qed.

(** With a number's room to spare at the end, every value is written. *)
Lemma fold_put_fits SIZE vs c :
  zlen c + zlen (concat (map render vs)) + kMaxNumericSize <= SIZE ->
  fold_left (put_spec SIZE) vs c = c ++ concat (map render vs).
Proof.
  revert c. induction vs as [|v vs IH]; intros c H; simpl in *; [by rewrite app_nil_r|].
  rewrite zlen_app in H. pose proof (zlen_nonneg (concat (map render vs))).
  pose proof (room_bound v). rewrite put_spec_fits by lia.
  rewrite IH by (rewrite zlen_app; lia). by rewrite app_assoc.
Qed.

Lemma put_all_app vs ws b : put_all (vs ++ ws) b = (b ← put_all vs b; put_all ws b).
Proof.
  revert b. induction vs as [|v vs IH]; intros b; simpl; [done|].
  rewrite bind_assoc. apply bind_ext. intros b'. apply IH.
Qed.

(** The message of an enabled statement is its values streamed in order. *)
Lemma LOG_values env level filename line vs g :
  enabled level g = true ->
  let i := mkImpl (Fixed.new []) level line (tid_hash env) 0 (SourceFile filename) in
  LOG env level filename line vs g =
    (b ← put_all (head_values (steady_now env) i ++ vs ++ tail_values i) (Fixed.new (memory env));
     Ok (mkGlobals (g_logLevel g) (g_output g ++ [slice 0 (len b) (m_data b)])
           (if decide (level = ERROR) then S (g_flush g) else g_flush g))).
Proof.
  intros He i. unfold LOG. rewrite He. rewrite put_all_app, !bind_assoc.
  unfold newImpl, formatTime, destroyImpl, finish. rewrite bind_assoc.
  apply bind_ext. intros b1. simpl. rewrite put_all_app, bind_assoc.
  apply bind_ext. intros b2. rewrite bind_assoc. apply bind_ext. intros b3. simpl.
  by destruct (decide (level = ERROR)).
Qed.

Lemma SourceFile_short f : zlen (SourceFile f) <= zlen f.
Proof.
  unfold SourceFile. destruct (after_last "/" f) as [r|] eqn:E; [|lia].
  revert r E. induction f as [|x f IH]; intros r E; simpl in E; [done|]. rewrite zlen_cons.
  destruct (after_last "/" f) as [r'|] eqn:E'; [injection E as <-; specialize (IH _ eq_refl); lia|].
  case_decide; [injection E as <-; lia | done].
Qed.

(** The state of the machine and the arguments the theorems are about. *)
Record env_ok (env : environment) : Prop := {
  ok_memory : zlen (memory env) = kSmallBuffer;
  ok_now : 0 <= Ts.m_time_point (steady_now env) <= INT64_MAX;
  ok_tid : 0 <= tid_hash env < 2 ^ 64
}.

Lemma frame_values_ok env level filename line :
  env_ok env -> zlen filename <= INT_MAX -> INT_MIN <= line <= INT_MAX ->
  let i := mkImpl (Fixed.new []) level line (tid_hash env) 0 (SourceFile filename) in
  Forall value_ok (head_values (steady_now env) i) /\ Forall value_ok (tail_values i).
Proof.
  intros [_ Hnow Htid] Hf Hl i. pose proof (SourceFile_short filename).
  assert (zlen (to_string (m_tid i)) <= INT_MAX).
  { simpl. etrans; [apply to_string_short; lia | unfold INT_MAX; lia]. }
  assert (zlen (m_basename i) <= INT_MAX) by (simpl; lia).
  assert (INT_MIN <= m_line i <= INT_MAX) by done.
  assert (zlen (getLogLevel i) <= INT_MAX) by (destruct level; by vm_compute).
  assert (zlen (Ts.toDefaultLogString (steady_now env)) <= INT_MAX).
  { unfold Ts.toDefaultLogString, zlen. rewrite length_take. unfold INT_MAX. lia. }
  assert (INT_MIN <= Z.rem (Ts.microsecondsSinceEpoch (steady_now env)) Ts.kMicroSecondsPerSecond
          <= INT_MAX).
  { unfold Ts.kMicroSecondsPerSecond, INT_MIN, INT_MAX. generalize (Ts.microsecondsSinceEpoch (steady_now env)).
    intros z. Z.to_euclidean_division_equations; lia. }
  clearbody i.
  split; repeat (constructor; [first [assumption | clear; vm_compute; intuition discriminate]|]);
    constructor.
Qed.

(** The streamed values and the text agree. *)
Lemma line_text_values env level filename line vs :
  let i := mkImpl (Fixed.new []) level line (tid_hash env) 0 (SourceFile filename) in
  concat (map render (head_values (steady_now env) i ++ vs ++ tail_values i)) =
  line_text env level filename line vs.
Proof.
  intros i. unfold line_text. fold i. rewrite !map_app, !concat_app. do 2 f_equal.
Qed.

(** An enabled statement passes one message on: the whole text, if it fits with
    a number's room to spare. *)
Lemma LOG_message env level filename line vs g :
  env_ok env -> zlen filename <= INT_MAX -> INT_MIN <= line <= INT_MAX -> Forall value_ok vs ->
  enabled level g = true ->
  exists msg, LOG env level filename line vs g =
      Ok (mkGlobals (g_logLevel g) (g_output g ++ [msg])
            (if decide (level = ERROR) then S (g_flush g) else g_flush g)) /\
    zlen msg <= kSmallBuffer /\
    (zlen (line_text env level filename line vs) + kMaxNumericSize <= kSmallBuffer ->
     msg = line_text env level filename line vs).
Proof.
  intros He Hf Hl Hvs Een.
  rewrite LOG_values by done. cbv zeta.
  set (i := mkImpl _ _ _ _ _ _).
  destruct (frame_values_ok env level filename line He Hf Hl) as [Hh Ht]. fold i in Hh, Ht.
  set (all := head_values _ _ ++ _). assert (Forall value_ok all) as Hall
    by (unfold all; rewrite !Forall_app; auto).
  assert (Fixed.wf kSmallBuffer (Fixed.new (memory env))) as Hwf.
  { destruct He. split; simpl; unfold kSmallBuffer in *; lia. }
  destruct (put_all_ok kSmallBuffer all _ Hwf ltac:(unfold kSmallBuffer, INT_MAX; lia) Hall)
    as (b & -> & Hwfb & Hc).
  assert (slice 0 (len b) (m_data b) = toString b) as Hs.
  { unfold toString, len. destruct Hwfb. rewrite wrap32_id; [done|].
    unfold kSmallBuffer in *. zsimpl. lia. }
  exists (toString b). cbn [mbind res_bind]. rewrite Hs.
  split_and!; [done | rewrite (zlen_toString kSmallBuffer) by done; destruct Hwfb; lia |].
  rewrite Hc. intros Hfit. change (toString (Fixed.new (memory env))) with (@nil ascii).
  rewrite <- line_text_values in *. fold i all in Hfit |- *.
  by apply fold_put_fits.
Qed.

(** ** Properties *)

(** C39. A log statement always returns.  A statement below the level writes
    nothing.  An enabled one passes exactly one message to the output, of at
    most 4096 bytes and with no write outside the stream's array, and flushes
    if it is an error; and when its text leaves room for one more number, the
    message is the whole text: time, microseconds, thread, level, the values
    in order, the base name of the file, the line. *)
Theorem LOG_line env level filename line vs g :
  env_ok env -> zlen filename <= INT_MAX -> INT_MIN <= line <= INT_MAX -> Forall value_ok vs ->
  exists g', LOG env level filename line vs g = Ok g' /\ g_logLevel g' = g_logLevel g /\
    if enabled level g then
      g_flush g' = (if decide (level = ERROR) then S (g_flush g) else g_flush g) /\
      exists msg, g_output g' = g_output g ++ [msg] /\ zlen msg <= kSmallBuffer /\
        (zlen (line_text env level filename line vs) + kMaxNumericSize <= kSmallBuffer ->
         msg = line_text env level filename line vs)
    else g' = g.
Proof.
  intros He Hf Hl Hvs. destruct (enabled level g) eqn:Een.
  2: { exists g. unfold LOG. by rewrite Een. }
  destruct (LOG_message env level filename line vs g He Hf Hl Hvs Een) as (msg & -> & Hz & Ht).
  eexists. split; [done|]. split_and!; [done..|]. by exists msg.
Qed.

Definition sample_env : environment :=
  mkEnv 1700000000 (Ts.mkTimestamp 4444911557050000) 140737345 (replicate 4096 NUL).

Lemma LOG_line_witness :
  let vs := [VCStr (Some (bs "timerfd_settime() error: ")); VCStr (Some (bs "Invalid argument"))] in
  let g := mkGlobals INFO [] 0 in
  exists g', LOG sample_env ERROR (bs "/root/Timer/rbtreetimer.cpp") 92 vs g = Ok g' /\
    g_logLevel g' = g_logLevel g /\
    if enabled ERROR g then
      g_flush g' = (if decide (ERROR = ERROR) then S (g_flush g) else g_flush g) /\
      exists msg, g_output g' = g_output g ++ [msg] /\ zlen msg <= kSmallBuffer /\
        (zlen (line_text sample_env ERROR (bs "/root/Timer/rbtreetimer.cpp") 92 vs) + kMaxNumericSize
           <= kSmallBuffer ->
         msg = line_text sample_env ERROR (bs "/root/Timer/rbtreetimer.cpp") 92 vs)
    else g' = g.
Proof.
  apply (LOG_line sample_env ERROR (bs "/root/Timer/rbtreetimer.cpp") 92
    [VCStr (Some (bs "timerfd_settime() error: ")); VCStr (Some (bs "Invalid argument"))]
    (mkGlobals INFO [] 0)).
  - split; [reflexivity | unfold INT64_MAX; simpl; lia | simpl; lia].
  - vm_compute; intuition discriminate.
  - unfold INT_MIN, INT_MAX. lia.
  - repeat (constructor; [vm_compute; intuition discriminate|]). constructor.
Defined.

(** The line that statement writes: no newline, and the codes of the colon and
    of the newline around the line number. *)
Example sample_log_line :
  line_text sample_env ERROR (bs "/root/Timer/rbtreetimer.cpp") 92 [VCStr (Some (bs "failed"))] =
  bs "19700221 10:41:51.557050 140737345 ERROR failed - rbtreetimer.cpp589210".
Proof. vm_compute. reflexivity. Qed.

(** The source file of a log line is the part of the path after its last
    slash, and the path itself when it has none. *)
Theorem SourceFile_basename dir name :
  "/"%char ∉ name ->
  SourceFile (dir ++ "/"%char :: name) = name /\ SourceFile name = name.
Proof.
  intros Hn. unfold SourceFile. by rewrite after_last_app, after_last_none by done.
Qed.

Lemma SourceFile_basename_witness :
  SourceFile (bs "src/Net" ++ "/"%char :: bs "buffer.cpp") = bs "buffer.cpp" /\
  SourceFile (bs "buffer.cpp") = bs "buffer.cpp".
Proof.
  apply (SourceFile_basename (bs "src/Net") (bs "buffer.cpp")).
  apply (bool_decide_unpack _). reflexivity.
Defined.

End Log.
