(* ===== verification/LogFile.v ===== *)
(** * LogFile: Logging/logfile.h and Logging/logfile.cpp

    The file the log goes to, and its rolling.  The stdio stream is the path
    it was opened with; what was written through it is recorded, in order, in
    the world, so the contents of a path are what was written to it (the files
    are opened for appending).

    The world is an input: which paths can be opened, how many bytes each
    [fwrite] takes, and the readings of the clock. *)

From Stdlib Require Import ZArith Lia Ascii String.
From stdpp Require Import options.
From S2P Require Import Prelude CStd Timestamp LogStream.

Module File.

Record World := mkWorld {
  can_open : bytes -> bool;          (* [fopen(path, "ae")] succeeds *)
  accepts : nat -> Z;                (* the most the k-th [fwrite] takes *)
  readings : nat -> Ts.Timestamp;    (* [Timestamp::now()] *)
  thread_hash : Z;                   (* [hash(this_thread::get_id())] *)
  writes : nat;
  clock : nat;
  written : list (bytes * bytes);    (* path and bytes of each [fwrite] *)
  flushes : nat
}.

Definition now (w : World) : Ts.Timestamp * World :=
  (readings w (clock w),
   mkWorld (can_open w) (accepts w) (readings w) (thread_hash w) (writes w) (S (clock w))
     (written w) (flushes w)).

Definition fopen (path : bytes) (w : World) : option bytes :=
  if can_open w path then Some path else None.

(** [fwrite_unlocked(data, 1, n, fp)]: how many bytes it wrote. *)
Definition fwrite (fp : option bytes) (data : bytes) (w : World) : res (Z * World) :=
  match fp with
  | None => Fault Undefined
  | Some path =>
      let n := Z.max 0 (Z.min (accepts w (writes w)) (zlen data)) in
      Ok (n, mkWorld (can_open w) (accepts w) (readings w) (thread_hash w) (S (writes w)) (clock w)
               (written w ++ [(path, take (Z.to_nat n) data)]) (flushes w))
  end.

Record LogFile := mkLogFile {
  m_fp : option bytes;
  m_writtenBytes : Z;
  m_lastRoll : Ts.Timestamp;
  m_lastFlush : Ts.Timestamp;
  m_rollSize : Z;
  m_flushInterval : Z;
  m_basename : bytes
}.

(** [getLogFileName(basename, now)] *)
Definition getLogFileName (basename : bytes) (now : Ts.Timestamp) (w : World) : bytes :=
  bs "./log/" ++ basename ++ bs " " ++ Ts.toDefaultLogString now ++ bs " " ++
  to_string (thread_hash w) ++ bs ".log".

(** [LogFile(basename, rollSize, flushInterval)]; [m_basename] is not
    initialised from the argument, and is empty. *)
Definition new (basename : bytes) (rollSize flushInterval : Z) (w : World) : res (LogFile * World) :=
  interval ← int_op (flushInterval * Ts.kMicroSecondsPerSecond);
  let f := mkLogFile (fopen basename w) 0 Ts.zero Ts.zero rollSize interval [] in
  match m_fp f with
  | Some _ => Ok (f, w)
  | None =>
      let '(n, w) := now w in
      let defaultPath := getLogFileName (m_basename f) n w in
      Ok (mkLogFile (fopen defaultPath w) 0 Ts.zero Ts.zero rollSize interval [], w)
  end.

(** [flush()]: [fflush(m_fp)]. *)
Definition flush (f : LogFile) (w : World) : World :=
  mkWorld (can_open w) (accepts w) (readings w) (thread_hash w) (writes w) (clock w)
    (written w) (S (flushes w)).

(** [~LogFile()], which then closes the file. *)
Definition destroy (f : LogFile) (w : World) : World := flush f w.

Definition rollFile (f : LogFile) (w : World) : res (LogFile * World) :=
  match m_fp f with
  | None => Fault Undefined
  | Some _ =>
      let '(n, w) := now w in
      let filename := getLogFileName (m_basename f) n w in
      Ok (mkLogFile (fopen filename w) 0 n (m_lastFlush f) (m_rollSize f) (m_flushInterval f)
            (m_basename f), w)
  end.

(** The loop of [append]: write from [pos] until [pos = len]. *)
Fixpoint write_loop (fuel : nat) (pos : Z) (data : bytes) (f : LogFile) (w : World) : res World :=
  if pos =? zlen data then Ok w
  else
    match fuel with
    | O => Fault OutOfFuel
    | S n =>
        '(k, w) ← fwrite (m_fp f) (drop (Z.to_nat pos) data) w;
        write_loop n (pos + k) data f w
    end.

(** [append(data, len)]; the loop has [fuel] turns. *)
Definition append (fuel : nat) (data : bytes) (f : LogFile) (w : World) : res (LogFile * World) :=
  w ← write_loop fuel 0 data f w;
  let '(n, w) := now w in
  let f := mkLogFile (m_fp f) (m_writtenBytes f + (if negb (zlen data =? 0) then zlen data else 0))
             (m_lastRoll f) (m_lastFlush f) (m_rollSize f) (m_flushInterval f) (m_basename f) in
  if m_flushInterval f <? Ts.timeDifference n (m_lastFlush f)
  then Ok (mkLogFile (m_fp f) (m_writtenBytes f) (m_lastRoll f) n (m_rollSize f)
             (m_flushInterval f) (m_basename f), flush f w)
  else if m_rollSize f <? m_writtenBytes f then rollFile f w
  else Ok (f, w).

(** ** Contents *)

(** Everything written, in order, whatever the file. *)
Definition stream_of (w : World) : bytes := concat (written w).*2.

(** The contents of a file: what was written with its path. *)
Definition contents (path : bytes) (w : World) : bytes :=
  concat (filter (fun c => c.1 = path) (written w)).*2.

(** Every [fwrite] makes progress, and every log file can be opened. *)
Definition disk_ok (w : World) : Prop :=
  (forall k, 1 <= accepts w k) /\ forall path, can_open w path = true.

Definition is_open (f : LogFile) : Prop := is_Some (m_fp f).

(** ** Lemmas *)

(** The world's inputs do not change. *)
Definition same_inputs (w w' : World) : Prop :=
  can_open w' = can_open w /\ accepts w' = accepts w /\ readings w' = readings w /\
  thread_hash w' = thread_hash w.

#[global] Instance same_inputs_preorder : PreOrder same_inputs.
Proof. split; [done|]. intros a b c (?&?&?&?) (?&?&?&?). unfold same_inputs. split_and!; congruence. Qed.

Lemma disk_ok_same w w' : same_inputs w w' -> disk_ok w -> disk_ok w'.
Proof. intros (H1 & H2 & _) [??]. split; intros; rewrite ?H1, ?H2; auto. Qed.

(** With progress, a turn for each byte left is enough, and the bytes from
    [pos] on go to the file. *)
Lemma write_loop_ok fuel pos data f path w :
  m_fp f = Some path -> (forall k, 1 <= accepts w k) ->
  0 <= pos <= zlen data -> zlen data - pos <= Z.of_nat fuel ->
  exists w', write_loop fuel pos data f w = Ok w' /\ same_inputs w w' /\
    clock w' = clock w /\ flushes w' = flushes w /\
    exists ks, written w' = written w ++ map (fun k => (path, k)) ks /\
      concat ks = drop (Z.to_nat pos) data.
Proof.
  intros Hfp. revert pos w. induction fuel as [|n IH]; intros pos w Hacc Hpos Hf; simpl.
  - rewrite (proj2 (Z.eqb_eq pos (zlen data))) by lia. exists w. split_and!; try done.
    exists []. rewrite app_nil_r. split; [done|]. by rewrite drop_ge by len_lia.
  - destruct (Z.eqb_spec pos (zlen data)) as [E|E].
    { exists w. split_and!; try done. exists []. rewrite app_nil_r. split; [done|].
      by rewrite drop_ge by len_lia. }
    unfold fwrite. rewrite Hfp. simpl. set (d := drop (Z.to_nat pos) data).
    assert (zlen d = zlen data - pos) as Hd by (unfold d; len_lia).
    set (k := Z.max 0 _). assert (1 <= k <= zlen d) as Hk
      by (unfold k; specialize (Hacc (writes w)); lia).
    edestruct (IH (pos + k)) as (w' & -> & Hs & Hc & Hfl & ks & Hw & Hcat);
      [done | lia | lia |].
    exists w'. simpl in Hc, Hfl, Hw. split_and!; [done..|].
    exists (take (Z.to_nat k) d :: ks). simpl. rewrite Hw, <- app_assoc. split; [done|].
    rewrite Hcat. replace (Z.to_nat (pos + k)) with (Z.to_nat pos + Z.to_nat k)%nat by lia.
    rewrite <- drop_drop. fold d. apply take_drop.
Qed.

Lemma stream_of_app w w' path ks :
  written w' = written w ++ map (fun k => (path, k)) ks ->
  stream_of w' = stream_of w ++ concat ks.
Proof.
  intros H. unfold stream_of. rewrite H, fmap_app, concat_app. do 2 f_equal. clear H.
  induction ks as [|k ks IH]; csimpl; [done|]. by rewrite IH.
Qed.

Lemma contents_app w w' path ks :
  written w' = written w ++ map (fun k => (path, k)) ks ->
  contents path w' = contents path w ++ concat ks.
Proof.
  intros H. unfold contents. rewrite H, filter_app, fmap_app, concat_app. do 2 f_equal. clear H.
  induction ks as [|k ks IH]; simpl; [done|]. rewrite filter_cons, decide_True by done.
  csimpl. by rewrite IH.
Qed.

(** [append] on an open file. *)
Lemma append_step fuel data f path w :
  m_fp f = Some path -> disk_ok w -> zlen data <= Z.of_nat fuel ->
  let n := readings w (clock w) in
  let flushing := m_flushInterval f <? Ts.timeDifference n (m_lastFlush f) in
  let rolling := m_rollSize f <? m_writtenBytes f + zlen data in
  exists f' w', append fuel data f w = Ok (f', w') /\ same_inputs w w' /\
    contents path w' = contents path w ++ data /\ stream_of w' = stream_of w ++ data /\
    m_rollSize f' = m_rollSize f /\ m_flushInterval f' = m_flushInterval f /\
    m_basename f' = m_basename f /\
    m_lastFlush f' = (if flushing then n else m_lastFlush f) /\
    flushes w' = (if flushing then S (flushes w) else flushes w) /\
    (if negb flushing && rolling
     then m_writtenBytes f' = 0 /\ m_lastRoll f' = readings w (S (clock w)) /\
          m_fp f' = Some (getLogFileName (m_basename f) (readings w (S (clock w))) w) /\
          clock w' = S (S (clock w))
     else m_writtenBytes f' = m_writtenBytes f + zlen data /\ m_fp f' = Some path /\
          m_lastRoll f' = m_lastRoll f /\ clock w' = S (clock w)).
Proof.
  intros Hfp [Hacc Hopen] Hf n flushing rolling. unfold append.
  destruct (write_loop_ok fuel 0 data f path w Hfp Hacc) as (w1 & -> & Hs & Hc & Hfl & ks & Hw & Hcat);
    [pose proof (zlen_nonneg data); lia | lia|].
  rewrite drop_0 in Hcat. pose proof (contents_app _ _ _ _ Hw) as Hcont.
  pose proof (stream_of_app _ _ _ _ Hw) as Hstr. rewrite Hcat in Hcont, Hstr.
  assert ((if negb (zlen data =? 0) then zlen data else 0) = zlen data) as Hlen
    by (destruct (Z.eqb_spec (zlen data) 0); simpl; lia).
  destruct Hs as (Ho & Ha & Hr & Ht). cbn [mbind res_bind]. unfold now.
  rewrite Hr, Hc, Hlen. cbn [m_flushInterval m_lastFlush m_rollSize m_writtenBytes].
  fold n flushing rolling. destruct flushing; simpl.
  - do 2 eexists. split; [done|]. simpl. split_and!; auto; try congruence. done.
  - destruct rolling; simpl.
    + unfold rollFile. simpl. rewrite Hfp. do 2 eexists. split; [done|]. simpl.
      split_and!; auto; try congruence; try done.
      * unfold fopen. simpl. rewrite Ho, Hopen. unfold getLogFileName. simpl. by rewrite Ht.
    + do 2 eexists. split; [done|]. simpl. split_and!; auto; try congruence. done.
Qed.

(** Opening a log file. *)
Lemma new_open basename rollSize flushInterval w :
  INT_MIN <= flushInterval * Ts.kMicroSecondsPerSecond <= INT_MAX -> disk_ok w ->
  exists f w', new basename rollSize flushInterval w = Ok (f, w') /\ is_open f /\ disk_ok w' /\
    stream_of w' = stream_of w.
Proof.
  intros Hi [Ha Ho]. unfold new. rewrite int_op_bind by done. simpl. unfold fopen. rewrite Ho.
  do 2 eexists. split; [done|]. by split_and!; [eexists|..].
Qed.

(** A sequence of appends, each with a turn for each byte. *)
Fixpoint append_all (ds : list bytes) (f : LogFile) (w : World) : res (LogFile * World) :=
  match ds with
  | [] => Ok (f, w)
  | d :: ds' => '(f, w) ← append (length d) d f w; append_all ds' f w
  end.

Lemma append_open fuel data f w :
  is_open f -> disk_ok w -> zlen data <= Z.of_nat fuel ->
  exists f' w', append fuel data f w = Ok (f', w') /\ is_open f' /\ disk_ok w' /\
    stream_of w' = stream_of w ++ data.
Proof.
  intros [path Hfp] Hd Hf.
  destruct (append_step fuel data f path w Hfp Hd Hf) as (f' & w' & Ha & Hs & _ & Hstr & _ & _ & _ & _ & _ & Hroll).
  exists f', w'. split_and!; [done | | by eapply disk_ok_same | done].
  destruct (negb _ && _); destruct Hroll as (?&?&?); unfold is_open; [naive_solver|].
  destruct_and!. eauto.
Qed.

(** ** Properties *)

(** While the disk makes progress, appending never stops and loses nothing:
    the bytes written, over all the files rolled through, are the messages in
    order, and a file is always open. *)
Theorem appends_lossless ds f w :
  is_open f -> disk_ok w ->
  exists f' w', append_all ds f w = Ok (f', w') /\ is_open f' /\ disk_ok w' /\
    stream_of w' = stream_of w ++ concat ds.
Proof.
  revert f w. induction ds as [|d ds IH]; intros f w Ho Hd; simpl.
  { exists f, w. by rewrite app_nil_r. }
  destruct (append_open (length d) d f w Ho Hd) as (f1 & w1 & -> & Ho1 & Hd1 & Hs1);
    [unfold zlen; lia|]. simpl.
  destruct (IH f1 w1 Ho1 Hd1) as (f2 & w2 & -> & Ho2 & Hd2 & Hs2).
  exists f2, w2. split_and!; [done..|]. by rewrite Hs2, Hs1, app_assoc.
Qed.

(** After an append the file is rolled exactly when the flush interval has
    not passed and the bytes of the file exceed the roll size: then the next
    file is named by the time of the roll and its count starts again;
    otherwise the same file stays open and counts the bytes. *)
Theorem append_roll_decision data f path w :
  m_fp f = Some path -> disk_ok w ->
  let n := readings w (clock w) in
  let flushing := m_flushInterval f <? Ts.timeDifference n (m_lastFlush f) in
  let rolling := m_rollSize f <? m_writtenBytes f + zlen data in
  exists f' w', append (length data) data f w = Ok (f', w') /\
    contents path w' = contents path w ++ data /\
    flushes w' = (if flushing then S (flushes w) else flushes w) /\
    if negb flushing && rolling
    then m_writtenBytes f' = 0 /\
         m_fp f' = Some (getLogFileName (m_basename f) (readings w (S (clock w))) w)
    else m_writtenBytes f' = m_writtenBytes f + zlen data /\ m_fp f' = Some path.
Proof.
  intros Hfp Hd n flushing rolling.
  destruct (append_step (length data) data f path w Hfp Hd) as (f' & w' & Ha & Hrest); [unfold zlen; lia|].
  exists f', w'. destruct Hrest as (_ & Hc & _ & _ & _ & _ & _ & Hfl & Hroll).
  fold n flushing rolling in Hfl, Hroll. split_and!; [done..|].
  destruct (negb flushing && rolling); by destruct_and!.
Qed.

(** When every reading of the clock is more than the flush interval after
    the one before, the file is never rolled, however much is written to
    it. *)
Theorem appends_never_roll ds f path w :
  m_fp f = Some path -> disk_ok w ->
  m_flushInterval f < Ts.timeDifference (readings w (clock w)) (m_lastFlush f) ->
  (forall k, m_flushInterval f < Ts.timeDifference (readings w (S k)) (readings w k)) ->
  exists f' w', append_all ds f w = Ok (f', w') /\ m_fp f' = Some path /\
    m_writtenBytes f' = m_writtenBytes f + zlen (concat ds).
Proof.
  revert f w. induction ds as [|d ds IH]; intros f w Hfp Hd Hfirst Hgap; simpl.
  { exists f, w. split_and!; [done..|]. change (zlen (@nil ascii)) with 0. lia. }
  destruct (append_step (length d) d f path w Hfp Hd) as (f1 & w1 & -> & Hs & Hrest); [unfold zlen; lia|].
  destruct Hrest as (_ & _ & _ & Hi & _ & Hlast & _ & Hroll).
  rewrite (proj2 (Z.ltb_lt _ _)) in Hlast, Hroll by done. simpl in Hroll.
  destruct Hroll as (Hb & Hp & _ & Hc). pose proof Hs as (_ & _ & Hr & _). simpl.
  destruct (IH f1 w1) as (f2 & w2 & -> & Hp2 & Hb2).
  - done.
  - by eapply disk_ok_same.
  - rewrite Hi, Hlast, Hr, Hc. apply Hgap.
  - intros k. rewrite Hi, Hr. apply Hgap.
  - exists f2, w2. split_and!; [done..|]. rewrite Hb2, Hb, zlen_app. lia.
Qed.

(** ** Witnesses *)

(** A disk that takes two bytes at a time and a clock that moves four seconds
    at each reading. *)
Definition slow_world : World :=
  mkWorld (fun _ => true) (fun _ => 2) (fun k => Ts.mkTimestamp (Z.of_nat (S k) * 4000000000)) 7 0 0 [] 0.

Definition log_file (rollSize : Z) : LogFile :=
  mkLogFile (Some (bs "log")) 0 Ts.zero Ts.zero rollSize 3000000 [].

Lemma slow_world_ok : disk_ok slow_world.
Proof. split; [simpl; lia | done]. Qed.

Lemma slow_world_gap k :
  3000000 < Ts.timeDifference (readings slow_world (S k)) (readings slow_world k).
Proof.
  unfold Ts.timeDifference. simpl.
  replace (_ - _) with (4000000 * 1000) by lia. rewrite Z.quot_mul; lia.
Qed.

Lemma appends_lossless_witness :
  exists f' w', append_all [bs "hello"; bs "world"] (log_file 4) slow_world = Ok (f', w') /\
    is_open f' /\ disk_ok w' /\
    stream_of w' = stream_of slow_world ++ concat [bs "hello"; bs "world"].
Proof.
  apply (appends_lossless [bs "hello"; bs "world"] (log_file 4) slow_world);
    [by eexists | apply slow_world_ok].
Defined.

Lemma append_roll_decision_witness :
  let f := mkLogFile (Some (bs "log")) 0 Ts.zero (Ts.mkTimestamp 3999999999) 4 3000000 [] in
  let n := readings slow_world (clock slow_world) in
  let flushing := m_flushInterval f <? Ts.timeDifference n (m_lastFlush f) in
  let rolling := m_rollSize f <? m_writtenBytes f + zlen (bs "hello") in
  exists f' w', append (length (bs "hello")) (bs "hello") f slow_world = Ok (f', w') /\
    contents (bs "log") w' = contents (bs "log") slow_world ++ bs "hello" /\
    flushes w' = (if flushing then S (flushes slow_world) else flushes slow_world) /\
    if negb flushing && rolling
    then m_writtenBytes f' = 0 /\
         m_fp f' = Some (getLogFileName (m_basename f) (readings slow_world (S (clock slow_world))) slow_world)
    else m_writtenBytes f' = m_writtenBytes f + zlen (bs "hello") /\ m_fp f' = Some (bs "log").
Proof.
  apply (append_roll_decision (bs "hello")
           (mkLogFile (Some (bs "log")) 0 Ts.zero (Ts.mkTimestamp 3999999999) 4 3000000 [])
           (bs "log") slow_world); [reflexivity | apply slow_world_ok].
Defined.

Lemma appends_never_roll_witness :
  exists f' w', append_all [bs "hello"; bs "world"] (log_file 4) slow_world = Ok (f', w') /\
    m_fp f' = Some (bs "log") /\
    m_writtenBytes f' = m_writtenBytes (log_file 4) + zlen (concat [bs "hello"; bs "world"]).
Proof.
  apply (appends_never_roll [bs "hello"; bs "world"] (log_file 4) (bs "log") slow_world).
  - reflexivity.
  - apply slow_world_ok.
  - reflexivity.
  - apply slow_world_gap.
Defined.

End File.
