(* ===== verification/AsyncLogging.v ===== *)
(** * AsyncLogging: Logging/asynclogging.h and Logging/asynclogging.cpp

    The buffers between the threads that log and the thread that writes the
    file, as a transition system.  An [append] runs under the mutex, so it is
    one step; the logging thread is at one of the points [pc] between which it
    does not touch what it shares: the test of the loop, the critical section
    that takes the front buffers, the writing of what it took.  The steps may
    come in any order the points allow, which covers every interleaving and
    every way the wait on the condition variable can end.

    A [unique_ptr] to a buffer is [None] after it was moved from. *)

From Stdlib Require Import ZArith Lia Ascii String.
From stdpp Require Import options.
From S2P Require Import Prelude CStd Timestamp LogStream LogFile.
Import Fixed.

Module Async.

Definition kFlushInterval : Z := 3.
Definition kRollSize : Z := 1024 * 1024 * 32.

Abbreviation BufferPtr := (option FixedBuffer).

Definition deref (p : BufferPtr) : res FixedBuffer :=
  match p with Some b => Ok b | None => Fault Undefined end.

Section WithMemory.
(** The uninitialised array of a buffer fresh from [new]. *)
Context (fresh : bytes).

Definition newBuffer : FixedBuffer := Fixed.new fresh.

Inductive pc := NotStarted | AtHead | Collecting | Writing | Exited.

#[global] Instance pc_eq_dec : EqDecision pc.
Proof. solve_decision. Defined.

(** The object, the variables of [threadFunc] and the disk. *)
Record AsyncLogging := mkAsync {
  m_running : bool;
  m_filepath : bytes;
  m_currentFile : File.LogFile;
  m_currentBuffer : BufferPtr;
  m_nextBuffer : BufferPtr;
  m_buffers : list BufferPtr;
  thread : pc;
  logFile : File.LogFile;
  newBuffer1 : BufferPtr;
  newBuffer2 : BufferPtr;
  buffersToWrite : list BufferPtr;
  world : File.World
}.

(** The constructor. *)
Definition new (filepath : bytes) (rollSize flushInterval : Z) (w : File.World)
    : res AsyncLogging :=
  '(f, w) ← File.new filepath rollSize flushInterval w;
  Ok (mkAsync false filepath f (Some newBuffer) (Some newBuffer) [] NotStarted f None None [] w).

Definition set_front (current next : BufferPtr) (buffers : list BufferPtr) (s : AsyncLogging)
    : AsyncLogging :=
  mkAsync (m_running s) (m_filepath s) (m_currentFile s) current next buffers (thread s)
    (logFile s) (newBuffer1 s) (newBuffer2 s) (buffersToWrite s) (world s).

(** [append(data, len)], under the mutex. *)
Definition append (data : bytes) (s : AsyncLogging) : res AsyncLogging :=
  cur ← deref (m_currentBuffer s);
  if zlen data <? avail cur then
    cur ← Fixed.append data cur;
    Ok (set_front (Some cur) (m_nextBuffer s) (m_buffers s) s)
  else
    let buffers := m_buffers s ++ [m_currentBuffer s] in
    let '(current, next) :=
      match m_nextBuffer s with
      | Some b => (Some b, None)
      | None => (Some newBuffer, None)
      end in
    cur ← deref current;
    cur ← Fixed.append data cur;
    Ok (set_front (Some cur) next buffers s).

(** [startAsyncLogging()], and [threadFunc] up to its loop. *)
Definition start (s : AsyncLogging) : res AsyncLogging :=
  '(f, w) ← File.new (m_filepath s) kRollSize 3 (world s);
  Ok (mkAsync true (m_filepath s) (m_currentFile s) (m_currentBuffer s) (m_nextBuffer s)
        (m_buffers s) AtHead f (Some (setZero newBuffer)) (Some (setZero newBuffer)) [] w).

(** [stop()]: the thread sees it at the head of its loop. *)
Definition stop (s : AsyncLogging) : AsyncLogging :=
  mkAsync false (m_filepath s) (m_currentFile s) (m_currentBuffer s) (m_nextBuffer s)
    (m_buffers s) (thread s) (logFile s) (newBuffer1 s) (newBuffer2 s) (buffersToWrite s) (world s).

(** [while (m_running)]; after the loop, the last flush. *)
Definition head (s : AsyncLogging) : AsyncLogging :=
  mkAsync (m_running s) (m_filepath s) (m_currentFile s) (m_currentBuffer s) (m_nextBuffer s)
    (m_buffers s) (if m_running s then Collecting else Exited) (logFile s) (newBuffer1 s)
    (newBuffer2 s) (buffersToWrite s)
    (if m_running s then world s else File.flush (logFile s) (world s)).

(** The critical section, after the wait. *)
Definition collect (s : AsyncLogging) : AsyncLogging :=
  let buffers := m_buffers s ++ [m_currentBuffer s] in
  let '(next, nb2) :=
    match m_nextBuffer s with
    | None => (newBuffer2 s, None)
    | Some b => (Some b, newBuffer2 s)
    end in
  mkAsync (m_running s) (m_filepath s) (m_currentFile s) (newBuffer1 s) next
    (buffersToWrite s) Writing (logFile s) None nb2 buffers (world s).

(** [logFile->append(buffer->data(), buffer->len())] *)
Definition write_buffer (p : BufferPtr) (f : File.LogFile) (w : File.World)
    : res (File.LogFile * File.World) :=
  b ← deref p;
  let data := slice 0 (len b) (m_data b) in
  File.append (length data) data f w.

Fixpoint write_buffers (l : list BufferPtr) (f : File.LogFile) (w : File.World)
    : res (File.LogFile * File.World) :=
  match l with
  | [] => Ok (f, w)
  | p :: l' => '(f, w) ← write_buffer p f w; write_buffers l' f w
  end.

(** [newBuffer = move(buffersToWrite.back()); pop_back(); newBuffer->reset();] *)
Definition refill (nb : BufferPtr) (l : list BufferPtr) : res (BufferPtr * list BufferPtr) :=
  match nb with
  | Some b => Ok (Some b, l)
  | None =>
      match reverse l with
      | [] => Fault Undefined
      | p :: l' => b ← deref p; Ok (Some (reset b), reverse l')
      end
  end.

(** The rest of the loop's body. *)
Definition write_out (s : AsyncLogging) : res AsyncLogging :=
  '(f, w) ← write_buffers (buffersToWrite s) (logFile s) (world s);
  let l := if 2 <? zlen (buffersToWrite s) then take 2 (buffersToWrite s)
           else buffersToWrite s in
  '(nb1, l) ← refill (newBuffer1 s) l;
  '(nb2, l) ← refill (newBuffer2 s) l;
  Ok (mkAsync (m_running s) (m_filepath s) (m_currentFile s) (m_currentBuffer s) (m_nextBuffer s)
        (m_buffers s) AtHead f nb1 nb2 [] (File.flush f w)).

(** ** The interleavings *)

Inductive event :=
| Append (data : bytes)
| Start
| Stop
| Head
| Collect
| WriteOut.

Inductive step : AsyncLogging -> event -> res AsyncLogging -> Prop :=
| step_append d s : step s (Append d) (append d s)
| step_start s : thread s = NotStarted -> step s Start (start s)
| step_stop s : m_running s = true -> step s Stop (Ok (stop s))
| step_head s : thread s = AtHead -> step s Head (Ok (head s))
| step_collect s : thread s = Collecting -> step s Collect (Ok (collect s))
| step_write s : thread s = Writing -> step s WriteOut (write_out s).

Inductive steps : AsyncLogging -> list event -> res AsyncLogging -> Prop :=
| steps_nil s : steps s [] (Ok s)
| steps_cons s e s1 es r : step s e (Ok s1) -> steps s1 es r -> steps s (e :: es) r
| steps_fault s e f es : step s e (Fault f) -> steps s (e :: es) (Fault f).

(** ** What the log promises *)

(** The message of an append that a buffer can hold. *)
Definition accepted (e : event) : bytes :=
  match e with
  | Append d => if zlen d <? kLargeBuffer then d else []
  | _ => []
  end.

Definition text (l : list BufferPtr) : bytes :=
  concat (map (fun p => match p with Some b => toString b | None => [] end) l).

(** What is not in the file yet, oldest first. *)
Definition pending (s : AsyncLogging) : bytes :=
  text (buffersToWrite s) ++ text (m_buffers s) ++ text [m_currentBuffer s].

Definition logged (s : AsyncLogging) : bytes := File.stream_of (world s).

Definition good (p : BufferPtr) : Prop := exists b, p = Some b /\ wf kLargeBuffer b.
Definition blank (p : BufferPtr) : Prop := exists b, p = Some b /\ wf kLargeBuffer b /\ m_cur b = 0.

(** The invariant: no pointer the code dereferences is null, and a spare
    buffer is missing only when there is one more buffer to take it from. *)
Record inv (s : AsyncLogging) : Prop := {
  inv_current : good (m_currentBuffer s);
  inv_next : blank (m_nextBuffer s) \/ (m_nextBuffer s = None /\ m_buffers s <> []);
  inv_buffers : Forall good (m_buffers s);
  inv_disk : File.disk_ok (world s);
  inv_thread :
    match thread s with
    | NotStarted | Exited => buffersToWrite s = []
    | AtHead | Collecting =>
        blank (newBuffer1 s) /\ blank (newBuffer2 s) /\ buffersToWrite s = [] /\
        File.is_open (logFile s)
    | Writing =>
        newBuffer1 s = None /\ Forall good (buffersToWrite s) /\ File.is_open (logFile s) /\
        (blank (newBuffer2 s) /\ (1 <= length (buffersToWrite s))%nat \/
         newBuffer2 s = None /\ (2 <= length (buffersToWrite s))%nat)
    end
}.

(** ** Lemmas *)

Lemma large_int : kLargeBuffer <= INT_MAX.
Proof. unfold kLargeBuffer, INT_MAX. lia. Qed.

Lemma reset_blank b : wf kLargeBuffer b -> blank (Some (reset b)).
Proof.
  intros [H1 H2]. eexists. split; [done|]. split; [|done]. split; simpl; [done|].
  unfold kLargeBuffer. lia.
Qed.

Lemma blank_good p : blank p -> good p.
Proof. intros (b & -> & ? & _). by exists b. Qed.

Lemma blank_text p : blank p -> text [p] = [].
Proof. intros (b & -> & _ & Hc). unfold text, toString. simpl. by rewrite Hc, slice_empty. Qed.

Lemma text_app l k : text (l ++ k) = text l ++ text k.
Proof. unfold text. by rewrite map_app, concat_app. Qed.

Lemma text_one b : text [Some b] = toString b.
Proof. apply app_nil_r. Qed.

(** Appending to a buffer with room for the message. *)
Lemma append_room d b :
  wf kLargeBuffer b -> zlen d <= INT_MAX -> zlen d < kLargeBuffer - m_cur b ->
  exists b', Fixed.append d b = Ok b' /\ wf kLargeBuffer b' /\ toString b' = toString b ++ d.
Proof.
  intros Hwf Hd Hr. destruct (append_ok kLargeBuffer d b Hwf large_int Hd) as (b' & Ha & Hwf' & Hc).
  rewrite (zlen_toString kLargeBuffer) in Hc by done. exists b'. split_and!; [done..|].
  rewrite Hc. by decide_bool.
Qed.

(** A blank buffer takes the message, or nothing when it is too long. *)
Lemma append_blank d b :
  wf kLargeBuffer b -> m_cur b = 0 -> zlen d <= INT_MAX ->
  exists b', Fixed.append d b = Ok b' /\ wf kLargeBuffer b' /\ toString b' = accepted (Append d).
Proof.
  intros Hwf Hc0 Hd. destruct (append_ok kLargeBuffer d b Hwf large_int Hd) as (b' & Ha & Hwf' & Hc).
  exists b'. split_and!; [done..|]. rewrite Hc, (zlen_toString kLargeBuffer), Hc0 by done.
  unfold toString. rewrite Hc0, slice_empty. unfold accepted.
  destruct (Z.ltb_spec (zlen d) kLargeBuffer); decide_bool; done.
Qed.

Lemma write_buffers_ok l f w :
  Forall good l -> File.is_open f -> File.disk_ok w ->
  exists f' w', write_buffers l f w = Ok (f', w') /\ File.is_open f' /\ File.disk_ok w' /\
    File.stream_of w' = File.stream_of w ++ text l.
Proof.
  intros Hl. revert f w. induction Hl as [|p l (b & -> & Hwf) Hl IH]; intros f w Ho Hd; simpl.
  { exists f, w. by rewrite app_nil_r. }
  assert (slice 0 (len b) (m_data b) = toString b) as Hs.
  { unfold len, toString. rewrite wrap32_id; [done|]. destruct Hwf.
    pose proof large_int. unfold INT_MIN. lia. }
  unfold write_buffer. simpl. rewrite Hs.
  destruct (File.append_open (length (toString b)) (toString b) f w Ho Hd) as (f1 & w1 & -> & Ho1 & Hd1 & Hs1);
    [unfold zlen; lia|]. simpl.
  destruct (IH f1 w1 Ho1 Hd1) as (f2 & w2 & -> & Ho2 & Hd2 & Hs2).
  exists f2, w2. split_and!; [done..|]. by rewrite Hs2, Hs1, <- app_assoc.
Qed.

Lemma flush_disk f w : File.disk_ok w -> File.disk_ok (File.flush f w).
Proof. done. Qed.

(** The last buffer of a list with one becomes a blank spare. *)
Lemma refill_none l :
  Forall good l -> (1 <= length l)%nat ->
  exists nb l', refill None l = Ok (nb, l') /\ blank nb /\ Forall good l' /\ length l = S (length l').
Proof.
  intros Hl Hn. unfold refill. destruct l as [|p l] using rev_ind; [simpl in Hn; lia|].
  rewrite reverse_app. simpl. apply Forall_app in Hl as [Hl Hp].
  inversion_clear Hp as [|?? (b & -> & Hwf)]. simpl. rewrite reverse_involutive.
  do 2 eexists. split; [done|]. split_and!; [by apply reset_blank | done | rewrite length_app; simpl; lia].
Qed.

Lemma refill_some p l : blank p -> refill p l = Ok (p, l).
Proof. intros (b & -> & _). done. Qed.

Context (Hfresh : zlen fresh = kLargeBuffer).
#[local] Set Default Proof Using "Type*".

Lemma newBuffer_wf : wf kLargeBuffer newBuffer.
Proof. split; simpl; [done | unfold kLargeBuffer; lia]. Qed.

Lemma newBuffer_blank : blank (Some newBuffer).
Proof. exists newBuffer. auto using newBuffer_wf. Qed.

Lemma setZero_blank : blank (Some (setZero newBuffer)).
Proof.
  eexists. split; [done|]. split; [|done]. split; simpl; [|unfold kLargeBuffer; lia].
  unfold zlen in *. rewrite length_replicate. done.
Qed.

Lemma append_inv d s :
  inv s -> zlen d <= INT_MAX ->
  exists s', append d s = Ok s' /\ inv s' /\ logged s' = logged s /\
    pending s' = pending s ++ accepted (Append d) /\ thread s' = thread s /\
    m_running s' = m_running s.
Proof.
  intros Hinv Hd. pose proof Hinv as [(cur & Ecur & Hwf) Hn Hb Hdisk Hth].
  unfold append. rewrite Ecur. simpl. rewrite (avail_eq kLargeBuffer) by auto using large_int.
  destruct (Z.ltb_spec (zlen d) (kLargeBuffer - m_cur cur)) as [Hroom|Hfull].
  - destruct (append_room d cur) as (b' & -> & Hwf' & Hc); [done..|]. simpl.
    eexists. split; [done|]. split_and!; try done.
    + split; simpl; try done. by exists b'.
    + unfold pending. cbn [set_front buffersToWrite m_buffers m_currentBuffer].
      rewrite Ecur, !text_one, Hc, <- !app_assoc. unfold accepted.
      do 3 f_equal. destruct Hwf. by decide_bool.
  - assert (exists b next, (match m_nextBuffer s with
                | Some b => (Some b, None : BufferPtr) | None => (Some newBuffer, None) end) = (Some b, next) /\
              next = None /\ wf kLargeBuffer b /\ m_cur b = 0) as (b & next & Hm & -> & Hwfb & Hb0).
    { destruct Hn as [(b & -> & Hwfb & Hb0)|[-> _]].
      - exists b, None. auto.
      - exists newBuffer, None. split_and!; auto using newBuffer_wf. }
    rewrite Hm. simpl. destruct (append_blank d b Hwfb Hb0 Hd) as (b' & -> & Hwf' & Hc). simpl.
    eexists. split; [done|]. split_and!; try done.
    + split; simpl; try done.
      * by exists b'.
      * right. split; [done|]. by destruct (m_buffers s).
      * apply Forall_app. split; [done|]. constructor; [|done]. by exists cur.
    + unfold pending. cbn [set_front buffersToWrite m_buffers m_currentBuffer].
      rewrite text_app, Ecur, !text_one, Hc.
      by rewrite <- !app_assoc.
Qed.

Lemma write_out_inv s :
  inv s -> thread s = Writing ->
  exists s', write_out s = Ok s' /\ inv s' /\ thread s' = AtHead /\
    logged s' = logged s ++ text (buffersToWrite s) /\
    pending s' = text (m_buffers s) ++ text [m_currentBuffer s].
Proof.
  intros [Hc Hn Hb Hdisk Hth] Ht. rewrite Ht in Hth. destruct Hth as (Hnb1 & Hg & Ho & Hnb2).
  unfold write_out.
  destruct (write_buffers_ok _ (logFile s) (world s) Hg Ho Hdisk) as (f & w & -> & Ho' & Hd' & Hs).
  cbn [mbind res_bind]. set (l := if _ : bool then _ else _).
  assert (Forall good l /\ (length (buffersToWrite s) `min` 2 <= length l)%nat) as [Hgl Hlen].
  { unfold l. destruct (_ <? _); [|split; [done | lia]]. rewrite length_take.
    split; [by apply Forall_take | lia]. }
  rewrite Hnb1. destruct (refill_none l) as (nb1 & l1 & -> & Hb1 & Hg1 & Hl1); [done | lia |].
  cbn [mbind res_bind].
  assert (exists nb2 l2, refill (newBuffer2 s) l1 = Ok (nb2, l2) /\ blank nb2) as (nb2 & l2 & -> & Hb2).
  { destruct Hnb2 as [[Hb2 _]|[-> Hn2]].
    - exists (newBuffer2 s), l1. by rewrite refill_some.
    - destruct (refill_none l1) as (nb2 & l2 & -> & Hb2 & _); [done | lia | eauto]. }
  cbn [mbind res_bind]. eexists. split; [done|]. split_and!; try done.
Qed.

Lemma collect_inv s :
  inv s -> thread s = Collecting ->
  inv (collect s) /\ thread (collect s) = Writing /\ logged (collect s) = logged s /\
  pending (collect s) = pending s /\ text [m_currentBuffer (collect s)] = [] /\
  m_buffers (collect s) = [].
Proof.
  intros [Hc Hn Hb Hdisk Hth] Ht. rewrite Ht in Hth. destruct Hth as (Hb1 & Hb2 & Hw & Ho).
  unfold collect, pending, logged. rewrite Hw. destruct Hn as [(b & Eb & Hwf & Hb0)|[Eb Hne]];
    rewrite Eb; simpl.
  - split_and!; try done.
    + split; simpl; auto using blank_good; [left; by exists b|].
      split_and!; auto; [apply Forall_app; auto|]. left. split; [done|]. rewrite length_app. simpl. lia.
    + rewrite text_app, (blank_text _ Hb1), !app_nil_r. done.
    + by apply blank_text.
  - split_and!; try done.
    + split; simpl; auto using blank_good. split_and!; auto; [apply Forall_app; auto|].
      right. split; [done|]. rewrite length_app. simpl. destruct (m_buffers s); [done | simpl; lia].
    + rewrite text_app, (blank_text _ Hb1), !app_nil_r. done.
    + by apply blank_text.
Qed.

(** An event keeps the invariant, and what is written and what is pending grow
    by the message accepted. *)
Lemma step_inv s e r :
  inv s -> step s e r -> (forall d, e = Append d -> zlen d <= INT_MAX) ->
  exists s', r = Ok s' /\ inv s' /\
    logged s' ++ pending s' = (logged s ++ pending s) ++ accepted e /\
    (thread s = Exited -> thread s' = Exited /\ logged s' = logged s).
Proof.
  intros Hinv Hstep Hd. destruct Hstep as [d s|s Ht|s Hr|s Ht|s Ht|s Ht].
  - destruct (append_inv d s Hinv) as (s' & -> & Hinv' & Hl & Hp & Ht & _); [auto|].
    exists s'. split_and!; auto; [by rewrite Hl, Hp, app_assoc | by rewrite Ht].
  - destruct Hinv as [Hc Hn Hb Hdisk Hth]. rewrite Ht in Hth. unfold start.
    destruct (File.new_open (m_filepath s) kRollSize 3 (world s)) as (f & w & -> & Ho & Hd' & Hs);
      [unfold INT_MIN, INT_MAX, Ts.kMicroSecondsPerSecond; lia | done |].
    simpl. eexists. split; [done|]. rewrite Ht. split_and!; [| | done].
    + split; simpl; auto using setZero_blank.
    + unfold logged, pending. simpl. by rewrite Hs, Hth, app_nil_r.
  - exists (stop s). split_and!; auto; [|by rewrite app_nil_r]. by destruct Hinv; split.
  - exists (head s). split_and!; auto; [| | by rewrite Ht].
    + destruct Hinv as [Hc Hn Hb Hdisk Hth]. rewrite Ht in Hth. destruct Hth as (?&?&?&?).
      split; simpl; auto; by destruct (m_running s).
    + rewrite app_nil_r. unfold head, logged, pending. simpl. by destruct (m_running s).
  - destruct (collect_inv s Hinv Ht) as (?&?&Hl&Hp&_). exists (collect s).
    split_and!; auto; [by rewrite Hl, Hp, app_nil_r | by rewrite Ht].
  - destruct (write_out_inv s Hinv Ht) as (s' & -> & Hinv' & _ & Hl & Hp). exists s'.
    split_and!; auto; [|by rewrite Ht]. rewrite Hl, Hp, app_nil_r. unfold pending.
    by rewrite <- app_assoc.
Qed.

Lemma new_inv filepath rollSize flushInterval w :
  INT_MIN <= flushInterval * Ts.kMicroSecondsPerSecond <= INT_MAX -> File.disk_ok w ->
  exists s, new filepath rollSize flushInterval w = Ok s /\ inv s /\
    logged s = File.stream_of w /\ pending s = [] /\ thread s = NotStarted.
Proof.
  intros Hi Hd. unfold new.
  destruct (File.new_open filepath rollSize flushInterval w Hi Hd) as (f & w' & -> & Ho & Hd' & Hs).
  simpl. eexists. split; [done|]. split_and!; [|done| |done].
  - split; simpl; auto using newBuffer_blank, blank_good.
  - unfold pending. simpl. rewrite blank_text by apply newBuffer_blank. done.
Qed.

(** The messages of an event sequence are within an [int]. *)
Definition events_ok (es : list event) : Prop :=
  Forall (fun e => forall d, e = Append d -> zlen d <= INT_MAX) es.

Lemma steps_inv s es r :
  inv s -> steps s es r -> events_ok es ->
  exists s', r = Ok s' /\ inv s' /\
    logged s' ++ pending s' = (logged s ++ pending s) ++ concat (map accepted es) /\
    (thread s = Exited -> thread s' = Exited /\ logged s' = logged s).
Proof.
  intros Hinv Hs Hes. revert Hinv. induction Hs as [s|s e s1 es r Hstep Hs IH|s e f es Hstep];
    intros Hinv; simpl.
  - exists s. by rewrite app_nil_r.
  - inversion_clear Hes as [|?? He Hes'].
    destruct (step_inv s e _ Hinv Hstep He) as (s1' & [= <-] & Hinv1 & Heq1 & Hex1).
    destruct (IH Hes' Hinv1) as (s2 & -> & Hinv2 & Heq2 & Hex2). exists s2.
    split_and!; [done..| |].
    + by rewrite Heq2, Heq1, <- !app_assoc.
    + intros Hex. destruct (Hex1 Hex) as [Ht Hl]. destruct (Hex2 Ht) as [Ht2 Hl2]. split; [done|congruence].
  - inversion_clear Hes as [|?? He Hes'].
    by destruct (step_inv s e _ Hinv Hstep He) as (s1' & [=] & _).
Qed.

(** ** Properties *)


(** One turn of the writing thread's loop, from the test to the flush, runs
    to its end and puts everything that was pending into the file. *)
Theorem turn_writes_pending s :
  inv s -> thread s = AtHead -> m_running s = true ->
  exists s', steps s [Head; Collect; WriteOut] (Ok s') /\ inv s' /\ thread s' = AtHead /\
    logged s' = logged s ++ pending s /\ pending s' = [] /\
    (forall r, steps s [Head; Collect; WriteOut] r -> r = Ok s').
Proof.
  intros Hinv Ht Hr.
  assert (thread (head s) = Collecting) as Ht1 by (simpl; by rewrite Hr).
  destruct (step_inv s Head (Ok (head s)) Hinv) as (s1 & [= <-] & Hinv1 & _);
    [by constructor | done |].
  destruct (collect_inv (head s) Hinv1 Ht1) as (Hinv2 & Ht2 & Hl2 & Hp2 & Hcur & Hbuf).
  destruct (write_out_inv (collect (head s)) Hinv2 Ht2) as (s3 & Hw & Hinv3 & Ht3 & Hl3 & Hp3).
  assert (logged (head s) = logged s /\ pending (head s) = pending s) as [Hl1 Hp1]
    by (unfold logged, head; simpl; by rewrite Hr).
  exists s3. split_and!; try done.
  - econstructor; [by constructor|]. econstructor; [by constructor|].
    econstructor; [rewrite <- Hw; by constructor | constructor].
  - rewrite Hl3, Hl2, Hl1. f_equal. rewrite <- Hp1, <- Hp2. unfold pending.
    by rewrite Hcur, Hbuf, !app_nil_r.
  - by rewrite Hp3, Hcur, Hbuf.
  - intros r Hs. inversion Hs as [|? ? ? ? ? S1 R1|? ? ? ? S1]; subst; inversion S1; subst.
    inversion R1 as [|? ? ? ? ? S2 R2|? ? ? ? S2]; subst; inversion S2; subst.
    inversion R2 as [|? ? ? ? ? S3 R3|? ? ? ? S3]; subst; inversion S3; subst.
    + inversion R3; subst. congruence.
    + congruence.
Qed.

(** Stopping loses the tail: a message appended before [stop] whose turn has
    not come stays in memory after the thread has exited, and no later event
    writes it. *)
Theorem stop_loses_tail s d es r :
  inv s -> thread s = AtHead -> m_running s = true -> zlen d <= INT_MAX -> events_ok es ->
  steps s (Append d :: Stop :: Head :: es) r ->
  exists s', r = Ok s' /\ thread s' = Exited /\ logged s' = logged s /\
    pending s' = pending s ++ accepted (Append d) ++ concat (map accepted es).
Proof.
  intros Hinv Ht Hr Hd Hes Hs.
  destruct (append_inv d s Hinv Hd) as (s1 & Ha & Hinv1 & Hl1 & Hp1 & Ht1 & Hr1).
  inversion Hs as [|? ? sa ? ? S1 R1|? ? ? ? S1]; subst; inversion S1; subst; [|congruence].
  assert (sa = s1) as -> by congruence. clear S1.
  inversion R1 as [|? ? sb ? ? S2 R2|? ? ? ? S2]; subst; inversion S2; subst.
  inversion R2 as [|? ? sc ? ? S3 R3|? ? ? ? S3]; subst; inversion S3; subst.
  destruct (steps_inv (head (stop s1)) es r) as (s' & -> & Hinv' & Heq & Hex); [|done..|].
  { destruct (step_inv (stop s1) Head (Ok (head (stop s1)))) as (sx & [= <-] & ? & _); try done.
    by destruct Hinv1; split. }
  destruct Hex as [Ht' Hl']; [done|].
  assert (logged (head (stop s1)) = logged s) as Hlh by done.
  exists s'. split_and!; [done..| congruence |].
  rewrite Hl', Hlh, <- app_assoc in Heq. apply app_inv_head in Heq.
  change (pending (head (stop s1))) with (pending s1) in Heq.
  by rewrite Heq, Hp1, <- app_assoc.
Qed.

End WithMemory.
(** ** Witnesses *)

Definition large_memory : bytes := replicate (Z.to_nat kLargeBuffer) NUL.

Lemma large_memory_size : zlen large_memory = kLargeBuffer.
Proof. unfold large_memory, zlen. rewrite length_replicate, Z2Nat.id; [done|]. unfold kLargeBuffer. lia. Qed.

Lemma hello_ok : events_ok [Append (bs "hello"); Start].
Proof. repeat constructor; intros d E; [injection E as <-; by vm_compute | discriminate]. Qed.

(** A run exists from a new log: a message, then the thread starts. *)
Lemma hello_run :
  exists s0 s, new large_memory (bs "log") kRollSize 3 File.slow_world = Ok s0 /\
    steps large_memory s0 [Append (bs "hello"); Start] (Ok s) /\ inv s /\ thread s = AtHead /\
    m_running s = true.
Proof.
  destruct (new_inv large_memory large_memory_size (bs "log") kRollSize 3 File.slow_world)
    as (s0 & Hnew & Hinv & _ & _ & Ht); [by vm_compute | apply File.slow_world_ok|].
  pose proof hello_ok as Hok. inversion_clear Hok as [|?? H1 H2].
  destruct (append_inv large_memory large_memory_size (bs "hello") s0 Hinv) as (s1 & Ha & Hinv1 & _ & _ & Ht1 & _);
    [by apply H1|].
  assert (thread s1 = NotStarted) as Hns by congruence.
  destruct (step_inv large_memory large_memory_size s1 Start (start large_memory s1) Hinv1)
    as (s2 & Hs2 & Hinv2 & _); [by constructor | done |].
  exists s0, s2. split_and!; try done.
  - econstructor; [rewrite <- Ha; constructor|]. econstructor; [rewrite <- Hs2; by constructor | constructor].
  - unfold start in Hs2. bind_inv Hs2. destruct x. by injection Hs2 as <-.
  - unfold start in Hs2. bind_inv Hs2. destruct x. by injection Hs2 as <-.
Qed.


Lemma turn_writes_pending_witness :
  exists s s', steps large_memory s [Head; Collect; WriteOut] (Ok s') /\
    logged s' = logged s ++ pending s /\ pending s' = [].
Proof.
  destruct hello_run as (s0 & s & _ & _ & Hinv & Ht & Hr).
  destruct (turn_writes_pending large_memory large_memory_size s Hinv Ht Hr)
    as (s' & Hs & _ & _ & Hl & Hp & _).
  exists s, s'. exact (conj Hs (conj Hl Hp)).
Defined.

Lemma stop_loses_tail_witness :
  exists s s', thread s' = Exited /\ logged s' = logged s /\
    pending s' = pending s ++ accepted (Append (bs "bye")) ++ concat (map accepted []).
Proof.
  destruct hello_run as (s0 & s & _ & _ & Hinv & Ht & Hr).
  destruct (append_inv large_memory large_memory_size (bs "bye") s Hinv) as (s1 & Ha & _ & _ & _ & Ht1 & Hr1);
    [by vm_compute|].
  destruct (stop_loses_tail large_memory large_memory_size s (bs "bye") [] (Ok (head (stop s1))) Hinv Ht Hr)
    as (s' & _ & H1 & H2 & H3); [by vm_compute | constructor | | by exists s, s'].
  econstructor; [rewrite <- Ha; constructor|].
  econstructor; [constructor; congruence|]. econstructor; [constructor; simpl; congruence | constructor].
Defined.

End Async.
