(* ===== verification/LogPipeline.v ===== *)
(** * LogPipeline: from the log statements to the log files

    main.cpp directs the output of the loggers to the asynchronous log.  Any
    thread's statement formats its line and appends it to the buffers; the
    writing thread takes the buffers and appends them to the files. *)

From Stdlib Require Import ZArith Lia Ascii String.
From stdpp Require Import options.
From S2P Require Import Prelude CStd Timestamp LogStream Logging LogFile AsyncLogging.

Module Pipe.
Import Log.

Section WithMemory.
(** The uninitialised arrays of the large buffers. *)
Context (fresh : bytes).

(** [g_logLevel] and [asynclog]. *)
Record Pipeline := mkPipeline {
  level : LogLevel;
  asynclog : Async.AsyncLogging
}.

(** [AsyncOutputFunc(data, len)] *)
Definition AsyncOutputFunc (data : bytes) (p : Pipeline) : res Pipeline :=
  a ← Async.append fresh data (asynclog p); Ok (mkPipeline (level p) a).

Fixpoint output_all (msgs : list bytes) (p : Pipeline) : res Pipeline :=
  match msgs with
  | [] => Ok p
  | data :: msgs' => p ← AsyncOutputFunc data p; output_all msgs' p
  end.

(** A log statement, with [g_output] set to [AsyncOutputFunc]. *)
Definition statement (env : environment) (l : LogLevel) (filename : bytes) (line : Z) (vs : list Fixed.value)
    (p : Pipeline) : res Pipeline :=
  g ← LOG env l filename line vs (mkGlobals (level p) [] 0);
  output_all (g_output g) p.

(** The log configuration at the start of main(). *)
Definition main_log (w : File.World) : res Pipeline :=
  let g := setLogLevel INFO (mkGlobals INFO [] 0) in
  a ← Async.new fresh (bs "./log") Async.kRollSize 3 w;
  a ← Async.start fresh a;
  Ok (mkPipeline (logLevel g) a).

(** Statements of any threads, the steps of the writing thread, and stop. *)
Inductive pevent :=
| Statement (env : environment) (l : LogLevel) (filename : bytes) (line : Z) (vs : list Fixed.value)
| Thread (e : Async.event).

Inductive pstep : Pipeline -> pevent -> res Pipeline -> Prop :=
| pstep_statement p env l filename line vs :
    pstep p (Statement env l filename line vs) (statement env l filename line vs p)
| pstep_thread p e a :
    (forall d, e <> Async.Append d) -> Async.step fresh (asynclog p) e a ->
    pstep p (Thread e) (a ← a; Ok (mkPipeline (level p) a)).

Inductive psteps : Pipeline -> list pevent -> res Pipeline -> Prop :=
| psteps_nil p : psteps p [] (Ok p)
| psteps_cons p e p1 es r : pstep p e (Ok p1) -> psteps p1 es r -> psteps p (e :: es) r
| psteps_fault p e f es : pstep p e (Fault f) -> psteps p (e :: es) (Fault f).

(** ** What the log should say *)

(** The line of a statement, or nothing below the level. *)
Definition said (lvl : LogLevel) (e : pevent) : bytes :=
  match e with
  | Statement env l filename line vs =>
      if enabled l (mkGlobals lvl [] 0) then line_text env l filename line vs else []
  | Thread _ => []
  end.

(** A statement whose line fits a stream's array, with room for one number. *)
Definition says_ok (e : pevent) : Prop :=
  match e with
  | Statement env l filename line vs =>
      env_ok env /\ zlen filename <= INT_MAX /\ INT_MIN <= line <= INT_MAX /\ Forall Fixed.value_ok vs /\
      zlen (line_text env l filename line vs) + kMaxNumericSize <= kSmallBuffer
  | Thread _ => True
  end.

(** ** Lemmas *)

#[local] Set Default Proof Using "Type*".
Context (Hfresh : zlen fresh = kLargeBuffer).

Lemma statement_ok env l filename line vs p :
  says_ok (Statement env l filename line vs) -> Async.inv (asynclog p) ->
  exists p', statement env l filename line vs p = Ok p' /\ level p' = level p /\ Async.inv (asynclog p') /\
    Async.logged (asynclog p') ++ Async.pending (asynclog p') =
      (Async.logged (asynclog p) ++ Async.pending (asynclog p)) ++ said (level p) (Statement env l filename line vs).
Proof.
  intros (He & Hf & Hl & Hvs & Hfit) Hinv. unfold statement, said.
  destruct (enabled l (mkGlobals (level p) [] 0)) eqn:Een.
  2: { unfold LOG. rewrite Een. simpl. exists p. by rewrite app_nil_r. }
  destruct (LOG_message env l filename line vs _ He Hf Hl Hvs Een) as (msg & -> & Hz & Hmsg).
  rewrite Hmsg by done. rewrite Hmsg in Hz by done. cbn [mbind res_bind g_output app output_all].
  unfold AsyncOutputFunc.
  destruct (Async.append_inv fresh Hfresh (line_text env l filename line vs) (asynclog p) Hinv)
    as (a & -> & Hinv' & Hlog & Hpend & _); [unfold kSmallBuffer, INT_MAX in *; lia|].
  cbn [mbind res_bind]. eexists. split; [done|]. split_and!; [done..|]. simpl.
  rewrite Hlog, Hpend. unfold Async.accepted. rewrite (proj2 (Z.ltb_lt _ _)); [by rewrite app_assoc|].
  unfold kSmallBuffer, kLargeBuffer in *. lia.
Qed.

Lemma pstep_ok p e r :
  says_ok e -> Async.inv (asynclog p) -> pstep p e r ->
  exists p', r = Ok p' /\ level p' = level p /\ Async.inv (asynclog p') /\
    Async.logged (asynclog p') ++ Async.pending (asynclog p') =
      (Async.logged (asynclog p) ++ Async.pending (asynclog p)) ++ said (level p) e.
Proof.
  intros Hok Hinv Hstep. destruct Hstep as [p env l filename line vs|p e a Hne Hstep].
  { by apply statement_ok. }
  destruct (Async.step_inv fresh Hfresh (asynclog p) e a Hinv Hstep) as (a' & -> & Hinv' & Heq & _).
  { intros d ->. by destruct (Hne d). }
  eexists. split; [done|]. split_and!; [done..|]. simpl. rewrite Heq. f_equal.
  destruct e as [d| | | | |]; try done. by destruct (Hne d).
Qed.

Lemma psteps_ok p es r :
  Forall says_ok es -> Async.inv (asynclog p) -> psteps p es r ->
  exists p', r = Ok p' /\ Async.inv (asynclog p') /\
    Async.logged (asynclog p') ++ Async.pending (asynclog p') =
      (Async.logged (asynclog p) ++ Async.pending (asynclog p)) ++ concat (map (said (level p)) es).
Proof.
  intros Hes Hinv Hs. revert Hes Hinv.
  induction Hs as [p|p e p1 es r Hstep Hs IH|p e f es Hstep]; intros Hes Hinv.
  - exists p. simpl. by rewrite app_nil_r.
  - inversion_clear Hes as [|?? He Hes'].
    destruct (pstep_ok p e _ He Hinv Hstep) as (p' & [= <-] & Hlv & Hinv1 & Heq).
    destruct (IH Hes' Hinv1) as (p2 & -> & Hinv2 & Heq2). exists p2. split_and!; [done..|].
    simpl. by rewrite Heq2, Heq, Hlv, <- app_assoc.
  - inversion_clear Hes as [|?? He Hes'].
    by destruct (pstep_ok p e _ He Hinv Hstep) as (p' & [=] & _).
Qed.

Lemma main_log_ok w :
  File.disk_ok w ->
  exists p, main_log w = Ok p /\ level p = INFO /\ Async.inv (asynclog p) /\
    Async.logged (asynclog p) ++ Async.pending (asynclog p) = File.stream_of w.
Proof.
  intros Hd. unfold main_log.
  destruct (Async.new_inv fresh Hfresh (bs "./log") Async.kRollSize 3 w) as (a & -> & Hinv & Hl & Hp & Ht); [by vm_compute | done|].
  cbn [mbind res_bind].
  destruct (Async.step_inv fresh Hfresh a Async.Start (Async.start fresh a) Hinv) as (a' & -> & Hinv' & Heq & _);
    [by constructor | done|].
  cbn [mbind res_bind]. eexists. split; [done|]. split_and!; [done..|]. simpl.
  by rewrite Heq, Hl, Hp, !app_nil_r.
Qed.

(** ** Properties *)


End WithMemory.

(** ** Witnesses *)

(** An error is reported, a debug message is not, and the thread takes a turn. *)
Definition some_events : list pevent :=
  [Statement sample_env ERROR (bs "/root/Timer/rbtreetimer.cpp") 92 [Fixed.VCStr (Some (bs "failed"))];
   Statement sample_env DEBUG (bs "buffer.cpp") 7 [];
   Thread Async.Head; Thread Async.Collect; Thread Async.WriteOut].

Lemma sample_env_ok : env_ok sample_env.
Proof. split; [reflexivity | unfold INT64_MAX; simpl; lia | simpl; lia]. Qed.

Lemma some_events_ok : Forall says_ok some_events.
Proof.
  repeat constructor; try apply sample_env_ok; vm_compute; intuition discriminate.
Qed.


(** The line the log gets from those events. *)
Example some_events_said :
  concat (map (said INFO) some_events) =
  bs "19700221 10:41:51.557050 140737345 ERROR failed - rbtreetimer.cpp589210".
Proof. vm_compute. reflexivity. Qed.

End Pipe.
