(* ===== verification/TcpConnection.v ===== *)
(** * TcpConnection: Net/tcpconnection.h and Net/tcpconnection.cpp

    One connection: its state machine, its two buffers, its channel in the
    poller of its loop, and the system calls it makes on its socket.

    The calls to the kernel are inputs: what each [write] answers ([writes]),
    and what [readv] answers (an argument of [handleRead]).  What was put on
    the wire and the half-close are recorded in order ([calls]).  The three
    callbacks of the connection are parameters. *)

From Stdlib Require Import ZArith Lia Ascii String.
From stdpp Require Import options.
From S2P Require Import Prelude CStd Buffer HttpRequestParser Channel Epoller Timestamp.

(** Error numbers of Linux. *)
Definition EAGAIN : Z := 11.
Definition EWOULDBLOCK : Z := 11.
Definition EPIPE : Z := 32.
Definition ECONNRESET : Z := 104.

(** What [::write] answers for a number of bytes. *)
Inductive write_result := Wrote (n : Z) | WriteErr (errno : Z).

(** What the connection did to its socket. *)
Inductive sys_call := SysWrite (data : bytes) | SysShutdown.

Module Tcp.

Inductive ConnectionState := kConnecting | kConnected | kDisconnecting | kDisconnected.

#[global] Instance ConnectionState_eq_dec : EqDecision ConnectionState.
Proof. solve_decision. Defined.

(** The functions a connection queues in its loop.  The message of a send from
    another thread is bound by its address and length. *)
Inductive functor :=
| FShutDownInLoop
| FForceCloseInLoop
| FSendInLoop (ptr len : Z)
| FConnectionDestructor.

#[global] Instance functor_eq_dec : EqDecision functor.
Proof. solve_decision. Defined.

Section WithKernel.
Context {K : Type} `{!EpollKernel K}.

(** The object; the poller and the queued functors of its loop; whether the
    running thread is the loop's; the kernel's answers to [write], the clock,
    and what was done with them. *)
Record TcpConnection := mkConn {
  m_conn_fd : Z;
  m_conn_id : Z;
  m_state : ConnectionState;
  m_channel : chan_ptr;
  m_input_buffer : Buf.Buffer;
  m_output_buffer : Buf.Buffer;
  m_parser : Parser.HttpRequestParser;
  m_last_receive_time : Ts.Timestamp;
  poller : Epoll.Epoller K;
  functors : list functor;
  in_loop : bool;
  writes : nat -> Z -> write_result;
  written : nat;
  calls : list sys_call;
  readings : nat -> Ts.Timestamp;
  clock : nat;
  errors : nat
}.

(** The constructor; the channel is a new object of the loop's store. *)
Definition new (e : Epoll.Epoller K) (writes : nat -> Z -> write_result) (readings : nat -> Ts.Timestamp)
    (in_loop : bool) (p : chan_ptr) (conn_fd conn_id : Z) : TcpConnection :=
  mkConn conn_fd conn_id kConnecting p (Buf.new kInitialSize) (Buf.new kInitialSize) Parser.new Ts.zero
    (Epoll.set_channel p (Chan.new conn_fd) e) [] in_loop writes 0 [] readings 0 0.

(** Whether the running thread is the loop's. *)
Definition set_in_loop (b : bool) (c : TcpConnection) : TcpConnection :=
  mkConn (m_conn_fd c) (m_conn_id c) (m_state c) (m_channel c) (m_input_buffer c) (m_output_buffer c)
    (m_parser c) (m_last_receive_time c) (poller c) (functors c) b (writes c)
    (written c) (calls c) (readings c) (clock c) (errors c).
Definition set_state (st : ConnectionState) (c : TcpConnection) : TcpConnection :=
  mkConn (m_conn_fd c) (m_conn_id c) st (m_channel c) (m_input_buffer c) (m_output_buffer c)
    (m_parser c) (m_last_receive_time c) (poller c) (functors c) (in_loop c) (writes c)
    (written c) (calls c) (readings c) (clock c) (errors c).
Definition set_input (b : Buf.Buffer) (c : TcpConnection) : TcpConnection :=
  mkConn (m_conn_fd c) (m_conn_id c) (m_state c) (m_channel c) b (m_output_buffer c)
    (m_parser c) (m_last_receive_time c) (poller c) (functors c) (in_loop c) (writes c)
    (written c) (calls c) (readings c) (clock c) (errors c).
Definition set_output (b : Buf.Buffer) (c : TcpConnection) : TcpConnection :=
  mkConn (m_conn_fd c) (m_conn_id c) (m_state c) (m_channel c) (m_input_buffer c) b
    (m_parser c) (m_last_receive_time c) (poller c) (functors c) (in_loop c) (writes c)
    (written c) (calls c) (readings c) (clock c) (errors c).
Definition set_parser (p : Parser.HttpRequestParser) (c : TcpConnection) : TcpConnection :=
  mkConn (m_conn_fd c) (m_conn_id c) (m_state c) (m_channel c) (m_input_buffer c) (m_output_buffer c)
    p (m_last_receive_time c) (poller c) (functors c) (in_loop c) (writes c)
    (written c) (calls c) (readings c) (clock c) (errors c).
Definition set_poller (e : Epoll.Epoller K) (c : TcpConnection) : TcpConnection :=
  mkConn (m_conn_fd c) (m_conn_id c) (m_state c) (m_channel c) (m_input_buffer c) (m_output_buffer c)
    (m_parser c) (m_last_receive_time c) e (functors c) (in_loop c) (writes c)
    (written c) (calls c) (readings c) (clock c) (errors c).
Definition queueInLoop (f : functor) (c : TcpConnection) : TcpConnection :=
  mkConn (m_conn_fd c) (m_conn_id c) (m_state c) (m_channel c) (m_input_buffer c) (m_output_buffer c)
    (m_parser c) (m_last_receive_time c) (poller c) (functors c ++ [f]) (in_loop c) (writes c)
    (written c) (calls c) (readings c) (clock c) (errors c).
Definition sys (s : list sys_call) (w : nat) (c : TcpConnection) : TcpConnection :=
  mkConn (m_conn_fd c) (m_conn_id c) (m_state c) (m_channel c) (m_input_buffer c) (m_output_buffer c)
    (m_parser c) (m_last_receive_time c) (poller c) (functors c) (in_loop c) (writes c)
    (written c + w) (calls c ++ s) (readings c) (clock c) (errors c).
Definition log_error (c : TcpConnection) : TcpConnection :=
  mkConn (m_conn_fd c) (m_conn_id c) (m_state c) (m_channel c) (m_input_buffer c) (m_output_buffer c)
    (m_parser c) (m_last_receive_time c) (poller c) (functors c) (in_loop c) (writes c)
    (written c) (calls c) (readings c) (clock c) (S (errors c)).

(** [updateLastReceiveTime()] *)
Definition updateLastReceiveTime (c : TcpConnection) : TcpConnection :=
  mkConn (m_conn_fd c) (m_conn_id c) (m_state c) (m_channel c) (m_input_buffer c) (m_output_buffer c)
    (m_parser c) (readings c (clock c)) (poller c) (functors c) (in_loop c) (writes c)
    (written c) (calls c) (readings c) (S (clock c)) (errors c).

(** [Timestamp::now()] *)
Definition now (c : TcpConnection) : Ts.Timestamp * TcpConnection :=
  (readings c (clock c),
   mkConn (m_conn_fd c) (m_conn_id c) (m_state c) (m_channel c) (m_input_buffer c) (m_output_buffer c)
    (m_parser c) (m_last_receive_time c) (poller c) (functors c) (in_loop c) (writes c)
    (written c) (calls c) (readings c) (S (clock c)) (errors c)).

Definition isShutdown (c : TcpConnection) : bool := bool_decide (m_state c = kDisconnecting).
Definition isConnected (c : TcpConnection) : bool := bool_decide (m_state c = kConnected).
Definition isDisconnected (c : TcpConnection) : bool := bool_decide (m_state c = kDisconnected).
Definition isConnecting (c : TcpConnection) : bool := bool_decide (m_state c = kConnecting).

(** [m_loop->assertInLoopThread()] aborts in another thread. *)
Definition assertInLoopThread (c : TcpConnection) : res unit :=
  if in_loop c then Ok tt else Fault Exited.

(** The operations of the connection's channel. *)
Definition on_channel (f : chan_ptr -> Epoll.Epoller K -> res (Epoll.Epoller K)) (c : TcpConnection)
    : res TcpConnection :=
  e ← f (m_channel c) (poller c); Ok (set_poller e c).

Definition isWriting (c : TcpConnection) : res bool :=
  ch ← Epoll.deref (m_channel c) (poller c); Ok (Chan.isWriting ch).

(** [::write(m_conn_fd, data, len)] *)
Definition write (data : bytes) (c : TcpConnection) : write_result * TcpConnection :=
  let r := writes c (written c) (zlen data) in
  (r, sys [SysWrite (match r with Wrote n => take (Z.to_nat n) data | WriteErr _ => [] end)] 1 c).

(** ** Sending *)

Definition sendInLoop (msg : bytes) (c : TcpConnection) : res TcpConnection :=
  _ ← assertInLoopThread c;
  let len := zlen msg in
  if decide (m_state c = kDisconnected) then Ok c
  else
    writing ← isWriting c;
    let '(wroteNum, remaining, faultError, c) :=
      if negb writing && (Buf.readableBytes (m_output_buffer c) =? 0) then
        let '(r, c) := write msg c in
        match r with
        | Wrote n => (n, to_size_t (len - n), false, c)
        | WriteErr e =>
            if e =? EWOULDBLOCK then (0, to_size_t len, false, c)
            else (0, to_size_t len, (e =? EPIPE) || (e =? ECONNRESET), log_error c)
        end
      else (0, to_size_t len, false, c) in
    _ ← assert_ (remaining <=? len);
    if negb faultError && (0 <? remaining) then
      b ← Buf.append (drop (Z.to_nat wroteNum) msg) remaining (m_output_buffer c);
      let c := set_output b c in
      writing ← isWriting c;
      if negb writing then on_channel Epoll.enableWriting c else Ok c
    else Ok c.

(** [send(const char *message, int len)], with the address of the message. *)
Definition send (ptr : Z) (message : bytes) (c : TcpConnection) : res TcpConnection :=
  if decide (m_state c = kConnected) then
    if in_loop c then sendInLoop message c
    else Ok (queueInLoop (FSendInLoop ptr (zlen message)) c)
  else Ok c.

(** [send(Buffer *message)]: the message is the readable range, and the buffer
    is emptied at once. *)
Definition send_buffer (ptr : Z) (message : Buf.Buffer) (c : TcpConnection)
    : res (TcpConnection * Buf.Buffer) :=
  if decide (m_state c = kConnected) then
    if in_loop c then
      c ← sendInLoop (slice (Buf.peek message) (Buf.peek message + Buf.readableBytes message)
                        (Buf.m_buffer message)) c;
      Ok (c, Buf.retrieveAll message)
    else
      let c := queueInLoop (FSendInLoop (ptr + Buf.peek message) (Buf.readableBytes message)) c in
      Ok (c, Buf.retrieveAll message)
  else Ok (c, message).

(** ** Closing *)

(** [::shutdown(m_conn_fd, SHUT_WR)]; a failure is only logged. *)
Definition shutDownInLoop (c : TcpConnection) : res TcpConnection :=
  _ ← assertInLoopThread c;
  writing ← isWriting c;
  if negb writing then Ok (sys [SysShutdown] 0 c) else Ok c.

Definition shutDown (c : TcpConnection) : res TcpConnection :=
  if decide (m_state c = kConnected) then
    let c := set_state kDisconnecting c in
    if in_loop c then shutDownInLoop c else Ok (queueInLoop FShutDownInLoop c)
  else Ok c.

(** [handleWrite()] *)
Definition handleWrite (c : TcpConnection) : res TcpConnection :=
  _ ← assertInLoopThread c;
  writing ← isWriting c;
  if writing : bool then
    let out := m_output_buffer c in
    let '(r, c) := write (slice (Buf.peek out) (Buf.peek out + Buf.readableBytes out)
                            (Buf.m_buffer out)) c in
    match r with
    | Wrote n =>
        if 0 <? n then
          b ← Buf.retrieve n (m_output_buffer c);
          let c := set_output b c in
          if Buf.readableBytes b =? 0 then
            c ← on_channel Epoll.disableWriting c;
            if decide (m_state c = kDisconnecting) then shutDownInLoop c else Ok c
          else Ok c
        else Ok c
    | WriteErr _ => Ok c
    end
  else Ok c.

(** [handleError()] logs the error of the socket. *)
Definition handleError (c : TcpConnection) : TcpConnection := log_error c.

Variables connection_callback message_callback close_callback : TcpConnection -> res TcpConnection.

Definition handleClose (c : TcpConnection) : res TcpConnection :=
  _ ← assertInLoopThread c;
  _ ← assert_ (bool_decide (m_state c = kConnected \/ m_state c = kDisconnecting));
  let c := set_state kDisconnected c in
  c ← on_channel Epoll.disableAll c;
  close_callback c.

Definition forceClose (c : TcpConnection) : TcpConnection :=
  if decide (m_state c = kConnected \/ m_state c = kDisconnecting)
  then queueInLoop FForceCloseInLoop (set_state kDisconnecting c)
  else c.

Definition forceCloseInLoop (c : TcpConnection) : res TcpConnection :=
  _ ← assertInLoopThread c;
  if decide (m_state c = kConnected \/ m_state c = kDisconnecting) then handleClose c else Ok c.

(** [handleRead()]: [rv] is what [readv] answers. *)
Definition handleRead (rv : readv_result) (c : TcpConnection) : res TcpConnection :=
  _ ← assertInLoopThread c;
  let saved_errno := 0 in
  '(b, n) ← Buf.readFd rv saved_errno (m_input_buffer c);
  let c := set_input b c in
  if 0 <? n then message_callback c
  else if n =? 0 then handleClose c
  else
    c ← (if negb (saved_errno =? EAGAIN) then handleClose c else Ok c);
    Ok (handleError (log_error c)).

Definition connectionEstablished (c : TcpConnection) : res TcpConnection :=
  _ ← assertInLoopThread c;
  let c := set_state kConnected c in
  ch ← Epoll.deref (m_channel c) (poller c);
  let c := set_poller (Epoll.set_channel (m_channel c) (Chan.Tie ch) (poller c)) c in
  c ← on_channel Epoll.enableReading c;
  connection_callback c.

Definition connectionDestructor (c : TcpConnection) : res TcpConnection :=
  _ ← assertInLoopThread c;
  c ← (if decide (m_state c = kConnected \/ m_state c = kDisconnecting)
       then on_channel Epoll.disableAll (set_state kDisconnected c)
       else Ok c);
  c ← connection_callback c;
  on_channel Epoll.removeChannel c.

(** [~TcpConnection()]: the descriptor is closed, and then the channel, whose
    destructor asserts that the poller does not hold it, is destroyed. *)
Definition destroy (c : TcpConnection) : res (Epoll.Epoller K) := Epoll.destroy (m_channel c) (poller c).

(** The memory of a vector whose block is at [base]. *)
Definition vector_at (base : Z) (block : bytes) (ptr len : Z) : bytes := slice (ptr - base) (ptr - base + len) block.

(** Running a queued functor; [memory] is what an address holds then. *)
Definition run_functor (memory : Z -> Z -> bytes) (f : functor) (c : TcpConnection)
    : res TcpConnection :=
  match f with
  | FShutDownInLoop => shutDownInLoop c
  | FForceCloseInLoop => forceCloseInLoop c
  | FSendInLoop ptr len => sendInLoop (memory ptr len) c
  | FConnectionDestructor => connectionDestructor c
  end.

(** ** The stream of a connection, as its clients see it *)

Inductive conn_op := OpSend (msg : bytes) | OpWritable | OpShutDown.

Definition run_conn_op (op : conn_op) (c : TcpConnection) : res TcpConnection :=
  match op with
  | OpSend msg => send 0 msg c
  | OpWritable => handleWrite c
  | OpShutDown => shutDown c
  end.

Fixpoint run_conn (ops : list conn_op) (c : TcpConnection) : res TcpConnection :=
  match ops with
  | [] => Ok c
  | op :: ops' => c ← run_conn_op op c; run_conn ops' c
  end.

(** The abstract connection: whether it takes messages, and all it took. *)
Definition stream_op (op : conn_op) (s : bool * bytes) : bool * bytes :=
  match op with
  | OpSend msg => if s.1 then (true, s.2 ++ msg) else s
  | OpWritable => s
  | OpShutDown => (false, s.2)
  end.

(** The bytes on the wire. *)
Definition wire_of (l : list sys_call) : bytes :=
  concat (map (fun s => match s with SysWrite d => d | SysShutdown => [] end) l).

(** [write] takes at most what it is given, and the peer has not gone. *)
Definition socket_ok (c : TcpConnection) : Prop :=
  forall k len, 0 <= len ->
    match writes c k len with
    | Wrote n => 0 <= n <= len
    | WriteErr e => e <> EPIPE /\ e <> ECONNRESET
    end.

(** No append to the output buffer reuses its front, and sizes fit an [int]. *)
Definition room_for (op : conn_op) (c : TcpConnection) : Prop :=
  match op with
  | OpSend msg =>
      Buf.m_write_index (m_output_buffer c) + zlen msg + kPrePendIndex <= INT_MAX /\
      forall n, 0 < n <= zlen msg -> Buf.compacts n (m_output_buffer c) = false
  | _ => True
  end.

Fixpoint rooms (ops : list conn_op) (c : TcpConnection) : Prop :=
  match ops with
  | [] => True
  | op :: ops' => room_for op c /\ forall c', run_conn_op op c = Ok c' -> rooms ops' c'
  end.

(** The channel is added, and reads. *)
Record live (c : TcpConnection) (ch : Chan.Channel) : Prop := {
  live_poller : Epoll.wf (poller c);
  live_chan : Epoll.channels (poller c) !! m_channel c = Some ch;
  live_index : Chan.m_index ch = kAdded;
  live_reading : Chan.isReading ch = true
}.

(** The invariant of an open connection that took [sent]: writing is enabled
    exactly while bytes are pending; what is on the wire followed by what is
    pending is what was sent; the half-close is done exactly once, when the
    connection takes no more messages and nothing is pending, and nothing is
    written after it. *)
Record conn_inv (c : TcpConnection) (s : bool * bytes) : Prop := {
  inv_loop : in_loop c = true;
  inv_chan : exists ch, live c ch /\
    Chan.isWriting ch = bool_decide (Buf.content (m_output_buffer c) <> []);
  inv_out : Buf.wf (m_output_buffer c);
  inv_socket : socket_ok c;
  inv_wire : wire_of (calls c) ++ Buf.content (m_output_buffer c) = s.2;
  inv_state : m_state c = if s.1 then kConnected else kDisconnecting;
  inv_shut :
    if negb s.1 && bool_decide (Buf.content (m_output_buffer c) = [])
    then exists pre, calls c = pre ++ [SysShutdown] /\ SysShutdown ∉ pre
    else SysShutdown ∉ calls c
}.

(** ** Lemmas *)

Lemma reading_registered ch : Chan.isReading ch = true -> Chan.isRegistered ch = true.
Proof.
  unfold Chan.isReading, Chan.isRegistered, Chan.has_bits. intros H.
  destruct (Z.eqb_spec (Chan.m_events ch) 0) as [E|]; [|done]. by rewrite E in H.
Qed.

Lemma live_may_update c ch : live c ch -> Epoll.may_update (m_channel c) (poller c).
Proof.
  intros [Hp Hc Hi _]. eapply Epoll.may_update_in; [exact Hc| |congruence].
  by apply (Epoll.wf_added _ Hp).
Qed.

Lemma isWriting_live c ch : live c ch -> isWriting c = Ok (Chan.isWriting ch).
Proof. intros [_ Hc _ _]. unfold isWriting. by rewrite (Epoll.deref_Ok _ _ _ Hc). Qed.

(** A change of interest that leaves reading on. *)
Lemma on_channel_live (f : Chan.Channel -> Chan.Channel) c ch :
  live c ch -> Epoll.keeps_identity f -> Chan.isReading (f ch) = true ->
  exists e ch', on_channel (Epoll.change_events f) c = Ok (set_poller e c) /\
    live (set_poller e c) ch' /\ Chan.isWriting ch' = Chan.isWriting (f ch).
Proof.
  intros Hl Hf Hr. pose proof Hl as [Hp Hc Hi _].
  destruct (Epoll.change_events_ok f _ _ _ Hp Hc (live_may_update c ch Hl) Hf) as (k & Hrun & Hwf).
  unfold on_channel. rewrite Hrun. simpl. eexists _, (Epoll.updated (f ch)).
  split; [done|]. split; [|done]. split; simpl; [done | apply lookup_insert_eq | | done].
  unfold Epoll.updated. rewrite (proj2 (Hf ch)), decide_True by done. simpl.
  by rewrite reading_registered.
Qed.

Lemma enableWriting_live c ch :
  live c ch -> exists e ch', on_channel Epoll.enableWriting c = Ok (set_poller e c) /\
    live (set_poller e c) ch' /\ Chan.isWriting ch' = true.
Proof.
  intros Hl. destruct (Chan.writing_on_bits ch) as [Hw Hr].
  destruct (on_channel_live Chan.writing_on c ch Hl) as (e & ch' & ? & ? & Hw');
    [done | rewrite Hr; apply Hl | exists e, ch'; by rewrite Hw', Hw].
Qed.

Lemma disableWriting_live c ch :
  live c ch -> exists e ch', on_channel Epoll.disableWriting c = Ok (set_poller e c) /\
    live (set_poller e c) ch' /\ Chan.isWriting ch' = false.
Proof.
  intros Hl. destruct (Chan.writing_off_bits ch) as [Hw Hr].
  destruct (on_channel_live Chan.writing_off c ch Hl) as (e & ch' & ? & ? & Hw');
    [done | rewrite Hr; apply Hl | exists e, ch'; by rewrite Hw', Hw].
Qed.

Lemma wire_app l k : wire_of (l ++ k) = wire_of l ++ wire_of k.
Proof. unfold wire_of. by rewrite map_app, concat_app. Qed.

Lemma empty_content b : Buf.wf b -> Buf.readableBytes b = 0 -> Buf.content b = [].
Proof. intros Hwf Hr. apply zlen_nil_inv. by rewrite Buf.zlen_content. Qed.

Lemma readable_content b :
  Buf.wf b -> (Buf.readableBytes b =? 0) = bool_decide (Buf.content b = []).
Proof.
  intros Hwf. pose proof (Buf.zlen_content b Hwf) as Hz. case_bool_decide as E.
  - rewrite E in Hz. apply Z.eqb_eq. by rewrite <- Hz.
  - apply Z.eqb_neq. intros H. apply E. by apply empty_content.
Qed.

(** The bytes [sendInLoop] leaves pending are appended, and writing is on. *)
Lemma send_rest c ch rest :
  in_loop c = true -> live c ch -> Buf.wf (m_output_buffer c) ->
  Chan.isWriting ch = bool_decide (Buf.content (m_output_buffer c) <> []) ->
  rest <> [] -> Buf.m_write_index (m_output_buffer c) + zlen rest <= INT_MAX -> zlen rest + kPrePendIndex <= INT_MAX ->
  Buf.compacts (zlen rest) (m_output_buffer c) = false ->
  exists c' ch' b', (b ← Buf.append rest (zlen rest) (m_output_buffer c);
     let c := set_output b c in
     writing ← isWriting c;
     if negb writing then on_channel Epoll.enableWriting c else Ok c) = Ok c' /\
    live c' ch' /\ Chan.isWriting ch' = true /\ m_output_buffer c' = b' /\ Buf.wf b' /\
    Buf.content b' = Buf.content (m_output_buffer c) ++ rest /\
    m_state c' = m_state c /\ calls c' = calls c /\ in_loop c' = in_loop c /\ writes c' = writes c.
Proof.
  intros Hin Hl Hwf Hsync Hne Hint Hint8 Hcomp.
  destruct (Buf.append_plain rest (m_output_buffer c)) as (b' & -> & Hwf' & Hc' & _); [done..|].
  simpl. assert (live (set_output b' c) ch) as Hl' by (by destruct Hl; split).
  rewrite (isWriting_live _ _ Hl'). simpl. destruct (Chan.isWriting ch) eqn:Ew; simpl.
  - exists (set_output b' c), ch, b'. by split_and!.
  - destruct (enableWriting_live _ _ Hl') as (e & ch' & -> & Hl2 & Hw2).
    exists (set_poller e (set_output b' c)), ch', b'. by split_and!.
Qed.

(** The second half of [sendInLoop]: what [write] did not take. *)
Definition send_pending (rest : bytes) (c : TcpConnection) : res TcpConnection :=
  if 0 <? zlen rest then
    b ← Buf.append rest (zlen rest) (m_output_buffer c);
    let c := set_output b c in
    writing ← isWriting c;
    if negb writing then on_channel Epoll.enableWriting c else Ok c
  else Ok c.

Lemma send_pending_ok c ch rest sent :
  in_loop c = true -> live c ch -> Buf.wf (m_output_buffer c) -> socket_ok c ->
  Chan.isWriting ch = bool_decide (Buf.content (m_output_buffer c) <> []) ->
  m_state c = kConnected -> SysShutdown ∉ calls c ->
  wire_of (calls c) ++ Buf.content (m_output_buffer c) ++ rest = sent ->
  Buf.m_write_index (m_output_buffer c) + zlen rest + kPrePendIndex <= INT_MAX ->
  (0 < zlen rest -> Buf.compacts (zlen rest) (m_output_buffer c) = false) ->
  exists c', send_pending rest c = Ok c' /\ conn_inv c' (true, sent).
Proof.
  intros Hin Hl Hwf Hsock Hsync Hst Hshut Hw Hint Hcomp. unfold send_pending.
  pose proof (Buf.wf_order _ Hwf). pose proof (Buf.wf_read _ Hwf). unfold kPrePendIndex in Hint.
  destruct (Z.ltb_spec 0 (zlen rest)) as [Hpos|Hz].
  - assert (rest <> []) as Hne by (intros ->; by vm_compute in Hpos).
    destruct (send_rest c ch rest) as (c' & ch' & b' & Hrun & Hl' & Hw' & Hb & Hwfb & Hc & Hs & Hca & Hin' & Hwr);
      [auto.. | lia | unfold kPrePendIndex; lia | auto |].
    exists c'. split; [exact Hrun|]. split; simpl; try congruence.
    + exists ch'. split; [done|]. rewrite Hw', Hb, Hc. symmetry. apply bool_decide_eq_true.
      intros [_ E]%app_eq_nil. by apply Hne.
    + intros k len Hlen. rewrite Hwr. by apply Hsock.
  - exists c. split; [done|]. assert (rest = []) as -> by (apply zlen_nil_inv; pose proof (zlen_nonneg rest); lia).
    rewrite app_nil_r in Hw. split; simpl; auto. by exists ch.
Qed.

Lemma live_sys l w c ch : live c ch -> live (sys l w c) ch.
Proof. by intros []; split. Qed.

Lemma live_log c ch : live c ch -> live (log_error c) ch.
Proof. by intros []; split. Qed.

Lemma noshut_write d w c : SysShutdown ∉ calls c -> SysShutdown ∉ calls (sys [SysWrite d] w c).
Proof.
  simpl. intros ?. rewrite not_elem_of_app. split; [done|]. by intros ?%list_elem_of_singleton.
Qed.

(** [sendInLoop] on an open connection, by what [write] answers. *)
Lemma sendInLoop_pending c ch msg :
  in_loop c = true -> live c ch -> socket_ok c -> m_state c = kConnected ->
  Buf.wf (m_output_buffer c) -> zlen msg <= INT_MAX ->
  Chan.isWriting ch = bool_decide (Buf.content (m_output_buffer c) <> []) ->
  exists c1 n, sendInLoop msg c = send_pending (drop (Z.to_nat n) msg) c1 /\
    0 <= n <= zlen msg /\ live c1 ch /\ in_loop c1 = true /\ socket_ok c1 /\
    m_state c1 = kConnected /\ m_output_buffer c1 = m_output_buffer c /\
    (SysShutdown ∉ calls c -> SysShutdown ∉ calls c1) /\
    wire_of (calls c1) ++ Buf.content (m_output_buffer c1) =
      wire_of (calls c) ++ Buf.content (m_output_buffer c) ++ take (Z.to_nat n) msg.
Proof.
  intros Hin Hl Hsock Hst Hwf Hlen Hsync. pose proof (zlen_nonneg msg) as Hpos.
  assert (forall n, 0 <= n <= zlen msg ->
    to_size_t (zlen msg - n) = zlen (drop (Z.to_nat n) msg)) as Hsz.
  { intros n Hn. rewrite to_size_t_id by (unfold INT_MAX in *; lia). len_lia. }
  unfold sendInLoop, assertInLoopThread. rewrite Hin. cbn [mbind res_bind].
  rewrite decide_False by congruence. rewrite (isWriting_live _ _ Hl). cbn [mbind res_bind].
  rewrite (readable_content _ Hwf), Hsync.
  destruct (decide (Buf.content (m_output_buffer c) = [])) as [E|E].
  - rewrite bool_decide_eq_false_2, bool_decide_eq_true_2 by auto. cbn [negb andb].
    unfold write. pose proof (Hsock (written c) (zlen msg) Hpos) as Hr.
    destruct (writes c (written c) (zlen msg)) as [n|e].
    + exists (sys [SysWrite (take (Z.to_nat n) msg)] 1 c), n.
      rewrite Hsz by lia. rewrite (proj2 (assert_Ok _)) by (apply Z.leb_le; len_lia).
      cbn [mbind res_bind negb andb]. split; [done|].
      split_and!; auto using live_sys, noshut_write; try lia.
      simpl. rewrite E, wire_app, !app_nil_r. f_equal. apply app_nil_r.
    + set (c0 := sys [SysWrite []] 1 c). destruct Hr as [H1 H2].
      exists (if e =? EWOULDBLOCK then c0 else log_error c0), 0.
      assert (assert_ (to_size_t (zlen msg) <=? zlen msg) = Ok tt) as Has.
      { specialize (Hsz 0 ltac:(lia)). rewrite Z.sub_0_r in Hsz. rewrite Hsz. apply assert_Ok, Z.leb_le.
        change (Z.to_nat 0) with 0%nat. by rewrite drop_0. }
      rewrite (proj2 (Z.eqb_neq e EPIPE)), (proj2 (Z.eqb_neq e ECONNRESET)) by done.
      specialize (Hsz 0 ltac:(lia)). rewrite Z.sub_0_r in Hsz. change (Z.to_nat 0) with 0%nat in Hsz |- *.
      rewrite drop_0 in *. rewrite take_0.
      destruct (e =? EWOULDBLOCK); rewrite Has; cbn [mbind res_bind negb andb orb]; rewrite Hsz;
        (split; [done|]); split_and!; try done; try lia;
        try (by apply live_sys); try (by apply live_log, live_sys);
        try (intros; by apply (noshut_write [] 1 c)); subst c0; simpl; rewrite E, wire_app, !app_nil_r; done.
  - rewrite bool_decide_eq_true_2, bool_decide_eq_false_2 by auto. cbn [negb andb].
    exists c, 0. specialize (Hsz 0 ltac:(lia)). rewrite Z.sub_0_r in Hsz.
    change (Z.to_nat 0) with 0%nat in Hsz |- *. rewrite drop_0 in Hsz |- *. rewrite Hsz.
    rewrite (proj2 (assert_Ok _)) by (apply Z.leb_le; lia). cbn [mbind res_bind negb andb].
    split; [done|]. rewrite take_0, app_nil_r. split_and!; auto; lia.
Qed.

Lemma shutDownInLoop_live c ch :
  in_loop c = true -> live c ch ->
  shutDownInLoop c = Ok (if Chan.isWriting ch then c else sys [SysShutdown] 0 c).
Proof.
  intros Hin Hl. unfold shutDownInLoop, assertInLoopThread. rewrite Hin. simpl.
  rewrite (isWriting_live _ _ Hl). simpl. by destruct (Chan.isWriting ch).
Qed.

Lemma send_ok msg c s :
  conn_inv c s -> room_for (OpSend msg) c ->
  exists c', send 0 msg c = Ok c' /\ conn_inv c' (stream_op (OpSend msg) s).
Proof.
  intros Hinv Hroom. pose proof Hinv as [Hin (ch & Hl & Hsync) Hwf Hsock Hw Hst Hshut].
  destruct s as [open sent]. simpl in *.
  unfold send. destruct open; rewrite Hst; [|by exists c].
  rewrite decide_True, Hin by done. destruct Hroom as [Hint Hcomp].
  pose proof (Buf.wf_order _ Hwf). pose proof (Buf.wf_read _ Hwf). unfold kPrePendIndex in *.
  destruct (sendInLoop_pending c ch msg) as (c1 & n & -> & Hn & Hl1 & Hin1 & Hsock1 & Hst1 & Hout & Hns & Hw1);
    [auto..|lia|done|].
  assert (zlen (drop (Z.to_nat n) msg) = zlen msg - n) as Hz by len_lia.
  apply (send_pending_ok c1 ch); auto; rewrite ?Hout; auto.
  + rewrite Hout in Hw1. rewrite app_assoc, Hw1, <- !app_assoc, take_drop.
    rewrite app_assoc, Hw. done.
  + unfold kPrePendIndex. lia.
  + intros Hp. apply Hcomp. lia.
Qed.

(** After a write that took something: the rest, or the half-close that was
    asked for. *)
Lemma handleWrite_rest c ch open sent :
  in_loop c = true -> live c ch -> Chan.isWriting ch = true -> socket_ok c ->
  Buf.wf (m_output_buffer c) -> SysShutdown ∉ calls c ->
  wire_of (calls c) ++ Buf.content (m_output_buffer c) = sent ->
  m_state c = (if open : bool then kConnected else kDisconnecting) ->
  exists c', (if bool_decide (Buf.content (m_output_buffer c) = []) then
                c ← on_channel Epoll.disableWriting c;
                if decide (m_state c = kDisconnecting) then shutDownInLoop c else Ok c
              else Ok c) = Ok c' /\ conn_inv c' (open, sent) /\
    m_output_buffer c' = m_output_buffer c /\ writes c' = writes c /\ written c' = written c.
Proof.
  intros Hin Hl Hwr Hsock Hwf Hns Hw Hst.
  destruct (decide (Buf.content (m_output_buffer c) = [])) as [Eb|Eb];
    [rewrite bool_decide_eq_true_2 by done | rewrite bool_decide_eq_false_2 by done].
  - destruct (disableWriting_live c ch Hl) as (e & ch' & -> & Hl2 & Hw2). cbn [mbind res_bind].
    rewrite Eb, app_nil_r in Hw. simpl m_state. rewrite Hst. destruct open; simpl.
    + eexists. split; [done|]. split; [|done]. split; simpl; auto.
      * exists ch'. rewrite Eb. auto.
      * by rewrite Eb, app_nil_r.
    + rewrite (shutDownInLoop_live _ ch') by done. rewrite Hw2.
      eexists. split; [done|]. split; [|split_and!; [done..|simpl; lia]]. split; simpl; auto.
      * exists ch'. rewrite Eb. auto using live_sys.
      * by rewrite Eb, wire_app, !app_nil_r.
      * rewrite bool_decide_eq_true_2 by done. by eexists.
  - eexists. split; [done|]. split; [|done]. split; simpl; auto.
    + exists ch. rewrite Hwr, !bool_decide_eq_true_2 by done. done.
    + by rewrite bool_decide_eq_false_2, andb_false_r.
Qed.

(** What a write takes. *)
Definition taken (r : write_result) : nat := match r with Wrote n => Z.to_nat n | WriteErr _ => 0 end.

(** [handleWrite] with bytes pending makes one write, which takes their
    front. *)
Lemma handleWrite_pending c s :
  conn_inv c s -> Buf.content (m_output_buffer c) <> [] ->
  let out := Buf.content (m_output_buffer c) in
  exists c', handleWrite c = Ok c' /\ conn_inv c' s /\ writes c' = writes c /\ written c' = S (written c) /\
    Buf.content (m_output_buffer c') = drop (taken (writes c (written c) (zlen out))) out.
Proof.
  intros Hinv E out. pose proof Hinv as [Hin (ch & Hl & Hsync) Hwf Hsock Hw Hst Hshut].
  destruct s as [open sent]. simpl in *.
  unfold handleWrite, assertInLoopThread. rewrite Hin. cbn [mbind res_bind].
  rewrite (isWriting_live _ _ Hl), Hsync. cbn [mbind res_bind].
  rewrite bool_decide_eq_true_2 by auto.
  assert (slice (Buf.peek (m_output_buffer c)) (Buf.peek (m_output_buffer c) +
            Buf.readableBytes (m_output_buffer c)) (Buf.m_buffer (m_output_buffer c)) = out) as ->.
  { unfold out, Buf.content, Buf.peek, Buf.curReadPtr, Buf.readableBytes. f_equal. lia. }
  assert (conn_inv (sys [SysWrite []] 1 c) (open, sent)) as Hnothing.
  { split; simpl; auto; [by exists ch; auto using live_sys | by rewrite wire_app, app_nil_r |].
    rewrite (bool_decide_eq_false_2 (Buf.content (m_output_buffer c) = [])), andb_false_r in * by done.
    by apply (noshut_write [] 1 c). }
  assert (written (sys [SysWrite []] 1 c) = S (written c)) as Hone by (simpl; lia).
  unfold write, taken. pose proof (Hsock (written c) (zlen out) (zlen_nonneg out)) as Hr.
  destruct (writes c (written c) (zlen out)) as [n|e]; [|by eexists].
  destruct (Z.ltb_spec 0 n) as [Hpos|Hz].
  2: { replace n with 0 in * by lia. change (Z.to_nat 0) with 0%nat. rewrite take_0. by eexists. }
  destruct (Buf.retrieve_ok n (m_output_buffer c)) as (b' & Hret & Hwfb & Hcb & _);
    [done | rewrite <- Buf.zlen_content by done; fold out; lia|].
  cbn [m_output_buffer sys]. rewrite Hret. cbn [mbind res_bind]. fold out in Hcb.
  rewrite (readable_content _ Hwfb).
  destruct (handleWrite_rest (set_output b' (sys [SysWrite (take (Z.to_nat n) out)] 1 c)) ch open sent)
    as (c' & Hrun & Hinv' & Eb & Ew & En); auto.
  - by destruct Hl; split.
  - rewrite Hsync. by apply bool_decide_eq_true_2.
  - rewrite (bool_decide_eq_false_2 (Buf.content (m_output_buffer c) = [])), andb_false_r in Hshut by done.
    by apply (noshut_write (take (Z.to_nat n) out) 1 c).
  - simpl. rewrite wire_app, <- app_assoc, Hcb. unfold wire_of at 2. simpl.
    by rewrite app_nil_r, take_drop, <- Hw.
  - exists c'. split_and!; [exact Hrun | done | by rewrite Ew | rewrite En; simpl; lia | by rewrite Eb].
Qed.

Lemma handleWrite_ok c s :
  conn_inv c s -> exists c', handleWrite c = Ok c' /\ conn_inv c' s.
Proof.
  intros Hinv. destruct (decide (Buf.content (m_output_buffer c) = [])) as [E|E].
  - pose proof Hinv as [Hin (ch & Hl & Hsync) _ _ _ _ _]. exists c. split; [|done].
    unfold handleWrite, assertInLoopThread. rewrite Hin. cbn [mbind res_bind].
    rewrite (isWriting_live _ _ Hl), Hsync. cbn [mbind res_bind]. by rewrite bool_decide_eq_false_2 by auto.
  - destruct (handleWrite_pending c s Hinv E) as (c' & Hrun & Hinv' & _). eauto.
Qed.

Lemma shutDown_ok c s :
  conn_inv c s -> exists c', shutDown c = Ok c' /\ conn_inv c' (false, s.2).
Proof.
  intros Hinv. pose proof Hinv as [Hin (ch & Hl & Hsync) Hwf Hsock Hw Hst Hshut].
  destruct s as [open sent]. simpl in *.
  unfold shutDown. destruct open; rewrite Hst; [|by exists c].
  rewrite decide_True by done. cbn [in_loop set_state]. rewrite Hin.
  rewrite (shutDownInLoop_live _ ch) by (done || by destruct Hl; split).
  rewrite Hsync. eexists. split; [done|]. simpl in Hshut.
  destruct (decide (Buf.content (m_output_buffer c) = [])) as [E|E].
  + rewrite bool_decide_eq_false_2 by auto.
    split; simpl; auto.
    * exists ch. split; [by destruct Hl; split|]. done.
    * by rewrite wire_app, app_nil_r.
    * rewrite bool_decide_eq_true_2 by done. by eexists.
  + rewrite bool_decide_eq_true_2 by auto. split; simpl; auto.
    * exists ch. split; [by destruct Hl; split|]. done.
    * by rewrite bool_decide_eq_false_2.
Qed.

Lemma run_conn_op_ok op c s :
  conn_inv c s -> room_for op c ->
  exists c', run_conn_op op c = Ok c' /\ conn_inv c' (stream_op op s).
Proof.
  intros Hinv Hroom. destruct op; [by apply send_ok | by apply handleWrite_ok | by apply shutDown_ok].
Qed.

(** Closing an open connection up to its close callback. *)
Lemma handleClose_ok c ch :
  in_loop c = true -> live c ch -> m_state c = kConnected \/ m_state c = kDisconnecting ->
  exists e ch', handleClose c = close_callback (set_poller e (set_state kDisconnected c)) /\
    Epoll.wf e /\ Epoll.channels e !! m_channel c = Some ch' /\ Chan.m_index ch' = kDeleted /\
    Chan.m_fd ch' = Chan.m_fd ch /\ Epoll.m_channels e !! Chan.m_fd ch' = Some (m_channel c).
Proof.
  intros Hin Hl Hst. unfold handleClose, assertInLoopThread. rewrite Hin. simpl.
  rewrite (proj2 (assert_Ok _)) by (by apply bool_decide_eq_true). simpl.
  pose proof Hl as [Hp Hc Hi _].
  destruct (Epoll.change_events_ok Chan.all_off _ _ _ Hp Hc (live_may_update c ch Hl)) as (k & Hrun & Hwf);
    [done|].
  unfold on_channel, Epoll.disableAll. simpl. rewrite Hrun. simpl.
  eexists _, _. split; [done|]. split_and!; [done | apply lookup_insert_eq | | done | apply lookup_insert_eq].
  unfold Epoll.updated. simpl. by rewrite Hi.
Qed.

(** A new channel may be tied. *)
Lemma tie_wf p ch e :
  Epoll.wf e -> Epoll.channels e !! p = Some ch -> Chan.m_index ch = kNew ->
  Epoll.wf (Epoll.set_channel p (Chan.Tie ch) e : Epoll.Epoller K).
Proof.
  intros Hp Hc Hi. split; simpl.
  - intros fd q H. destruct (Epoll.wf_map _ Hp _ _ H) as (ch0 & H1 & H2 & H3).
    destruct (decide (q = p)) as [->|]; [congruence|]. rewrite lookup_insert_ne by done. eauto.
  - intros q ch0 H1 H2. destruct (decide (q = p)) as [->|].
    + rewrite lookup_insert_eq in H1. injection H1 as <-. simpl in H2. congruence.
    + rewrite lookup_insert_ne in H1 by done. by apply (Epoll.wf_added _ Hp).
  - intros fd. rewrite (Epoll.wf_kernel _ Hp). unfold Epoll.watched. simpl.
    destruct (Epoll.m_channels e !! fd) as [q|] eqn:Em; [|done]. simpl.
    destruct (decide (q = p)) as [->|]; [|by rewrite lookup_insert_ne].
    destruct (Epoll.wf_map _ Hp _ _ Em) as (ch0 & H1 & H2 & H3). congruence.
Qed.

(** [connectionEstablished] up to the connection callback. *)
Lemma connectionEstablished_ok c ch :
  in_loop c = true -> Epoll.wf (poller c) -> Epoll.channels (poller c) !! m_channel c = Some ch ->
  Chan.m_index ch = kNew -> Epoll.m_channels (poller c) !! Chan.m_fd ch = None ->
  exists k, let ch' := Chan.setIndex kAdded (Chan.reading_on (Chan.Tie ch)) in
    let e := Epoll.with_channel (m_channel c) ch' k
               (Epoll.set_channel (m_channel c) (Chan.Tie ch) (poller c)) in
    connectionEstablished c = connection_callback (set_poller e (set_state kConnected c)) /\ Epoll.wf e.
Proof.
  intros Hin Hp Hc Hi Hfree. unfold connectionEstablished, assertInLoopThread. rewrite Hin. simpl.
  rewrite (Epoll.deref_Ok _ _ _ Hc). simpl.
  pose proof (tie_wf _ _ _ Hp Hc Hi) as Hp0.
  assert (Epoll.channels (Epoll.set_channel (m_channel c) (Chan.Tie ch) (poller c)) !! m_channel c =
          Some (Chan.Tie ch)) as Hc0 by apply lookup_insert_eq.
  destruct (Epoll.change_events_ok Chan.reading_on _ _ _ Hp0 Hc0) as (k & Hrun & Hwf').
  { exists (Chan.Tie ch). split; [done|]. simpl. by rewrite Hi. }
  { done. }
  assert (Epoll.updated (Chan.reading_on (Chan.Tie ch)) =
          Chan.setIndex kAdded (Chan.reading_on (Chan.Tie ch))) as Hu
    by (unfold Epoll.updated; simpl; by rewrite Hi).
  rewrite Hu in *. exists k. unfold on_channel, Epoll.enableReading. simpl. by rewrite Hrun.
Qed.

(** ** Properties *)


(** Establishing a connection registers its channel for reading, ties it,
    and hands an open connection with nothing sent to the connection
    callback. *)
Theorem connectionEstablished_opens c ch :
  in_loop c = true -> socket_ok c -> Epoll.wf (poller c) ->
  Epoll.channels (poller c) !! m_channel c = Some ch -> Chan.m_index ch = kNew ->
  Chan.isWriting ch = false -> Epoll.m_channels (poller c) !! Chan.m_fd ch = None ->
  Buf.wf (m_output_buffer c) -> Buf.content (m_output_buffer c) = [] -> calls c = [] ->
  exists c1 ch1, connectionEstablished c = connection_callback c1 /\ conn_inv c1 (true, []) /\
    Epoll.channels (poller c1) !! m_channel c1 = Some ch1 /\ Chan.m_tied ch1 = true /\
    m_input_buffer c1 = m_input_buffer c.
Proof.
  intros Hin Hsock Hp Hc Hi Hw Hfree Hwf Hout Hcalls.
  destruct (connectionEstablished_ok c ch) as (k & Hrun & Hwf'); [done..|].
  eexists _, _. split; [exact Hrun|]. split_and!; [|apply lookup_insert_eq | done | done].
  destruct (Chan.reading_on_bits (Chan.Tie ch)) as [Hr1 Hr2].
  split; simpl; auto.
  - eexists. split; [split; simpl; [done | apply lookup_insert_eq | done | exact Hr1]|].
    change (Chan.isWriting _) with (Chan.isWriting (Chan.reading_on (Chan.Tie ch))).
    rewrite Hr2, Hout. by rewrite bool_decide_eq_false_2 by (intros H; by apply H).
  - by rewrite Hcalls, Hout.
  - rewrite Hcalls. apply not_elem_of_nil.
Qed.

(** Any error of [readv] closes the connection, [EAGAIN] too, since
    [readFd] does not give the error number back. *)
Theorem handleRead_error_closes errno c s :
  conn_inv c s ->
  exists c1, handleRead (ReadvErr errno) c = (c ← close_callback c1; Ok (handleError (log_error c))) /\
    m_state c1 = kDisconnected /\ Epoll.wf (poller c1) /\
    (forall fd ev, interest (Epoll.kernel (poller c1)) !! fd <> Some (ev, m_channel c1)).
Proof.
  intros [Hin (ch & Hl & _) _ _ _ Hst _]. unfold handleRead, assertInLoopThread. rewrite Hin. simpl.
  assert (live (set_input (m_input_buffer c) c) ch) as Hl' by (by destruct Hl; split).
  destruct (handleClose_ok (set_input (m_input_buffer c) c) ch) as (e & ch' & -> & Hwf & Hc & Hi & _);
    [done | done | simpl; rewrite Hst; destruct s.1; auto|].
  eexists. split; [done|]. split_and!; [done..|]. simpl in *. intros fd ev H.
  rewrite (Epoll.wf_kernel _ Hwf) in H. unfold Epoll.watched in H.
  destruct (Epoll.m_channels e !! fd) as [p|]; [|done]. simpl in H.
  destruct (decide (p = m_channel c)) as [->|Hne].
  - rewrite Hc in H. simpl in H. rewrite Hi in H. by rewrite decide_False in H.
  - destruct (Epoll.channels e !! p); [|done]. simpl in H. case_decide; [|done]. congruence.
Qed.

(** Closing runs to its end: with the callbacks of the server, [handleClose]
    queues the destruction, which runs in the state the close left, takes the
    channel out of the poller and leaves the connection disconnected. *)
Theorem close_unregisters memory c s :
  conn_inv c s ->
  (forall c, close_callback c = Ok (queueInLoop FConnectionDestructor c)) ->
  (forall c, exists b, connection_callback c = Ok (set_input b c)) ->
  exists c1 c2, handleClose c = Ok c1 /\ functors c1 = functors c ++ [FConnectionDestructor] /\
    m_state c1 = kDisconnected /\
    run_functor memory FConnectionDestructor c1 = Ok c2 /\ m_state c2 = kDisconnected /\
    Epoll.wf (poller c2) /\ forall fd, Epoll.m_channels (poller c2) !! fd <> Some (m_channel c).
Proof.
  intros [Hin (ch & Hl & _) _ _ _ Hst _] Hclose Hconn.
  destruct (handleClose_ok c ch) as (e & ch' & Hrun & Hwf & Hc & Hi & _ & Hm);
    [done | done | rewrite Hst; destruct s.1; auto|].
  rewrite Hclose in Hrun.
  exists (queueInLoop FConnectionDestructor (set_poller e (set_state kDisconnected c))).
  unfold run_functor, connectionDestructor, assertInLoopThread. simpl. rewrite Hin. simpl.
  edestruct Hconn as (b & Hb). rewrite Hb. simpl. unfold on_channel. simpl.
  destruct (Epoll.removeChannel_ok (m_channel c) e ch' Hwf Hc Hm) as (e2 & He2 & Hwf2 & _ & Hm2 & _).
  rewrite He2. simpl. eexists. split; [exact Hrun|]. split_and!; [done..|]. simpl. intros fd Hfd.
  rewrite Hm2 in Hfd. apply lookup_delete_Some in Hfd as [Hne Hfd].
  by apply Hne, (Epoll.map_injective e _ _ _ Hwf Hm).
Qed.

(** A buffer sent from another thread is sent as it is when the loop gets to
    it.  [send] queues the address of its readable range and empties it at once,
    so what its owner appends next, in the same block, is what the connection
    sends in place of the first bytes of the message; the message has its
    length, and the rest of it where the new bytes end before it. *)
Theorem late_send_overwritten base b c d :
  Buf.wf b -> Buf.m_read_index b = kPrePendIndex -> m_state c = kConnected -> in_loop c = false ->
  kPrePendIndex + zlen d <= zlen (Buf.m_buffer b) ->
  let msg := Buf.content b in
  let late := take (length msg) (d ++ drop (length d) msg) in
  exists c1 b1 f b2, send_buffer base b c = Ok (c1, b1) /\ functors c1 = functors c ++ [f] /\
    Buf.append d (zlen d) b1 = Ok b2 /\ Buf.content b2 = d /\
    forall c2 sent, conn_inv c2 (true, sent) -> room_for (OpSend late) c2 ->
      exists c3, run_functor (vector_at base (Buf.m_buffer b2)) f c2 = Ok c3 /\ conn_inv c3 (true, sent ++ late).
Proof.
  intros Hwf Hr Hst Hin Hfit msg late. pose proof (Buf.wf_int _ Hwf) as Hint. pose proof (zlen_nonneg d).
  set (f := FSendInLoop (base + Buf.peek b) (Buf.readableBytes b)).
  exists (queueInLoop f c), (Buf.retrieveAll b), f. unfold send_buffer. rewrite decide_True, Hin by done.
  unfold Buf.append, Buf.ensureWriteableBytes, Buf.writeableBytes. cbn [Buf.retrieveAll Buf.m_write_index Buf.m_buffer].
  rewrite (proj2 (Z.leb_le _ _)) by lia. cbn [mbind res_bind].
  rewrite (proj2 (Z.ltb_ge (zlen d) 0)), (proj2 (Z.ltb_ge (zlen d) (zlen d))) by lia. cbn [orb].
  assert (take (Z.to_nat (zlen d)) d = d) as -> by (apply take_ge; len_lia).
  set (m := take (Z.to_nat kPrePendIndex) (Buf.m_buffer b) ++ d ++ drop (Z.to_nat (kPrePendIndex + zlen d)) (Buf.m_buffer b)).
  assert (write_at kPrePendIndex d (Buf.m_buffer b) = Ok m) as Hm by (apply write_at_Ok; [by vm_compute | done]).
  change (Buf.curWritePtr (Buf.retrieveAll b)) with kPrePendIndex. change (Buf.m_buffer (Buf.retrieveAll b)) with (Buf.m_buffer b). rewrite Hm. cbn [mbind res_bind].
  eexists. split_and!; [done | done | done | |].
  { unfold Buf.content, Buf.moveWriteIndex. cbn [Buf.m_read_index Buf.m_write_index Buf.m_buffer Buf.retrieveAll].
    rewrite wrap32_id by (unfold kPrePendIndex, INT_MAX, INT_MIN in *; lia). by apply slice_write_same in Hm. }
  intros c2 sent Hinv Hroom. unfold f, run_functor. cbn [Buf.moveWriteIndex Buf.m_buffer].
  assert (vector_at base m (base + Buf.peek b) (Buf.readableBytes b) = late) as ->.
  { unfold vector_at, Buf.peek, Buf.curReadPtr. rewrite Hr. replace (base + kPrePendIndex - base) with kPrePendIndex by lia.
    assert (Buf.readableBytes b = zlen msg) as -> by (symmetry; by apply Buf.zlen_content).
    unfold late, slice, m. rewrite drop_app_length' by (unfold kPrePendIndex in *; len_lia).
    replace (Z.to_nat (kPrePendIndex + zlen msg - kPrePendIndex)) with (length msg) by len_lia.
    rewrite !take_app. f_equal. unfold msg, Buf.content, slice. rewrite Hr, skipn_firstn_comm, drop_drop, take_take.
    f_equal; [len_lia|]. f_equal. unfold kPrePendIndex. len_lia. }
  destruct (send_ok late c2 (true, sent) Hinv Hroom) as (c3 & Hsend & Hinv3). exists c3. split; [|exact Hinv3].
  unfold send in Hsend. by rewrite decide_True, (inv_loop _ _ Hinv) in Hsend by apply Hinv.
Qed.

End WithKernel.
Arguments TcpConnection : clear implicits.

(** ** Witnesses *)

Abbreviation Conn := (TcpConnection (gmap Z (Z * chan_ptr))).

(** A connection on descriptor 7 whose socket takes two bytes at a time. *)
Definition conn_on (st : ConnectionState) (e : Epoll.Epoller (gmap Z (Z * chan_ptr))) : Conn :=
  mkConn 7 0 st 1%positive (Buf.new kInitialSize) (Buf.new kInitialSize) Parser.new Ts.zero e [] true
    (fun _ len => Wrote (Z.min 2 len)) 0 [] (fun k => Ts.mkTimestamp (Z.of_nat k)) 0 0.

Definition open_conn : Conn := conn_on kConnected Epoll.one_added.

Lemma conn_on_socket st e : socket_ok (conn_on st e).
Proof. intros k len Hlen. simpl. lia. Qed.

Lemma open_conn_inv : conn_inv open_conn (true, []).
Proof.
  split; try done.
  - eexists. split; [split; [apply Epoll.one_added_wf | apply lookup_singleton_eq | done | done] | done].
  - apply conn_on_socket.
  - apply not_elem_of_nil.
Qed.


(** The bytes go out in three writes, then the half-close; the late message is
    not taken. *)
Example hello_calls :
  (c ← run_conn [OpSend (bs "hello"); OpShutDown; OpWritable; OpWritable; OpSend (bs "late")] open_conn;
   Ok (calls c)) =
  Ok [SysWrite (bs "he"); SysWrite (bs "ll"); SysWrite (bs "o"); SysShutdown].
Proof. vm_compute. reflexivity. Qed.

Definition retrieving (c : Conn) : res Conn := Ok (set_input (Buf.retrieveAll (m_input_buffer c)) c).

Lemma connectionEstablished_opens_witness :
  exists c1 ch1, connectionEstablished retrieving (conn_on kConnecting Epoll.one_channel) = retrieving c1 /\
    conn_inv c1 (true, []) /\
    Epoll.channels (poller c1) !! m_channel c1 = Some ch1 /\ Chan.m_tied ch1 = true /\
    m_input_buffer c1 = m_input_buffer (conn_on kConnecting Epoll.one_channel).
Proof.
  apply (connectionEstablished_opens retrieving (conn_on kConnecting Epoll.one_channel) (Chan.new 7)); try done.
  - apply conn_on_socket.
  - apply Epoll.one_channel_wf.
Defined.

Definition queue_close (c : Conn) : res Conn := Ok (queueInLoop FConnectionDestructor c).

Lemma handleRead_error_closes_witness :
  exists c1, handleRead retrieving queue_close (ReadvErr EAGAIN) open_conn =
      (c ← queue_close c1; Ok (handleError (log_error c))) /\
    m_state c1 = kDisconnected /\ Epoll.wf (poller c1) /\
    (forall fd ev, interest (Epoll.kernel (poller c1)) !! fd <> Some (ev, m_channel c1)).
Proof. apply (handleRead_error_closes retrieving queue_close EAGAIN open_conn (true, []) open_conn_inv). Defined.

Lemma close_unregisters_witness :
  exists c1 c2, handleClose queue_close open_conn = Ok c1 /\
    functors c1 = functors open_conn ++ [FConnectionDestructor] /\
    m_state c1 = kDisconnected /\
    run_functor retrieving queue_close (fun _ _ => []) FConnectionDestructor c1 = Ok c2 /\
    m_state c2 = kDisconnected /\
    Epoll.wf (poller c2) /\ forall fd, Epoll.m_channels (poller c2) !! fd <> Some (m_channel open_conn).
Proof.
  apply (close_unregisters retrieving queue_close (fun _ _ => []) open_conn (true, []) open_conn_inv).
  - done.
  - intros c. by eexists.
Defined.

(** A buffer holding ["first"], and ["no"] appended after it was sent: the
    connection sends ["norst"]. *)
Definition holding_first : Buf.Buffer := Buf.mkBuffer (replicate 8 "000"%char ++ bs "first" ++ replicate 11 "000"%char) 8 13.

Lemma late_send_overwritten_witness :
  exists c1 b1 f b2, send_buffer 4096 holding_first (set_in_loop false open_conn) = Ok (c1, b1) /\
    functors c1 = functors (set_in_loop false open_conn) ++ [f] /\
    Buf.append (bs "no") 2 b1 = Ok b2 /\ Buf.content b2 = bs "no" /\
    forall c2 sent, conn_inv c2 (true, sent) -> room_for (OpSend (bs "norst")) c2 ->
      exists c3, run_functor retrieving queue_close (vector_at 4096 (Buf.m_buffer b2)) f c2 = Ok c3 /\
        conn_inv c3 (true, sent ++ bs "norst").
Proof.
  apply (late_send_overwritten retrieving queue_close 4096 holding_first (set_in_loop false open_conn) (bs "no"));
    [split; by vm_compute | done..].
Defined.

End Tcp.
