(* ===== verification/EventLoop.v ===== *)
(** * EventLoop: Net/eventloop.h and Net/eventloop.cpp

    The loop of a thread and the functors other threads hand it, as a
    transition system.  The loop thread is at one of the points [pc] of
    [loop()] and [doPendingFunctors()]; a [queueInLoop] of another thread is
    two steps, the push under the mutex and the write to the eventfd, so that
    everything can happen between them.

    The eventfd is its counter.  Whether other descriptors are ready is up to
    the steps; the callbacks and the functors act on the loop by the steps
    that are allowed while they run ([LoopPush], [LoopQuit]). *)

From Stdlib Require Import ZArith Lia.
From stdpp Require Import options.
From S2P Require Import Prelude Timestamp.

(** The largest count an eventfd holds. *)
Definition EVENTFD_MAX : Z := 18446744073709551614.

Module Loop.

(** Where the loop thread is: before [loop()], at the test of the loop, in
    [epoll_wait], among the active channels, in [doPendingFunctors()], after
    the loop. *)
Inductive pc := Outside | AtHead | Polling | Handling | Calling | Exited.

#[global] Instance pc_eq_dec : EqDecision pc.
Proof. solve_decision. Defined.

Section WithFunctors.
Context {F : Type}.

(** The object and its eventfd; the point of the thread and the functors it
    swapped out; the threads between the push and the wake-up; and, for the
    specification, the functors run and all those handed over. *)
Record EventLoop := mkLoop {
  m_looping : bool;
  m_calling_pending_functors : bool;
  m_pending_functors : list F;
  counter : Z;
  thread : pc;
  functors : list F;
  waking : nat;
  executed : list F;
  queued : list F
}.

Definition new : EventLoop := mkLoop false false [] 0 Outside [] 0 [] [].

Definition set_thread (p : pc) (l : EventLoop) : EventLoop :=
  mkLoop (m_looping l) (m_calling_pending_functors l) (m_pending_functors l) (counter l) p
    (functors l) (waking l) (executed l) (queued l).
Definition set_looping (b : bool) (l : EventLoop) : EventLoop :=
  mkLoop b (m_calling_pending_functors l) (m_pending_functors l) (counter l) (thread l)
    (functors l) (waking l) (executed l) (queued l).

(** [wakeup()]: adds one to the counter; a full counter refuses the write,
    which is ignored. *)
Definition wakeup (l : EventLoop) : EventLoop :=
  mkLoop (m_looping l) (m_calling_pending_functors l) (m_pending_functors l)
    (if counter l <? EVENTFD_MAX then counter l + 1 else counter l)
    (thread l) (functors l) (waking l) (executed l) (queued l).

(** [handleRead()]: the read takes the whole count. *)
Definition handleRead (l : EventLoop) : EventLoop :=
  mkLoop (m_looping l) (m_calling_pending_functors l) (m_pending_functors l) 0
    (thread l) (functors l) (waking l) (executed l) (queued l).

(** The critical section of [queueInLoop]. *)
Definition push (cb : F) (l : EventLoop) : EventLoop :=
  mkLoop (m_looping l) (m_calling_pending_functors l) (m_pending_functors l ++ [cb]) (counter l)
    (thread l) (functors l) (waking l) (executed l) (queued l ++ [cb]).

Definition set_waking (n : nat) (l : EventLoop) : EventLoop :=
  mkLoop (m_looping l) (m_calling_pending_functors l) (m_pending_functors l) (counter l)
    (thread l) (functors l) n (executed l) (queued l).

(** [queueInLoop(cb)] in the loop thread: it wakes the loop up only from within
    a functor. *)
Definition queueInLoop_here (cb : F) (l : EventLoop) : EventLoop :=
  let l := push cb l in
  if m_calling_pending_functors l then wakeup l else l.

(** [queueInLoop(cb)] in another thread, up to the call of [wakeup()]. *)
Definition queueInLoop_there (cb : F) (l : EventLoop) : EventLoop :=
  set_waking (S (waking l)) (push cb l).

(** [runInLoop(cb)]; [run] is the call of [cb]. *)
Definition runInLoop (in_loop : bool) (run : F -> EventLoop -> EventLoop) (cb : F) (l : EventLoop)
    : EventLoop :=
  if in_loop then run cb l else queueInLoop_there cb l.

(** [quit()], up to the call of [wakeup()] in another thread. *)
Definition quit (in_loop : bool) (l : EventLoop) : EventLoop :=
  let l := set_looping false l in
  if negb in_loop then set_waking (S (waking l)) l else l.

(** [~EventLoop()], before it closes the eventfd. *)
Definition destroy (l : EventLoop) : EventLoop :=
  if m_looping l then set_looping false l else l.

(** The start of [loop()]. *)
Definition start_loop (l : EventLoop) : EventLoop := set_thread AtHead (set_looping true l).

(** [while(m_looping)] *)
Definition head (l : EventLoop) : EventLoop :=
  set_thread (if m_looping l then Polling else Exited) l.

(** The start of [doPendingFunctors()]: the flag, then the swap. *)
Definition swap_functors (l : EventLoop) : EventLoop :=
  mkLoop (m_looping l) true [] (counter l) Calling (m_pending_functors l) (waking l)
    (executed l) (queued l).

(** One turn of its loop, and its end. *)
Definition call_functor (l : EventLoop) : EventLoop :=
  match functors l with
  | [] => mkLoop (m_looping l) false (m_pending_functors l) (counter l) AtHead [] (waking l)
            (executed l) (queued l)
  | f :: fs => mkLoop (m_looping l) (m_calling_pending_functors l) (m_pending_functors l) (counter l)
                 Calling fs (waking l) (executed l ++ [f]) (queued l)
  end.

(** ** Steps *)

Inductive event :=
| Start                    (* loop() is called *)
| Head                     (* the test of the loop *)
| Wait (others : bool)     (* epoll_wait returns; whether another descriptor is ready *)
| WakeupRead               (* the wakeup channel's handler *)
| Swap | Call              (* doPendingFunctors() *)
| LoopPush (cb : F)        (* a handler or functor queues a functor *)
| LoopQuit                 (* a handler or functor quits *)
| Push (cb : F)            (* another thread: the push of queueInLoop *)
| Quit                     (* another thread: the assignment of quit *)
| Wakeup.                  (* another thread: the wakeup() that follows *)

(** The state after an event, when it can happen.  [epoll_wait] returns when
    the counter is positive or another descriptor is ready. *)
Definition step (e : event) (l : EventLoop) : option EventLoop :=
  match e, thread l with
  | Start, Outside => Some (start_loop l)
  | Head, AtHead => Some (head l)
  | Wait others, Polling => if (0 <? counter l) || others then Some (set_thread Handling l) else None
  | WakeupRead, Handling => if 0 <? counter l then Some (handleRead l) else None
  | Swap, Handling => Some (swap_functors l)
  | Call, Calling => Some (call_functor l)
  | LoopPush cb, (Handling | Calling) => Some (queueInLoop_here cb l)
  | LoopQuit, (Handling | Calling) => Some (quit true l)
  | Push cb, _ => Some (queueInLoop_there cb l)
  | Quit, _ => Some (quit false l)
  | Wakeup, _ => match waking l with
                 | O => None
                 | S n => Some (wakeup (set_waking n l))
                 end
  | _, _ => None
  end.

Fixpoint run (es : list event) (l : EventLoop) : option EventLoop :=
  match es with
  | [] => Some l
  | e :: es' => match step e l with Some l' => run es' l' | None => None end
  end.

(** ** The invariant *)

(** A wake-up has been delivered or is on its way. *)
Definition woken (l : EventLoop) : Prop := 0 < counter l \/ (0 < waking l)%nat.

(** Outside the two stretches of the turn that end in a swap or at the head of
    the loop, a functor that waits or a quit that was asked for comes with a
    wake-up. *)
Record inv (l : EventLoop) : Prop := {
  inv_counter : 0 <= counter l <= EVENTFD_MAX;
  inv_flag : m_calling_pending_functors l = bool_decide (thread l = Calling);
  inv_functors : thread l <> Calling -> functors l = [];
  inv_order : executed l ++ functors l ++ m_pending_functors l = queued l;
  inv_pending : thread l <> Handling -> m_pending_functors l <> [] -> woken l;
  inv_quit : thread l = Polling -> m_looping l = false -> woken l
}.

(** ** Lemmas *)

Lemma loop_new_inv : inv new.
Proof. split; simpl; try done; unfold EVENTFD_MAX; lia. Qed.

Lemma wakeup_woken l : 0 <= counter l -> woken (wakeup l).
Proof. intros. left. simpl. unfold EVENTFD_MAX. destruct (Z.ltb_spec (counter l) 18446744073709551614); lia. Qed.

Lemma wakeup_range l : 0 <= counter l <= EVENTFD_MAX -> 0 <= counter (wakeup l) <= EVENTFD_MAX.
Proof. simpl. destruct (Z.ltb_spec (counter l) EVENTFD_MAX); lia. Qed.

(** Functors handed over by the loop thread itself, in each place. *)
Lemma queueInLoop_here_inv cb l :
  inv l -> thread l = Handling \/ thread l = Calling -> inv (queueInLoop_here cb l).
Proof.
  intros [Hc Hf Hfs Ho Hp Hq] Ht. unfold queueInLoop_here. cbn [m_calling_pending_functors push].
  assert (executed l ++ functors l ++ m_pending_functors l ++ [cb] = queued l ++ [cb]) as Ho'
    by (by rewrite <- Ho, <- !app_assoc).
  destruct Ht as [Ht|Ht]; rewrite Hf, Ht in *; simpl.
  - split; simpl; rewrite ?Ht; done.
  - split; simpl; rewrite ?Ht; auto; try done; [by apply (wakeup_range l)|].
    intros _ _. apply (wakeup_woken l). lia.
Qed.

Lemma call_functor_inv l : inv l -> thread l = Calling -> inv (call_functor l).
Proof.
  intros [Hc Hf Hfs Ho Hp Hq] Ht. unfold call_functor.
  destruct (functors l) as [|f fs] eqn:Ef; simpl in Ho; split; simpl; try done.
  - intros _. apply Hp. by rewrite Ht.
  - by rewrite Hf, Ht.
  - by rewrite <- app_assoc.
  - intros _. apply Hp. by rewrite Ht.
Qed.

Lemma wakeup_inv n l : inv l -> waking l = S n -> inv (wakeup (set_waking n l)).
Proof.
  intros [Hc Hf Hfs Ho Hp Hq] Hn.
  assert (woken (wakeup (set_waking n l))) by (apply wakeup_woken; simpl; lia).
  split; simpl; auto. by apply (wakeup_range l).
Qed.

Lemma loop_step_inv e l l' : inv l -> step e l = Some l' -> inv l'.
Proof.
  intros Hinv Hs. pose proof Hinv as [Hc Hf Hfs Ho Hp Hq].
  destruct e, (thread l) eqn:Et; simpl in Hs; rewrite ?Et in Hs; try discriminate Hs;
    try (case_match; try discriminate Hs); injection Hs as <-;
    auto using queueInLoop_here_inv, call_functor_inv, wakeup_inv;
    (split; simpl in *; rewrite ?Et, ?Hf in *; try done; unfold woken in *; simpl in *;
     auto; try (by rewrite <- Ho, <- !app_assoc); try (intros; right; lia)).
  - by destruct (m_looping l).
  - by destruct (m_looping l).
  - rewrite app_nil_r. by rewrite Hfs in Ho.
Qed.

Lemma loop_run_inv es l l' : inv l -> run es l = Some l' -> inv l'.
Proof.
  revert l. induction es as [|e es IH]; simpl; intros l Hinv Hr; [congruence|].
  destruct (step e l) as [l1|] eqn:Es; [|done]. eauto using loop_step_inv.
Qed.

(** The functors an event sequence hands over. *)
Definition pushes (es : list event) : list F :=
  omap (fun e => match e with LoopPush cb | Push cb => Some cb | _ => None end) es.

Lemma step_queued e l l' : step e l = Some l' -> queued l' = queued l ++ pushes [e].
Proof.
  intros Hs. destruct e, (thread l) eqn:Et; simpl in Hs; rewrite ?Et in Hs; try discriminate Hs;
    try (case_match; try discriminate Hs); injection Hs as <-; cbn; rewrite ?app_nil_r; try done;
    unfold queueInLoop_here, call_functor; simpl;
    try (by destruct (m_calling_pending_functors l)); destruct (functors l); done.
Qed.

Lemma run_queued es l l' : run es l = Some l' -> queued l' = queued l ++ pushes es.
Proof.
  revert l. induction es as [|e es IH]; simpl; intros l Hr.
  { injection Hr as ->. by rewrite app_nil_r. }
  destruct (step e l) as [l1|] eqn:Es; [|done]. rewrite (IH _ Hr), (step_queued _ _ _ Es), <- app_assoc.
  f_equal. by destruct e.
Qed.

(** The rest of [doPendingFunctors()], when nothing interferes. *)
Lemma run_calls l :
  thread l = Calling ->
  exists l', run (replicate (S (length (functors l))) Call) l = Some l' /\ thread l' = AtHead /\
    executed l' = executed l ++ functors l /\ m_pending_functors l' = m_pending_functors l /\
    m_looping l' = m_looping l.
Proof.
  remember (functors l) as fs eqn:Ef. revert l Ef.
  induction fs as [|f fs IH]; intros l Ef Ht; cbn [length replicate run step]; rewrite Ht;
    unfold call_functor; rewrite <- Ef.
  - eexists. split; [done|]. simpl. by rewrite app_nil_r.
  - destruct (IH (mkLoop (m_looping l) (m_calling_pending_functors l) (m_pending_functors l) (counter l)
                 Calling fs (waking l) (executed l ++ [f]) (queued l))) as (l' & Hr & ? & He & ? & ?); [done..|].
    exists l'. split; [exact Hr|]. split_and!; auto. rewrite He. simpl. by rewrite <- app_assoc.
Qed.

(** ** Properties *)

(** C13. Functors run exactly once and in the order they were handed over,
    whatever threads hand them over and whenever: those run, those being run
    and those waiting are together the ones queued, in order. *)
Theorem functors_fifo_once es l :
  run es new = Some l -> executed l ++ functors l ++ m_pending_functors l = pushes es.
Proof.
  intros Hr. rewrite (inv_order l (loop_run_inv _ _ _ loop_new_inv Hr)). by rewrite (run_queued _ _ _ Hr).
Qed.


(** A turn of the loop after a wake-up, with no interference, runs all the
    functors that wait and then leaves the loop exactly if a quit was asked
    for. *)
Theorem turn_runs_pending l :
  thread l = Polling -> 0 < counter l ->
  exists l', run (Wait false :: WakeupRead :: Swap ::
                  replicate (S (length (m_pending_functors l))) Call ++ [Head]) l = Some l' /\
    executed l' = executed l ++ m_pending_functors l /\ m_pending_functors l' = [] /\
    thread l' = (if m_looping l then Polling else Exited).
Proof.
  intros Ht Hc. cbn [run step]. rewrite Ht, (proj2 (Z.ltb_lt _ _)) by done. cbn [run step orb thread set_thread].
  cbn [counter set_thread]. rewrite (proj2 (Z.ltb_lt _ _)) by done. cbn [run step thread handleRead set_thread].
  set (l1 := swap_functors _).
  destruct (run_calls l1) as (l2 & Hr & Ht2 & He & Hp & Hl); [done|].
  change (functors l1) with (m_pending_functors l) in *.
  assert (forall es l0 l3, run es l0 = Some l3 -> forall es', run (es ++ es') l0 = run es' l3) as Happ.
  { intros es. induction es as [|e es IH]; simpl; intros l0 l3 H es'; [by injection H as ->|].
    destruct (step e l0); [by apply IH | done]. }
  rewrite (Happ _ _ _ Hr). simpl. rewrite Ht2. eexists. split; [done|]. simpl.
  rewrite He, Hp, Hl. done.
Qed.

(** A quit before [loop()] is forgotten: [loop()] sets the flag again. *)
Lemma quit_before_loop_lost l :
  thread l = Outside ->
  exists l', run [Quit; Wakeup; Start] l = Some l' /\ m_looping l' = true /\ thread l' = AtHead.
Proof. intros Ht. cbn. rewrite Ht. eexists. done. Qed.

End WithFunctors.
Arguments EventLoop : clear implicits.

(** ** Witnesses *)

(** A functor is pushed while the loop is about to wait, and the wake-up comes
    once it waits; a functor run later queues another. *)
Definition sample_events : list event :=
  [Start; Push 1%nat; Head; Wakeup; Wait false; WakeupRead; Push 2%nat; Swap; Call; LoopPush 3%nat;
   Call; Call; Wakeup; Head].

Lemma functors_fifo_once_witness :
  exists l, run sample_events new = Some l /\
    executed l ++ functors l ++ m_pending_functors l = pushes sample_events.
Proof.
  eexists. split; [vm_compute; reflexivity|].
  apply (functors_fifo_once sample_events). vm_compute. reflexivity.
Defined.


Lemma turn_runs_pending_witness :
  exists l', run (Wait false :: WakeupRead :: Swap :: replicate 2 Call ++ [Head])
      (mkLoop true false [3%nat] 2 Polling [] 0 [1%nat; 2%nat] [1%nat; 2%nat; 3%nat]) = Some l' /\
    executed l' = [1%nat; 2%nat] ++ [3%nat] /\ m_pending_functors l' = [] /\ thread l' = Polling.
Proof.
  apply (turn_runs_pending (mkLoop true false [3%nat] 2 Polling [] 0 [1%nat; 2%nat] [1%nat; 2%nat; 3%nat]));
    [reflexivity | simpl; lia].
Defined.

End Loop.
