(* ===== verification/Pages.v ===== *)
(** * Pages: Http/httpresponsefile.h

    The two files the server holds in memory. *)

From Stdlib Require Import ZArith Ascii String.
From stdpp Require Import options.
From S2P Require Import Prelude.

(** [favicon]: the bytes of a PNG image, by their codes. *)
Definition favicon : bytes := map ascii_of_nat (
  [137; 80; 78; 71; 13; 10; 26; 10; 0; 0; 0; 13; 73; 72; 68; 82; 0; 0; 0; 16;
   0; 0; 0; 16; 8; 6; 0; 0; 0; 31; 243; 255; 97; 0; 0; 0; 25; 116; 69; 88;
   116; 83; 111; 102; 116; 119; 97; 114; 101; 0; 65; 100; 111; 98; 101; 32; 73; 109; 97; 103;
   101; 82; 101; 97; 100; 121; 113; 201; 101; 60; 0; 0; 1; 205; 73; 68; 65; 84; 120; 218;
   148; 147; 57; 72; 3; 65; 20; 134; 255; 93; 98; 167; 4; 82; 196; 109; 34; 30; 160; 70;
   36; 8; 22; 22; 118; 10; 54; 186; 74; 154; 128; 8; 65; 180; 113; 133; 88; 137; 71; 176;
   73; 169; 81; 36; 205; 166; 8; 164; 72; 99; 145; 66; 11; 175; 86; 193; 70; 180; 21; 207;
   34; 88; 152; 11; 84; 72; 138; 100; 147; 141; 251; 70; 103; 201; 26; 20; 125; 240; 102; 118;
   102; 223; 124; 239; 231; 103; 70; 168; 213; 106; 72; 36; 18; 42; 0; 5; 191; 71; 212; 239;
   247; 47; 54; 236; 18; 32; 30; 143; 215; 170; 213; 234; 175; 73; 53; 70; 170; 84; 95; 159;
   34; 65; 42; 149; 10; 131; 229; 114; 57; 100; 179; 89; 150; 153; 76; 6; 233; 116; 154; 37;
   133; 44; 203; 84; 167; 196; 98; 49; 181; 94; 0; 3; 104; 154; 198; 22; 130; 32; 88; 82;
   20; 69; 54; 83; 148; 203; 101; 120; 189; 94; 170; 85; 84; 35; 76; 192; 224; 226; 193; 143;
   0; 158; 188; 9; 65; 124; 62; 31; 131; 68; 34; 17; 213; 84; 64; 63; 56; 128; 119; 229;
   51; 7; 184; 92; 46; 72; 146; 4; 135; 195; 129; 64; 32; 64; 103; 152; 233; 54; 26; 166;
   103; 21; 4; 227; 215; 200; 189; 21; 225; 105; 183; 67; 171; 234; 120; 47; 106; 88; 146; 187;
   24; 32; 159; 207; 51; 195; 184; 233; 78; 167; 211; 108; 74; 0; 105; 54; 124; 142; 225; 254;
   86; 132; 231; 60; 159; 114; 43; 58; 66; 123; 55; 102; 119; 174; 142; 14; 243; 189; 82; 169;
   100; 2; 66; 175; 133; 50; 102; 70; 186; 12; 217; 159; 29; 154; 108; 34; 230; 199; 58; 44;
   128; 239; 193; 21; 144; 7; 147; 162; 40; 160; 83; 106; 177; 184; 223; 41; 53; 67; 14; 63;
   88; 252; 152; 218; 121; 106; 80; 64; 0; 135; 174; 27; 23; 66; 180; 58; 63; 190; 121; 199;
   10; 38; 182; 238; 217; 154; 96; 20; 147; 219; 143; 13; 10; 46; 233; 35; 149; 41; 88; 0;
   39; 235; 110; 86; 112; 188; 214; 203; 214; 71; 171; 61; 108; 125; 184; 210; 221; 160; 96; 131;
   186; 239; 95; 164; 234; 204; 2; 78; 174; 94; 112; 26; 236; 179; 64; 57; 172; 254; 242; 145;
   137; 103; 145; 133; 33; 168; 135; 183; 88; 126; 126; 133; 187; 205; 78; 78; 98; 116; 64; 250;
   147; 137; 236; 30; 236; 134; 2; 72; 38; 147; 208; 117; 29; 127; 9; 50; 149; 191; 31; 219;
   215; 99; 138; 26; 247; 92; 193; 255; 34; 74; 195; 135; 0; 3; 0; 75; 187; 248; 214; 42;
   118; 152; 73; 0; 0; 0; 0; 73; 69; 78; 68; 174; 66; 96; 130])%nat.

(** A string literal in which a grave accent stands for a quotation mark. *)
Definition unquote (c : ascii) : ascii := if decide (c = "`"%char) then "034"%char else c.

(** [website], a raw string literal. *)
Definition website : bytes := map unquote (bs "
        <!DOCTYPE html>
        <html lang=`en`>
        <head>
            <meta charset=`UTF-8`>
            <meta name=`viewport` content=`width=device-width, initial-scale=1.0`>
            <title>Ymirth - Personal Homepage</title>
            <style>
                body {
                    font-family: Arial, sans-serif;
                    margin: 20px;
                    padding: 20px;
                    text-align: center;
                }

                header {
                    background-color: #333;
                    color: white;
                    padding: 10px;
                }

                h1 {
                    margin-bottom: 0;
                }

                nav {
                    margin-top: 20px;
                }

                nav a {
                    text-decoration: none;
                    color: #333;
                    padding: 10px;
                    margin: 0 10px;
                    border-radius: 5px;
                    background-color: #eee;
                }

                section {
                    margin-top: 20px;
                    text-align: left;
                }

                footer {
                    margin-top: 20px;
                    background-color: #333;
                    color: white;
                    padding: 10px;
                }
            </style>
        </head>
        <body>
            <header>
                <h1>Ymirth</h1>
                <p>Software Developer</p>
            </header>

            <nav>
                <a href=`#about`>About Me</a>
                <a href=`#skills`>Skills</a>
                <a href=`#projects`>Projects</a>
                <a href=`#contact`>Contact</a>
            </nav>

            <section id=`about`>
                <h2>About Me</h2>
                <p>I am a student major in cs in scut</p>
                <p>I’m currently learning distributed system and database</p>
                <p>I’m looking to collaborate on backend program</p>
            </section>

            <section id=`skills`>
                <h2>Skills</h2>
                <ul>
                    <li>Cpp, Python, Go</li>
                    <li>Linux, Gdb, Network Programing, Concurency Programming</li>
                    <li>Mysql, Redis</li>
                </ul>
            </section>

            <section id=`projects`>
                <h2>Projects</h2>
                <p>Threadpool in cpp14:<a href=`https://github.com/ymirth/ThreadPool` target=`_blank`>/github.com/ymirth/ThreadPool</a></p>
                <p>HTTP Server Frame Work based on Moduo:<a href=`https://github.com/ymirth/MyModuo` target=`_blank`>/github.com/ymirth/webserver</a></p>
            </section>

            <section id=`contact`>
                <h2>Contact</h2>
                <p>Email: ymirth123@gmail.com</p>
                <p>GitHub: <a href=`https://github.com/ymirth` target=`_blank`>github.com/ymirth</a></p>
            </section>

            <footer>
                &copy; 2024 Ymirth
            </footer>
        </body>
        </html>
    ").
