(* ===== verification/HttpServer.v ===== *)
(** * HttpServer: Http/httpserver.h, Http/httpserver.cpp, and the response
      callback of main.cpp

    What the server does with the events of one connection: it parses what
    was read, answers, and closes.  A message callback runs in the loop of its
    connection; the timer of the idle check runs in the server's loop.

    The response callback is a parameter of the handlers; [resCallback] is
    the program's. *)

From Stdlib Require Import ZArith Lia Ascii String.
From stdpp Require Import options.
From S2P Require Import Prelude CStd Buffer HttpRequest HttpRequestParser HttpResponse Channel Epoller Timestamp TcpConnection Pages.
Import Request.

Module Server.
Import Tcp.

(** [kIdleConnectionTimeOuts], 8.0 *)
Definition kIdleConnectionTimeOuts : double := double_of_Z 8.

Section WithKernel.
Context {K : Type} `{!EpollKernel K}.

Abbreviation Conn := (TcpConnection K).

(** [m_auto_close_idle_connection] and [m_response_callback]. *)
Context (m_auto_close_idle_connection : bool).
Context (m_response_callback : HttpRequest -> Response.HttpResponse -> Response.HttpResponse).

(** A timer asked for with [runAfter]: the delay. *)
Abbreviation timer := double.

(** [onConnection(conn, buf)]: the connection, and the timer set. *)
Definition onConnection (c : Conn) : Conn * option timer :=
  if isConnected c then
    (set_input (Buf.retrieveAll (m_input_buffer c)) c,
     if m_auto_close_idle_connection then Some kIdleConnectionTimeOuts else None)
  else (set_input (Buf.retrieveAll (m_input_buffer c)) c, None).

(** [handleRequest(conn, request)] *)
Definition handleRequest (request : HttpRequest) (c : Conn) : res Conn :=
  h ← Request.header (bs "Connection") request;
  let close := bool_decide (h = bs "close") in
  close ← (if decide (m_version request = kHttp11)
           then h ← Request.header (bs "Connection") request;
                Ok (negb (bool_decide (h = bs "Keep-Alive")))
           else Ok close);
  let response := m_response_callback request (Response.new close) in
  buf ← Response.appendToBuffer response (Buf.new kInitialSize);
  '(c, _) ← send_buffer 0 buf c;
  if Response.closeConnection response then shutDown c else Ok c.

Definition bad_request : bytes := bs "HTTP/1.1 400 Bad Request" ++ CRLF ++ CRLF.

(** [onMessage(conn, buf)], with [buf] the input buffer of the connection. *)
Definition onMessage (c : Conn) : res Conn :=
  let c := if m_auto_close_idle_connection then updateLastReceiveTime c else c in
  '(parser, buf) ← Parser.parseContent (m_parser c) (m_input_buffer c);
  let c := set_parser parser (set_input (Buf.retrieveAll buf) c) in
  match Parser.m_state parser with
  | Parser.kParseErrno => c ← send 0 bad_request (log_error c); shutDown c
  | Parser.kParseGotCompleteRequest => handleRequest (Parser.getRequest parser) c
  | _ => Ok c
  end.

(** [handleIdleConnection(conn)]: [alive] tells whether the weak pointer still
    gives the connection.  It returns the timer it sets again. *)
Definition handleIdleConnection (alive : bool) (c : Conn) : res (Conn * option timer) :=
  if alive then
    _time1 ← Ts.addTime (m_last_receive_time c) kIdleConnectionTimeOuts;
    let '(_time2, c) := now c in
    deadline ← Ts.addTime (m_last_receive_time c) kIdleConnectionTimeOuts;
    let '(n, c) := now c in
    if Ts.lt deadline n then c ← shutDown c; Ok (c, None)
    else Ok (c, Some kIdleConnectionTimeOuts)
  else Ok (c, None).

End WithKernel.

(** [defaultHttpCallback(request, response)] *)
Definition defaultHttpCallback (request : HttpRequest) (response : Response.HttpResponse)
    : Response.HttpResponse :=
  Response.setCloseConnection true
    (Response.setStatusMessage (bs "Not Found") (Response.setStatusCode Response.k404NotFound response)).

(** [resCallback(request, resp)] of main.cpp. *)
Definition resCallback (request : HttpRequest) (response : Response.HttpResponse)
    : Response.HttpResponse :=
  if decide (m_method request = kGet) then
    let path := m_path request in
    let ok := Response.setStatusMessage (bs "OK") (Response.setStatusCode Response.k200OK response) in
    if decide (path = bs "/") then
      Response.setBody website (Response.setContentType (bs "text/html") ok)
    else if decide (path = bs "/hello") then
      Response.setBody (bs "Hello, world!" ++ [LF]) (Response.setContentType (bs "text/html") ok)
    else if decide (path = bs "/favicon.ico" \/ path = bs "/favicon") then
      Response.setBody favicon (Response.setContentType (bs "image/png") ok)
    else
      Response.setCloseConnection true
        (Response.setStatusMessage (bs "Not Found") (Response.setStatusCode Response.k404NotFound response))
  else
    Response.setCloseConnection true
      (Response.setStatusMessage (bs "Bad Request") (Response.setStatusCode Response.k400BadRequest response)).

(** ** Lemmas *)

Section Correct.
Context {K : Type} `{!EpollKernel K}.
Context (auto_close : bool).
Context (cb : HttpRequest -> Response.HttpResponse -> Response.HttpResponse).

(** The invariant does not see the input side of a connection. *)
Lemma conn_inv_same (c c' : TcpConnection K) s :
  conn_inv c s -> in_loop c' = in_loop c -> poller c' = poller c -> m_channel c' = m_channel c ->
  m_output_buffer c' = m_output_buffer c -> writes c' = writes c -> calls c' = calls c ->
  m_state c' = m_state c -> conn_inv c' s.
Proof.
  intros [Hin (ch & Hl & Hs) Hwf Hsock Hw Hst Hshut] E1 E2 E3 E4 E5 E6 E7.
  split; rewrite ?E1, ?E4, ?E6, ?E7; auto.
  - exists ch. split; [|done]. destruct Hl. split; rewrite ?E2, ?E3; auto.
  - intros k len. rewrite E5. apply Hsock.
Qed.

Lemma serialize_fresh r :
  zlen (Response.serialize r) + 2 * kPrePendIndex <= INT_MAX ->
  exists b, Response.appendToBuffer r (Buf.new kInitialSize) = Ok b /\ Buf.wf b /\
    Buf.content b = Response.serialize r.
Proof.
  intros Hi. rewrite Response.appendToBuffer_all. rewrite <- Response.concat_pieces in *.
  destruct (Response.append_all_ok (Response.pieces r) (Buf.new kInitialSize)) as (b & ? & ? & ? & _);
    [by apply Buf.new_wf; vm_compute | by vm_compute | | eauto].
  rewrite Buf.new_content. change (zlen (@nil ascii)) with 0. lia.
Qed.

(** Sending a buffer is sending its contents. *)
Lemma send_buffer_op (b : Buf.Buffer) (c : TcpConnection K) :
  in_loop c = true ->
  send_buffer 0 b c =
    (c' ← run_conn_op (OpSend (Buf.content b)) c;
     Ok (c', if decide (m_state c = kConnected) then Buf.retrieveAll b else b)).
Proof.
  intros Hin. unfold send_buffer. simpl. unfold send. rewrite Hin.
  assert (slice (Buf.peek b) (Buf.peek b + Buf.readableBytes b) (Buf.m_buffer b) = Buf.content b) as ->.
  { unfold Buf.content, Buf.peek, Buf.curReadPtr, Buf.readableBytes. f_equal. lia. }
  by destruct (decide (m_state c = kConnected)).
Qed.

(** An answer: the bytes are sent, and the connection is shut down or not. *)
Lemma answer (close : bool) msg c s :
  conn_inv c s -> room_for (OpSend msg) c ->
  exists c', (c ← run_conn_op (OpSend msg) c; if close then shutDown c else Ok c) = Ok c' /\
    conn_inv c' (if close then stream_op OpShutDown (stream_op (OpSend msg) s)
                 else stream_op (OpSend msg) s).
Proof.
  intros Hinv Hroom. destruct (run_conn_op_ok (OpSend msg) c s Hinv Hroom) as (c1 & -> & Hinv1).
  simpl. destruct close; [|eauto].
  destruct (run_conn_op_ok OpShutDown c1 _ Hinv1) as (c2 & Hr & Hinv2); [done|]. eauto.
Qed.

(** Whether a request asks for the connection to be closed. *)
Definition wants_close (r : HttpRequest) (h : bytes) : bool :=
  if decide (m_version r = kHttp11) then negb (bool_decide (h = bs "Keep-Alive"))
  else bool_decide (h = bs "close").

Lemma handleRequest_ok r h c s :
  conn_inv c s -> m_headers r !! bs "Connection" = Some h ->
  let resp := cb r (Response.new (wants_close r h)) in
  zlen (Response.serialize resp) + 2 * kPrePendIndex <= INT_MAX ->
  room_for (OpSend (Response.serialize resp)) c ->
  exists c', handleRequest cb r c = Ok c' /\
    conn_inv c' (if Response.closeConnection resp
                 then stream_op OpShutDown (stream_op (OpSend (Response.serialize resp)) s)
                 else stream_op (OpSend (Response.serialize resp)) s).
Proof.
  intros Hinv Hh resp Hlen Hroom. unfold handleRequest, Request.header. rewrite Hh. cbn [mbind res_bind].
  assert ((if decide (m_version r = kHttp11) then Ok (negb (bool_decide (h = bs "Keep-Alive")))
           else Ok (bool_decide (h = bs "close"))) = Ok (wants_close r h)) as ->
    by (unfold wants_close; by destruct (decide (m_version r = kHttp11))).
  cbn [mbind res_bind]. fold resp. destruct (serialize_fresh resp Hlen) as (b & -> & _ & Hb). simpl.
  rewrite send_buffer_op by apply Hinv. rewrite Hb.
  destruct (answer (Response.closeConnection resp) _ c s Hinv Hroom) as (c' & Ha & Hinv').
  exists c'. split; [|done]. rewrite <- Ha. rewrite bind_assoc. apply bind_ext. intros c1. done.
Qed.

(** The connection [onMessage] has when it looks at the parser's state. *)
Lemma onMessage_parsed c s p rest :
  conn_inv c s -> Buf.wf (m_input_buffer c) ->
  Parser.parse_bytes (m_parser c) (Buf.content (m_input_buffer c)) = Ok (p, rest) ->
  exists c1, onMessage auto_close cb c =
      match Parser.m_state p with
      | Parser.kParseErrno => c ← send 0 bad_request (log_error c1); shutDown c
      | Parser.kParseGotCompleteRequest => handleRequest cb (Parser.getRequest p) c1
      | _ => Ok c1
      end /\
    conn_inv c1 s /\ m_parser c1 = p /\ Buf.wf (m_input_buffer c1) /\
    Buf.content (m_input_buffer c1) = [] /\ m_output_buffer c1 = m_output_buffer c /\
    calls c1 = calls c.
Proof.
  intros Hinv Hwf Hp. unfold onMessage.
  set (c0 := if auto_close then updateLastReceiveTime c else c).
  assert (m_parser c0 = m_parser c /\ m_input_buffer c0 = m_input_buffer c) as [-> ->]
    by (unfold c0; by destruct auto_close).
  destruct (Parser.parseContent_spec (m_parser c) (m_input_buffer c) Hwf) as (p' & b' & -> & Hwf' & Hpb).
  rewrite Hp in Hpb. injection Hpb as <- Hrest. cbn [mbind res_bind].
  eexists. split; [done|]. split_and!.
  - eapply conn_inv_same; [exact Hinv|..]; unfold c0; by destruct auto_close.
  - done.
  - simpl. by apply Buf.retrieveAll_wf.
  - simpl. apply Buf.retrieveAll_content.
  - unfold c0. by destruct auto_close.
  - unfold c0. by destruct auto_close.
Qed.

(** ** Properties *)

(** A request is answered.  On an open connection whose parser is fresh and
    whose input holds a rendered request with a Connection header, [onMessage]
    sends exactly the serialised response of the callback, after all that was
    sent before, and closes the sending side exactly if the response says
    so. *)
Theorem request_answered c sent line m t ver hs h :
  conn_inv c (true, sent) -> m_parser c = Parser.new -> Buf.wf (m_input_buffer c) ->
  Buf.content (m_input_buffer c) = Parser.render_request line hs ->
  request_line line m t ver -> CR ∉ line -> Forall Parser.header_ok hs ->
  let r := Parser.set_headers hs (setVersion ver (set_target t (setMethod (method_name m) Request.new))) in
  m_headers r !! bs "Connection" = Some h ->
  let resp := cb r (Response.new (wants_close r h)) in
  zlen (Response.serialize resp) + 2 * kPrePendIndex <= INT_MAX ->
  room_for (OpSend (Response.serialize resp)) c ->
  exists c', onMessage auto_close cb c = Ok c' /\
    conn_inv c' (negb (Response.closeConnection resp), sent ++ Response.serialize resp).
Proof.
  intros Hinv Hp Hwf Hc Hl Hcr Hhs r Hh resp Hlen Hroom.
  pose proof (Parser.parse_request_bytes line m t ver hs Hl Hcr Hhs) as Hparse.
  rewrite <- Hp, <- Hc in Hparse.
  destruct (onMessage_parsed c (true, sent) _ _ Hinv Hwf Hparse) as (c1 & -> & Hinv1 & Hp1 & _ & _ & Hout & Hca).
  simpl Parser.m_state. cbv iota. fold r.
  destruct (handleRequest_ok r h c1 (true, sent) Hinv1 Hh Hlen) as (c' & Hr & Hinv').
  { fold resp. simpl in *. by rewrite Hout. }
  exists c'. split; [exact Hr|]. fold resp in Hinv'. by destruct (Response.closeConnection resp).
Qed.

(** C35. Input the parser refuses is answered with a 400 and the sending side is
    closed; in particular the second request on a connection is, whatever it
    is, since the parser is not reset after the first. *)
Theorem bad_input_answered c sent p rest :
  conn_inv c (true, sent) -> Buf.wf (m_input_buffer c) ->
  room_for (OpSend bad_request) c ->
  (Parser.parse_bytes (m_parser c) (Buf.content (m_input_buffer c)) = Ok (p, rest) /\
   Parser.m_state p = Parser.kParseErrno) \/
  (Parser.m_state (m_parser c) = Parser.kParseGotCompleteRequest /\
   is_Some (cut_line (Buf.content (m_input_buffer c)))) ->
  exists c', onMessage auto_close cb c = Ok c' /\ conn_inv c' (false, sent ++ bad_request).
Proof.
  intros Hinv Hwf Hroom Hcase.
  assert (exists p rest, Parser.parse_bytes (m_parser c) (Buf.content (m_input_buffer c)) = Ok (p, rest) /\
   Parser.m_state p = Parser.kParseErrno) as (p' & rest' & Hp & Hst).
  { destruct Hcase as [|[Hst [[line rest'] Hcut]]]; [eauto|].
    rewrite Parser.parse_bytes_unfold, Hcut. unfold Parser.parse_line. rewrite Hst. simpl. eauto. }
  destruct (onMessage_parsed c (true, sent) _ _ Hinv Hwf Hp) as (c1 & -> & Hinv1 & _ & _ & _ & Hout & _).
  rewrite Hst. destruct (answer true bad_request (log_error c1) (true, sent)) as (c' & Hr & Hinv').
  - by eapply conn_inv_same.
  - simpl in *. by rewrite Hout.
  - exists c'. split; [exact Hr | exact Hinv'].
Qed.

(** What a read brings after its last complete line is lost: [onMessage]
    empties the input even when the parser waits for more, so a line split
    over two reads loses its first part. *)
Theorem partial_input_dropped c s p rest :
  conn_inv c s -> Buf.wf (m_input_buffer c) ->
  Parser.parse_bytes (m_parser c) (Buf.content (m_input_buffer c)) = Ok (p, rest) ->
  Parser.m_state p = Parser.kParseRequestLine \/ Parser.m_state p = Parser.kParseHeader ->
  exists c', onMessage auto_close cb c = Ok c' /\ conn_inv c' s /\ m_parser c' = p /\
    Buf.content (m_input_buffer c') = [] /\ calls c' = calls c.
Proof.
  intros Hinv Hwf Hp Hst.
  destruct (onMessage_parsed c s p rest Hinv Hwf Hp) as (c1 & -> & Hinv1 & Hp1 & _ & Hin & _ & Hca).
  exists c1. destruct Hst as [->| ->]; by split_and!.
Qed.

(** A complete request is answered again by the next read that brings no
    complete line: the parser still says it has a request, so [onMessage] sends
    the response of the request before. *)
Theorem fragment_answered_again c sent h :
  conn_inv c (true, sent) -> Buf.wf (m_input_buffer c) ->
  Parser.m_state (m_parser c) = Parser.kParseGotCompleteRequest ->
  cut_line (Buf.content (m_input_buffer c)) = None ->
  let r := Parser.m_request (m_parser c) in
  m_headers r !! bs "Connection" = Some h ->
  let resp := cb r (Response.new (wants_close r h)) in
  zlen (Response.serialize resp) + 2 * kPrePendIndex <= INT_MAX ->
  room_for (OpSend (Response.serialize resp)) c ->
  exists c', onMessage auto_close cb c = Ok c' /\
    conn_inv c' (negb (Response.closeConnection resp), sent ++ Response.serialize resp).
Proof.
  intros Hinv Hwf Hst Hcut r Hh resp Hlen Hroom.
  assert (Parser.parse_bytes (m_parser c) (Buf.content (m_input_buffer c)) =
    Ok (m_parser c, Buf.content (m_input_buffer c))) as Hp by (by rewrite Parser.parse_bytes_unfold, Hcut).
  destruct (onMessage_parsed c (true, sent) _ _ Hinv Hwf Hp) as (c1 & -> & Hinv1 & Hp1 & _ & _ & Hout & _).
  rewrite Hst. change (Parser.getRequest (m_parser c)) with r.
  destruct (handleRequest_ok r h c1 (true, sent) Hinv1 Hh Hlen) as (c' & Hr & Hinv').
  { fold resp. simpl in *. by rewrite Hout. }
  exists c'. split; [exact Hr|]. fold resp in Hinv'. by destruct (Response.closeConnection resp).
Qed.

(** A complete request without a Connection header makes the server read
    through a dangling reference. *)
Theorem missing_connection_header c s p rest :
  conn_inv c s -> Buf.wf (m_input_buffer c) ->
  Parser.parse_bytes (m_parser c) (Buf.content (m_input_buffer c)) = Ok (p, rest) ->
  Parser.m_state p = Parser.kParseGotCompleteRequest ->
  m_headers (Parser.m_request p) !! bs "Connection" = None ->
  onMessage auto_close cb c = Fault Undefined.
Proof.
  intros Hinv Hwf Hp Hst Hh. destruct (onMessage_parsed c s p rest Hinv Hwf Hp) as (c1 & -> & _).
  rewrite Hst. unfold handleRequest, Request.header, Parser.getRequest. by rewrite Hh.
Qed.

(** The idle check shuts the connection down exactly when more than eight
    seconds passed since the last message, by the second reading of the
    clock, and otherwise sets the same timer again; a connection that is gone
    is left alone. *)
Theorem idle_check alive c s :
  conn_inv c s -> 0 <= Ts.m_time_point (m_last_receive_time c) <= INT64_MAX - 8000000000 ->
  exists c' timer, handleIdleConnection alive c = Ok (c', timer) /\
    let idle := alive && (Ts.m_time_point (m_last_receive_time c) + 8000000000
                          <? Ts.m_time_point (readings c (S (clock c)))) in
    conn_inv c' (if idle then stream_op OpShutDown s else s) /\
    timer = (if alive && negb idle then Some kIdleConnectionTimeOuts else None).
Proof.
  intros Hinv Ht. unfold handleIdleConnection. destruct alive; [|by exists c, None].
  unfold kIdleConnectionTimeOuts, now. cbn [m_last_receive_time]. rewrite (Ts.addTime_eight _ Ht). generalize (double_of_Z 8). intros eight.
  simpl. unfold Ts.lt. simpl.
  set (c1 := mkConn _ _ _ _ _ _ _ _ _ _ _ _ _ _ _ _ _).
  assert (conn_inv c1 s) as Hinv1 by (by eapply conn_inv_same).
  destruct (_ <? _); simpl; [|eauto].
  destruct (run_conn_op_ok OpShutDown c1 s Hinv1) as (c2 & Hr & Hinv2); [done|].
  simpl in Hr. rewrite Hr. simpl. eauto.
Qed.

End Correct.

(** ** Witnesses *)

(** The open connection of TcpConnection.v with some input read, and a parser. *)
Definition conn_with (p : Parser.HttpRequestParser) (input : bytes) : Tcp.Conn :=
  set_parser p (set_input (Parser.buffer_of input) open_conn).

Lemma conn_with_inv p input : conn_inv (conn_with p input) (true, []).
Proof. by apply (conn_inv_same open_conn _ _ open_conn_inv). Qed.

Lemma conn_with_room p input msg :
  zlen msg + kPrePendIndex <= INT_MAX -> room_for (OpSend msg) (conn_with p input).
Proof.
  intros H. split; [exact H|]. intros n _. by apply Buf.compacts_false_low.
Qed.

Definition hello_headers : list (bytes * bytes) := [(bs "Connection", bs "Keep-Alive")].

Lemma hello_headers_ok : Forall Parser.header_ok hello_headers.
Proof.
  constructor; [|constructor]. split_and!; try (apply (bool_decide_unpack _); by vm_compute).
  split; intros c v' E.
  - vm_compute in E. simplify_eq. reflexivity.
  - change (bs "Connection", bs "Keep-Alive").2 with (bs "Keep-Aliv" ++ ["e"%char]) in E.
    apply app_inj_tail in E as [_ <-]. reflexivity.
Qed.

Lemma hello_line : request_line (bs "GET /hello HTTP/1.1") kGet (Target (bs "/hello") None) kHttp11.
Proof.
  apply (RequestLine kGet (Target (bs "/hello") None) (bs "HTTP/1.1") kHttp11);
    [discriminate | | by vm_compute].
  split_and!; apply (bool_decide_unpack _); by vm_compute.
Qed.

Definition hello_input : bytes := Parser.render_request (bs "GET /hello HTTP/1.1") hello_headers.

Lemma request_answered_witness :
  let r := Parser.set_headers hello_headers
             (setVersion kHttp11 (set_target (Target (bs "/hello") None)
               (setMethod (method_name kGet) Request.new))) in
  let resp := resCallback r (Response.new (wants_close r (bs "Keep-Alive"))) in
  exists c', onMessage true resCallback (conn_with Parser.new hello_input) = Ok c' /\
    conn_inv c' (negb (Response.closeConnection resp), [] ++ Response.serialize resp).
Proof.
  apply (request_answered true resCallback (conn_with Parser.new hello_input) []
           (bs "GET /hello HTTP/1.1") kGet (Target (bs "/hello") None) kHttp11 hello_headers).
  - apply conn_with_inv.
  - reflexivity.
  - apply Parser.buffer_of_wf. by vm_compute.
  - reflexivity.
  - apply hello_line.
  - apply (bool_decide_unpack _). by vm_compute.
  - apply hello_headers_ok.
  - reflexivity.
  - by vm_compute.
  - apply conn_with_room. by vm_compute.
Defined.

(** The request and its answer, to the byte; the socket takes two bytes at a
    time, so the rest is pending. *)
Example hello_answer :
  (c ← onMessage true resCallback (conn_with Parser.new hello_input);
   Ok (wire_of (calls c) ++ Buf.content (m_output_buffer c))) =
  Ok (bs "HTTP/1.1 200 OK" ++ CRLF ++ bs "Content-length: 14" ++ CRLF ++
      bs "Connection: Keep-Alive" ++ CRLF ++ bs "Content-type: text/html" ++ CRLF ++
      bs "Server: Ymirth server" ++ CRLF ++ CRLF ++ bs "Hello, world!" ++ [LF]).
Proof. vm_compute. reflexivity. Qed.

(** A parser that has parsed a request. *)
Definition used_parser : Parser.HttpRequestParser :=
  Parser.mkParser Request.new Parser.kParseGotCompleteRequest.

Lemma bad_input_answered_witness :
  exists c', onMessage true resCallback (conn_with used_parser hello_input) = Ok c' /\
    conn_inv c' (false, [] ++ bad_request).
Proof.
  apply (bad_input_answered true resCallback (conn_with used_parser hello_input) [] used_parser []).
  - apply conn_with_inv.
  - apply Parser.buffer_of_wf. by vm_compute.
  - apply conn_with_room. by vm_compute.
  - right. split; [reflexivity|]. vm_compute. eexists. reflexivity.
Defined.

Lemma partial_input_dropped_witness :
  exists c', onMessage true resCallback (conn_with Parser.new (bs "GET /hel")) = Ok c' /\
    conn_inv c' (true, []) /\ m_parser c' = Parser.new /\
    Buf.content (m_input_buffer c') = [] /\ calls c' = calls (conn_with Parser.new (bs "GET /hel")).
Proof.
  apply (partial_input_dropped true resCallback (conn_with Parser.new (bs "GET /hel")) (true, [])
           Parser.new (bs "GET /hel")).
  - apply conn_with_inv.
  - apply Parser.buffer_of_wf. by vm_compute.
  - vm_compute. reflexivity.
  - left. reflexivity.
Defined.

(** A parser that has parsed a request for /hello. *)
Definition hello_parser : Parser.HttpRequestParser :=
  Parser.mkParser (Parser.set_headers hello_headers
    (setVersion kHttp11 (set_target (Target (bs "/hello") None) (setMethod (method_name kGet) Request.new))))
    Parser.kParseGotCompleteRequest.

Lemma fragment_answered_again_witness :
  let r := Parser.m_request hello_parser in
  let resp := resCallback r (Response.new (wants_close r (bs "Keep-Alive"))) in
  exists c', onMessage true resCallback (conn_with hello_parser (bs "GET")) = Ok c' /\
    conn_inv c' (negb (Response.closeConnection resp), [] ++ Response.serialize resp).
Proof.
  apply (fragment_answered_again true resCallback (conn_with hello_parser (bs "GET")) [] (bs "Keep-Alive")).
  - apply conn_with_inv.
  - apply Parser.buffer_of_wf. by vm_compute.
  - reflexivity.
  - by vm_compute.
  - reflexivity.
  - by vm_compute.
  - apply conn_with_room. by vm_compute.
Defined.

Lemma missing_connection_header_witness :
  onMessage true resCallback
    (conn_with Parser.new (Parser.render_request (bs "GET /hello HTTP/1.1") [])) = Fault Undefined.
Proof.
  eapply (missing_connection_header true resCallback
    (conn_with Parser.new (Parser.render_request (bs "GET /hello HTTP/1.1") [])) (true, [])).
  - apply conn_with_inv.
  - apply Parser.buffer_of_wf. by vm_compute.
  - vm_compute. reflexivity.
  - reflexivity.
  - vm_compute. reflexivity.
Defined.

Lemma idle_check_witness :
  exists c' timer, handleIdleConnection true (conn_with Parser.new []) = Ok (c', timer) /\
    let idle := true && (0 + 8000000000 <? 1) in
    conn_inv c' (if idle then stream_op OpShutDown (true, []) else (true, [])) /\
    timer = (if true && negb idle then Some kIdleConnectionTimeOuts else None).
Proof.
  apply (idle_check true (conn_with Parser.new []) (true, [])).
  - apply conn_with_inv.
  - vm_compute. split; discriminate.
Defined.

(** The program's callback closes exactly what it does not serve. *)
Lemma resCallback_status request response :
  let resp := resCallback request response in
  (m_method request <> kGet -> Response.m_status_code resp = Response.k400BadRequest /\
     Response.closeConnection resp = true) /\
  (m_method request = kGet ->
     (m_path request ∈ [bs "/"; bs "/hello"; bs "/favicon.ico"; bs "/favicon"] ->
        Response.m_status_code resp = Response.k200OK /\
        Response.closeConnection resp = Response.closeConnection response) /\
     (m_path request ∉ [bs "/"; bs "/hello"; bs "/favicon.ico"; bs "/favicon"] ->
        Response.m_status_code resp = Response.k404NotFound /\ Response.closeConnection resp = true)).
Proof.
  unfold resCallback. split; [intros H; by rewrite decide_False|]. intros ->. rewrite decide_True by done.
  rewrite !elem_of_cons, elem_of_nil. split; intros H.
  - destruct (decide (_ = bs "/")); [done|]. destruct (decide (_ = bs "/hello")); [done|].
    rewrite decide_True by tauto. done.
  - rewrite !decide_False by tauto. done.
Qed.

End Server.
