(* ===== verification/TcpSafety.v ===== *)
(** * TcpSafety: what holds of a connection whatever its socket answers

    TcpConnection.v describes the byte stream of a connection whose peer stays;
    here the peer may go away at any write, and the output buffer may reuse its
    front.  The lemmas say that each operation of an open connection runs
    without a fault, what it keeps, and that it leaves the other channels of
    the poller alone. *)

From Stdlib Require Import ZArith Lia Ascii String.
From stdpp Require Import options.
From S2P Require Import Prelude CStd Buffer HttpRequestParser Channel Epoller Timestamp TcpConnection.

Module Safe.
Import Tcp.

Section WithKernel.
Context {K : Type} `{!EpollKernel K}.

(** ** What an operation may touch *)

(** Two pollers that differ at the channel [p] and its descriptor only. *)
Record frame (p : chan_ptr) (fd : Z) (e e' : Epoll.Epoller K) : Prop := {
  frame_channels : forall q, q <> p -> Epoll.channels e' !! q = Epoll.channels e !! q;
  frame_map : forall fd', fd' <> fd -> Epoll.m_channels e' !! fd' = Epoll.m_channels e !! fd'
}.

#[global] Instance frame_preorder p fd : PreOrder (frame p fd).
Proof.
  split; [done|]. intros e1 e2 e3 [A1 A2] [B1 B2].
  split; intros; [rewrite B1, A1 | rewrite B2, A2]; done.
Qed.

Lemma frame_with_channel p c k e : frame p (Chan.m_fd c) e (Epoll.with_channel p c k e).
Proof. split; intros; simpl; by rewrite lookup_insert_ne. Qed.

Lemma frame_set_channel p fd c e : frame p fd e (Epoll.set_channel p c e).
Proof. split; intros; simpl; [by rewrite lookup_insert_ne | done]. Qed.

(** The fields that sending and closing leave as they are. *)
Record same (c c' : TcpConnection K) : Prop := {
  same_fd : m_conn_fd c' = m_conn_fd c;
  same_channel : m_channel c' = m_channel c;
  same_input : m_input_buffer c' = m_input_buffer c;
  same_parser : m_parser c' = m_parser c;
  same_receive : m_last_receive_time c' = m_last_receive_time c;
  same_functors : functors c' = functors c;
  same_loop : in_loop c' = in_loop c;
  same_writes : writes c' = writes c;
  same_readings : readings c' = readings c
}.

#[global] Instance same_preorder : PreOrder same.
Proof. split; [done|]. intros c1 c2 c3 [] []. split; congruence. Qed.

(** [write] takes at most what it is given. *)
Definition write_contract (c : TcpConnection K) : Prop :=
  forall j len, 0 <= len -> match writes c j len with Wrote n => 0 <= n <= len | WriteErr _ => True end.

(** ** Open connections *)

(** The channel is added and tied, and watched for writing exactly while
    bytes are pending; the write index is at most [room]; and only this
    channel differs from the poller [e0]. *)
Record open_ok (e0 : Epoll.Epoller K) (room : Z) (c : TcpConnection K) : Prop := {
  open_chan : exists ch, live c ch /\ Chan.m_tied ch = true /\ Chan.m_fd ch = m_conn_fd c /\
    Chan.isWriting ch = bool_decide (Buf.content (m_output_buffer c) <> []);
  open_out : Buf.wf (m_output_buffer c);
  open_index : Buf.m_write_index (m_output_buffer c) <= room;
  open_frame : frame (m_channel c) (m_conn_fd c) e0 (poller c);
  open_writes : write_contract c;
  open_loop : in_loop c = true
}.

Lemma open_ok_weaken e0 room room' c : open_ok e0 room c -> room <= room' -> open_ok e0 room' c.
Proof. intros [] ?. split; auto. lia. Qed.

(** Nothing else of the connection matters. *)
Lemma open_ok_ext e0 room c c' :
  open_ok e0 room c -> m_conn_fd c' = m_conn_fd c -> m_channel c' = m_channel c ->
  poller c' = poller c -> m_output_buffer c' = m_output_buffer c ->
  writes c' = writes c -> in_loop c' = in_loop c -> open_ok e0 room c'.
Proof.
  intros [(ch & [] & Ht & Hf & Hw) ] E1 E2 E3 E4 E5 E6.
  split; rewrite ?E1, ?E2, ?E3, ?E4, ?E6; auto.
  - exists ch. split_and!; auto. split; rewrite ?E2, ?E3; auto.
  - intros j len. rewrite E5. apply open_writes0.
Qed.

(** A change of the interest of an open connection. *)
Lemma on_channel_open (f : Chan.Channel -> Chan.Channel) c ch :
  live c ch -> Epoll.keeps_identity f -> Chan.isReading (f ch) = true ->
  exists k, let e := Epoll.with_channel (m_channel c) (f ch) k (poller c) in
    on_channel (Epoll.change_events f) c = Ok (set_poller e c) /\ live (set_poller e c) (f ch).
Proof.
  intros Hl Hf Hr. pose proof Hl as [Hp Hc Hi _].
  destruct (Epoll.change_events_ok f _ _ _ Hp Hc (live_may_update c ch Hl) Hf) as (k & Hrun & Hwf).
  assert (Epoll.updated (f ch) = f ch) as Hu.
  { unfold Epoll.updated. rewrite (proj2 (Hf ch)), decide_True, reading_registered by done.
    rewrite <- Hi, <- (proj2 (Hf ch)). apply Epoll.setIndex_id. }
  rewrite Hu in *. exists k. simpl. unfold on_channel. rewrite Hrun. split; [done|].
  split; simpl; [done | apply lookup_insert_eq | by rewrite (proj2 (Hf ch)) | done].
Qed.

(** Storing an output buffer whose emptiness the interest already matches. *)
Lemma open_ok_output e0 room c b :
  open_ok e0 room c -> Buf.wf b -> Buf.m_write_index b <= room ->
  (Buf.content b = [] <-> Buf.content (m_output_buffer c) = []) ->
  open_ok e0 room (set_output b c).
Proof.
  intros [(ch & Hl & Ht & Hf & Hw)] Hwf Hi Hiff. split; simpl; auto.
  exists ch. split_and!; auto; [by destruct Hl; split|]. rewrite Hw. apply bool_decide_ext.
  by rewrite Hiff.
Qed.

(** Turning writing on or off to match the output buffer. *)
Lemma open_ok_switch e0 room c b (on : bool) :
  open_ok e0 room c -> Buf.wf b -> Buf.m_write_index b <= room ->
  on = bool_decide (Buf.content b <> []) ->
  exists e, on_channel (if on then Epoll.enableWriting else Epoll.disableWriting) (set_output b c) =
      Ok (set_poller e (set_output b c)) /\ open_ok e0 room (set_poller e (set_output b c)).
Proof.
  intros [(ch & Hl & Ht & Hf & Hw)] Hwf Hi Hon.
  assert (live (set_output b c) ch) as Hl' by (by destruct Hl; split).
  set (f := if on then Chan.writing_on else Chan.writing_off).
  destruct (on_channel_open f (set_output b c) ch Hl') as (k & Hrun & Hl2).
  { by destruct on. }
  { subst f. destruct on; [destruct (Chan.writing_on_bits ch) as [_ ->] | destruct (Chan.writing_off_bits ch) as [_ ->]]; apply Hl. }
  eexists. split; [|split]; simpl; auto.
  - rewrite <- Hrun. by destruct on.
  - exists (f ch). split_and!; auto; [by destruct on..|]. rewrite <- Hon.
    destruct on; [apply (Chan.writing_on_bits ch) | apply (Chan.writing_off_bits ch)].
  - etrans; [exact open_frame0|]. rewrite <- Hf. replace (Chan.m_fd ch) with (Chan.m_fd (f ch)) by (by destruct on).
    apply frame_with_channel.
Qed.

Lemma isWriting_open e0 room c :
  open_ok e0 room c -> isWriting c = Ok (bool_decide (Buf.content (m_output_buffer c) <> [])).
Proof. intros [(ch & Hl & _ & _ & Hw)]. by rewrite (isWriting_live _ _ Hl), Hw. Qed.

(** The bytes [write] did not take. *)
Lemma send_pending_open e0 room rest c :
  open_ok e0 room c -> room + zlen rest <= INT_MAX -> zlen rest + kPrePendIndex <= INT_MAX ->
  exists c', send_pending rest c = Ok c' /\ open_ok e0 (room + zlen rest) c' /\ same c c' /\
    m_state c' = m_state c.
Proof.
  intros Ho Hi Hi8. pose proof Ho as [(ch & Hl & _ & _ & Hw) Hwf Hidx _ _ _].
  pose proof (zlen_nonneg rest) as Hpos. unfold send_pending. destruct (Z.ltb_spec 0 (zlen rest)) as [Hlt|].
  2: { exists c. split_and!; [done | eapply open_ok_weaken; [exact Ho | lia] | done..]. }
  destruct (Buf.append_any rest (m_output_buffer c)) as (b & -> & Hwfb & Hz & Hib); [done | lia | done|].
  cbn [mbind res_bind].
  assert (live (set_output b c) ch) as Hl' by (by destruct Hl; split).
  rewrite (isWriting_live _ _ Hl'), Hw. cbn [mbind res_bind].
  assert (open_ok e0 (room + zlen rest) c) as Ho' by (eapply open_ok_weaken; [done | lia]).
  assert (Buf.content b <> []) as Hne.
  { intros E. rewrite E in Hz. change (zlen (@nil ascii)) with 0 in Hz.
    pose proof (zlen_nonneg (Buf.content (m_output_buffer c))). lia. }
  destruct (decide (Buf.content (m_output_buffer c) = [])) as [E|E].
  - rewrite bool_decide_eq_false_2 by auto. cbn [negb].
    destruct (open_ok_switch e0 (room + zlen rest) c b true) as (e & -> & Hoe); [done | done | lia | |].
    { symmetry. by apply bool_decide_eq_true. }
    eexists. split; [done|]. split_and!; [done | by split | done].
  - rewrite bool_decide_eq_true_2 by auto. cbn [negb]. eexists. split; [done|].
    split_and!; [by apply open_ok_output; [|done|lia|] | by split | done].
Qed.

(** [sendInLoop] on an open connection, whatever [write] answers. *)
Lemma sendInLoop_open e0 room msg c :
  open_ok e0 room c -> m_state c <> kDisconnected ->
  room + zlen msg <= INT_MAX -> zlen msg + kPrePendIndex <= INT_MAX ->
  exists c', sendInLoop msg c = Ok c' /\ open_ok e0 (room + zlen msg) c' /\ same c c' /\
    m_state c' = m_state c.
Proof.
  intros Ho Hst Hi Hi8. pose proof Ho as [_ Hwf _ _ Hcontract Hin].
  pose proof (zlen_nonneg msg) as Hpos.
  assert (forall n, 0 <= n <= zlen msg ->
    to_size_t (zlen msg - n) = zlen (drop (Z.to_nat n) msg)) as Hsz.
  { intros n Hn. rewrite to_size_t_id by (unfold INT_MAX, kPrePendIndex in *; lia). len_lia. }
  assert (forall n c1, 0 <= n <= zlen msg -> open_ok e0 room c1 -> same c c1 -> m_state c1 = m_state c ->
    exists c', (_ ← assert_ (to_size_t (zlen msg - n) <=? zlen msg);
      if negb false && (0 <? to_size_t (zlen msg - n)) then
        b ← Buf.append (drop (Z.to_nat n) msg) (to_size_t (zlen msg - n)) (m_output_buffer c1);
        let c := set_output b c1 in
        writing ← isWriting c;
        if negb writing then on_channel Epoll.enableWriting c else Ok c
      else Ok c1) = Ok c' /\ open_ok e0 (room + zlen msg) c' /\ same c c' /\ m_state c' = m_state c) as Hrest.
  { intros n c1 Hn Ho1 Hs1 Hst1. rewrite Hsz by done.
    assert (zlen (drop (Z.to_nat n) msg) <= zlen msg) as Hle by len_lia.
    rewrite (proj2 (assert_Ok _)) by (by apply Z.leb_le). cbn [mbind res_bind negb andb].
    destruct (send_pending_open e0 room (drop (Z.to_nat n) msg) c1) as (c' & Hrun & Ho' & Hs' & Hst'); [done | lia.. |].
    exists c'. split; [exact Hrun|]. split_and!; [eapply open_ok_weaken; [exact Ho' | lia] | by etrans | congruence]. }
  unfold sendInLoop, assertInLoopThread. rewrite Hin. cbn [mbind res_bind].
  rewrite decide_False by done. rewrite (isWriting_open _ _ _ Ho). cbn [mbind res_bind].
  destruct (negb _ && _).
  2: { specialize (Hrest 0 c). rewrite Z.sub_0_r in Hrest. by apply Hrest. }
  unfold write. pose proof (Hcontract (written c) (zlen msg) Hpos) as Hr.
  assert (forall d, open_ok e0 room (sys [SysWrite d] 1 c)) as Hsys
    by (intros d; by eapply open_ok_ext).
  destruct (writes c (written c) (zlen msg)) as [n|e].
  { apply Hrest; [done | done | by split | done]. }
  specialize (Hrest 0). rewrite Z.sub_0_r in Hrest.
  destruct (e =? EWOULDBLOCK); [apply Hrest; [lia | done | by split | done]|].
  destruct (_ || _); [|apply Hrest; [lia | by eapply open_ok_ext | by split | done]].
  specialize (Hsz 0 ltac:(lia)). rewrite Z.sub_0_r in Hsz. change (Z.to_nat 0) with 0%nat in Hsz.
  rewrite drop_0 in Hsz. rewrite Hsz, (proj2 (assert_Ok _)) by (apply Z.leb_le; lia). cbn [mbind res_bind negb andb].
  eexists. split; [done|]. split_and!; [|by split | done].
  eapply open_ok_weaken; [by eapply open_ok_ext | lia].
Qed.

(** [send] in the loop thread. *)
Lemma send_open e0 room msg c :
  open_ok e0 room c -> room + zlen msg <= INT_MAX -> zlen msg + kPrePendIndex <= INT_MAX ->
  exists c', send 0 msg c = Ok c' /\ open_ok e0 (room + zlen msg) c' /\ same c c' /\
    m_state c' = m_state c.
Proof.
  intros Ho Hi Hi8. pose proof (zlen_nonneg msg). unfold send.
  destruct (decide (m_state c = kConnected)) as [E|].
  2: { exists c. split_and!; [done | eapply open_ok_weaken; [exact Ho | lia] | done..]. }
  rewrite (open_loop _ _ _ Ho). by apply sendInLoop_open; [|congruence|..].
Qed.

(** [shutdown], unless bytes are pending. *)
Lemma shutDownInLoop_open e0 room c :
  open_ok e0 room c ->
  exists c', shutDownInLoop c = Ok c' /\ open_ok e0 room c' /\ same c c' /\ m_state c' = m_state c.
Proof.
  intros Ho. unfold shutDownInLoop, assertInLoopThread. rewrite (open_loop _ _ _ Ho). cbn [mbind res_bind].
  rewrite (isWriting_open _ _ _ Ho). cbn [mbind res_bind].
  destruct (negb _); [|by exists c].
  eexists. split; [done|]. split_and!; [by eapply open_ok_ext | by split | done].
Qed.

Lemma shutDown_open e0 room c :
  open_ok e0 room c -> m_state c <> kDisconnected ->
  exists c', shutDown c = Ok c' /\ open_ok e0 room c' /\ same c c' /\
    (m_state c' = m_state c \/ m_state c' = kDisconnecting).
Proof.
  intros Ho Hst. unfold shutDown. destruct (decide (m_state c = kConnected)) as [E|]; [|exists c; split_and!; auto; done].
  cbn [in_loop set_state]. rewrite (open_loop _ _ _ Ho).
  destruct (shutDownInLoop_open e0 room (set_state kDisconnecting c)) as (c' & -> & Ho' & Hs & Hst');
    [by eapply open_ok_ext|].
  exists c'. split_and!; [done | done | etrans; [|exact Hs]; by split | by right].
Qed.

(** [handleWrite] writes nothing, a part, or all of what is pending. *)
Lemma handleWrite_open e0 room c :
  open_ok e0 room c -> kPrePendIndex <= room ->
  exists c', handleWrite c = Ok c' /\ open_ok e0 room c' /\ same c c' /\ m_state c' = m_state c.
Proof.
  intros Ho Hroom. pose proof Ho as [_ Hwf Hidx _ Hcontract Hin].
  unfold handleWrite, assertInLoopThread. rewrite Hin. cbn [mbind res_bind].
  rewrite (isWriting_open _ _ _ Ho). cbn [mbind res_bind].
  destruct (bool_decide _) eqn:Epend; [|by exists c].
  apply bool_decide_eq_true in Epend.
  set (out := slice _ _ _). assert (zlen out = Buf.readableBytes (m_output_buffer c)) as Hz.
  { rewrite <- Buf.zlen_content by done. unfold out, Buf.content, Buf.peek, Buf.curReadPtr, Buf.readableBytes.
    do 2 f_equal. lia. }
  unfold write. pose proof (Hcontract (written c) (zlen out) (zlen_nonneg out)) as Hr.
  destruct (writes c (written c) (zlen out)) as [n|e].
  2: { eexists. split; [done|]. split_and!; [by eapply open_ok_ext | by split | done]. }
  set (c1 := sys _ 1 c). assert (open_ok e0 room c1) as Ho1 by (by eapply open_ok_ext).
  assert (same c c1) as Hs1 by (by split).
  destruct (Z.ltb_spec 0 n) as [Hn|]; [|exists c1; eauto].
  destruct (Buf.retrieve_ok n (m_output_buffer c)) as (b & Hret & Hwfb & Hcb & _); [done | lia|].
  cbn [m_output_buffer sys] in *. change (m_output_buffer c1) with (m_output_buffer c). rewrite Hret.
  cbn [mbind res_bind]. rewrite (readable_content _ Hwfb).
  assert (Buf.m_write_index b <= room) as Hib.
  { revert Hret. unfold Buf.retrieve. destruct (assert_ _); simpl; [|done].
    destruct (_ <? _) eqn:Elt; intros [= <-]; [|simpl; lia]. unfold Buf.moveReadIndex. simpl. done. }
  destruct (decide (Buf.content b = [])) as [Eb|Eb].
  - rewrite bool_decide_eq_true_2 by done.
    destruct (open_ok_switch e0 room c1 b false) as (e & -> & Hoe); [done.. | |].
    { symmetry. apply bool_decide_eq_false. naive_solver. }
    cbn [mbind res_bind]. destruct (decide _) as [Ed|].
    + destruct (shutDownInLoop_open _ _ _ Hoe) as (c' & -> & Ho' & Hs & Hst'). exists c'.
      split_and!; [done | done | etrans; [exact Hs1|]; etrans; [|exact Hs]; by split | by rewrite Hst'].
    + eexists. split; [done|]. split_and!; [done | etrans; [exact Hs1|]; by split | done].
  - rewrite bool_decide_eq_false_2 by done. eexists. split; [done|].
    split_and!; [by apply open_ok_output | etrans; [exact Hs1|]; by split | done].
Qed.

(** ** Closed connections *)

(** The channel is out of the kernel, and registered in the poller or not. *)
Record closed_ok (e0 : Epoll.Epoller K) (registered : option chan_ptr) (c : TcpConnection K) : Prop := {
  closed_chan : exists ch, Epoll.channels (poller c) !! m_channel c = Some ch /\
    Chan.m_index ch = kDeleted /\ Chan.m_fd ch = m_conn_fd c /\ Chan.isWriting ch = false;
  closed_poller : Epoll.wf (poller c);
  closed_map : Epoll.m_channels (poller c) !! m_conn_fd c = registered;
  closed_frame : frame (m_channel c) (m_conn_fd c) e0 (poller c);
  closed_writes : write_contract c
}.

Lemma closed_ok_ext e0 r c c' :
  closed_ok e0 r c -> m_conn_fd c' = m_conn_fd c -> m_channel c' = m_channel c ->
  poller c' = poller c -> writes c' = writes c -> closed_ok e0 r c'.
Proof.
  intros [] E1 E2 E3 E4. split; rewrite ?E1, ?E2, ?E3; auto.
  intros j len. rewrite E4. apply closed_writes0.
Qed.

(** The kernel does not watch a closed connection. *)
Lemma closed_unwatched e0 r c fd ev :
  closed_ok e0 r c -> interest (Epoll.kernel (poller c)) !! fd <> Some (ev, m_channel c).
Proof.
  intros [(ch & Hc & Hi & _) Hwf _ _ _] H. rewrite (Epoll.wf_kernel _ Hwf) in H. unfold Epoll.watched in H.
  destruct (Epoll.m_channels (poller c) !! fd) as [p|]; [|done]. simpl in H.
  destruct (Epoll.channels (poller c) !! p) as [ch'|] eqn:E; [|done]. simpl in H. case_decide; [|done]. simplify_eq. congruence.
Qed.

Lemma shutDownInLoop_closed e0 r c :
  closed_ok e0 r c -> in_loop c = true ->
  exists c', shutDownInLoop c = Ok c' /\ closed_ok e0 r c' /\ same c c' /\ m_state c' = m_state c.
Proof.
  intros Hc Hin. unfold shutDownInLoop, assertInLoopThread. rewrite Hin. cbn [mbind res_bind].
  pose proof Hc as [(ch & Hl & _ & _ & Hw) _ _ _ _].
  unfold isWriting. rewrite (Epoll.deref_Ok _ _ _ Hl). cbn [mbind res_bind]. rewrite Hw. cbn [negb].
  eexists. split; [done|]. split_and!; [by eapply closed_ok_ext | by split | done].
Qed.

(** [handleClose] up to the close callback. *)
Lemma handleClose_open close e0 room c :
  open_ok e0 room c -> m_state c = kConnected \/ m_state c = kDisconnecting ->
  exists c1, handleClose close c = close c1 /\ closed_ok e0 (Some (m_channel c)) c1 /\ same c c1 /\
    m_state c1 = kDisconnected /\ m_output_buffer c1 = m_output_buffer c.
Proof.
  intros [(ch & Hl & _ & Hfd & _) _ _ Hfr Hwr Hin] Hst. unfold handleClose, assertInLoopThread. rewrite Hin.
  simpl. rewrite (proj2 (assert_Ok _)) by (by apply bool_decide_eq_true). simpl.
  pose proof Hl as [Hp Hc Hi _].
  destruct (Epoll.change_events_ok Chan.all_off _ _ _ Hp Hc (live_may_update c ch Hl)) as (k & Hrun & Hwf);
    [done|].
  unfold on_channel, Epoll.disableAll. simpl. rewrite Hrun. simpl.
  eexists. split; [done|]. split_and!; [|by split | done | done].
  assert (Chan.m_fd (Epoll.updated (Chan.all_off ch)) = m_conn_fd c) as Hfd' by done.
  split; simpl; auto.
  - eexists. split; [apply lookup_insert_eq|]. split_and!; [|done|done].
    unfold Epoll.updated. simpl. by rewrite Hi.
  - rewrite <- Hfd. apply lookup_insert_eq.
  - etrans; [exact Hfr|]. rewrite <- Hfd'. apply frame_with_channel.
Qed.

(** The destruction of a closed connection; the connection callback only
    changes the input buffer. *)
Lemma connectionDestructor_closed connection e0 c :
  closed_ok e0 (Some (m_channel c)) c -> in_loop c = true -> m_state c = kDisconnected ->
  (forall c, exists b, connection c = Ok (set_input b c)) ->
  exists b c', connection c = Ok (set_input b c) /\ connectionDestructor connection c = Ok c' /\
    closed_ok e0 None c' /\ same (set_input b c) c' /\ m_state c' = kDisconnected /\
    m_output_buffer c' = m_output_buffer c.
Proof.
  intros [(ch & Hc & Hi & Hfd & Hw) Hwf Hm Hfr Hwr] Hin Hst Hconn.
  destruct (Hconn c) as (b & Hb). exists b.
  unfold connectionDestructor, assertInLoopThread. rewrite Hin. cbn [mbind res_bind].
  rewrite decide_False by (rewrite Hst; by intros [|]). cbn [mbind res_bind]. rewrite Hb. cbn [mbind res_bind].
  unfold on_channel. cbn [m_channel poller set_input]. rewrite <- Hfd in Hm.
  destruct (Epoll.removeChannel_ok (m_channel c) (poller c) ch Hwf Hc Hm) as (e & -> & Hwf' & _ & Hm' & Hc' & _).
  cbn [mbind res_bind]. eexists. split_and!; [done | done | | by split | done | done].
  split; simpl; auto.
  - eexists. rewrite Hc'. split; [apply lookup_insert_eq|]. by split_and!.
  - rewrite Hm', <- Hfd. apply lookup_delete_eq.
  - etrans; [exact Hfr|]. split; intros; [rewrite Hc', lookup_insert_ne | rewrite Hm', Hfd, lookup_delete_ne]; done.
Qed.

(** ** New connections *)

(** Before [connectionEstablished]. *)
Record new_ok (e0 : Epoll.Epoller K) (c : TcpConnection K) : Prop := {
  new_chan : exists ch, Epoll.channels (poller c) !! m_channel c = Some ch /\
    Chan.m_index ch = kNew /\ Chan.m_fd ch = m_conn_fd c /\ Chan.isWriting ch = false;
  new_poller : Epoll.wf (poller c);
  new_map : Epoll.m_channels (poller c) !! m_conn_fd c = None;
  new_out : m_output_buffer c = Buf.new kInitialSize;
  new_frame : frame (m_channel c) (m_conn_fd c) e0 (poller c);
  new_writes : write_contract c
}.

Lemma new_ok_ext e0 c c' :
  new_ok e0 c -> m_conn_fd c' = m_conn_fd c -> m_channel c' = m_channel c ->
  poller c' = poller c -> m_output_buffer c' = m_output_buffer c -> writes c' = writes c -> new_ok e0 c'.
Proof.
  intros [] E1 E2 E3 E4 E5. split; rewrite ?E1, ?E2, ?E3, ?E4; auto.
  intros j len. rewrite E5. apply new_writes0.
Qed.

(** The kernel does not watch a new connection. *)
Lemma new_unwatched e0 c : new_ok e0 c -> interest (Epoll.kernel (poller c)) !! m_conn_fd c = None.
Proof. intros [_ Hwf Hm _ _ _]. rewrite (Epoll.wf_kernel _ Hwf). unfold Epoll.watched. by rewrite Hm. Qed.

Lemma connectionEstablished_open connection e0 room c :
  new_ok e0 c -> in_loop c = true -> kPrePendIndex <= room ->
  exists c1, connectionEstablished connection c = connection c1 /\ open_ok e0 room c1 /\ same c c1 /\
    m_state c1 = kConnected.
Proof.
  intros [(ch & Hc & Hi & Hfd & Hw) Hwf Hm Hout Hfr Hwr] Hin Hroom. rewrite <- Hfd in Hm.
  destruct (connectionEstablished_ok connection c ch) as (k & Hrun & Hwf'); [done..|].
  eexists. split; [exact Hrun|]. split_and!; [|by split | done].
  destruct (Chan.reading_on_bits (Chan.Tie ch)) as [Hr1 Hr2].
  split; simpl; rewrite ?Hout; auto.
  - eexists. split_and!; [split; simpl; [done | apply lookup_insert_eq | done | exact Hr1] | done | done |].
    change (Chan.isWriting _) with (Chan.isWriting (Chan.reading_on (Chan.Tie ch))). by rewrite Hr2.
  - by apply Buf.new_wf; vm_compute.
  - etrans; [|exact Hroom]. by vm_compute.
  - etrans; [exact Hfr|]. etrans; [apply frame_set_channel|]. rewrite <- Hfd.
    change (Chan.m_fd ch) with (Chan.m_fd (Chan.setIndex kAdded (Chan.reading_on (Chan.Tie ch)))).
    apply frame_with_channel.
Qed.

End WithKernel.
End Safe.
