(* ===== verification/Session.v ===== *)
(** * Session: the life of one HTTP connection

    The whole of what the program does for one connection, from the moment
    TcpServer makes it to the destruction of its channel: the handlers of
    TcpConnection.v with the callbacks HttpServer and TcpServer install, called
    by the poller, by the functors of its loop, by the server's loop and by the
    idle timer, in any order.  The other connections of the loop change the
    shared poller between the steps.

    [same_loop] tells whether the server runs without I/O threads, so that the
    connection's loop is the server's. *)

From Stdlib Require Import ZArith Lia Ascii String.
From stdpp Require Import options.
From S2P Require Import Prelude CStd Buffer HttpRequest HttpRequestParser HttpResponse Channel Epoller Timestamp TcpConnection HttpServer TcpSafety.

#[local] Set Default Proof Using "Type*".

Module Life.
Import Request Tcp Server Safe.

Section WithKernel.
Context {K : Type} `{!EpollKernel K}.
Context (same_loop auto_close : bool).
Context (cb : HttpRequest -> Response.HttpResponse -> Response.HttpResponse).
(** What an address holds when a send queued by another thread runs; no
    session queues one. *)
Context (memory : Z -> Z -> bytes).

Abbreviation Conn := (TcpConnection K).

(** [HttpServer::onConnection] as the connection callback; the timer it sets is
    the event [Idle], which may come at any time. *)
Definition connection_callback (c : Conn) : res Conn := Ok (onConnection auto_close c).1.

Definition message_callback (c : Conn) : res Conn := onMessage auto_close cb c.

(** [TcpServer::handleRemoveConnection] as the close callback: in the server's
    loop the removal runs at once and queues the destruction; otherwise it
    waits for the event [Remove]. *)
Definition close_callback (c : Conn) : res Conn :=
  Ok (if same_loop then queueInLoop FConnectionDestructor c else c).

(** The connection, and whether the server's loop has removed it; a server
    without I/O threads removes it in the close callback, with no event
    [Remove], and has this set from the start. *)
Record Session := mkSession { conn : Conn; removed : bool }.

Definition set_functors (fs : list functor) (c : Conn) : Conn :=
  mkConn (m_conn_fd c) (m_conn_id c) (m_state c) (m_channel c) (m_input_buffer c) (m_output_buffer c)
    (m_parser c) (m_last_receive_time c) (poller c) fs (in_loop c) (writes c)
    (written c) (calls c) (readings c) (clock c) (errors c).

Inductive event :=
| Established                                      (* the loop runs connectionEstablished *)
| Reported (revents : Z)                           (* epoll_wait reports the channel *)
| Dispatched (rv : readv_result)                   (* the loop calls its handleEvent *)
| RunFunctor                                       (* the loop runs the next functor *)
| Remove                                           (* the server's loop removes the connection *)
| Idle                                             (* the idle timer fires in the server's loop *)
| ForceClose                                       (* forceClose(), from any thread *)
| Others (e : Epoll.Epoller K).                    (* other connections change the poller *)

(** The callbacks the constructor of TcpConnection gives its channel: no close
    callback. *)
Definition callbacks (rv : readv_result) : Chan.Callbacks Conn :=
  Chan.mkCallbacks (Some (handleRead message_callback close_callback rv)) (Some handleWrite)
    (Some (fun c => Ok (handleError c))) None.

(** One turn's part for this channel: [epoll_wait] reports it and [poll] stores
    the events; then the loop calls [handleEvent]; the connection is alive. *)
Definition report (revents : Z) (c : Conn) : res Conn :=
  '(_, e) ← Epoll.poll (WaitOk [(revents, m_channel c)]) [] (poller c);
  Ok (set_poller e c).

Definition dispatch (rv : readv_result) (c : Conn) : res Conn :=
  ch ← Epoll.deref (m_channel c) (poller c);
  Chan.handleEvent ch true (callbacks rv) c.

Definition step (e : event) (s : Session) : res Session :=
  let c := conn s in
  match e with
  | Established => c ← connectionEstablished connection_callback (set_in_loop true c); Ok (mkSession c (removed s))
  | Reported revents => c ← report revents (set_in_loop true c); Ok (mkSession c (removed s))
  | Dispatched rv => c ← dispatch rv (set_in_loop true c); Ok (mkSession c (removed s))
  | RunFunctor =>
      match functors c with
      | [] => Ok s
      | f :: fs =>
          c ← run_functor connection_callback close_callback memory f (set_functors fs (set_in_loop true c));
          Ok (mkSession c (removed s))
      end
  | Remove => Ok (mkSession (queueInLoop FConnectionDestructor c) true)
  | Idle => '(c, _) ← handleIdleConnection true (set_in_loop same_loop c); Ok (mkSession c (removed s))
  | ForceClose => Ok (mkSession (forceClose c) (removed s))
  | Others e => Ok (mkSession (set_poller e c) (removed s))
  end.

(** When an event can happen.  The poller reports what the kernel watches, and
    [readv] stores what its blocks hold; a removal follows the call of the
    close callback, once; the timer is set after the connection is
    established; other connections leave this one's channel alone. *)
Definition enabled (e : event) (s : Session) : Prop :=
  let c := conn s in
  match e with
  | Established => m_state c = kConnecting
  | Reported _ => exists ev, interest (Epoll.kernel (poller c)) !! m_conn_fd c = Some (ev, m_channel c)
  | Dispatched rv =>
      (exists ev, interest (Epoll.kernel (poller c)) !! m_conn_fd c = Some (ev, m_channel c)) /\
      match rv with ReadvOk data => Buf.readv_fits data (m_input_buffer c) | ReadvErr _ => True end
  | RunFunctor => True
  | Remove => m_state c = kDisconnected /\ removed s = false
  | Idle | ForceClose => m_state c <> kConnecting
  | Others e =>
      Epoll.wf e /\ Epoll.channels e !! m_channel c = Epoll.channels (poller c) !! m_channel c /\
      Epoll.m_channels e !! m_conn_fd c = Epoll.m_channels (poller c) !! m_conn_fd c
  end.

Fixpoint run (es : list event) (s : Session) : res Session :=
  match es with
  | [] => Ok s
  | e :: es' => s ← step e s; run es' s
  end.

Fixpoint possible (es : list event) (s : Session) : Prop :=
  match es with
  | [] => True
  | e :: es' => enabled e s /\ forall s', step e s = Ok s' -> possible es' s'
  end.

(** The events that may add a response to the output buffer. *)
Definition reads (e : event) : Z := match e with Dispatched _ => 1 | _ => 0 end.

Fixpoint all_reads (es : list event) : Z :=
  match es with [] => 0 | e :: es' => reads e + all_reads es' end.

(** A message that completes a request without a Connection header. *)
Definition headerless (e : event) (s : Session) : Prop :=
  exists data p rest, e = Dispatched (ReadvOk data) /\
    Parser.parse_bytes (m_parser (conn s)) data = Ok (p, rest) /\
    Parser.m_state p = Parser.kParseGotCompleteRequest /\
    m_headers (Parser.m_request p) !! bs "Connection" = None.

Lemma session_run_app es1 es2 s : run (es1 ++ es2) s = (s1 ← run es1 s; run es2 s1).
Proof using Type.
  revert s. induction es1 as [|ev es1 IH]; intros s; [done|]. cbn [app run].
  destruct (step ev s); cbn [mbind res_bind]; [apply IH | done].
Qed.

Lemma all_reads_app es1 es2 : all_reads (es1 ++ es2) = all_reads es1 + all_reads es2.
Proof using Type. induction es1 as [|ev es1 IH]; cbn [app all_reads]; lia. Qed.

(** ** The invariant *)

(** The input buffer is empty between events and its block stays small. *)
Definition kInputMax : Z := 2 * Buf.extrabuf_size + kPrePendIndex.

Record input_ok (b : Buf.Buffer) : Prop := {
  input_wf : Buf.wf b;
  input_empty : Buf.content b = [];
  input_read : Buf.m_read_index b <= kPrePendIndex;
  input_write : Buf.m_write_index b <= kPrePendIndex;
  input_size : zlen (Buf.m_buffer b) <= kInputMax
}.

Lemma retrieveAll_input b :
  Buf.wf b -> zlen (Buf.m_buffer b) <= kInputMax -> input_ok (Buf.retrieveAll b).
Proof. intros. split; [by apply Buf.retrieveAll_wf | apply Buf.retrieveAll_content | done..]. Qed.

(** Times are such that eight seconds can be added. *)
Definition time_ok (t : Ts.Timestamp) : Prop := 0 <= Ts.m_time_point t <= INT64_MAX - 8000000000.

Record conn_fine (c : Conn) : Prop := {
  fine_input : input_ok (m_input_buffer c);
  fine_receive : time_ok (m_last_receive_time c);
  fine_readings : forall k, time_ok (readings c k);
  fine_sends : forall ptr len, FSendInLoop ptr len ∉ functors c
}.

(** What holds in each state.  After the close: the destruction waits to be
    queued, or is the last functor, or has run and left none. *)
Definition phase_ok (e0 : Epoll.Epoller K) (room : Z) (s : Session) : Prop :=
  let c := conn s in
  match m_state c with
  | kConnecting => new_ok e0 c /\ functors c = [] /\ removed s = same_loop
  | kConnected | kDisconnecting =>
      open_ok e0 room (set_in_loop true c) /\ (FConnectionDestructor ∉ functors c) /\ removed s = same_loop
  | kDisconnected =>
      (removed s = false /\ closed_ok e0 (Some (m_channel c)) c /\ FConnectionDestructor ∉ functors c) \/
      (removed s = true /\ closed_ok e0 (Some (m_channel c)) c /\
       exists fs, functors c = fs ++ [FConnectionDestructor] /\ FConnectionDestructor ∉ fs) \/
      (removed s = true /\ closed_ok e0 None c /\ functors c = [])
  end.

Record session_ok (e0 : Epoll.Epoller K) (room : Z) (s : Session) : Prop := {
  ok_fine : conn_fine (conn s);
  ok_phase : phase_ok e0 room s
}.

(** The states of a connection, in the only order they are taken. *)
Inductive advance : ConnectionState -> ConnectionState -> Prop :=
| establish : advance kConnecting kConnected
| half_close : advance kConnected kDisconnecting
| close_at_once : advance kConnected kDisconnected
| close_after : advance kDisconnecting kDisconnected.

(** What every event keeps: the descriptor, the channel, and that order. *)
Record follows (s s' : Session) : Prop := {
  follows_fd : m_conn_fd (conn s') = m_conn_fd (conn s);
  follows_channel : m_channel (conn s') = m_channel (conn s);
  follows_state : rtc advance (m_state (conn s)) (m_state (conn s'))
}.

#[global] Instance follows_preorder : PreOrder follows.
Proof. split; [done|]. intros s1 s2 s3 [A1 A2 A3] [B1 B2 B3]. split; [congruence..|]. by etrans. Qed.

(** An event that ends well. *)
Definition goes (e0 : Epoll.Epoller K) (room : Z) (s : Session) (r : res Session) : Prop :=
  exists s', r = Ok s' /\ session_ok e0 room s' /\ follows s s'.

Lemma advance_disconnecting st : st = kConnected \/ st = kDisconnecting -> rtc advance st kDisconnecting.
Proof. intros [->| ->]; [apply rtc_once; constructor | done]. Qed.

Lemma advance_disconnected st : st = kConnected \/ st = kDisconnecting -> rtc advance st kDisconnected.
Proof. intros [->| ->]; apply rtc_once; constructor. Qed.

(** ** Lemmas: the message callback *)

(** What a handler keeps that may read and answer. *)
Record kept (c c' : Conn) : Prop := {
  kept_fd : m_conn_fd c' = m_conn_fd c;
  kept_channel : m_channel c' = m_channel c;
  kept_functors : functors c' = functors c;
  kept_writes : writes c' = writes c;
  kept_readings : readings c' = readings c;
  kept_loop : in_loop c' = in_loop c
}.

#[global] Instance kept_preorder : PreOrder kept.
Proof. split; [done|]. intros c1 c2 c3 [] []. split; congruence. Qed.

Lemma same_kept c c' : same c c' -> kept c c'.
Proof. by intros []; split. Qed.

(** The responses are bounded. *)
Context (bound : Z).
Hypothesis bound_request : forall r close, zlen (Response.serialize (cb r (Response.new close))) <= bound.
Hypothesis bound_bad : zlen bad_request <= bound.
Hypothesis bound_int : bound + 2 * kPrePendIndex <= INT_MAX.

(** Sending an answer that fits, and closing or not. *)
Lemma answer_open (close : bool) e0 room msg c :
  open_ok e0 room c -> m_state c <> kDisconnected -> zlen msg <= bound -> room + bound <= INT_MAX ->
  exists c', (c ← send 0 msg c; if close then shutDown c else Ok c) = Ok c' /\
    open_ok e0 (room + bound) c' /\ same c c' /\
    (m_state c' = m_state c \/ m_state c' = kDisconnecting).
Proof.
  intros Ho Hst Hz Hroom.
  destruct (send_open e0 room msg c) as (c1 & -> & Ho1 & Hs1 & Hst1); [done | lia | unfold kPrePendIndex in *; lia|].
  cbn [mbind res_bind]. assert (open_ok e0 (room + bound) c1) as Ho1' by (eapply open_ok_weaken; [exact Ho1 | lia]).
  destruct close; [|exists c1; auto].
  destruct (shutDown_open _ _ _ Ho1') as (c2 & -> & Ho2 & Hs2 & Hst2); [congruence|].
  exists c2. split_and!; [done | done | by etrans | rewrite <- Hst1; done].
Qed.

Lemma handleRequest_open e0 room r h c :
  open_ok e0 room c -> m_state c <> kDisconnected -> room + bound <= INT_MAX ->
  m_headers r !! bs "Connection" = Some h ->
  exists c', handleRequest cb r c = Ok c' /\ open_ok e0 (room + bound) c' /\ same c c' /\
    (m_state c' = m_state c \/ m_state c' = kDisconnecting).
Proof.
  intros Ho Hst Hroom Hh. unfold handleRequest, Request.header. rewrite Hh. cbn [mbind res_bind].
  assert ((if decide (m_version r = kHttp11) then Ok (negb (bool_decide (h = bs "Keep-Alive")))
           else Ok (bool_decide (h = bs "close"))) = Ok (wants_close r h)) as ->
    by (unfold wants_close; by destruct (decide (m_version r = kHttp11))).
  cbn [mbind res_bind]. set (resp := cb r _).
  assert (zlen (Response.serialize resp) <= bound) as Hb by apply bound_request.
  destruct (serialize_fresh resp) as (b & -> & _ & Hc); [lia|]. cbn [mbind res_bind].
  rewrite send_buffer_op by apply Ho. rewrite Hc.
  destruct (answer_open (Response.closeConnection resp) e0 room (Response.serialize resp) c Ho Hst Hb Hroom)
    as (c' & Ha & Hrest).
  exists c'. split; [|exact Hrest]. rewrite <- Ha. rewrite bind_assoc. apply bind_ext. done.
Qed.

(** [onMessage] on an open connection: it answers, or waits, or the message
    completes a request without a Connection header. *)
Lemma onMessage_open e0 room c :
  open_ok e0 room c -> m_state c <> kDisconnected -> room + bound <= INT_MAX -> kPrePendIndex <= room ->
  Buf.wf (m_input_buffer c) -> zlen (Buf.m_buffer (m_input_buffer c)) <= kInputMax ->
  (forall k, time_ok (readings c k)) -> time_ok (m_last_receive_time c) ->
  (exists c', message_callback c = Ok c' /\ open_ok e0 (room + bound) c' /\ kept c c' /\
     input_ok (m_input_buffer c') /\ time_ok (m_last_receive_time c') /\
     (m_state c' = m_state c \/ m_state c' = kDisconnecting)) \/
  (message_callback c = Fault Undefined /\ exists p rest,
     Parser.parse_bytes (m_parser c) (Buf.content (m_input_buffer c)) = Ok (p, rest) /\
     Parser.m_state p = Parser.kParseGotCompleteRequest /\
     m_headers (Parser.m_request p) !! bs "Connection" = None).
Proof.
  intros Ho Hst Hroom Hlow Hwf Hsize Hclock Htime. unfold message_callback, onMessage.
  set (c0 := if auto_close then updateLastReceiveTime c else c).
  assert (m_parser c0 = m_parser c /\ m_input_buffer c0 = m_input_buffer c) as [-> ->]
    by (unfold c0; by destruct auto_close).
  destruct (Parser.parseContent_spec (m_parser c) (m_input_buffer c) Hwf) as (p & b & Hp & Hwf' & Hpb).
  pose proof (Parser.parseContent_block _ _ _ _ Hp) as Hblock. rewrite Hp. cbn [mbind res_bind].
  set (c1 := set_parser p _).
  assert (open_ok e0 room c1) as Ho1
    by (eapply open_ok_ext; [exact Ho|..]; unfold c1, c0; by destruct auto_close).
  assert (kept c c1) as Hk1 by (unfold c1, c0; destruct auto_close; by split).
  assert (m_state c1 = m_state c) as Hst1 by (unfold c1, c0; by destruct auto_close).
  assert (time_ok (m_last_receive_time c1)) as Ht1 by (unfold c1, c0; destruct auto_close; simpl; auto).
  assert (input_ok (m_input_buffer c1)) as Hin1.
  { apply retrieveAll_input; [done | by rewrite Hblock]. }
  assert (forall r : res Conn, (exists c', r = Ok c' /\ open_ok e0 (room + bound) c' /\ same c1 c' /\
     (m_state c' = m_state c1 \/ m_state c' = kDisconnecting)) ->
     exists c', r = Ok c' /\ open_ok e0 (room + bound) c' /\ kept c c' /\ input_ok (m_input_buffer c') /\
       time_ok (m_last_receive_time c') /\ (m_state c' = m_state c \/ m_state c' = kDisconnecting)) as Hlift.
  { intros r (c' & -> & Ho' & Hs & Hst'). exists c'.
    pose proof (same_kept _ _ Hs). destruct Hs. rewrite same_input0, same_receive0, <- Hst1.
    split_and!; [done | done | by etrans | done..]. }
  assert (exists c', Ok c1 = Ok c' /\ open_ok e0 (room + bound) c' /\ same c1 c' /\
     (m_state c' = m_state c1 \/ m_state c' = kDisconnecting)) as Hwait.
  { exists c1. split_and!; [done | eapply open_ok_weaken; [exact Ho1 | pose proof (zlen_nonneg bad_request); lia] | done | by left]. }
  destruct (Parser.m_state p) eqn:Ep; [left; by apply Hlift.. | | ].
  - destruct (m_headers (Parser.m_request p) !! bs "Connection") as [h|] eqn:Eh; [left | right].
    + apply Hlift. apply (handleRequest_open e0 room _ h); [done | by rewrite Hst1 | done | done].
    + split; [|exists p, (Buf.content b); by split_and!].
      unfold handleRequest, Request.header, Parser.getRequest. by rewrite Eh.
  - left. apply Hlift. destruct (answer_open true e0 room bad_request (log_error c1)) as (c' & Ha & Ho' & Hs & Hst');
      [by eapply open_ok_ext | change (m_state c1 <> kDisconnected); by rewrite Hst1 | done | done |].
    exists c'. split_and!; [exact Ha | done | etrans; [|exact Hs]; by split | done].
Qed.

(** ** Lemmas: the handlers of the channel *)

(** What a handler leaves of an open connection: still open, or closed with its
    close callback called. *)
Record outcome (e0 : Epoll.Epoller K) (room : Z) (c c' : Conn) : Prop := {
  out_fd : m_conn_fd c' = m_conn_fd c;
  out_channel : m_channel c' = m_channel c;
  out_readings : readings c' = readings c;
  out_loop : in_loop c' = in_loop c;
  out_input : input_ok (m_input_buffer c');
  out_receive : time_ok (m_last_receive_time c');
  out_phase :
    (open_ok e0 room c' /\ (m_state c' = m_state c \/ m_state c' = kDisconnecting) /\
     functors c' = functors c) \/
    (closed_ok e0 (Some (m_channel c')) c' /\ m_state c' = kDisconnected /\
     functors c' = functors c ++ (if same_loop then [FConnectionDestructor] else []))
}.

Lemma handleClose_outcome e0 room c :
  open_ok e0 room c -> m_state c = kConnected \/ m_state c = kDisconnecting ->
  input_ok (m_input_buffer c) -> time_ok (m_last_receive_time c) ->
  exists c', handleClose close_callback c = Ok c' /\ outcome e0 room c c' /\ m_state c' = kDisconnected.
Proof.
  intros Ho Hst Hin Ht.
  destruct (handleClose_open close_callback e0 room c Ho Hst) as (c1 & -> & Hc1 & Hs & Hst1 & _).
  unfold close_callback. eexists. split; [done|]. destruct Hs.
  assert (closed_ok e0 (Some (m_channel c1)) c1) as Hc2 by (by rewrite same_channel0).
  split; [|by destruct same_loop]. split; destruct same_loop; simpl; try congruence; right; split_and!; auto.
  - by eapply closed_ok_ext.
  - by rewrite same_functors0.
  - by rewrite app_nil_r.
Qed.

Lemma readFd_input data b :
  input_ok b -> Buf.readv_fits data b ->
  exists b', Buf.readFd (ReadvOk data) 0 b = Ok (b', zlen data) /\ Buf.wf b' /\ Buf.content b' = data /\
    zlen (Buf.m_buffer b') <= kInputMax /\ (data = [] -> input_ok b').
Proof.
  intros [Hwf He Hr Hw Hsz] Hfit. pose proof (zlen_nonneg data) as Hpos.
  assert (zlen data <= kInputMax + Buf.extrabuf_size) as Hdata.
  { unfold Buf.readv_fits in Hfit. pose proof (Buf.wf_order _ Hwf). pose proof (Buf.wf_read _ Hwf).
    unfold Buf.writeableBytes in Hfit. destruct (_ =? 2); unfold Buf.extrabuf_size in *; lia. }
  assert (zlen (Buf.m_buffer b) + zlen data + kPrePendIndex <= INT_MAX) as Hint.
  { unfold kInputMax, Buf.extrabuf_size, kPrePendIndex, INT_MAX in *. lia. }
  destruct (Buf.readFd_ok data 0 b) as (b' & Hrun & Hwf' & Hc' & Hr'); auto.
  pose proof (Buf.readFd_size _ _ _ _ _ Hwf Hfit Hr Hint Hrun) as Hsz'.
  exists b'. rewrite He in Hc'. split_and!; [done..| |].
  - unfold kInputMax in *. lia.
  - intros ->. split; [done.. | lia | | unfold kInputMax in *; lia].
    pose proof (Buf.zlen_content b' Hwf') as Hz. rewrite Hc' in Hz. unfold Buf.readableBytes in Hz.
    change (zlen ([] ++ [])) with 0 in Hz. lia.
Qed.

Lemma handleRead_outcome e0 room rv c :
  open_ok e0 room c -> m_state c = kConnected \/ m_state c = kDisconnecting ->
  room + bound <= INT_MAX -> kPrePendIndex <= room ->
  input_ok (m_input_buffer c) -> time_ok (m_last_receive_time c) -> (forall k, time_ok (readings c k)) ->
  match rv with ReadvOk data => Buf.readv_fits data (m_input_buffer c) | ReadvErr _ => True end ->
  (exists c', handleRead message_callback close_callback rv c = Ok c' /\ outcome e0 (room + bound) c c') \/
  (handleRead message_callback close_callback rv c = Fault Undefined /\ exists data p rest, rv = ReadvOk data /\
     Parser.parse_bytes (m_parser c) data = Ok (p, rest) /\
     Parser.m_state p = Parser.kParseGotCompleteRequest /\
     m_headers (Parser.m_request p) !! bs "Connection" = None).
Proof.
  intros Ho Hst Hroom Hlow Hin Ht Hclock Hfit.
  assert (open_ok e0 (room + bound) c) as Ho'
    by (eapply open_ok_weaken; [exact Ho | pose proof (zlen_nonneg bad_request); lia]).
  unfold handleRead, assertInLoopThread. rewrite (open_loop _ _ _ Ho). cbn [mbind res_bind].
  destruct rv as [errno|data].
  { left. cbn [Buf.readFd]. cbn [mbind res_bind].
    destruct (handleClose_outcome e0 (room + bound) (set_input (m_input_buffer c) c)) as (c' & Hrun & Hout & Hst');
      [by eapply open_ok_ext | done..|].
    simpl. rewrite Hrun. cbn [mbind res_bind]. eexists. split; [done|].
    destruct Hout as [? ? ? ? ? ? [(_&[E|E]&_)|(Hc&_&Hf)]]; [|congruence|].
    { rewrite Hst' in E. by destruct Hst as [E'|E']; simpl in E; rewrite E' in E. }
    split; auto. right. split_and!; [by eapply closed_ok_ext | done | done]. }
  destruct (readFd_input data (m_input_buffer c) Hin Hfit) as (b & -> & Hwf & Hc & Hsz & Hnil). cbn [mbind res_bind].
  destruct (Z.ltb_spec 0 (zlen data)) as [Hlt|Hle].
  - destruct (onMessage_open e0 room (set_input b c)) as [(c' & Hrun & Hoc & Hk & Hi' & Ht' & Hst')|(Hrun & p & rest & Hp)];
      [by eapply open_ok_ext | by destruct Hst as [E|E]; simpl; rewrite E | done..| |].
    + left. exists c'. split; [exact Hrun|]. destruct Hk. split; auto.
    + right. split; [exact Hrun|]. exists data, p, rest. simpl in Hp. rewrite Hc in Hp. by split.
  - assert (data = []) as -> by (apply zlen_nil_inv; pose proof (zlen_nonneg data); lia).
    left. simpl. destruct (handleClose_outcome e0 (room + bound) (set_input b c)) as (c' & Hrun & Hout & _);
      [by eapply open_ok_ext | done | by apply Hnil | done|].
    exists c'. split; [exact Hrun|]. by destruct Hout; split.
Qed.

Lemma handleWrite_outcome e0 room c c1 :
  outcome e0 room c c1 -> in_loop c = true -> kPrePendIndex <= room ->
  exists c', handleWrite c1 = Ok c' /\ outcome e0 room c c'.
Proof.
  intros Hout Hin Hroom. pose proof Hout as [H1 H2 H3 H4 H5 H6 [(Ho&Hst&Hf)|(Hc&Hst&Hf)]].
  - destruct (handleWrite_open e0 room c1 Ho Hroom) as (c' & -> & Ho' & Hs & Hst'). exists c'. split; [done|].
    destruct Hs. split; rewrite ?same_input0, ?same_receive0; try congruence.
    left. split_and!; [done | by rewrite Hst' | congruence].
  - exists c1. split; [|done]. unfold handleWrite, assertInLoopThread. rewrite H4, Hin. cbn [mbind res_bind].
    destruct Hc as [(ch & Hl & _ & _ & Hw) _ _ _ _]. unfold isWriting.
    rewrite (Epoll.deref_Ok _ _ _ Hl). cbn [mbind res_bind]. by rewrite Hw.
Qed.

(** The reported events stored in the channel. *)
Lemma set_revents_open e0 room revents c ch :
  open_ok e0 room c -> Epoll.channels (poller c) !! m_channel c = Some ch ->
  open_ok e0 room (set_poller (Epoll.set_channel (m_channel c) (Chan.setRevents revents ch) (poller c)) c).
Proof.
  intros [(ch0 & [Hp Hc Hi Hr] & Ht & Hf & Hw)] Hch. rewrite Hc in Hch. injection Hch as ->.
  split; simpl; auto.
  - exists (Chan.setRevents revents ch). split_and!; [|done..].
    split; simpl; [by apply Epoll.set_revents_wf | apply lookup_insert_eq | done | done].
  - etrans; [done|]. apply frame_set_channel.
Qed.

Lemma dispatch_outcome e0 room rv c :
  open_ok e0 room c -> m_state c = kConnected \/ m_state c = kDisconnecting ->
  room + bound <= INT_MAX -> kPrePendIndex <= room ->
  input_ok (m_input_buffer c) -> time_ok (m_last_receive_time c) -> (forall k, time_ok (readings c k)) ->
  match rv with ReadvOk data => Buf.readv_fits data (m_input_buffer c) | ReadvErr _ => True end ->
  (exists c', dispatch rv c = Ok c' /\ outcome e0 (room + bound) c c') \/
  (dispatch rv c = Fault Undefined /\ exists data p rest, rv = ReadvOk data /\
     Parser.parse_bytes (m_parser c) data = Ok (p, rest) /\
     Parser.m_state p = Parser.kParseGotCompleteRequest /\
     m_headers (Parser.m_request p) !! bs "Connection" = None).
Proof.
  intros Ho Hst Hroom Hlow Hi Ht Hclock Hfit. pose proof Ho as [(ch & [_ Hc _ _] & Htied & _) _ _ _ _ Hin].
  pose proof (zlen_nonneg bad_request). unfold dispatch. rewrite (Epoll.deref_Ok _ _ _ Hc). cbn [mbind res_bind].
  set (revents := Chan.m_revents ch).
  unfold Chan.handleEvent. rewrite Htied. unfold Chan.handleEventWithGuard. fold revents.
  set (c2 := if Chan.has_bits revents kErrorEvent then log_error c else c).
  assert ((if Chan.has_bits revents kErrorEvent then Chan.call (Chan.m_error_callback (callbacks rv)) c else Ok c)
          = Ok c2) as -> by (unfold c2; by destruct (Chan.has_bits revents kErrorEvent)).
  cbn [mbind res_bind Chan.call callbacks Chan.m_close_callback Chan.m_read_callback Chan.m_write_callback].
  assert (open_ok e0 room c2) as Ho2
    by (unfold c2; destruct (Chan.has_bits revents kErrorEvent); [by eapply open_ok_ext | done]).
  assert (same c c2) as Hs2 by (unfold c2; destruct (Chan.has_bits revents kErrorEvent); by split).
  assert (m_state c2 = m_state c) as Hst2 by (unfold c2; by destruct (Chan.has_bits revents kErrorEvent)).
  assert (forall c', outcome e0 (room + bound) c2 c' -> outcome e0 (room + bound) c c') as Hlift.
  { intros c' [? ? ? ? ? ? Hph]. destruct Hs2. split; congruence. }
  assert (outcome e0 (room + bound) c c2) as Hnone.
  { destruct Hs2. split; rewrite ?same_input0, ?same_receive0; try congruence. left.
    split_and!; [eapply open_ok_weaken; [exact Ho2 | lia] | by left | congruence]. }
  assert ((if Chan.has_bits revents EPOLLHUP && negb (Chan.has_bits revents EPOLLIN) then Ok c2 else Ok c2)
          = Ok c2) as -> by (by destruct (_ && _)).
  cbn [mbind res_bind].
  assert (forall c', outcome e0 (room + bound) c c' -> exists c'',
    (if Chan.has_bits revents kWriteEvent then handleWrite c' else Ok c') = Ok c'' /\
    outcome e0 (room + bound) c c'') as Hwrite.
  { intros c' Hout. destruct (Chan.has_bits revents kWriteEvent); [|eauto].
    apply (handleWrite_outcome e0 (room + bound) c c' Hout Hin). lia. }
  destruct (Chan.has_bits revents (Z.lor kReadEvent EPOLLRDHUP)); [|left; by apply Hwrite].
  destruct (handleRead_outcome e0 room rv c2) as [(c' & Hrun & Hout)|(Hrun & Hh)];
    [done | by rewrite Hst2 | done | done | by rewrite (same_input _ _ Hs2) | by rewrite (same_receive _ _ Hs2)
    | intros k; by rewrite (same_readings _ _ Hs2) | by rewrite (same_input _ _ Hs2) | |].
  - left. rewrite Hrun. cbn [mbind res_bind]. apply Hwrite. by apply Hlift.
  - right. rewrite Hrun. split; [done|]. rewrite (same_parser _ _ Hs2) in Hh. exact Hh.
Qed.

(** ** Lemmas: one event *)

Lemma outcome_session e0 room c c' s :
  outcome e0 room c c' -> m_state c = kConnected \/ m_state c = kDisconnecting ->
  functors c = functors (conn s) -> follows s (mkSession c (removed s)) ->
  conn_fine (conn s) -> readings c = readings (conn s) ->
  (FConnectionDestructor ∉ functors (conn s)) -> removed s = same_loop ->
  session_ok e0 room (mkSession c' (removed s)) /\ follows s (mkSession c' (removed s)).
Proof.
  intros [H1 H2 H3 H4 H5 H6 Hph] Hopen Ef Hfol [_ _ Hr Hs] Er Hd Hrem. rewrite Ef in Hph. split; [split|].
  - split; simpl; [done | done | by rewrite H3, Er |].
    intros ptr len. destruct Hph as [(_&_&->)|(_&_&->)]; [apply Hs|].
    rewrite not_elem_of_app. split; [apply Hs|].
    destruct same_loop; [by intros ?%list_elem_of_singleton | apply not_elem_of_nil].
  - unfold phase_ok. simpl. destruct Hph as [(Ho&Hst&Hf)|(Hc&->&Hf)].
    + assert (open_ok e0 room (set_in_loop true c')) as Ho'
        by (eapply open_ok_ext; [exact Ho|..]; try done; symmetry; apply Ho).
      assert (m_state c' = kConnected \/ m_state c' = kDisconnecting) as [->| ->]
        by (destruct Hst as [->|]; auto); by rewrite Hf.
    + rewrite Hrem. destruct same_loop; [right; left | left]; split_and!; auto.
      * exists (functors (conn s)). by split.
      * by rewrite Hf, app_nil_r.
  - etrans; [exact Hfol|]. split; simpl; [done..|].
    destruct Hph as [(_&[->| ->]&_)|(_&->&_)]; [done | by apply advance_disconnecting | by apply advance_disconnected].
Qed.

Lemma established_ok e0 room s :
  session_ok e0 room s -> kPrePendIndex <= room -> m_state (conn s) = kConnecting ->
  goes e0 room s (step Established s).
Proof.
  intros [[[] Ht Hr Hs] Hph] Hroom Hst. unfold phase_ok in Hph. rewrite Hst in Hph.
  destruct Hph as (Hnew & Hf & Hrem). simpl.
  destruct (connectionEstablished_open connection_callback e0 room (set_in_loop true (conn s)))
    as (c1 & -> & Ho & Hsame & Hst1); [by eapply new_ok_ext | done | done|].
  unfold connection_callback, onConnection. simpl.
  assert ((if isConnected c1 then
     (set_input (Buf.retrieveAll (m_input_buffer c1)) c1, if auto_close then Some kIdleConnectionTimeOuts else None)
   else (set_input (Buf.retrieveAll (m_input_buffer c1)) c1, None)).1 =
   set_input (Buf.retrieveAll (m_input_buffer c1)) c1) as -> by (by destruct (isConnected c1)).
  eexists. split; [done|]. destruct Hsame. simpl in *.
  split; [split | split; simpl; [done..| rewrite Hst, Hst1; apply rtc_once; constructor]].
  - split; simpl; rewrite ?same_receive0, ?same_readings0, ?same_functors0, ?same_input0; auto.
    by apply retrieveAll_input.
  - unfold phase_ok. simpl. rewrite Hst1, same_functors0, Hf.
    split_and!; [by eapply open_ok_ext; [exact Ho|..]; try done; symmetry; apply Ho | apply not_elem_of_nil | done].
Qed.

(** An open connection, after a call that reads no input. *)
Lemma open_session e0 room c' fs s :
  session_ok e0 room s -> m_state (conn s) = kConnected \/ m_state (conn s) = kDisconnecting ->
  open_ok e0 room (set_in_loop true c') -> m_conn_fd c' = m_conn_fd (conn s) ->
  m_channel c' = m_channel (conn s) -> readings c' = readings (conn s) ->
  m_input_buffer c' = m_input_buffer (conn s) -> m_last_receive_time c' = m_last_receive_time (conn s) ->
  functors c' = functors (conn s) ++ fs -> Forall (fun f => f = FShutDownInLoop \/ f = FForceCloseInLoop) fs ->
  m_state c' = m_state (conn s) \/ m_state c' = kDisconnecting ->
  goes e0 room s (Ok (mkSession c' (removed s))).
Proof.
  intros [[Hi Ht Hr Hs] Hph] Hst Ho E1 E2 E3 E4 E5 Ef Hfs Hst'. eexists. split; [done|].
  assert ((FConnectionDestructor ∉ functors (conn s)) /\ removed s = same_loop) as [Hd Hrem]
    by (unfold phase_ok in Hph; destruct Hst as [E|E]; rewrite E in Hph; by destruct Hph as (_ & Hph)).
  rewrite Forall_forall in Hfs. split; [split|split; simpl; [done..|]].
  - split; simpl; [by rewrite E4 | by rewrite E5 | by rewrite E3 |].
    intros ptr len. rewrite Ef, not_elem_of_app. split; [apply Hs|]. intros Hel. by destruct (Hfs _ Hel).
  - assert (FConnectionDestructor ∉ functors c') as Hd'.
    { rewrite Ef, not_elem_of_app. split; [done|]. intros Hel. by destruct (Hfs _ Hel). }
    assert (m_state c' = kConnected \/ m_state c' = kDisconnecting) as Hst2 by (destruct Hst' as [->|]; auto).
    unfold phase_ok. simpl. destruct Hst2 as [->| ->]; by split_and!.
  - destruct Hst' as [->| ->]; [done | by apply advance_disconnecting].
Qed.

(** The kernel watches open connections only. *)
Lemma watched_open e0 room s ev :
  session_ok e0 room s -> interest (Epoll.kernel (poller (conn s))) !! m_conn_fd (conn s) = Some (ev, m_channel (conn s)) ->
  open_ok e0 room (set_in_loop true (conn s)) /\
  (m_state (conn s) = kConnected \/ m_state (conn s) = kDisconnecting) /\
  (FConnectionDestructor ∉ functors (conn s)) /\ removed s = same_loop.
Proof.
  intros [_ Hph] Hev. unfold phase_ok in Hph. destruct (m_state (conn s)).
  - destruct Hph as (Hnew & _). by rewrite (new_unwatched _ _ Hnew) in Hev.
  - destruct Hph as (? & ?). auto.
  - destruct Hph as (? & ?). auto.
  - destruct Hph as [(_&Hc&_)|[(_&Hc&_)|(_&Hc&_)]]; by destruct (closed_unwatched _ _ _ _ _ Hc Hev).
Qed.

Lemma reported_ok e0 room revents s :
  session_ok e0 room s -> enabled (Reported revents) s -> goes e0 room s (step (Reported revents) s).
Proof.
  intros Hok [ev Hev]. destruct (watched_open e0 room s ev Hok Hev) as (Ho & Hst & Hd & Hrem).
  pose proof Ho as [(ch & [_ Hc _ _] & _) _ _ _ _ _]. simpl in Hc.
  simpl. unfold report. simpl. rewrite (Epoll.deref_Ok _ _ _ Hc). cbn [mbind res_bind].
  eapply (open_session e0 room _ [] s); eauto; try done; [by apply (set_revents_open e0 room revents _ ch Ho) | by rewrite app_nil_r].
Qed.

Lemma dispatched_ok e0 room rv s :
  session_ok e0 room s -> enabled (Dispatched rv) s -> kPrePendIndex <= room -> room + bound <= INT_MAX ->
  goes e0 (room + bound) s (step (Dispatched rv) s) \/
  (step (Dispatched rv) s = Fault Undefined /\ headerless (Dispatched rv) s).
Proof.
  intros Hok [[ev Hev] Hfit] Hlow Hroom. pose proof (ok_fine _ _ _ Hok) as [Hin Ht Hr Hs].
  destruct (watched_open e0 room s ev Hok Hev) as (Ho & Hst & Hd & Hrem).
  simpl. destruct (dispatch_outcome e0 room rv (set_in_loop true (conn s)))
    as [(c' & -> & Hout)|(-> & data & p & rest & -> & Hp)]; [done..| |].
  - left. eexists. split; [done|]. by eapply outcome_session; [exact Hout|..].
  - right. split; [done|]. unfold headerless. exists data, p, rest. by split.
Qed.

(** A closed connection stays as it is, but for the functors. *)
Lemma closed_session e0 room r c c' s :
  conn_fine (conn s) -> closed_ok e0 r c -> same c c' -> m_state c' = kDisconnected ->
  poller c' = poller c ->
  input_ok (m_input_buffer c) -> m_last_receive_time c = m_last_receive_time (conn s) ->
  readings c = readings (conn s) -> (forall f, f ∈ functors c -> f ∈ functors (conn s)) ->
  (removed s = false /\ r = Some (m_channel c) /\ (FConnectionDestructor ∉ functors c)) \/
  (removed s = true /\ r = Some (m_channel c) /\
     exists fs, functors c = fs ++ [FConnectionDestructor] /\ FConnectionDestructor ∉ fs) \/
  (removed s = true /\ r = None /\ functors c = []) ->
  m_state (conn s) = kDisconnected -> follows s (mkSession c (removed s)) ->
  session_ok e0 room (mkSession c' (removed s)) /\ follows s (mkSession c' (removed s)).
Proof.
  intros [_ Ht Hr Hs] Hc [] Hst Hp Hin Et Er Hsub Hcase Hst0 [F1 F2 _].
  assert (closed_ok e0 r c') as Hc' by (by eapply closed_ok_ext).
  split; [split | split; simpl in *; [congruence.. | by rewrite Hst0, Hst]].
  - split; simpl; [by rewrite same_input0 | by rewrite same_receive0, Et | by rewrite same_readings0, Er |].
    intros ptr len Hf. rewrite same_functors0 in Hf. by eapply Hs, Hsub.
  - unfold phase_ok. simpl. rewrite Hst, same_functors0, same_channel0.
    destruct Hcase as [(?&->&?)|[(?&->&?)|(?&->&?)]]; auto.
Qed.

Lemma functor_open e0 room f fs s :
  session_ok e0 room s -> m_state (conn s) = kConnected \/ m_state (conn s) = kDisconnecting ->
  functors (conn s) = f :: fs ->
  goes e0 room s (step RunFunctor s).
Proof.
  intros [Hfine Hph] Hst Hf. pose proof Hfine as [Hin Ht Hr Hs].
  assert (open_ok e0 room (set_in_loop true (conn s)) /\
    (FConnectionDestructor ∉ functors (conn s)) /\ removed s = same_loop) as (Ho & Hd & Hrem)
    by (unfold phase_ok in Hph; destruct Hst as [E|E]; by rewrite E in Hph).
  rewrite Hf in Hd, Hs. apply not_elem_of_cons in Hd as [Hdf Hdfs].
  unfold step. rewrite Hf. set (c := set_functors fs (set_in_loop true (conn s))).
  assert (open_ok e0 room c) as Hoc by (by eapply open_ok_ext).
  set (s0 := mkSession c (removed s)).
  assert (conn_fine (conn s0)) as Hfine0.
  { split; simpl; auto. intros ptr len Hel. apply (Hs ptr len). by right. }
  assert (forall c', outcome e0 room c c' -> goes e0 room s (Ok (mkSession c' (removed s)))) as Hout.
  { intros c' Hout. eexists. split; [done|]. destruct (outcome_session e0 room c c' s0) as [H1 H2]; try done.
    split; [exact H1 | etrans; [|exact H2]; by split]. }
  assert (outcome e0 room c c) as Hrefl by (by split; auto).
  destruct f as [| |ptr len|]; simpl run_functor.
  - destruct (shutDownInLoop_open e0 room c Hoc) as (c' & -> & Ho' & Hsame & Hst'). cbn [mbind res_bind].
    apply Hout. destruct Hsame.
    split; rewrite ?same_input0, ?same_receive0; try done. left. split_and!; [done | by left | done].
  - unfold forceCloseInLoop, assertInLoopThread. simpl.
    destruct (decide _); [|cbn [mbind res_bind]; eauto].
    destruct (handleClose_outcome e0 room c Hoc Hst Hin Ht) as (c' & -> & Ho' & _). cbn [mbind res_bind]. eauto.
  - destruct (Hs ptr len). by left.
  - done.
Qed.

(** On a closed connection the functors but the last one do nothing. *)
Lemma quiet_functor e0 r f c :
  closed_ok e0 r c -> in_loop c = true -> m_state c = kDisconnected ->
  f = FShutDownInLoop \/ f = FForceCloseInLoop ->
  exists c', run_functor connection_callback close_callback memory f c = Ok c' /\ same c c' /\
    m_state c' = kDisconnected /\ poller c' = poller c.
Proof.
  intros [(ch & Hch & _)] Hin Hst [-> | ->]; simpl run_functor.
  - unfold shutDownInLoop, assertInLoopThread. rewrite Hin. unfold isWriting.
    rewrite (Epoll.deref_Ok _ _ _ Hch). cbn [mbind res_bind]. destruct (negb _); eexists; by split_and!.
  - unfold forceCloseInLoop, assertInLoopThread. rewrite Hin. cbn [mbind res_bind].
    rewrite decide_False by (rewrite Hst; by intros [|]). eexists; by split_and!.
Qed.

Lemma functor_closed e0 room f fs s :
  session_ok e0 room s -> m_state (conn s) = kDisconnected -> functors (conn s) = f :: fs ->
  exists s', step RunFunctor s = Ok s' /\ (session_ok e0 room s' /\ follows s s') /\
    functors (conn s') = fs /\ removed s' = removed s.
Proof.
  intros [Hfine Hph] Hst Hf. pose proof Hfine as [Hin Ht Hr Hs].
  unfold phase_ok in Hph. rewrite Hst in Hph. unfold step. rewrite Hf in Hph, Hs |- *.
  set (c := set_functors fs (set_in_loop true (conn s))).
  assert (forall r, closed_ok e0 r (conn s) -> closed_ok e0 r c) as Hext by (intros r Hc; by eapply closed_ok_ext).
  destruct (decide (f = FConnectionDestructor)) as [->|Hne].
  - destruct Hph as [(_&_&Hd)|[(Hrem&Hc&gs&Hgs&Hd)|(_&_&?)]]; [|clear Hf|done].
    { destruct Hd. by left. }
    assert (fs = []) as Hnil.
    { destruct gs as [|g gs]; [by injection Hgs|]. injection Hgs as E1 E2. destruct Hd. rewrite E1. by left. }
    simpl run_functor.
    destruct (connectionDestructor_closed connection_callback e0 c) as (b & c' & Hb & -> & Hc' & Hsame & Hst' & _);
      [by apply Hext | done | done | |].
    { intros c1. unfold connection_callback, onConnection. destruct (isConnected c1); simpl; eauto. }
    cbn [mbind res_bind]. eexists. split; [done|].
    assert (input_ok b) as Hib.
    { unfold connection_callback, onConnection in Hb.
      destruct (isConnected c); apply Ok_inj in Hb; apply (f_equal m_input_buffer) in Hb; simpl in Hb; rewrite <- Hb;
        apply retrieveAll_input; apply Hin. }
    destruct Hsame. simpl in *. split; [|by rewrite same_functors0].
    split; [split | split; simpl; [done.. | by rewrite Hst, Hst']].
    + split; simpl; [by rewrite same_input0 | by rewrite same_receive0 | by rewrite same_readings0 |].
      intros ptr len. rewrite same_functors0, Hnil. apply not_elem_of_nil.
    + unfold phase_ok. simpl. rewrite Hst', same_functors0, Hnil. right; right. by split_and!.
  - assert (exists c', run_functor connection_callback close_callback memory f c = Ok c' /\ same c c' /\
      m_state c' = kDisconnected /\ poller c' = poller c) as (c' & -> & Hsame & Hst' & Hp).
    { assert (exists r, closed_ok e0 r c) as [r Hc].
      { destruct Hph as [(_&Hc&_)|[(_&Hc&_)|(_&Hc&_)]]; eexists; by apply Hext. }
      apply (quiet_functor e0 r f c Hc); [done | done|].
      destruct f as [| |ptr len|]; [by left | by right | by destruct (Hs ptr len); left | done]. }
    cbn [mbind res_bind]. eexists. split; [done|]. split; [|split; [exact (same_functors _ _ Hsame) | done]].
    destruct Hph as [(Hrem&Hc&Hd)|[(Hrem&Hc&gs&Hgs&Hd)|(_&_&?)]]; [| |done].
    + apply (closed_session e0 room (Some (m_channel c)) c c' s); auto; [by intros g ?; rewrite Hf; right| |by split].
      left. split_and!; [done..|]. apply not_elem_of_cons in Hd. apply Hd.
    + apply (closed_session e0 room (Some (m_channel c)) c c' s); auto; [by intros g ?; rewrite Hf; right| |by split].
      right; left. split_and!; [done..|]. destruct gs as [|g gs]; [by injection Hgs as E _; destruct Hne|].
      injection Hgs as E1 E2. exists gs. split; [by rewrite <- E2|]. apply not_elem_of_cons in Hd. apply Hd.
Qed.

(** A closed connection, after a call that does nothing. *)
Lemma closed_quiet e0 room c' s :
  session_ok e0 room s -> m_state (conn s) = kDisconnected ->
  same (set_in_loop (in_loop c') (conn s)) c' -> poller c' = poller (conn s) -> m_state c' = kDisconnected ->
  goes e0 room s (Ok (mkSession c' (removed s))).
Proof.
  intros [Hfine Hph] Hst Hsame Hp Hst'. pose proof Hfine as [Hi _ _ _].
  unfold phase_ok in Hph. rewrite Hst in Hph. eexists. split; [done|].
  set (c0 := set_in_loop (in_loop c') (conn s)) in *.
  assert (forall r, closed_ok e0 r (conn s) -> closed_ok e0 r c0) as Hext by (intros r Hc; by eapply closed_ok_ext).
  assert (follows s (mkSession c0 (removed s))) as Hf by (by split).
  destruct Hph as [(?&Hc&?)|[(?&Hc&?)|(?&Hc&?)]]; apply Hext in Hc;
    eapply (closed_session e0 room _ c0 c' s); eauto; done.
Qed.

Lemma phase_cases e0 room s :
  session_ok e0 room s -> m_state (conn s) <> kConnecting ->
  (open_ok e0 room (set_in_loop true (conn s)) /\
   (m_state (conn s) = kConnected \/ m_state (conn s) = kDisconnecting)) \/ m_state (conn s) = kDisconnected.
Proof.
  intros [_ Hph] Hst. unfold phase_ok in Hph.
  destruct (m_state (conn s)); [done | left; split; [apply Hph | auto].. | by right].
Qed.

Lemma force_ok e0 room s :
  session_ok e0 room s -> m_state (conn s) <> kConnecting -> goes e0 room s (step ForceClose s).
Proof.
  intros Hok Hst. simpl. unfold forceClose.
  destruct (phase_cases _ _ _ Hok Hst) as [[Ho Hopen]|Hcl].
  - rewrite decide_True by done.
    eapply (open_session e0 room _ [FForceCloseInLoop] s); eauto; try done; [by eapply open_ok_ext].
  - rewrite decide_False by (rewrite Hcl; by intros [|]). by apply closed_quiet.
Qed.

Lemma idle_ok e0 room s :
  session_ok e0 room s -> m_state (conn s) <> kConnecting -> goes e0 room s (step Idle s).
Proof.
  intros Hok Hst. cbn [step]. unfold handleIdleConnection, kIdleConnectionTimeOuts, now.
  cbn [m_last_receive_time set_in_loop].
  rewrite (Ts.addTime_eight (m_last_receive_time (conn s))) by apply Hok.
  generalize (double_of_Z 8). intros t. simpl. set (c1 := mkConn _ _ _ _ _ _ _ _ _ _ _ _ _ _ _ _ _).
  assert (goes e0 room s (Ok (mkSession c1 (removed s)))) as Hquiet.
  { destruct (phase_cases _ _ _ Hok Hst) as [[Ho Hopen]|Hcl].
    - eapply (open_session e0 room _ [] s); eauto; try done; [by eapply open_ok_ext | by rewrite app_nil_r].
    - by apply closed_quiet; [..|split|]. }
  destruct (Ts.lt _ _); [|done]. unfold shutDown. change (m_state c1) with (m_state (conn s)).
  destruct (decide (m_state (conn s) = kConnected)) as [E|]; [|done].
  destruct (phase_cases _ _ _ Hok Hst) as [[Ho Hopen]|Hcl]; [|congruence].
  change (in_loop (set_state kDisconnecting c1)) with same_loop.
  destruct same_loop eqn:Eloop.
  - destruct (shutDownInLoop_open e0 room (set_state kDisconnecting c1)) as (c2 & -> & Ho2 & Hs2 & Hst2);
      [eapply open_ok_ext; [exact Ho|..]; done|].
    cbn [mbind res_bind]. destruct Hs2.
    eapply (open_session e0 room c2 [] s); eauto; [by eapply open_ok_ext | by rewrite app_nil_r].
  - cbn [mbind res_bind].
    eapply (open_session e0 room _ [FShutDownInLoop] s); eauto; try done; [eapply open_ok_ext; [exact Ho|..]; done].
Qed.

Lemma remove_ok e0 room s :
  session_ok e0 room s -> enabled Remove s -> goes e0 room s (step Remove s).
Proof.
  intros [[Hi Ht Hr Hs] Hph] (Hst & Hrem). unfold phase_ok in Hph. rewrite Hst in Hph.
  destruct Hph as [(_&Hc&Hd)|[(?&_)|(?&_)]]; [|congruence..].
  eexists. split; [done|]. split; [split|split; simpl; done].
  - split; simpl; auto. intros ptr len. rewrite not_elem_of_app.
    split; [apply Hs | by intros ?%list_elem_of_singleton].
  - unfold phase_ok. simpl. rewrite Hst. right; left. split_and!; [done | by eapply closed_ok_ext |].
    by exists (functors (conn s)).
Qed.

(** The poller the frame starts from: other connections move it. *)
Definition base (e : event) (e0 : Epoll.Epoller K) : Epoll.Epoller K :=
  match e with Others e' => e' | _ => e0 end.

(** Another poller with the same entries for the connection. *)
Lemma session_others e0 room s e :
  session_ok e0 room s -> enabled (Others e) s -> session_ok e room (mkSession (set_poller e (conn s)) (removed s)).
Proof.
  intros [[Hi Ht Hr Hs] Hph] (Hwf & Hc & Hm). split; [by split|].
  unfold phase_ok in *. simpl.
  assert (forall r, closed_ok e0 r (conn s) -> closed_ok e r (set_poller e (conn s))) as Hclosed.
  { intros r [Hch ? Hmap ? Hw]. split; simpl; [by rewrite Hc | done | by rewrite Hm | done | exact Hw]. }
  destruct (m_state (conn s)).
  - destruct Hph as ([Hch ? Hmap Hout ? Hw] & Hrest). split; [|done].
    split; simpl; [by rewrite Hc | done | by rewrite Hm | done | done | exact Hw].
  - destruct Hph as ([(ch & [] & Hrest) Ho Hidx ? Hw] & Hend). split; [|done].
    split; simpl in *; try done. exists ch. split; [|done]. split; simpl in *; [done | by rewrite Hc | done..].
  - destruct Hph as ([(ch & [] & Hrest) Ho Hidx ? Hw] & Hend). split; [|done].
    split; simpl in *; try done. exists ch. split; [|done]. split; simpl in *; [done | by rewrite Hc | done..].
  - destruct Hph as [(?&?&?)|[(?&?&?)|(?&?&?)]]; auto 10.
Qed.

Lemma session_wf e0 room s : session_ok e0 room s -> Epoll.wf (poller (conn s)).
Proof.
  intros [_ Hph]. unfold phase_ok in Hph. destruct (m_state (conn s)).
  - apply Hph.
  - destruct Hph as ([(ch & [] & _)] & _). done.
  - destruct Hph as ([(ch & [] & _)] & _). done.
  - destruct Hph as [(_&[]&_)|[(_&[]&_)|(_&[]&_)]]; done.
Qed.

(** New reported events in the connection's channel. *)
Lemma session_revents e0 room r ch s :
  session_ok e0 room s -> Epoll.channels (poller (conn s)) !! m_channel (conn s) = Some ch ->
  let e := Epoll.set_channel (m_channel (conn s)) (Chan.setRevents r ch) (poller (conn s)) in
  session_ok e room (mkSession (set_poller e (conn s)) (removed s)).
Proof.
  intros Hok Hch e. pose proof (session_wf _ _ _ Hok) as Hwf0. destruct Hok as [[Hi Ht Hr Hs] Hph].
  assert (Epoll.wf e) as Hwf by (by apply Epoll.set_revents_wf). split; [by split|].
  assert (Epoll.channels e !! m_channel (conn s) = Some (Chan.setRevents r ch)) as He by apply lookup_insert_eq.
  assert (forall o, closed_ok e0 o (conn s) -> closed_ok e o (set_poller e (conn s))) as Hclosed.
  { intros o [(c & Hc & Hrest) ? Hmap ? Hw]. rewrite Hch in Hc. injection Hc as <-.
    split; simpl; [by eexists | done | done | done | exact Hw]. }
  assert (forall room, open_ok e0 room (set_in_loop true (conn s)) ->
    open_ok e room (set_in_loop true (set_poller e (conn s)))) as Hopen.
  { intros room' [(c & [_ Hc Hx Hre] & Hrest) Ho Hidx ? Hw Hl]. simpl in Hc. rewrite Hch in Hc. injection Hc as <-.
    split; simpl in *; [|done..|exact Hw | done]. exists (Chan.setRevents r ch). split; [by split | done]. }
  unfold phase_ok in *. simpl. destruct (m_state (conn s)).
  - destruct Hph as ([(c & Hc & Hrest) ? Hmap Hout ? Hw] & Hend). rewrite Hch in Hc. injection Hc as <-.
    split; [|done]. split; simpl; [by eexists | done | done | done | done | exact Hw].
  - destruct Hph as (? & ?). auto.
  - destruct Hph as (? & ?). auto.
  - destruct Hph as [(?&?&?)|[(?&?&?)|(?&?&?)]]; auto 10.
Qed.

(** A session that was removed and has no functor left is out of the poller. *)
Lemma session_over e0 room s :
  session_ok e0 room s -> m_state (conn s) = kDisconnected -> removed s = true -> functors (conn s) = [] ->
  closed_ok e0 None (conn s).
Proof.
  intros [_ Hph] Hst Hrem Hf. unfold phase_ok in Hph. rewrite Hst, Hrem, Hf in Hph.
  destruct Hph as [(?&_)|[(_&_&fs&Habs&_)|(_&?&_)]]; [done | by destruct fs | done].
Qed.

Lemma session_frame e0 room s :
  session_ok e0 room s -> frame (m_channel (conn s)) (m_conn_fd (conn s)) e0 (poller (conn s)).
Proof.
  intros [_ Hph]. unfold phase_ok in Hph. destruct (m_state (conn s)).
  - destruct Hph as ([] & _). done.
  - destruct Hph as ([] & _). done.
  - destruct Hph as ([] & _). done.
  - destruct Hph as [(_&[]&_)|[(_&[]&_)|(_&[]&_)]]; done.
Qed.

Lemma session_rebase e0 room s : session_ok e0 room s -> session_ok (poller (conn s)) room s.
Proof.
  intros Hok. pose proof (session_others e0 room s (poller (conn s)) Hok) as H.
  destruct s as [[] ?]. apply H. split; [by eapply session_wf | done].
Qed.

Lemma session_weaken e0 room room' s :
  session_ok e0 room s -> room <= room' -> session_ok e0 room' s.
Proof.
  intros [Hf Hph] Hle. split; [done|]. unfold phase_ok in *. destruct (m_state (conn s)); auto.
  - destruct Hph as [Ho ?]. split; [by eapply open_ok_weaken|done].
  - destruct Hph as [Ho ?]. split; [by eapply open_ok_weaken|done].
Qed.

Lemma bound_nonneg : 0 <= bound.
Proof. pose proof (zlen_nonneg bad_request). lia. Qed.

(** Every event that can happen ends well, but for the request without a
    Connection header. *)
Lemma step_ok e e0 room s :
  session_ok e0 room s -> enabled e s -> kPrePendIndex <= room -> room + reads e * bound <= INT_MAX ->
  goes (base e e0) (room + reads e * bound) s (step e s) \/ (step e s = Fault Undefined /\ headerless e s).
Proof.
  intros Hok Hen Hlow Hroom.
  destruct e as [|revents|rv| | | | |e]; cbn [reads base] in *; rewrite ?Z.add_0_r; [left | left | | left..].
  - by apply established_ok.
  - by apply reported_ok.
  - rewrite Z.mul_1_l in *. by apply dispatched_ok.
  - destruct (functors (conn s)) as [|f fs] eqn:Ef.
    { exists s. simpl. rewrite Ef. by split_and!. }
    destruct (decide (m_state (conn s) = kConnecting)) as [E|E].
    { destruct Hok as [_ Hph]. unfold phase_ok in Hph. rewrite E in Hph. destruct Hph as (_ & Hf & _). congruence. }
    destruct (phase_cases _ _ _ Hok E) as [[_ Hopen]|Hcl]; [by eapply functor_open|].
    destruct (functor_closed _ _ _ _ _ Hok Hcl Ef) as (s' & ? & ? & _). by exists s'.
  - by apply remove_ok.
  - by apply idle_ok.
  - by apply force_ok.
  - eexists. split; [done|]. split; [|by split]. by eapply session_others.
Qed.

Lemma all_reads_nonneg es : 0 <= all_reads es.
Proof. induction es as [|[] es IH]; simpl; lia. Qed.

Lemma run_ok es : forall e0 room s,
  session_ok e0 room s -> possible es s -> kPrePendIndex <= room -> room + all_reads es * bound <= INT_MAX ->
  (exists s', run es s = Ok s' /\ session_ok (poller (conn s')) (room + all_reads es * bound) s' /\ follows s s') \/
  (exists es1 e es2 s1, es = es1 ++ e :: es2 /\ run es1 s = Ok s1 /\ headerless e s1 /\
     step e s1 = Fault Undefined /\ run es s = Fault Undefined).
Proof.
  pose proof bound_nonneg as Hb.
  induction es as [|e es IH]; intros e0 room s Hok Hpos Hlow Hroom; simpl.
  { left. exists s. split_and!; [done | | done]. rewrite Z.add_0_r. by eapply session_rebase. }
  destruct Hpos as [Hen Hpos]. cbn [all_reads] in Hroom. pose proof (all_reads_nonneg es).
  assert (0 <= reads e) by (destruct e; simpl; lia).
  destruct (step_ok e e0 room s Hok Hen Hlow) as [(s' & Hrun & Hok' & Hfol)|[Hrun Hh]]; [nia| |].
  - rewrite Hrun. cbn [mbind res_bind].
    destruct (IH _ _ _ Hok' (Hpos _ Hrun)) as [(s2 & Hrun2 & Hok2 & Hfol2)|(es1 & e1 & es2 & s1 & -> & Hrun1 & Hh1 & Hst1 & Hrun2)];
      [nia | nia | left | right].
    + exists s2. split_and!; [done | | by etrans]. by replace (room + (reads e + all_reads es) * bound) with (room + reads e * bound + all_reads es * bound) by lia.
    + exists (e :: es1), e1, es2, s1. simpl. rewrite Hrun. by split_and!.
  - right. exists [], e, es, s. rewrite Hrun. by split_and!.
Qed.

Lemma advance_end st : rtc advance kDisconnected st -> st = kDisconnected.
Proof. intros H. inversion H as [|? y ? Hy]; [done | inversion Hy]. Qed.

(** A closed and removed connection runs its functors to the last. *)
Lemma drain n : forall e0 room s,
  session_ok e0 room s -> m_state (conn s) = kDisconnected -> removed s = true ->
  (length (functors (conn s)) <= n)%nat ->
  possible (replicate n RunFunctor) s /\
  exists s', run (replicate n RunFunctor) s = Ok s' /\ session_ok e0 room s' /\ follows s s' /\
    functors (conn s') = [] /\ removed s' = true.
Proof.
  induction n as [|n IH]; intros e0 room s Hok Hst Hrem Hlen; cbn [replicate run possible].
  { split; [done|]. exists s. split_and!; [done.. | apply nil_length_inv; lia | done]. }
  destruct (functors (conn s)) as [|f fs] eqn:Ef.
  { assert (step RunFunctor s = Ok s) as Hid by (simpl; by rewrite Ef).
    rewrite Hid. cbn [mbind res_bind]. destruct (IH e0 room s) as [Hp Hr]; [done.. | rewrite Ef; simpl; lia|].
    split; [|done]. split; [done|]. intros s' E. injection E as <-. done. }
  destruct (functor_closed _ _ _ _ _ Hok Hst Ef) as (s1 & Hrun & (Hok1 & Hf1) & Efs & Hrem1).
  rewrite Hrun. cbn [mbind res_bind].
  destruct (IH e0 room s1) as [Hp (s' & Hr & Hok' & Hf' & Hnil & Hrem')];
    [done | apply advance_end; rewrite <- Hst; apply Hf1 | congruence | rewrite Efs; simpl in Hlen; lia|].
  split; [split; [done|]; intros s2 E; by injection E as <-|].
  exists s'. split_and!; [done | done | by etrans | done | done].
Qed.

(** The channel object of a session. *)
Lemma session_channel e0 room s :
  session_ok e0 room s -> exists ch, Epoll.channels (poller (conn s)) !! m_channel (conn s) = Some ch /\
    Chan.m_fd ch = m_conn_fd (conn s).
Proof.
  intros [_ Hph]. unfold phase_ok in Hph. destruct (m_state (conn s)).
  - destruct Hph as ([(ch & ? & _ & ? & _)] & _). by exists ch.
  - destruct Hph as ([(ch & [] & _ & ? & _)] & _). by exists ch.
  - destruct Hph as ([(ch & [] & _ & ? & _)] & _). by exists ch.
  - destruct Hph as [(_&[(ch & ? & _ & ? & _)]&_)|[(_&[(ch & ? & _ & ? & _)]&_)|(_&[(ch & ? & _ & ? & _)]&_)]]; by exists ch.
Qed.

(** A frame is all another descriptor sees. *)
Lemma frame_interest e e' p fd ch fd' :
  frame p fd e e' -> Epoll.wf e -> Epoll.wf e' -> Epoll.channels e !! p = Some ch -> Chan.m_fd ch = fd ->
  fd' <> fd -> interest (Epoll.kernel e') !! fd' = interest (Epoll.kernel e) !! fd'.
Proof.
  intros [Hc Hm] Hwf Hwf' Hp Hfd Hne. rewrite (Epoll.wf_kernel _ Hwf), (Epoll.wf_kernel _ Hwf').
  unfold Epoll.watched. rewrite Hm by done.
  destruct (Epoll.m_channels e !! fd') as [q|] eqn:Eq; [|done]. simpl.
  rewrite Hc; [done|]. intros ->. destruct (Epoll.wf_map _ Hwf _ _ Eq) as (c0 & Hc0 & Hfd0 & _). congruence.
Qed.

(** The session that newConnection begins, on a free descriptor. *)
Definition opening (e : Epoll.Epoller K) (w : nat -> Z -> write_result) (r : nat -> Ts.Timestamp)
    (il : bool) (p : chan_ptr) (fd id : Z) : Session :=
  mkSession (Tcp.new e w r il p fd id) same_loop.

Record can_open (e : Epoll.Epoller K) (w : nat -> Z -> write_result) (r : nat -> Ts.Timestamp)
    (p : chan_ptr) (fd : Z) : Prop := {
  opening_channel : Epoll.channels e !! p = None;
  opening_fd : Epoll.m_channels e !! fd = None;
  opening_writes : forall j len, 0 <= len -> match w j len with Wrote n => 0 <= n <= len | WriteErr _ => True end;
  opening_clock : forall k, time_ok (r k)
}.

Lemma opening_ok e w r il p fd id :
  Epoll.wf e -> can_open e w r p fd ->
  session_ok (Epoll.set_channel p (Chan.new fd) e) kPrePendIndex (opening e w r il p fd id).
Proof.
  intros Hwf [Hp Hfd Hw Hr]. split; [split|]; simpl; [| by vm_compute | done | intros; apply not_elem_of_nil |].
  - by split.
  - unfold phase_ok. simpl. split_and!; [|done..]. split; simpl; [|by apply Epoll.wf_new_channel | done..].
    exists (Chan.new fd). rewrite lookup_insert_eq. by split_and!.
Qed.

(** What a run of possible events, short enough for the sizes of the output
    buffer to fit an [int], leaves. *)
Lemma run_opening e w r il p fd id es s :
  Epoll.wf e -> can_open e w r p fd -> possible es (opening e w r il p fd id) -> kPrePendIndex + all_reads es * bound <= INT_MAX ->
  run es (opening e w r il p fd id) = Ok s ->
  session_ok (poller (conn s)) (kPrePendIndex + all_reads es * bound) s /\ follows (opening e w r il p fd id) s.
Proof.
  intros Hwf0 Ho Hpos Hfit Hrun.
  destruct (run_ok es _ _ _ (opening_ok e w r il p fd id Hwf0 Ho) Hpos ltac:(done) Hfit)
    as [(s' & Hrun' & H)|(? & ? & ? & ? & _ & _ & _ & _ & Hrun')]; [|congruence].
  rewrite Hrun in Hrun'. by injection Hrun' as <-.
Qed.

(** The end of a closed connection: its removal, if that has not come, and the
    functors that are due. *)
Definition finish (s : Session) : list event :=
  (if removed s then [] else [Remove]) ++ replicate (S (length (functors (conn s)))) RunFunctor.

Lemma finish_ok room s :
  session_ok (poller (conn s)) room s -> m_state (conn s) = kDisconnected ->
  possible (finish s) s /\
  exists s' e, run (finish s) s = Ok s' /\ session_ok e room s' /\ follows s s' /\ functors (conn s') = [] /\ removed s' = true /\
    m_state (conn s') = kDisconnected.
Proof.
  intros Hok Hst.
  assert (forall n s1 e, session_ok e room s1 -> follows s s1 -> m_state (conn s1) = kDisconnected ->
    removed s1 = true -> (length (functors (conn s1)) <= n)%nat ->
    possible (replicate n RunFunctor) s1 /\
    exists s' e, run (replicate n RunFunctor) s1 = Ok s' /\ session_ok e room s' /\ follows s s' /\ functors (conn s') = [] /\
      removed s' = true /\ m_state (conn s') = kDisconnected) as Hdrain.
  { intros n s1 e Hok1 Hf1 Hst1 Hrem1 Hn.
    destruct (drain n _ room s1 Hok1 Hst1 Hrem1 Hn) as [Hp (s' & Hr & Hok' & Hf' & Hnil & Hrem')].
    split; [done|]. exists s', e. split_and!; [done | done | by etrans | done | done|].
    apply advance_end. rewrite <- Hst1. apply Hf'. }
  unfold finish. destruct (removed s) eqn:Hrem; [cbn [app]; by apply (Hdrain _ s (poller (conn s))); auto|].
  assert (enabled Remove s) as Hen by done. cbn [app possible run].
  destruct (remove_ok _ _ _ Hok Hen) as (s1 & Hs1 & Hok1 & Hf1). rewrite Hs1. cbn [mbind res_bind].
  pose proof Hs1 as Hs1'. injection Hs1' as Es1.
  destruct (Hdrain (S (length (functors (conn s)))) s1 _ Hok1 Hf1) as [Hp Hr]; [by subst s1 | by subst s1 | |].
  { subst s1. simpl. rewrite length_app. simpl. lia. }
  split; [split; [done|]; intros s2 E; congruence | done].
Qed.

(** ** Properties *)

(** The server survives its clients.  From the opening of a connection, in
    any order of what may happen (readiness with any reported events and any
    bytes, any answers of [write], the queued functors, the removal by the
    server's loop, the idle timer, a forced close, the other connections of
    the poller), no handler fails an assertion, aborts, or touches a channel
    that is gone, as long as the responses fit an [int]; but for one case, a
    message that completes a request without a Connection header. *)
Theorem session_never_crashes e w r il p fd id es :
  Epoll.wf e -> can_open e w r p fd -> possible es (opening e w r il p fd id) ->
  kPrePendIndex + all_reads es * bound <= INT_MAX ->
  (exists s, run es (opening e w r il p fd id) = Ok s) \/
  (exists es1 ev es2 s, es = es1 ++ ev :: es2 /\ run es1 (opening e w r il p fd id) = Ok s /\
     headerless ev s /\ step ev s = Fault Undefined).
Proof.
  intros Hwf0 Ho Hpos Hfit.
  destruct (run_ok es _ _ _ (opening_ok e w r il p fd id Hwf0 Ho) Hpos ltac:(done) Hfit)
    as [(s & Hrun & _)|(es1 & ev & es2 & s & ? & ? & ? & ? & _)]; [left; eauto | right; by exists es1, ev, es2, s].
Qed.


(** Connections do not disturb each other: an event of one connection leaves
    the channel object, the registration and the kernel's interest of every
    other descriptor of the loop as they were. *)
Theorem session_isolated e w r il p fd id es s ev s' :
  Epoll.wf e -> can_open e w r p fd -> possible es (opening e w r il p fd id) ->
  kPrePendIndex + (all_reads es + 1) * bound <= INT_MAX -> run es (opening e w r il p fd id) = Ok s ->
  enabled ev s -> (forall e', ev <> Others e') -> step ev s = Ok s' ->
  (forall q, q <> p -> Epoll.channels (poller (conn s')) !! q = Epoll.channels (poller (conn s)) !! q) /\
  (forall fd', fd' <> fd ->
     Epoll.m_channels (poller (conn s')) !! fd' = Epoll.m_channels (poller (conn s)) !! fd' /\
     interest (Epoll.kernel (poller (conn s'))) !! fd' = interest (Epoll.kernel (poller (conn s))) !! fd').
Proof.
  intros Hwf0 Ho Hpos Hfit Hrun Hen Hne Hstep. pose proof bound_nonneg. pose proof (all_reads_nonneg es).
  assert (0 <= reads ev <= 1) by (destruct ev; simpl; lia).
  destruct (run_opening e w r il p fd id es s Hwf0 Ho Hpos ltac:(nia) Hrun) as [Hok [Efd Ech _]].
  destruct (step_ok ev _ _ s Hok Hen) as [(s2 & Hstep' & Hok' & [Efd' Ech' _])|[Hf _]]; [nia | nia | | congruence].
  rewrite Hstep in Hstep'. injection Hstep' as <-. simpl in Efd, Ech.
  assert (base ev (poller (conn s)) = poller (conn s)) as Eb by (destruct ev; try done; by destruct (Hne e0)).
  rewrite Eb in Hok'.
  assert (frame p fd (poller (conn s)) (poller (conn s'))) as Hframe.
  { rewrite <- Efd, <- Ech, <- Efd', <- Ech'. by eapply session_frame. }
  destruct (session_channel _ _ _ Hok) as (ch & Hch & Hfd). rewrite Ech in Hch. rewrite Efd in Hfd.
  split; [apply Hframe|]. intros fd' Hfd'. split; [by apply Hframe|].
  eapply (frame_interest _ _ p fd ch); eauto using session_wf.
Qed.

(** A closed connection goes away: once disconnected, the removal by the
    server's loop (if it has not come) and then the queued functors run to
    the end without a fault; the last is the destruction, which takes the
    channel out of the poller, and no functor of the connection is left. *)
Theorem session_drains e w r il p fd id es s :
  Epoll.wf e -> can_open e w r p fd -> possible es (opening e w r il p fd id) ->
  kPrePendIndex + all_reads es * bound <= INT_MAX -> run es (opening e w r il p fd id) = Ok s ->
  m_state (conn s) = kDisconnected ->
  possible (finish s) s /\
  exists s', run (finish s) s = Ok s' /\ functors (conn s') = [] /\ m_state (conn s') = kDisconnected /\
    Epoll.m_channels (poller (conn s')) !! fd = None.
Proof.
  intros Hwf0 Ho Hpos Hfit Hrun Hst.
  destruct (run_opening e w r il p fd id es s Hwf0 Ho Hpos Hfit Hrun) as [Hok [Efd _ _]]. simpl in Efd.
  destruct (finish_ok _ s Hok Hst) as [Hp (s' & e' & Hr & Hok' & Hf' & Hnil & Hrem & Hst')].
  split; [done|]. exists s'. split_and!; [done..|]. rewrite <- Efd, <- (follows_fd _ _ Hf').
  by destruct (session_over _ _ _ Hok' Hst' Hrem Hnil).
Qed.

End WithKernel.
(** ** Witnesses *)

(** The program's responses fit: the largest is the page. *)
Definition kResponseMax : Z := 8192.

Lemma resCallback_bound r close :
  zlen (Response.serialize (resCallback r (Response.new close))) <= kResponseMax.
Proof.
  unfold resCallback. destruct (decide _); [|destruct close; by vm_compute].
  destruct (decide _); [destruct close; by vm_compute|].
  destruct (decide _); [destruct close; by vm_compute|].
  destruct (decide _); destruct close; by vm_compute.
Qed.

(** An empty poller, whose kernel is a map; a socket that takes two bytes at a
    time; a clock that advances. *)
Definition no_channels : Epoll.Epoller (gmap Z (Z * chan_ptr)) := Epoll.mkEpoller ∅ ∅ ∅ 0.
Definition two_bytes (_ : nat) (len : Z) : write_result := Wrote (Z.min 2 len).
Definition ticking (k : nat) : Ts.Timestamp := Ts.mkTimestamp (Z.of_nat k `mod` 1000000).

Lemma can_open_example : can_open no_channels two_bytes ticking 1%positive 7.
Proof.
  split; try done.
  - intros j len Hlen. simpl. lia.
  - intros k. unfold ticking, time_ok. simpl. pose proof (Z.mod_pos_bound (Z.of_nat k) 1000000). unfold INT64_MAX. lia.
Qed.

Abbreviation Opened := (opening false no_channels two_bytes ticking true 1%positive 7 0).
Abbreviation Run := (run false true resCallback (fun _ _ => [])).
Abbreviation Step := (step false true resCallback (fun _ _ => [])).
Abbreviation Possible := (possible false true resCallback (fun _ _ => [])).

(** A request, some of its answer, the end of input, and the clean up. *)
Definition visit : list (event (K := gmap Z (Z * chan_ptr))) :=
  [Established; Reported EPOLLIN; Dispatched (ReadvOk hello_input); Reported EPOLLOUT; Dispatched (ReadvErr 0);
   Reported (Z.lor EPOLLIN EPOLLRDHUP); Dispatched (ReadvOk [])].

(** A request without a Connection header. *)
Definition crash_visit : list (event (K := gmap Z (Z * chan_ptr))) :=
  [Established; Reported EPOLLIN; Dispatched (ReadvOk (Parser.render_request (bs "GET /hello HTTP/1.1") []))].

Definition ended (r : res (@Session (gmap Z (Z * chan_ptr)))) : Session :=
  match r with Ok s => s | Fault _ => Opened end.

Lemma possible_cons e es s :
  enabled e s -> Possible es (ended (Step e s)) -> Possible (e :: es) s.
Proof. intros He Hes. split; [done|]. intros s' E. by rewrite E in Hes. Qed.

Ltac happens :=
  apply possible_cons;
  [first [reflexivity | by vm_compute; eexists | split; [by vm_compute; eexists | by vm_compute]] |].

Lemma visit_possible : Possible visit Opened.
Proof. repeat happens. done. Qed.

Lemma crash_possible : Possible crash_visit Opened.
Proof. repeat happens. done. Qed.

Lemma session_never_crashes_witness :
  (exists s, Run crash_visit Opened = Ok s) \/
  (exists es1 ev es2 s, crash_visit = es1 ++ ev :: es2 /\ Run es1 Opened = Ok s /\
     headerless ev s /\ Step ev s = Fault Undefined).
Proof.
  apply (session_never_crashes false true resCallback (fun _ _ => []) kResponseMax resCallback_bound
           ltac:(by vm_compute) ltac:(by vm_compute) no_channels two_bytes ticking true 1%positive 7 0 crash_visit).
  - done.
  - apply can_open_example.
  - apply crash_possible.
  - by vm_compute.
Defined.

(** The crash does happen. *)
Example headerless_crashes : Run crash_visit Opened = Fault Undefined.
Proof. vm_compute. reflexivity. Qed.

Definition visited : Session := ended (Run visit Opened).

Lemma ended_ok r : match r with Ok _ => True | Fault _ => False end -> r = Ok (ended r).
Proof. by destruct r. Qed.

Lemma visited_ok : Run visit Opened = Ok visited.
Proof. apply ended_ok. by vm_compute. Qed.


Lemma session_isolated_witness :
  (forall q, q <> 1%positive ->
     Epoll.channels (poller (conn (ended (Step Remove visited)))) !! q = Epoll.channels (poller (conn visited)) !! q) /\
  (forall fd', fd' <> 7 ->
     Epoll.m_channels (poller (conn (ended (Step Remove visited)))) !! fd' = Epoll.m_channels (poller (conn visited)) !! fd' /\
     interest (Epoll.kernel (poller (conn (ended (Step Remove visited))))) !! fd' =
       interest (Epoll.kernel (poller (conn visited))) !! fd').
Proof.
  apply (session_isolated false true resCallback (fun _ _ => []) kResponseMax resCallback_bound
           ltac:(by vm_compute) ltac:(by vm_compute) no_channels two_bytes ticking true 1%positive 7 0 visit visited Remove).
  - done.
  - apply can_open_example.
  - apply visit_possible.
  - by vm_compute.
  - apply visited_ok.
  - split; reflexivity.
  - intros e'. discriminate.
  - reflexivity.
Defined.

Lemma session_drains_witness :
  Possible (finish visited) visited /\
  exists s', Run (finish visited) visited = Ok s' /\ functors (conn s') = [] /\ m_state (conn s') = kDisconnected /\
    Epoll.m_channels (poller (conn s')) !! 7 = None.
Proof.
  apply (session_drains false true resCallback (fun _ _ => []) kResponseMax resCallback_bound
           ltac:(by vm_compute) ltac:(by vm_compute) no_channels two_bytes ticking true 1%positive 7 0 visit visited).
  - done.
  - apply can_open_example.
  - apply visit_possible.
  - by vm_compute.
  - apply visited_ok.
  - reflexivity.
Defined.

End Life.
