(* ===== verification/Races.v ===== *)
(** * Races: a connection and a call from another thread

    [shutDown] and [forceClose] are documented as callable from other threads,
    and the idle check calls the first from the server's loop.  Both test
    [m_state] and then set it, without a lock, while the connection's own loop
    works on it.  Session.v takes them as one step each; here the test and the
    setting are two, with any events of the connection's loop in between.

    The server has I/O threads ([same_loop] of Session.v is false). *)

From Stdlib Require Import ZArith Lia Ascii String.
From stdpp Require Import options.
From S2P Require Import Prelude CStd Buffer HttpRequest HttpRequestParser HttpResponse Channel Epoller Timestamp TcpConnection HttpServer TcpSafety Session.

#[local] Set Default Proof Using "Type*".

Module Race.
Import Request Tcp Server Safe Life.

Section WithKernel.
Context {K : Type} `{!EpollKernel K}.
Context (auto_close : bool).
Context (cb : HttpRequest -> Response.HttpResponse -> Response.HttpResponse).
Context (memory : Z -> Z -> bytes).

Abbreviation Conn := (TcpConnection K).
Abbreviation Sess := (@Session K).
Abbreviation Step := (step false auto_close cb memory).

(** ** The calls in two steps *)

(** [if (m_state == kConnected)] of [shutDown], and what follows when it
    holds. *)
Definition shut_test (c : Conn) : bool := bool_decide (m_state c = kConnected).
Definition shut_set (c : Conn) : Conn := queueInLoop FShutDownInLoop (set_state kDisconnecting c).

(** The same of [forceClose]. *)
Definition force_test (c : Conn) : bool :=
  bool_decide (m_state c = kConnected \/ m_state c = kDisconnecting).
Definition force_set (c : Conn) : Conn := queueInLoop FForceCloseInLoop (set_state kDisconnecting c).

Lemma shutDown_two_steps c :
  in_loop c = false -> shutDown c = Ok (if shut_test c then shut_set c else c).
Proof.
  intros Hin. unfold shutDown, shut_test, shut_set. case_decide as E; [|by rewrite bool_decide_eq_false_2].
  rewrite bool_decide_eq_true_2 by done. simpl. by rewrite Hin.
Qed.

Lemma forceClose_two_steps c : forceClose c = if force_test c then force_set c else c.
Proof.
  unfold forceClose, force_test, force_set. case_decide as E;
    [by rewrite bool_decide_eq_true_2 | by rewrite bool_decide_eq_false_2].
Qed.

(** [handleIdleConnection] up to the test of [shutDown]: whether it goes on. *)
Definition idle_test (c : Conn) : res (bool * Conn) :=
  _time1 ← Ts.addTime (m_last_receive_time c) kIdleConnectionTimeOuts;
  let '(_time2, c) := now c in
  deadline ← Ts.addTime (m_last_receive_time c) kIdleConnectionTimeOuts;
  let '(n, c) := now c in
  Ok (Ts.lt deadline n && shut_test c, c).

Lemma handleIdle_two_steps c :
  in_loop c = false ->
  ('(c, _) ← handleIdleConnection true c; Ok c) =
  ('(go, c) ← idle_test c; Ok (if go : bool then shut_set c else c)).
Proof.
  intros Hin. unfold handleIdleConnection, idle_test.
  destruct (Ts.addTime _ _); [|done]. cbn [mbind res_bind]. unfold now.
  cbn [m_last_receive_time]. destruct (Ts.addTime _ _); [|done]. cbn [mbind res_bind].
  destruct (Ts.lt _ _); cbn [andb]; [|done]. rewrite shutDown_two_steps by done. by destruct (shut_test _).
Qed.

(** ** The races *)

(** The connection, how often its close callback was called and not yet
    followed by the removal, and what the other threads are about to set: the
    server's loop in [shutDown], another one in [forceClose]. *)
Record Racing := mkRacing {
  session : Sess;
  removals : nat;
  shutting : bool;
  forcing : bool
}.

Inductive racing_event :=
| InLoop (e : @event K)     (* an event of the connection's loop, or of the rest of its poller *)
| IdleTest | IdleSet        (* the idle check, in the server's loop *)
| ForceTest | ForceSet      (* forceClose(), in any other thread *)
| RemoveOne.                (* the server's loop runs a queued handleRemoveConnectionInLoop *)

(** Whether an event of the loop called the close callback: [handleClose] is
    what closes a connection that is not closed, but for the destruction. *)
Definition called_close (e : @event K) (s s' : Sess) : bool :=
  negb (isDisconnected (conn s)) && isDisconnected (conn s') &&
  match e with
  | RunFunctor => negb (bool_decide (head (functors (conn s)) = Some FConnectionDestructor))
  | _ => true
  end.

Definition racing_step (e : racing_event) (r : Racing) : res Racing :=
  let s := session r in
  match e with
  | InLoop e =>
      s' ← Step e s;
      Ok (mkRacing s' ((if called_close e s s' then 1 else 0) + removals r) (shutting r) (forcing r))
  | IdleTest =>
      '(go, c) ← idle_test (set_in_loop false (conn s));
      Ok (mkRacing (mkSession c (removed s)) (removals r) go (forcing r))
  | IdleSet =>
      Ok (if shutting r then mkRacing (mkSession (shut_set (conn s)) (removed s)) (removals r) false (forcing r) else r)
  | ForceTest => Ok (mkRacing s (removals r) (shutting r) (force_test (conn s)))
  | ForceSet =>
      Ok (if forcing r then mkRacing (mkSession (force_set (conn s)) (removed s)) (removals r) (shutting r) false else r)
  | RemoveOne =>
      Ok (mkRacing (mkSession (queueInLoop FConnectionDestructor (conn s)) true) (pred (removals r)) (shutting r) (forcing r))
  end.

Fixpoint racing_run (es : list racing_event) (r : Racing) : res Racing :=
  match es with
  | [] => Ok r
  | e :: es' => r ← racing_step e r; racing_run es' r
  end.

(** When an event can happen.  The idle check and the removal are both of the
    server's loop, so neither comes inside the other; a check has the
    connection's timer set after it was established. *)
Definition can_race (e : racing_event) (r : Racing) : Prop :=
  match e with
  | InLoop e => enabled e (session r) /\ match e with Remove | Idle | ForceClose => False | _ => True end
  | IdleTest => m_state (conn (session r)) <> kConnecting /\ shutting r = false
  | IdleSet => True
  | ForceTest => m_state (conn (session r)) <> kConnecting
  | ForceSet => True
  | RemoveOne => (0 < removals r)%nat /\ shutting r = false
  end.

Fixpoint may_race (es : list racing_event) (r : Racing) : Prop :=
  match es with
  | [] => True
  | e :: es' => can_race e r /\ forall r', racing_step e r = Ok r' -> may_race es' r'
  end.

Definition race_reads (e : racing_event) : Z := match e with InLoop e => reads e | _ => 0 end.

Fixpoint all_race_reads (es : list racing_event) : Z :=
  match es with [] => 0 | e :: es' => race_reads e + all_race_reads es' end.

Definition race_opening (s : Sess) : Racing := mkRacing s 0 false false.

(** ** The invariant *)

(** The connection as its loop left it, when another thread has set the state
    of a closed one. *)
Definition settle (s : Sess) : Sess := mkSession (set_state kDisconnected (conn s)) (removed s).

Abbreviation Session_ok := (session_ok false).

(** Either the state is what the loop made it, or the connection was closed
    and [m_state] then overwritten with [kDisconnecting]. *)
Definition tells (e0 : Epoll.Epoller K) (room : Z) (r : Racing) : Prop :=
  let s := session r in
  (Session_ok e0 room s /\ (m_state (conn s) <> kDisconnected -> removals r = 0%nat)) \/
  (m_state (conn s) = kDisconnecting /\ Session_ok e0 room (settle s) /\ shutting r = false /\
   (removed s = true -> functors (conn s) <> [])).

(** No thread forces a close. *)
Record racing_ok (e0 : Epoll.Epoller K) (room : Z) (r : Racing) : Prop := {
  r_tells : tells e0 room r;
  r_once : (removals r <= 1)%nat;
  r_removals : (0 < removals r)%nat -> removed (session r) = false;
  r_shutting : shutting r = true -> removed (session r) = false /\ m_state (conn (session r)) <> kConnecting;
  r_forcing : forcing r = false;
  r_unforced : FForceCloseInLoop ∉ functors (conn (session r))
}.

(** ** Lemmas *)

Context (bound : Z).
Hypothesis bound_request : forall r close, zlen (Response.serialize (cb r (Response.new close))) <= bound.
Hypothesis bound_bad : zlen bad_request <= bound.
Hypothesis bound_int : bound + 2 * kPrePendIndex <= INT_MAX.

Lemma on_channel_functors f (c c' : Conn) : on_channel f c = Ok c' -> functors c' = functors c.
Proof. unfold on_channel. intros H. bind_inv H. by apply Ok_inj in H as <-. Qed.

Lemma connection_functors (c c' : Conn) :
  connection_callback auto_close c = Ok c' -> functors c' = functors c.
Proof. unfold connection_callback, onConnection. intros H%Ok_inj. subst c'. by case_match. Qed.

Lemma established_functors (c c' : Conn) :
  connectionEstablished (connection_callback auto_close) c = Ok c' -> functors c' = functors c.
Proof.
  unfold connectionEstablished. intros H. bind_inv H. bind_inv H. bind_inv H.
  apply connection_functors in H. apply on_channel_functors in Hx1. by rewrite H, Hx1.
Qed.

Lemma destructor_functors (c c' : Conn) :
  connectionDestructor (connection_callback auto_close) c = Ok c' -> functors c' = functors c.
Proof.
  unfold connectionDestructor. intros H. bind_inv H. bind_inv H. bind_inv H.
  apply connection_functors in Hx1. apply on_channel_functors in H.
  assert (functors x0 = functors c) as E.
  { case_decide; [|by apply Ok_inj in Hx0 as <-]. by apply on_channel_functors in Hx0. }
  by rewrite H, Hx1, E.
Qed.

Lemma shutDownInLoop_functors (c c' : Conn) : shutDownInLoop c = Ok c' -> functors c' = functors c.
Proof.
  unfold shutDownInLoop. intros H. bind_inv H. bind_inv H. destruct (negb _); by apply Ok_inj in H as <-.
Qed.

(** The loop queues no forced close. *)
Lemma loop_functors e0 room ev (s s' : Sess) :
  Session_ok e0 room s -> enabled ev s -> match ev with Remove | Idle | ForceClose => False | _ => True end ->
  kPrePendIndex <= room -> room + reads ev * bound <= INT_MAX ->
  Step ev s = Ok s' -> (FForceCloseInLoop ∉ functors (conn s)) -> FForceCloseInLoop ∉ functors (conn s').
Proof.
  intros Hok Hen Hev Hlow Hfit H Hno. pose proof (ok_fine _ _ _ _ Hok) as [Hin Ht Hr Hs].
  destruct ev as [|rev|rv| | | | |e]; try contradiction; cbn [step] in H.
  - bind_inv H. apply Ok_inj in H as <-. simpl. by rewrite (established_functors _ _ Hx).
  - bind_inv H. apply Ok_inj in H as <-. unfold report in Hx. bind_inv Hx. destruct x0. by apply Ok_inj in Hx as <-.
  - destruct Hen as [[ev Hev'] Hfits]. cbn [reads] in Hfit.
    destruct (watched_open false e0 room s ev Hok Hev') as (Ho & Hst & _ & _).
    destruct (dispatch_outcome false auto_close cb bound bound_request bound_bad bound_int e0 room rv (set_in_loop true (conn s)))
      as [(c' & Hrun & Hout)|(Hrun & _)]; [done.. | lia | done | done | done | done | done | | ].
    + rewrite Hrun in H. cbn [mbind res_bind] in H. apply Ok_inj in H as <-. simpl.
      destruct (out_phase _ _ _ _ _ Hout) as [(_ & _ & ->)|(_ & _ & ->)]; [done|]. by rewrite app_nil_r.
    + rewrite Hrun in H. done.
  - destruct (functors (conn s)) as [|f fs] eqn:Ef; [apply Ok_inj in H as <-; by rewrite Ef|].
    apply not_elem_of_cons in Hno as [Hf Hfs]. bind_inv H. apply Ok_inj in H as <-. simpl.
    destruct f as [| |ptr len|]; cbn [run_functor] in Hx; [| done | by destruct (Hs ptr len); left |].
    + by rewrite (shutDownInLoop_functors _ _ Hx).
    + by rewrite (destructor_functors _ _ Hx).
  - by apply Ok_inj in H as <-.
Qed.

(** Shutting down a closed connection does not read its state. *)
Lemma shutDownInLoop_state st (c : Conn) :
  shutDownInLoop (set_state st c) = (c' ← shutDownInLoop c; Ok (set_state st c')).
Proof.
  unfold shutDownInLoop, assertInLoopThread, isWriting. simpl. destruct (in_loop c); [|done].
  cbn [mbind res_bind]. destruct (Epoll.deref _ _); [|done]. cbn [mbind res_bind]. by destruct (negb _).
Qed.

(** The destruction of a closed connection whose state says otherwise: its
    channel is added to the poller again, with no events, and removed. *)
Lemma destructor_overwritten e0 (c : Conn) :
  closed_ok e0 (Some (m_channel c)) c -> in_loop c = true -> m_state c = kDisconnecting ->
  exists c', connectionDestructor (connection_callback auto_close) c = Ok c' /\ closed_ok e0 None c' /\
    same (set_input (Buf.retrieveAll (m_input_buffer c)) c) c' /\ m_state c' = kDisconnected.
Proof.
  intros [(ch & Hc & Hi & Hfd & Hw) Hwf Hm Hfr Hwr] Hin Hst.
  unfold connectionDestructor, assertInLoopThread. rewrite Hin. cbn [mbind res_bind].
  rewrite decide_True by (by right). unfold on_channel, Epoll.disableAll. cbn [m_channel poller set_state].
  rewrite <- Hfd in Hm.
  destruct (Epoll.change_events_ok Chan.all_off (m_channel c) (poller c) ch Hwf Hc) as (k & Hrun & Hwf1);
    [exists ch; rewrite Hi; done | done|].
  rewrite Hrun. cbn [mbind res_bind]. unfold connection_callback, onConnection.
  set (ch1 := Epoll.updated (Chan.all_off ch)) in *. set (e1 := Epoll.with_channel _ _ _ _) in *.
  change (isConnected _) with false. cbn [mbind res_bind fst].
  assert (Epoll.channels e1 !! m_channel c = Some ch1) as Hc1 by apply lookup_insert_eq.
  assert (Epoll.m_channels e1 !! Chan.m_fd ch1 = Some (m_channel c)) as Hm1 by apply lookup_insert_eq.
  destruct (Epoll.removeChannel_ok (m_channel c) e1 ch1 Hwf1 Hc1 Hm1) as (e2 & Hrun2 & Hwf2 & _ & Hm2 & Hc2 & _).
  cbn [m_channel poller set_input set_poller set_state]. rewrite Hrun2. cbn [mbind res_bind].
  eexists. split; [done|]. split; [|by split].
  split; simpl; auto.
  - eexists. rewrite Hc2. split; [apply lookup_insert_eq|]. by split_and!.
  - rewrite Hm2, <- Hfd. apply lookup_delete_eq.
  - etrans; [exact Hfr|]. rewrite <- Hfd. change (Chan.m_fd ch) with (Chan.m_fd ch1).
    etrans; [apply (frame_with_channel (m_channel c) ch1 k (poller c))|].
    split; intros; [rewrite Hc2, lookup_insert_ne | rewrite Hm2, lookup_delete_ne]; done.
Qed.

(** Where no other thread wrote, the loop goes on as in Session.v. *)
Lemma loop_step_ok e0 room ev r :
  racing_ok e0 room r -> Session_ok e0 room (session r) ->
  (m_state (conn (session r)) <> kDisconnected -> removals r = 0%nat) ->
  can_race (InLoop ev) r -> kPrePendIndex <= room -> room + reads ev * bound <= INT_MAX ->
  (exists r' e1, racing_step (InLoop ev) r = Ok r' /\ racing_ok e1 (room + reads ev * bound) r') \/
  (headerless ev (session r) /\ racing_step (InLoop ev) r = Fault Undefined).
Proof.
  intros [_ Honce Hrm Hsh Hfo Hun] Hok Hopen [Hen Hev] Hlow Hfit. cbn [racing_step].
  destruct (step_ok false auto_close cb memory bound bound_request bound_bad bound_int ev e0 room _ Hok Hen Hlow Hfit)
    as [(s' & Hrun & Hok' & [Ffd Fch Fst])|[Hrun Hh]]; [left|right; by rewrite Hrun].
  pose proof (loop_functors e0 room ev _ s' Hok Hen Hev Hlow Hfit Hrun Hun) as Hun'.
  assert (removed s' = removed (session r)) as Hrem.
  { destruct ev; try contradiction; cbn [step] in Hrun; try (bind_inv Hrun); try (by apply Ok_inj in Hrun as <-).
    destruct (functors (conn (session r))); [by apply Ok_inj in Hrun as <-|]. bind_inv Hrun. by apply Ok_inj in Hrun as <-. }
  rewrite Hrun. cbn [mbind res_bind]. eexists _, (base ev e0). split; [done|].
  set (s := session r) in *.
  assert (called_close ev s s' = true -> removals r = 0%nat /\ removed s = false) as Hcall.
  { unfold called_close, isDisconnected. intros [[H1%negb_true_iff%bool_decide_eq_false H2%bool_decide_eq_true]%andb_true_iff _]%andb_true_iff.
    split; [auto|]. pose proof (ok_phase _ _ _ _ Hok) as Hph. unfold phase_ok in Hph.
    destruct (m_state (conn s)); [apply Hph.. | done]. }
  assert (m_state (conn s') <> kDisconnected -> called_close ev s s' = false) as Hno.
  { intros Hne. unfold called_close, isDisconnected. rewrite (bool_decide_eq_false_2 (m_state (conn s') = kDisconnected)) by done.
    by rewrite andb_false_r. }
  assert (m_state (conn s) = kDisconnected -> m_state (conn s') = kDisconnected) as Hend
    by (intros E; apply advance_end; by rewrite <- E).
  split; simpl.
  - left. split; [done|]. simpl. intros Hne. rewrite (Hno Hne). simpl. apply Hopen. auto.
  - destruct (called_close ev s s') eqn:E; [|done]. destruct (Hcall eq_refl) as [-> _]. done.
  - rewrite Hrem. destruct (called_close ev s s') eqn:E; [intros _; by apply Hcall | auto].
  - intros H. destruct (Hsh H) as [H1 H2]. rewrite Hrem. split; [done|].
    intros E. rewrite E in Fst. apply rtc_inv_r in Fst as [Fst|(y & _ & Hy)]; [done | inversion Hy].
  - done.
  - done.
Qed.

(** What the settled session says of the poller. *)
Lemma settled_unwatched e0 room (s : Sess) fd ev :
  Session_ok e0 room (settle s) -> interest (Epoll.kernel (poller (conn s))) !! fd <> Some (ev, m_channel (conn s)).
Proof.
  intros [_ Hph]. unfold phase_ok in Hph. simpl in Hph.
  destruct Hph as [(_&Hc&_)|[(_&Hc&_)|(_&Hc&_)]]; apply (closed_unwatched _ _ _ fd ev Hc).
Qed.

(** A step after which the closed connection's state is still overwritten. *)
Lemma overwritten_stays e0 e1 room ev r (s' : Sess) :
  racing_ok e0 room r -> shutting r = false -> m_state (conn (session r)) = kDisconnecting ->
  Step ev (session r) = Ok s' -> Session_ok e1 room (settle s') -> m_state (conn s') = kDisconnecting ->
  removed s' = removed (session r) -> (FForceCloseInLoop ∉ functors (conn s')) ->
  (removed s' = true -> functors (conn s') <> []) ->
  exists r' e1, racing_step (InLoop ev) r = Ok r' /\ racing_ok e1 room r'.
Proof.
  intros [_ Honce Hrm Hsh Hfo Hun] Hno Hst Hrun Hok' Hst' Hrem Hf Hl. cbn [racing_step].
  rewrite Hrun. cbn [mbind res_bind].
  assert (called_close ev (session r) s' = false) as ->.
  { unfold called_close, isDisconnected. by rewrite Hst, Hst'. }
  eexists _, e1. split; [done|].
  split; simpl; [right; by split_and! | done | by rewrite Hrem | congruence | done | done].
Qed.

(** The functors of a closed connection: the destruction comes last, and is
    there once the removal has come. *)
Lemma destruction_last e0 room f fs (s : Sess) :
  Session_ok e0 room s -> m_state (conn s) = kDisconnected -> functors (conn s) = f :: fs ->
  (f = FConnectionDestructor -> fs = [] /\ removed s = true /\ closed_ok e0 (Some (m_channel (conn s))) (conn s)) /\
  (f <> FConnectionDestructor -> removed s = true -> fs <> []).
Proof.
  intros Hok Hst Ef. pose proof (ok_phase _ _ _ _ Hok) as Hph. unfold phase_ok in Hph. rewrite Hst, Ef in Hph. split.
  - intros ->. destruct Hph as [(_&_&Hd)|[(Hrem&Hc&gs&Hgs&Hd)|(_&_&?)]]; [by destruct Hd; left | | done].
    split; [|done]. destruct gs as [|g gs]; [by injection Hgs|]. injection Hgs as E1 E2. destruct Hd. rewrite E1. by left.
  - intros Hf Hrem ->. rewrite Hrem in Hph. destruct Hph as [(?&_)|[(_&_&gs&Hgs&_)|(_&_&?)]]; [done | | done].
    destruct gs as [|g [|]]; [|done..]. by injection Hgs.
Qed.

(** The destruction sets the state right. *)
Lemma overwritten_destroyed e0 room r fs :
  racing_ok e0 room r -> m_state (conn (session r)) = kDisconnecting -> Session_ok e0 room (settle (session r)) ->
  shutting r = false -> functors (conn (session r)) = FConnectionDestructor :: fs ->
  exists r' e1, racing_step (InLoop RunFunctor) r = Ok r' /\ racing_ok e1 room r'.
Proof.
  intros [_ Honce Hrm Hsh Hfo Hun] Hst Hok Hno Ef. cbn [racing_step].
  destruct (destruction_last e0 room _ fs (settle (session r)) Hok eq_refl Ef) as [Hd _].
  destruct (Hd eq_refl) as (-> & Hrem & Hc).
  set (c := set_functors [] (set_in_loop true (conn (session r)))).
  destruct (destructor_overwritten e0 c) as (c' & Hrun & Hc' & Hsame & Hst'); [by eapply closed_ok_ext | done | done |].
  cbn [step]. rewrite Ef. cbn [run_functor]. fold c. rewrite Hrun. cbn [mbind res_bind].
  assert (called_close RunFunctor (session r) (mkSession c' (removed (session r))) = false) as ->.
  { unfold called_close. rewrite Ef. simpl. by rewrite andb_false_r. }
  pose proof (ok_fine _ _ _ _ Hok) as [Hi Ht Hr Hs]. destruct Hsame. simpl in *.
  eexists _, e0. split; [done|]. split; simpl; [left | done | done | congruence | done |].
  - simpl. split; [|by rewrite Hst']. split; [split; simpl|].
    + rewrite same_input0. apply retrieveAll_input; apply Hi.
    + by rewrite same_receive0.
    + by rewrite same_readings0.
    + intros ptr len. rewrite same_functors0. apply not_elem_of_nil.
    + unfold phase_ok. simpl. rewrite Hst', same_functors0. right; right. by split_and!.
  - rewrite same_functors0. apply not_elem_of_nil.
Qed.

(** A queued half-close runs as if the state were right. *)
Lemma overwritten_shuts e0 room r fs :
  racing_ok e0 room r -> m_state (conn (session r)) = kDisconnecting -> Session_ok e0 room (settle (session r)) ->
  shutting r = false -> functors (conn (session r)) = FShutDownInLoop :: fs ->
  exists r' e1, racing_step (InLoop RunFunctor) r = Ok r' /\ racing_ok e1 room r'.
Proof.
  intros Hr Hst Hok Hno Ef. pose proof (r_unforced _ _ _ Hr) as Hun.
  rewrite Ef in Hun. apply not_elem_of_cons in Hun as [_ Hfs].
  destruct (functor_closed false auto_close cb memory bound bound_request bound_bad bound_int e0 room _ fs (settle (session r)) Hok eq_refl Ef)
    as (s1 & Hrun1 & (Hok1 & _) & Ef1 & Hrem1).
  destruct (destruction_last e0 room _ fs (settle (session r)) Hok eq_refl Ef) as [_ Hlast].
  set (c := set_functors fs (set_in_loop true (conn (session r)))) in *.
  cbn [step settle conn functors set_state removed] in Hrun1. rewrite Ef in Hrun1. cbn [run_functor] in Hrun1.
  change (set_functors fs (set_in_loop true (set_state kDisconnected (conn (session r))))) with
    (set_state kDisconnected c) in Hrun1.
  rewrite shutDownInLoop_state in Hrun1. destruct (shutDownInLoop c) as [c'|] eqn:Ec; [|done].
  cbn [mbind res_bind] in Hrun1. apply Ok_inj in Hrun1 as <-. simpl in *.
  assert (m_state c' = kDisconnecting) as Hst'.
  { unfold shutDownInLoop in Ec. bind_inv Ec. bind_inv Ec. destruct (negb _); apply Ok_inj in Ec as <-; exact Hst. }
  apply (overwritten_stays e0 e0 room RunFunctor r (mkSession c' (removed (session r)))); try done; simpl.
  - rewrite Ef. cbn [run_functor]. fold c. by rewrite Ec.
  - by rewrite Ef1.
  - intros Hrem. rewrite Ef1. by apply Hlast.
Qed.

(** On a connection whose state was overwritten, too. *)
Lemma overwritten_step_ok e0 room ev r :
  racing_ok e0 room r -> m_state (conn (session r)) = kDisconnecting -> Session_ok e0 room (settle (session r)) ->
  shutting r = false -> (removed (session r) = true -> functors (conn (session r)) <> []) -> can_race (InLoop ev) r ->
  exists r' e1, racing_step (InLoop ev) r = Ok r' /\ racing_ok e1 room r'.
Proof.
  intros Hr Hst Hok Hno Hleft [Hen Hev]. pose proof (r_unforced _ _ _ Hr) as Hun.
  destruct ev as [|rev|rv| | | | |e]; try contradiction.
  - simpl in Hen. congruence.
  - destruct Hen as [ev Hev']. by destruct (settled_unwatched _ _ _ _ _ Hok Hev').
  - destruct Hen as [[ev Hev'] _]. by destruct (settled_unwatched _ _ _ _ _ Hok Hev').
  - destruct (functors (conn (session r))) as [|f fs] eqn:Ef.
    { apply (overwritten_stays e0 e0 room RunFunctor r (session r)); try done; rewrite ?Ef; try done. by cbn [step]; rewrite Ef. }
    destruct f as [| |ptr len|].
    + by apply (overwritten_shuts e0 room r fs).
    + destruct Hun. by left.
    + destruct (fine_sends _ (ok_fine _ _ _ _ Hok) ptr len). simpl. rewrite Ef. by left.
    + by apply (overwritten_destroyed e0 room r fs).
  - apply (overwritten_stays e0 e room (Others e) r (mkSession (set_poller e (conn (session r))) (removed (session r)))); try done.
    exact (session_others false e0 room (settle (session r)) e Hok Hen).
Qed.

(** The test of the idle check reads the clock twice, and nothing else is
    changed. *)
Definition after_readings (c : Conn) : Conn := (now (now c).2).2.

Lemma idle_test_ok (c : Conn) :
  time_ok (m_last_receive_time c) ->
  exists go, idle_test c = Ok (go, after_readings c) /\ (go = true -> m_state c = kConnected).
Proof.
  intros Ht. unfold idle_test, kIdleConnectionTimeOuts. rewrite (Ts.addTime_eight _ Ht). cbn [mbind res_bind].
  unfold now at 1. cbn [m_last_receive_time]. rewrite (Ts.addTime_eight _ Ht). cbn [mbind res_bind].
  eexists. split; [done|]. intros [_ H]%andb_true_iff. by apply bool_decide_eq_true in H.
Qed.

(** A session whose connection only read the clock. *)
Lemma readings_ok e0 room il (s : Sess) :
  Session_ok e0 room s -> m_state (conn s) <> kConnecting ->
  Session_ok e0 room (mkSession (after_readings (set_in_loop il (conn s))) (removed s)).
Proof.
  intros Hok Hst.
  enough (goes false e0 room s (Ok (mkSession (after_readings (set_in_loop il (conn s))) (removed s)))) as (s' & E & H & _)
    by (by apply Ok_inj in E as <-).
  destruct (phase_cases false e0 room s Hok Hst) as [[Ho Hopen]|Hcl].
  - eapply (open_session false e0 room _ [] s); eauto; try done; [by eapply open_ok_ext | by rewrite app_nil_r].
  - apply (closed_quiet false e0 room _ s Hok Hcl); [by split | done | exact Hcl].
Qed.

Lemma shut_set_ok e0 room (s : Sess) :
  Session_ok e0 room s -> m_state (conn s) = kConnected \/ m_state (conn s) = kDisconnecting ->
  Session_ok e0 room (mkSession (shut_set (conn s)) (removed s)).
Proof.
  intros Hok Hst.
  assert (m_state (conn s) <> kConnecting) as Hne by (destruct Hst; congruence).
  destruct (phase_cases false e0 room s Hok Hne) as [[Ho Hopen]|Hcl]; [|destruct Hst; congruence].
  enough (goes false e0 room s (Ok (mkSession (shut_set (conn s)) (removed s)))) as (s' & E & H & _)
    by (by apply Ok_inj in E as <-).
  eapply (open_session false e0 room _ [FShutDownInLoop] s); eauto; try done; by eapply open_ok_ext.
Qed.

(** Overwriting the state of a closed connection: its loop's view is as it was,
    with a functor more. *)
Lemma overwrite_ok e0 room (s : Sess) :
  Session_ok e0 room s -> m_state (conn s) = kDisconnected -> removed s = false ->
  Session_ok e0 room (settle (mkSession (shut_set (conn s)) (removed s))).
Proof.
  intros [[Hi Ht Hr Hs] Hph] Hst Hrem. unfold phase_ok in Hph. rewrite Hst in Hph.
  destruct Hph as [(_&Hc&Hd)|[(?&_)|(?&_)]]; [|congruence..]. split; [split|]; simpl; auto.
  - intros ptr len. rewrite not_elem_of_app. split; [apply Hs | by intros ?%list_elem_of_singleton].
  - unfold phase_ok. simpl. left. split_and!; [done | by eapply closed_ok_ext |].
    rewrite not_elem_of_app. split; [done | by intros ?%list_elem_of_singleton].
Qed.

(** The calls of the server's loop. *)
Lemma thread_step_ok e0 room e r :
  racing_ok e0 room r -> can_race e r ->
  match e with IdleTest | IdleSet | RemoveOne => True | _ => False end ->
  exists r', racing_step e r = Ok r' /\ racing_ok e0 room r'.
Proof.
  intros Hr Hcan He. pose proof Hr as [Ht Honce Hrm Hsh Hfo Hun].
  destruct e as [|  | | | |]; try contradiction; cbn [racing_step].
  - destruct Hcan as [Hst Hno].
    assert (time_ok (m_last_receive_time (conn (session r)))) as Htime.
    { destruct Ht as [(Hok & _)|(_ & Hok & _)]; apply (fine_receive _ (ok_fine _ _ _ _ Hok)). }
    destruct (idle_test_ok (set_in_loop false (conn (session r))) Htime) as (go & -> & Hgo). cbn [mbind res_bind].
    eexists. split; [done|]. split; simpl; try done.
    + destruct Ht as [(Hok & Hopen)|(Hd & Hok & _ & Hl)].
      * left. split; [by apply readings_ok | exact Hopen].
      * right. simpl. split; [done|]. split; [by apply (readings_ok e0 room false (settle (session r)))|].
        split; [|exact Hl]. destruct go; [|done]. specialize (Hgo eq_refl). simpl in Hgo. congruence.
    + intros ->. specialize (Hgo eq_refl). simpl in Hgo. split; [|by rewrite Hgo].
      destruct Ht as [(Hok & _)|(Hd & _)]; [|congruence].
      pose proof (ok_phase _ _ _ _ Hok) as Hph. unfold phase_ok in Hph. rewrite Hgo in Hph. apply Hph.
  - destruct (shutting r) eqn:Es; [|by exists r]. destruct (Hsh eq_refl) as [Hrem Hne].
    eexists. split; [done|]. split; simpl; try done.
    + destruct Ht as [(Hok & Hopen)|(_ & _ & ? & _)]; [|congruence].
      destruct (decide (m_state (conn (session r)) = kDisconnected)) as [E|E].
      * right. split_and!; [done | by apply overwrite_ok | done | simpl; congruence].
      * left. split; [|auto]. apply shut_set_ok; [done|]. destruct (m_state (conn (session r))); auto; done.
    + rewrite not_elem_of_app. split; [done | by intros ?%list_elem_of_singleton].
  - destruct Hcan as [Hpos Hno]. specialize (Hrm Hpos). eexists. split; [done|].
    assert (forall s, Session_ok e0 room s -> m_state (conn s) = kDisconnected -> removed s = false ->
      Session_ok e0 room (mkSession (queueInLoop FConnectionDestructor (conn s)) true)) as Hremove.
    { intros s Hok Hst Hrem. destruct (remove_ok false auto_close cb memory bound bound_request bound_bad bound_int e0 room s Hok)
        as (s' & E & H & _); [done|]. cbn [step] in E. by apply Ok_inj in E as <-. }
    split; simpl; try done; [| lia | lia | congruence |].
    + destruct Ht as [(Hok & Hopen)|(Hd & Hok & _)].
      * destruct (decide (m_state (conn (session r)) = kDisconnected)) as [E|E]; [|specialize (Hopen E); lia].
        left. simpl. split; [by apply Hremove | done].
      * right. split; [done|]. split; [exact (Hremove (settle (session r)) Hok eq_refl Hrm)|]. split; [done|].
        intros _. simpl. by destruct (functors (conn (session r))).
    + rewrite not_elem_of_app. split; [done | by intros ?%list_elem_of_singleton].
Qed.

Definition forces (e : racing_event) : bool := match e with ForceTest | ForceSet => true | _ => false end.

Lemma racing_step_ok e0 room e r :
  racing_ok e0 room r -> can_race e r -> forces e = false -> kPrePendIndex <= room ->
  room + race_reads e * bound <= INT_MAX ->
  (exists r' e1, racing_step e r = Ok r' /\ racing_ok e1 (room + race_reads e * bound) r') \/
  (exists ev, e = InLoop ev /\ headerless ev (session r) /\ racing_step e r = Fault Undefined).
Proof.
  intros Hr Hcan He Hlow Hfit. pose proof (zlen_nonneg bad_request).
  destruct e as [ev| | | | |]; try done.
  - cbn [race_reads] in *. pose proof (r_tells _ _ _ Hr) as [(Hok & Hopen)|(Hst & Hok & Hno & Hl)].
    + destruct (loop_step_ok e0 room ev r Hr Hok Hopen Hcan Hlow Hfit) as [?|[? ?]]; [by left | right; by exists ev].
    + left. destruct (overwritten_step_ok e0 room ev r Hr Hst Hok Hno Hl Hcan) as (r' & e1 & Hrun & Hr').
      exists r', e1. split; [done|]. destruct Hr' as [Ht' ? ? ? ? ?]. split; try done.
      assert (room <= room + reads ev * bound) as Hle by (destruct ev; simpl; lia).
      destruct Ht' as [(Ho & ?)|(? & Ho & ? & ?)]; [left | right]; split_and!; try done;
        by eapply session_weaken.
  - left. destruct (thread_step_ok e0 room IdleTest r Hr Hcan I) as (r' & ? & ?). exists r', e0. cbn [race_reads]. by rewrite Z.mul_0_l, Z.add_0_r.
  - left. destruct (thread_step_ok e0 room IdleSet r Hr Hcan I) as (r' & ? & ?). exists r', e0. cbn [race_reads]. by rewrite Z.mul_0_l, Z.add_0_r.
  - left. destruct (thread_step_ok e0 room RemoveOne r Hr Hcan I) as (r' & ? & ?). exists r', e0. cbn [race_reads]. by rewrite Z.mul_0_l, Z.add_0_r.
Qed.

Lemma race_reads_nonneg e : 0 <= race_reads e.
Proof. by destruct e as [[]| | | | |]. Qed.

Lemma all_race_reads_nonneg es : 0 <= all_race_reads es.
Proof. induction es as [|e es IH]; simpl; [done | pose proof (race_reads_nonneg e); lia]. Qed.

Lemma racing_run_ok es : forall e0 room r,
  racing_ok e0 room r -> may_race es r -> forallb (fun e => negb (forces e)) es = true ->
  kPrePendIndex <= room -> room + all_race_reads es * bound <= INT_MAX ->
  (exists r' e1, racing_run es r = Ok r' /\ racing_ok e1 (room + all_race_reads es * bound) r') \/
  (exists es1 ev es2 r1, es = es1 ++ InLoop ev :: es2 /\ racing_run es1 r = Ok r1 /\ headerless ev (session r1)).
Proof.
  pose proof (zlen_nonneg bad_request).
  induction es as [|e es IH]; intros e0 room r Hr Hcan Hf Hlow Hfit; cbn [racing_run all_race_reads forallb] in *.
  { left. exists r, e0. by rewrite Z.add_0_r. }
  destruct Hcan as [He Hcan]. apply andb_true_iff in Hf as [Hfe%negb_true_iff Hf].
  pose proof (race_reads_nonneg e). pose proof (all_race_reads_nonneg es).
  destruct (racing_step_ok e0 room e r Hr He Hfe Hlow) as [(r1 & e1 & Hrun & Hr1)|(ev & -> & Hh & _)]; [nia | |].
  - rewrite Hrun. cbn [mbind res_bind].
    destruct (IH e1 _ r1 Hr1 (Hcan _ Hrun) Hf) as [(r' & e2 & Hrun' & Hr')|(es1 & ev & es2 & r2 & -> & Hrun2 & Hh)];
      [nia | nia | left | right].
    + exists r', e2. split; [done|]. by replace (room + (race_reads e + all_race_reads es) * bound)
        with (room + race_reads e * bound + all_race_reads es * bound) by lia.
    + exists (e :: es1), ev, es2, r2. cbn [app racing_run]. rewrite Hrun. by split_and!.
  - right. by exists [], ev, es, r.
Qed.

(** ** Properties *)


End WithKernel.

(** ** Witnesses *)

Abbreviation table := (gmap Z (Z * chan_ptr)).
Abbreviation racing0 := (race_opening Opened).
Abbreviation Race_step := (racing_step true resCallback (fun _ _ => [])).
Abbreviation Race_run := (racing_run true resCallback (fun _ _ => [])).
Abbreviation May_race := (may_race true resCallback (fun _ _ => [])).

Definition raced (r : res (@Racing table)) : Racing := match r with Ok r => r | Fault _ => racing0 end.

Lemma may_race_cons e es r : can_race e r -> May_race es (raced (Race_step e r)) -> May_race (e :: es) r.
Proof. intros He Hes. split; [done|]. intros r' E. by rewrite E in Hes. Qed.

Ltac races :=
  apply may_race_cons;
  [first [exact I | by vm_compute | by split; [vm_compute; lia | by vm_compute] | by split; vm_compute
         | split; [first [exact I | by vm_compute | by vm_compute; eexists | split; [by vm_compute; eexists | by vm_compute]] | exact I]] |].

(** [forceClose] has found the connection open when the end of its input closes
    it; then it sets the state of the closed connection, and the loop closes it
    again. *)
Definition forced_twice : list (@racing_event table) :=
  [InLoop Established; ForceTest; InLoop (Reported (Z.lor EPOLLIN EPOLLRDHUP)); InLoop (Dispatched (ReadvOk []));
   ForceSet; InLoop RunFunctor; RemoveOne; RemoveOne; InLoop RunFunctor; InLoop RunFunctor].

Lemma forced_twice_may : May_race forced_twice racing0.
Proof. unfold forced_twice. do 10 races. done. Qed.


(** A silent client: the idle check (the clock shows a fresh second) finds it
    connected, its end of input comes, and then the check goes on. *)
Definition late_second (k : nat) : Ts.Timestamp := Ts.mkTimestamp (if (k =? 0)%nat then 0 else 9000000000).

Definition idle_opened : @Session table := opening false no_channels two_bytes late_second true 1%positive 7 0.

Definition check_meets_close : list (@racing_event table) :=
  [InLoop Established; IdleTest; InLoop (Reported (Z.lor EPOLLIN EPOLLRDHUP)); InLoop (Dispatched (ReadvOk []));
   IdleSet; RemoveOne; InLoop RunFunctor; InLoop RunFunctor].

Lemma check_meets_close_may : May_race check_meets_close (race_opening idle_opened).
Proof. unfold check_meets_close. do 8 races. done. Qed.

Lemma can_open_late : can_open no_channels two_bytes late_second 1%positive 7.
Proof.
  split; try done.
  - intros j len Hlen. simpl. lia.
  - intros k. unfold late_second, time_ok. simpl. by destruct (k =? 0)%nat.
Qed.

(** The state of the closed connection is overwritten on the way. *)
Example check_overwrites :
  match Race_run (firstn 5 check_meets_close) (race_opening idle_opened) with
  | Ok r => m_state (conn (session r)) = kDisconnecting /\ removals r = 1%nat
  | Fault _ => False
  end.
Proof. by vm_compute. Qed.


End Race.
