(* ===== verification/Visit.v ===== *)
(** * Visit: one request, from the socket to the socket

    A client connects, its request arrives in one read, and the loop reports
    the socket writable as often as the answer needs: what the events of
    Session.v then do, from the bytes that come in to the bytes that go out,
    whatever part of the answer each [write] takes. *)

From Stdlib Require Import ZArith Lia Ascii String.
From stdpp Require Import options.
From S2P Require Import Prelude CStd Buffer HttpRequest HttpRequestParser HttpResponse Channel Epoller Timestamp TcpConnection HttpServer TcpSafety Session.

#[local] Set Default Proof Using "Type*".

Module Visit.
Import Request Tcp Server Safe Life.

Section WithKernel.
Context {K : Type} `{!EpollKernel K}.
Context (same_loop auto_close : bool).
Context (cb : HttpRequest -> Response.HttpResponse -> Response.HttpResponse).
Context (memory : Z -> Z -> bytes).

Abbreviation Sess := (@Session K).
Abbreviation Step := (step same_loop auto_close cb memory).
Abbreviation Run := (run same_loop auto_close cb memory).
Abbreviation Possible := (possible same_loop auto_close cb memory).
Abbreviation Ok_session := (session_ok same_loop).

(** The loop's answer to a writable socket: the report, then the handlers. *)
Definition round : list (@event K) := [Reported EPOLLOUT; Dispatched (ReadvErr EAGAIN)].

(** The kernel watches the connection for writability, and a round runs. *)
Definition writable (s s' : Sess) : Prop :=
  (exists ev, interest (Epoll.kernel (poller (conn s))) !! m_conn_fd (conn s) = Some (ev, m_channel (conn s)) /\
     Chan.has_bits ev EPOLLOUT = true) /\
  Possible round s /\ Run round s = Ok s'.

(** ** Lemmas: the events of a visit *)

Lemma conn_inv_state (c : TcpConnection K) st : conn_inv c st -> m_state c = kConnected \/ m_state c = kDisconnecting.
Proof. intros [_ _ _ _ _ -> _]. destruct (st.1); auto. Qed.

Lemma in_loop_id (c : TcpConnection K) : in_loop c = true -> set_in_loop true c = c.
Proof. intros H. destruct c; simpl in *. by subst. Qed.

(** The responses are bounded. *)
Context (bound : Z).
Hypothesis bound_request : forall r close, zlen (Response.serialize (cb r (Response.new close))) <= bound.
Hypothesis bound_bad : zlen bad_request <= bound.
Hypothesis bound_int : bound + 2 * kPrePendIndex <= INT_MAX.

(** The channel of an open session, in the poller and in the kernel. *)
Lemma session_open e0 room s st :
  Ok_session e0 room s -> conn_inv (conn s) st ->
  open_ok e0 room (conn s) /\ exists ch, live (conn s) ch /\ Chan.m_tied ch = true /\
    Chan.isWriting ch = bool_decide (Buf.content (m_output_buffer (conn s)) <> []) /\
    interest (Epoll.kernel (poller (conn s))) !! m_conn_fd (conn s) = Some (Chan.m_events ch, m_channel (conn s)).
Proof.
  intros Hok Hinv. pose proof (conn_inv_state _ _ Hinv) as Hst.
  destruct (phase_cases _ _ _ _ Hok) as [[Ho _]|Hd]; [destruct Hst; congruence | | destruct Hst; congruence].
  rewrite in_loop_id in Ho by apply Hinv. split; [done|].
  destruct Ho as [(ch & Hl & Ht & Hfd & Hw) _ _ _ _ _]. exists ch. split_and!; [done..|].
  pose proof Hl as [Hp Hc Hi _]. rewrite (Epoll.wf_kernel _ Hp), <- Hfd, (Epoll.watched_at _ _ (m_channel (conn s)) ch); [| |done].
  - by rewrite decide_True.
  - by apply Epoll.wf_added.
Qed.

(** A connection after the poller stored the events [rev] in its channel. *)
Record reported (rev : Z) (s s' : Sess) : Prop := {
  rep_conn : exists e, conn s' = set_poller e (conn s);
  rep_chan : exists ch, Epoll.channels (poller (conn s')) !! m_channel (conn s') = Some ch /\
    Chan.m_revents ch = rev /\ Chan.m_tied ch = true
}.

Lemma report_step rev e0 room s st :
  Ok_session e0 room s -> conn_inv (conn s) st ->
  enabled (Reported rev) s /\ exists s', Step (Reported rev) s = Ok s' /\ Ok_session e0 room s' /\
    conn_inv (conn s') st /\ reported rev s s' /\ removed s' = removed s.
Proof.
  intros Hok Hinv. destruct (session_open _ _ _ _ Hok Hinv) as (_ & ch & Hl & Ht & Hw & Hk).
  assert (enabled (Reported rev) s) as Hen by (eexists; exact Hk). split; [done|].
  destruct (reported_ok same_loop auto_close cb memory bound bound_request bound_bad bound_int e0 room rev s Hok Hen) as (s' & Hrun & Hok' & _). exists s'.
  pose proof Hl as [Hp Hc Hi Hr]. pose proof Hrun as Hrun'. cbn [step] in Hrun'. unfold report in Hrun'.
  rewrite in_loop_id in Hrun' by apply Hinv. cbn [Epoll.poll Epoll.fillActiveChannels] in Hrun'.
  rewrite (Epoll.deref_Ok _ _ _ Hc) in Hrun'. cbn [mbind res_bind] in Hrun'. apply Ok_inj in Hrun' as <-.
  split_and!; [done | done | | | done].
  - destruct Hinv as [Hin _ Hwf Hsock Hwire Hst Hshut]. split; simpl; auto.
    exists (Chan.setRevents rev ch). split; [|done].
    split; simpl; [by apply Epoll.set_revents_wf | apply lookup_insert_eq | done..].
  - split; [by eexists|]. simpl. exists (Chan.setRevents rev ch). by rewrite lookup_insert_eq.
Qed.

(** The handler of a channel with the events [EPOLLIN], and [EPOLLOUT]. *)
Lemma dispatch_reads rv s s' :
  reported EPOLLIN s s' ->
  dispatch same_loop auto_close cb rv (conn s') =
    handleRead (message_callback auto_close cb) (close_callback same_loop) rv (conn s').
Proof.
  intros [_ (ch & Hc & Hr & Ht)]. unfold dispatch. rewrite (Epoll.deref_Ok _ _ _ Hc). cbn [mbind res_bind].
  unfold Chan.handleEvent. rewrite Ht, Hr. unfold Chan.handleEventWithGuard. simpl.
  by destruct (handleRead _ _ _ _).
Qed.

Lemma dispatch_writes rv s s' :
  reported EPOLLOUT s s' -> dispatch same_loop auto_close cb rv (conn s') = handleWrite (conn s').
Proof.
  intros [_ (ch & Hc & Hr & Ht)]. unfold dispatch. rewrite (Epoll.deref_Ok _ _ _ Hc). cbn [mbind res_bind].
  unfold Chan.handleEvent. by rewrite Ht, Hr.
Qed.

(** One round with bytes pending: one write. *)
Lemma round_ok e0 room s st :
  Ok_session e0 room s -> kPrePendIndex <= room -> conn_inv (conn s) st ->
  let out := Buf.content (m_output_buffer (conn s)) in out <> [] ->
  exists s', writable s s' /\ Ok_session e0 room s' /\ conn_inv (conn s') st /\
    writes (conn s') = writes (conn s) /\ written (conn s') = S (written (conn s)) /\
    Buf.content (m_output_buffer (conn s')) = drop (taken (writes (conn s) (written (conn s)) (zlen out))) out.
Proof.
  intros Hok Hroom Hinv out Hne. destruct (session_open _ _ _ _ Hok Hinv) as (_ & ch & _ & _ & Hw & Hk).
  destruct (report_step EPOLLOUT _ _ _ _ Hok Hinv) as (Hen & s1 & Hs1 & Hok1 & Hinv1 & Hrep & Hrem).
  pose proof (rep_conn _ _ _ Hrep) as [e1 Ec1]. assert (in_loop (conn s1) = true) as Hin1 by apply Hinv1.
  destruct (session_open _ _ _ _ Hok1 Hinv1) as (Ho1 & ch1 & _ & _ & _ & Hk1).
  destruct (handleWrite_pending (conn s1) st Hinv1) as (c2 & Hc2 & Hinv2 & Ew & En & Eb); [by rewrite Ec1|].
  assert (Step (Dispatched (ReadvErr EAGAIN)) s1 = Ok (mkSession c2 (removed s1))) as Hs2.
  { cbn [step]. rewrite in_loop_id by done. by rewrite (dispatch_writes _ s s1 Hrep), Hc2. }
  assert (outcome same_loop e0 room (conn s1) (conn s1)) as Hself.
  { destruct Hok1 as [[? ? ? ?] _]. split; try done. left. auto. }
  destruct (handleWrite_outcome same_loop e0 room (conn s1) (conn s1) Hself Hin1 Hroom) as (c2' & Hc2' & Hout).
  rewrite Hc2 in Hc2'. apply Ok_inj in Hc2' as <-.
  assert ((FConnectionDestructor ∉ functors (conn s1)) /\ removed s1 = same_loop) as [Hd Hrem1].
  { by destruct (watched_open _ _ _ _ _ Hok1 Hk1) as (_ & _ & ?). }
  destruct (outcome_session same_loop e0 room (conn s1) c2 s1 Hout) as [Hok2 _];
    [by eapply conn_inv_state | done | done | apply Hok1 | done | done | done |].
  exists (mkSession c2 (removed s1)). rewrite Ec1 in Ew, En, Eb. split_and!; try done.
  split_and!.
  - eexists. split; [exact Hk|]. change (Chan.isWriting ch = true). rewrite Hw. by apply bool_decide_eq_true_2.
  - unfold round. cbn [possible]. split; [done|]. intros s1' E. rewrite Hs1 in E. apply Ok_inj in E as <-.
    split; [|done]. split; [eauto | done].
  - unfold round. cbn [run]. rewrite Hs1. cbn [mbind res_bind]. by rewrite Hs2.
Qed.

(** Rounds until nothing is pending.  From the write number [N] on, a writable
    socket takes something. *)
Lemma rounds_ok N m : forall e0 room s st,
  Ok_session e0 room s -> kPrePendIndex <= room -> conn_inv (conn s) st ->
  (forall k len, (N <= k)%nat -> 0 < len -> (0 < taken (writes (conn s) k len))%nat) ->
  (N - written (conn s) + length (Buf.content (m_output_buffer (conn s))) <= m)%nat ->
  exists n s', (n <= m)%nat /\ nsteps writable n s s' /\ conn_inv (conn s') st /\
    Buf.content (m_output_buffer (conn s')) = [].
Proof.
  induction m as [|m IH]; intros e0 room s st Hok Hroom Hinv Hprog Hm.
  { exists 0%nat, s. split_and!; [lia | constructor | done | apply nil_length_inv; lia]. }
  destruct (decide (Buf.content (m_output_buffer (conn s)) = [])) as [E|E].
  { exists 0%nat, s. split_and!; [lia | constructor | done | done]. }
  destruct (round_ok _ _ _ _ Hok Hroom Hinv E) as (s1 & Hw & Hok1 & Hinv1 & Ew & En & Eb).
  set (out := Buf.content (m_output_buffer (conn s))) in *.
  assert (0 < zlen out) as Hpos.
  { pose proof (zlen_nonneg out). enough (zlen out <> 0) by lia. intros Hz. by apply E, zlen_nil_inv. }
  destruct (IH e0 room s1 st Hok1 Hroom Hinv1) as (n & s' & Hn & Hsteps & Hrest).
  - by rewrite Ew.
  - rewrite En, Eb, length_drop. destruct (decide (N <= written (conn s))%nat) as [Hge|Hlt]; [|lia].
    pose proof (Hprog _ _ Hge Hpos). unfold zlen in Hpos. lia.
  - exists (S n), s'. split; [lia|]. split; [by econstructor | done].
Qed.

(** The first event: the connection is open, its parser and buffers fresh. *)
Lemma established_open e w r il p fd id :
  Epoll.wf e -> can_open e w r p fd ->
  (forall k len, 0 <= len -> match w k len with Wrote n => 0 <= n <= len | WriteErr e => e <> EPIPE /\ e <> ECONNRESET end) ->
  let s0 := opening same_loop e w r il p fd id in
  exists s1, Step Established s0 = Ok s1 /\
    Ok_session (Epoll.set_channel p (Chan.new fd) e) kPrePendIndex s1 /\ conn_inv (conn s1) (true, []) /\
    m_parser (conn s1) = Parser.new /\ m_output_buffer (conn s1) = Buf.new kInitialSize /\
    m_input_buffer (conn s1) = Buf.retrieveAll (Buf.new kInitialSize) /\ writes (conn s1) = w.
Proof.
  intros Hwf Hopen Hsock s0. pose proof (opening_ok same_loop e w r il p fd id Hwf Hopen) as Hok0.
  destruct (established_ok same_loop auto_close cb memory bound bound_request bound_bad bound_int _ kPrePendIndex s0 Hok0) as (s1 & Hrun & Hok1 & _); [done | done|].
  exists s1. split; [done|]. split; [done|].
  set (c := set_in_loop true (conn s0)). assert (Epoll.wf (poller c)) as Hwfc by (apply Epoll.wf_new_channel; [exact Hwf | apply Hopen | done]).
  destruct (connectionEstablished_ok (connection_callback auto_close) c (Chan.new fd)) as (k & Hest & Hwf'); [done | done | | done | |].
  { apply lookup_insert_eq. }
  { apply Hopen. }
  cbn [step] in Hrun. fold c in Hrun. rewrite Hest in Hrun. unfold connection_callback, onConnection in Hrun. simpl in Hrun.
  apply Ok_inj in Hrun as <-. simpl.
  destruct (Chan.reading_on_bits (Chan.Tie (Chan.new fd))) as [Hr1 Hr2].
  split_and!; [|done..]. split; simpl; try done.
  - eexists. split; [split; simpl; [done | apply lookup_insert_eq | done | exact Hr1]|]. done.
  - apply not_elem_of_nil.
Qed.

(** A fresh output buffer takes any response. *)
Lemma fresh_room (c : TcpConnection K) msg :
  m_output_buffer c = Buf.new kInitialSize -> zlen msg + 2 * kPrePendIndex <= INT_MAX -> room_for (OpSend msg) c.
Proof.
  intros Hfresh Hmsg. split; rewrite Hfresh; [unfold kPrePendIndex in *; simpl; lia|].
  intros n Hn. unfold Buf.compacts. apply andb_false_iff.
  destruct (Z.ltb_spec (Buf.writeableBytes (Buf.new kInitialSize)) n) as [Hbig|]; [right | by left].
  apply Z.leb_gt. change (Buf.writeableBytes (Buf.new kInitialSize)) with 1024 in *.
  change (Buf.prependableBytes (Buf.new kInitialSize)) with 0. unfold kPrePendIndex. lia.
Qed.

(** A read with bytes in it gives them to [onMessage]. *)
Lemma read_step s s1 data b :
  reported EPOLLIN s s1 -> in_loop (conn s1) = true -> data <> [] ->
  Buf.readFd (ReadvOk data) 0 (m_input_buffer (conn s1)) = Ok (b, zlen data) ->
  Step (Dispatched (ReadvOk data)) s1 =
    (c ← onMessage auto_close cb (set_input b (conn s1)); Ok (mkSession c (removed s1))).
Proof.
  intros Hrep Hin Hne Hread. cbn [step]. rewrite in_loop_id by done. rewrite (dispatch_reads _ s s1 Hrep).
  unfold handleRead, assertInLoopThread. rewrite Hin. cbn [mbind res_bind]. rewrite Hread. cbn [mbind res_bind].
  rewrite (proj2 (Z.ltb_lt _ _)); [done|]. pose proof (zlen_nonneg data).
  enough (zlen data <> 0) by lia. intros Hz. by apply Hne, zlen_nil_inv.
Qed.

(** The request is read whole and answered. *)
Lemma request_step e0 room s line m t ver hs h :
  Ok_session e0 room s -> kPrePendIndex <= room -> room + bound <= INT_MAX ->
  conn_inv (conn s) (true, []) -> m_parser (conn s) = Parser.new ->
  m_output_buffer (conn s) = Buf.new kInitialSize -> m_input_buffer (conn s) = Buf.retrieveAll (Buf.new kInitialSize) ->
  request_line line m t ver -> CR ∉ line -> Forall Parser.header_ok hs ->
  zlen (Parser.render_request line hs) <= Buf.extrabuf_size ->
  let r := Parser.set_headers hs (setVersion ver (set_target t (setMethod (method_name m) Request.new))) in
  m_headers r !! bs "Connection" = Some h ->
  let resp := cb r (Response.new (wants_close r h)) in
  let read := [Reported EPOLLIN; Dispatched (ReadvOk (Parser.render_request line hs))] in
  exists s', Possible read s /\ Run read s = Ok s' /\ Ok_session e0 (room + bound) s' /\
    conn_inv (conn s') (negb (Response.closeConnection resp), Response.serialize resp) /\
    writes (conn s') = writes (conn s).
Proof.
  intros Hok Hlow Hroom Hinv Hp Hout Hin Hl Hcr Hhs Hlen r Hh resp read.
  set (request := Parser.render_request line hs) in *.
  destruct (report_step EPOLLIN _ _ _ _ Hok Hinv) as (Hen & s1 & Hs1 & Hok1 & Hinv1 & Hrep & Hrem).
  pose proof (rep_conn _ _ _ Hrep) as [e1 Ec1].
  destruct (session_open _ _ _ _ Hok1 Hinv1) as (Ho1 & ch1 & _ & _ & _ & Hk1).
  assert (Buf.readv_fits request (m_input_buffer (conn s1))) as Hfit.
  { rewrite Ec1. simpl. rewrite Hin. unfold Buf.readv_fits. etrans; [exact Hlen | by vm_compute]. }
  assert (enabled (Dispatched (ReadvOk request)) s1) as Hen1 by (split; [eauto | done]).
  assert (input_ok (m_input_buffer (conn s1))) as Hinput by apply Hok1.
  destruct (readFd_input request _ Hinput Hfit) as (b & Hread & Hwfb & Hcb & Hsz & _).
  set (c1 := set_input b (conn s1)).
  assert (conn_inv c1 (true, [])) as Hinvc by (by eapply conn_inv_same).
  assert (zlen (Response.serialize resp) + 2 * kPrePendIndex <= INT_MAX) as Hbound
    by (pose proof (bound_request r (wants_close r h)) as Hb; fold resp in Hb; lia).
  destruct (request_answered auto_close cb c1 [] line m t ver hs h Hinvc) as (c2 & Hc2 & Hinv2);
    [unfold c1; simpl; by rewrite Ec1 | done.. | by apply fresh_room; [unfold c1; simpl; rewrite Ec1|] |].
  fold r resp in Hc2, Hinv2.
  assert (Step (Dispatched (ReadvOk request)) s1 = Ok (mkSession c2 (removed s1))) as Hs2.
  { rewrite (read_step s s1 request b Hrep (inv_loop _ _ Hinv1)); [by fold c1; rewrite Hc2 | | done].
    unfold request, Parser.render_request. by destruct line. }
  exists (mkSession c2 (removed s1)). split_and!.
  - split; [done|]. intros s1' E. rewrite Hs1 in E. apply Ok_inj in E as <-. by split.
  - unfold read. cbn [run]. rewrite Hs1. cbn [mbind res_bind]. by rewrite Hs2.
  - destruct (dispatched_ok same_loop auto_close cb memory bound bound_request bound_bad bound_int e0 room (ReadvOk request) s1)
      as [(s2 & E & H & _)|[E _]]; [done..| |]; rewrite Hs2 in E; [by apply Ok_inj in E as <- | done].
  - exact Hinv2.
  - destruct (onMessage_open auto_close cb bound bound_request bound_bad bound_int e0 room c1) as [(c' & Hrun & _ & Hk & _)|[Hrun _]];
      [by eapply open_ok_ext | | lia | done | done | done | | | |].
    + simpl. pose proof (conn_inv_state _ _ Hinvc) as Hst. unfold c1 in Hst. simpl in Hst. destruct Hst; congruence.
    + intros k. apply Hok1.
    + apply Hok1.
    + unfold message_callback in Hrun. rewrite Hc2 in Hrun. apply Ok_inj in Hrun as ->. simpl.
      rewrite (kept_writes _ _ Hk). unfold c1. simpl. by rewrite Ec1.
    + unfold message_callback in Hrun. congruence.
Qed.

(** ** Lemmas: the idle check *)

(** When the last message came, and what the clock says at the test of the
    next idle check, in nanoseconds; eight seconds. *)
Definition last_message (s : Sess) : Z := Ts.m_time_point (m_last_receive_time (conn s)).
Definition next_check (s : Sess) : Z := Ts.m_time_point (readings (conn s) (S (clock (conn s)))).
Definition eight : Z := 8000000000.

Lemma idle_decides e0 room s :
  Ok_session e0 room s -> m_state (conn s) = kConnected ->
  exists s', Step Idle s = Ok s' /\
    m_state (conn s') = if last_message s + eight <? next_check s then kDisconnecting else kConnected.
Proof.
  intros Hok Hst. cbn [step]. unfold handleIdleConnection, kIdleConnectionTimeOuts, now, last_message, next_check, eight.
  cbn [m_last_receive_time set_in_loop].
  rewrite (Ts.addTime_eight (m_last_receive_time (conn s))) by apply Hok.
  generalize (double_of_Z 8). intros t. simpl. set (c1 := mkConn _ _ _ _ _ _ _ _ _ _ _ _ _ _ _ _ _).
  unfold Ts.lt. simpl. destruct (_ <? _); [|eexists; by split].
  destruct (phase_cases _ _ _ _ Hok) as [[Ho _]|Hcl]; [congruence | | congruence].
  unfold shutDown. rewrite decide_True by done. change (in_loop (set_state kDisconnecting c1)) with same_loop.
  destruct same_loop; [|eexists; by split].
  destruct (shutDownInLoop_open e0 room (set_state kDisconnecting c1)) as (c2 & -> & _ & _ & Hst2);
    [eapply open_ok_ext; [exact Ho|..]; done|].
  eexists. by split.
Qed.

Lemma session_possible_app es1 es2 s :
  Possible (es1 ++ es2) s -> Possible es1 s /\ forall s1, Run es1 s = Ok s1 -> Possible es2 s1.
Proof.
  revert s. induction es1 as [|ev es1 IH]; intros s; cbn [app possible run].
  { intros H. split; [done|]. by intros s1 [= <-]. }
  intros [He H]. split.
  - split; [done|]. intros s1 E. by apply IH, H.
  - intros s1 E. destruct (Step ev s) as [s2|] eqn:E2; [|done]. cbn [mbind res_bind] in E. by eapply IH; [apply H|].
Qed.

Lemma run_keeps es e0 room s s' :
  Ok_session e0 room s -> Possible es s -> kPrePendIndex <= room -> room + all_reads es * bound <= INT_MAX ->
  Run es s = Ok s' -> Ok_session (poller (conn s')) (room + all_reads es * bound) s' /\ follows s s'.
Proof.
  intros Hok Hpos Hlow Hfit Hrun.
  destruct (run_ok same_loop auto_close cb memory bound bound_request bound_bad bound_int es _ _ _ Hok Hpos Hlow Hfit)
    as [(s2 & E & H)|(? & ? & ? & ? & _ & _ & _ & _ & E)]; rewrite Hrun in E; [by apply Ok_inj in E as <- | done].
Qed.

Lemma advance_connected st : rtc advance st kConnected -> st <> kConnecting -> st = kConnected.
Proof.
  intros H. remember kConnected as y eqn:Ey. induction H as [|st1 st2 st3 Hstep _ IH]; [done|]. subst st3.
  intros Hne. specialize (IH eq_refl). inversion Hstep; subst; [done|..]; by discriminate IH.
Qed.

Lemma advance_not_back : ~ rtc advance kDisconnecting kConnected.
Proof. intros H. by discriminate (advance_connected _ H). Qed.

(** ** Properties *)

(** A visitor is served.  A client connects and sends a request with a
    Connection header in one packet; its socket takes any part of each write,
    or refuses it, but from some write on takes something.  Then no handler
    fails; as long as bytes are pending the kernel watches the socket for
    writability; and after a bounded number of writable reports the bytes on
    the wire are exactly the serialised response of the callback to the
    request, followed by the half-close if the response asks for it and by
    nothing otherwise. *)
Theorem visitor_served e w r il p fd id N line m t ver hs h :
  Epoll.wf e -> can_open e w r p fd ->
  (forall k len, 0 <= len -> match w k len with Wrote n => 0 <= n <= len | WriteErr e => e <> EPIPE /\ e <> ECONNRESET end) ->
  (forall k len, (N <= k)%nat -> 0 < len -> (0 < taken (w k len))%nat) ->
  request_line line m t ver -> CR ∉ line -> Forall Parser.header_ok hs ->
  zlen (Parser.render_request line hs) <= Buf.extrabuf_size ->
  let request := Parser.set_headers hs (setVersion ver (set_target t (setMethod (method_name m) Request.new))) in
  m_headers request !! bs "Connection" = Some h ->
  let response := cb request (Response.new (wants_close request h)) in
  let arrival := [Established; Reported EPOLLIN; Dispatched (ReadvOk (Parser.render_request line hs))] in
  let s0 := opening same_loop e w r il p fd id in
  exists s1 n s2, Possible arrival s0 /\ Run arrival s0 = Ok s1 /\
    (n <= N + length (Response.serialize response))%nat /\ nsteps writable n s1 s2 /\
    wire_of (calls (conn s2)) = Response.serialize response /\
    if Response.closeConnection response then
      m_state (conn s2) = kDisconnecting /\
      exists pre, calls (conn s2) = pre ++ [SysShutdown] /\ SysShutdown ∉ pre
    else m_state (conn s2) = kConnected /\ SysShutdown ∉ calls (conn s2).
Proof.
  intros Hwf Hopen Hsock Hprog Hl Hcr Hhs Hlen request Hh response arrival s0.
  destruct (established_open e w r il p fd id Hwf Hopen Hsock) as (sa & Hsa & Hoka & Hinva & Hp & Hout & Hin & Hw).
  destruct (request_step _ kPrePendIndex sa line m t ver hs h Hoka) as (s1 & Hpos & Hrun & Hok1 & Hinv1 & Hw1);
    [done | unfold kPrePendIndex in *; lia | done..|]. fold request response in Hinv1.
  pose proof (zlen_nonneg bad_request).
  destruct (rounds_ok N (N + length (Response.serialize response)) _ _ s1 _ Hok1 ltac:(lia) Hinv1)
    as (n & s2 & Hn & Hsteps & Hinv2 & Hnil).
  - by rewrite Hw1, Hw.
  - pose proof (f_equal length (inv_wire _ _ Hinv1)) as E. rewrite length_app in E. cbn [snd] in E. lia.
  - exists s1, n, s2. split_and!; [| |done|done| |].
    + unfold arrival. cbn [possible]. split; [done|]. intros sb E. unfold s0 in E. rewrite Hsa in E. by apply Ok_inj in E as <-.
    + unfold arrival. cbn [run]. unfold s0. rewrite Hsa. cbn [mbind res_bind]. exact Hrun.
    + pose proof (inv_wire _ _ Hinv2) as E. by rewrite Hnil, app_nil_r in E.
    + pose proof (inv_state _ _ Hinv2) as Est. pose proof (inv_shut _ _ Hinv2) as Esh.
      rewrite Hnil, bool_decide_eq_true_2 in Esh by done.
      destruct (Response.closeConnection response); by split.
Qed.


End WithKernel.

(** ** Witnesses *)

(** The program's page for /hello, two bytes at a time. *)
Lemma visitor_served_witness :
  let request := Parser.set_headers hello_headers
             (setVersion kHttp11 (set_target (Target (bs "/hello") None)
               (setMethod (method_name kGet) Request.new))) in
  let response := resCallback request (Response.new (wants_close request (bs "Keep-Alive"))) in
  let arrival := [Established; Reported EPOLLIN; Dispatched (ReadvOk hello_input)] in
  let s0 := opening false no_channels two_bytes ticking true 1%positive 7 0 in
  exists s1 n s2, possible false true resCallback (fun _ _ => []) arrival s0 /\
    run false true resCallback (fun _ _ => []) arrival s0 = Ok s1 /\
    (n <= 0 + length (Response.serialize response))%nat /\
    nsteps (writable false true resCallback (fun _ _ => [])) n s1 s2 /\
    wire_of (calls (conn s2)) = Response.serialize response /\
    if Response.closeConnection response then
      m_state (conn s2) = kDisconnecting /\
      exists pre, calls (conn s2) = pre ++ [SysShutdown] /\ SysShutdown ∉ pre
    else m_state (conn s2) = kConnected /\ SysShutdown ∉ calls (conn s2).
Proof.
  apply (visitor_served false true resCallback (fun _ _ => []) kResponseMax resCallback_bound
           ltac:(by vm_compute) ltac:(by vm_compute) no_channels two_bytes ticking true 1%positive 7 0 0
           (bs "GET /hello HTTP/1.1") kGet (Target (bs "/hello") None) kHttp11 hello_headers (bs "Keep-Alive")).
  - done.
  - apply can_open_example.
  - intros k len Hlen. simpl. lia.
  - intros k len _ Hlen. simpl. lia.
  - apply hello_line.
  - apply (bool_decide_unpack _). by vm_compute.
  - apply hello_headers_ok.
  - by vm_compute.
  - reflexivity.
Defined.

(** A clock that is read every four seconds; a message, a check eight seconds
    later, and the next. *)
Definition every_four (k : nat) : Ts.Timestamp := Ts.mkTimestamp (Z.min (4000000000 * (Z.of_nat k + 1)) 80000000000).

Abbreviation Silent := (opening (K := gmap Z (Z * chan_ptr)) false no_channels two_bytes every_four true 1%positive 7 0).

Definition one_message : list (@event (gmap Z (Z * chan_ptr))) :=
  [Established; Reported EPOLLIN; Dispatched (ReadvOk hello_input)].

Definition silent_at (es : list event) : Session := ended (run false true resCallback (fun _ _ => []) es Silent).

Lemma silent_run es :
  match run false true resCallback (fun _ _ => []) es Silent with Ok _ => True | Fault _ => False end ->
  run false true resCallback (fun _ _ => []) es Silent = Ok (silent_at es).
Proof. unfold silent_at. by destruct (run _ _ _ _ _ _). Qed.

Lemma silent_possible : possible false true resCallback (fun _ _ => []) (one_message ++ [Idle]) Silent.
Proof. unfold one_message. cbn [app]. do 3 happens. apply possible_cons; [by vm_compute | done]. Qed.


End Visit.
