(* ===== verification/Reactor.v ===== *)
(** * Reactor: one loop and all its connections

    An I/O loop of the program: its poller, the HTTP connections it holds, and
    the turns of [EventLoop::loop] over them.  Connections come and go; each
    lives the life of Session.v, and the steps of one are the events [Others]
    of the rest.  What the loop holds besides, its wake-up descriptor, its
    timer, the listening socket of the server's own loop, changes the poller by
    events of its own.

    The functors of a connection run in the order they were queued; the order
    between connections is left open, which covers the loop's single queue. *)

From Stdlib Require Import ZArith Lia Ascii String.
From stdpp Require Import options.
From S2P Require Import Prelude CStd Buffer HttpRequest HttpRequestParser HttpResponse Channel Epoller Timestamp TcpConnection HttpServer TcpSafety Session.

#[local] Set Default Proof Using "Type*".

Module React.
Import Request Tcp Server Safe Life.

Section WithKernel.
Context {K : Type} `{!EpollKernel K}.
Context (same_loop auto_close : bool).
Context (cb : HttpRequest -> Response.HttpResponse -> Response.HttpResponse).
Context (memory : Z -> Z -> bytes).

Abbreviation Sess := (@Session K).

(** The poller of the loop, and the connections by the address of their
    channel; the poller inside a connection is a stale copy. *)
Record Reactor := mkReactor {
  shared : Epoll.Epoller K;
  sessions : gmap chan_ptr Sess
}.

(** The connection with the poller as it is now. *)
Definition attach (e : Epoll.Epoller K) (s : Sess) : Sess :=
  mkSession (set_poller e (conn s)) (removed s).

Inductive action :=
| Accept (w : nat -> Z -> write_result) (r : nat -> Ts.Timestamp) (il : bool) (p : chan_ptr) (fd id : Z)
| Poll (evs : list (Z * chan_ptr))                  (* epoll_wait, and the events stored *)
| At (p : chan_ptr) (e : @event K)                  (* an event of one connection *)
| Release (p : chan_ptr)                            (* the last reference goes: ~TcpConnection *)
| Outside (e : Epoll.Epoller K).                    (* the other descriptors of the loop *)

Definition act (a : action) (w : Reactor) : res Reactor :=
  match a with
  | Accept wr r il p fd id =>
      let s := opening same_loop (shared w) wr r il p fd id in
      Ok (mkReactor (poller (conn s)) (<[p := s]> (sessions w)))
  | Poll evs =>
      '(_, e) ← Epoll.poll (WaitOk evs) [] (shared w);
      Ok (mkReactor e (sessions w))
  | At p ev =>
      match sessions w !! p with
      | None => Fault Undefined
      | Some s =>
          s ← step same_loop auto_close cb memory ev (attach (shared w) s);
          Ok (mkReactor (poller (conn s)) (<[p := s]> (sessions w)))
      end
  | Release p =>
      match sessions w !! p with
      | None => Fault Undefined
      | Some s =>
          e ← Tcp.destroy (conn (attach (shared w) s));
          Ok (mkReactor e (delete p (sessions w)))
      end
  | Outside e => Ok (mkReactor e (sessions w))
  end.

Fixpoint acts (l : list action) (w : Reactor) : res Reactor :=
  match l with
  | [] => Ok w
  | a :: l' => w ← act a w; acts l' w
  end.

(** One turn of [EventLoop::loop]: poll, [handleEvent] of every active channel,
    then the pending functors; [handle] is what the handler of a channel
    does, and [picks] the connections whose functors run. *)
Fixpoint handle_active (handle : chan_ptr -> list action) (active : list chan_ptr) (w : Reactor) : res Reactor :=
  match active with
  | [] => Ok w
  | p :: active' => w ← acts (handle p) w; handle_active handle active' w
  end.

Fixpoint doPendingFunctors (picks : list chan_ptr) (w : Reactor) : res Reactor :=
  match picks with
  | [] => Ok w
  | p :: picks' => w ← act (At p RunFunctor) w; doPendingFunctors picks' w
  end.

Definition turn (evs : list (Z * chan_ptr)) (handle : chan_ptr -> list action) (picks : list chan_ptr)
    (w : Reactor) : res Reactor :=
  '(m_active_channels, e) ← Epoll.poll (WaitOk evs) [] (shared w);
  w ← handle_active handle m_active_channels (mkReactor e (sessions w));
  doPendingFunctors picks w.

(** When an action can happen.  The kernel gives a new connection a descriptor
    that no open connection has, and reports what it watches, once each. *)
Definition can_act (a : action) (w : Reactor) : Prop :=
  match a with
  | Accept wr r il p fd id =>
      can_open (shared w) wr r p fd /\
      forall q s, sessions w !! q = Some s -> m_conn_fd (conn s) <> fd
  | Poll evs =>
      Forall (fun '(_, p) => exists fd ev, interest (Epoll.kernel (shared w)) !! fd = Some (ev, p)) evs
  | At p ev =>
      (forall e, ev <> Others e) /\
      exists s, sessions w !! p = Some s /\ enabled ev (attach (shared w) s)
  | Release p =>
      exists s, sessions w !! p = Some s /\ m_state (conn s) = kDisconnected /\
        removed s = true /\ functors (conn s) = []
  | Outside e =>
      Epoll.wf e /\ forall p s, sessions w !! p = Some s ->
        Epoll.channels e !! p = Epoll.channels (shared w) !! p /\
        Epoll.m_channels e !! m_conn_fd (conn s) = Epoll.m_channels (shared w) !! m_conn_fd (conn s)
  end.

Fixpoint can_acts (l : list action) (w : Reactor) : Prop :=
  match l with
  | [] => True
  | a :: l' => can_act a w /\ forall w', act a w = Ok w' -> can_acts l' w'
  end.

Definition act_reads (a : action) : Z := match a with At _ ev => reads ev | _ => 0 end.

Fixpoint acts_reads (l : list action) : Z :=
  match l with [] => 0 | a :: l' => act_reads a + acts_reads l' end.

(** ** The invariant *)

(** Every connection is in a state of Session.v over the shared poller, and no
    two have the same descriptor. *)
Record reactor_ok (room : Z) (w : Reactor) : Prop := {
  ok_shared : Epoll.wf (shared w);
  ok_session : forall p s, sessions w !! p = Some s ->
    m_channel (conn s) = p /\ session_ok same_loop (shared w) room (attach (shared w) s);
  ok_fds : forall p q s t, sessions w !! p = Some s -> sessions w !! q = Some t -> p <> q ->
    m_conn_fd (conn s) <> m_conn_fd (conn t)
}.

(** ** Lemmas *)

(** A connection whose entries in the poller do not change. *)
Lemma session_moves e e' room s :
  session_ok same_loop e room (attach e s) -> Epoll.wf e' ->
  Epoll.channels e' !! m_channel (conn s) = Epoll.channels e !! m_channel (conn s) ->
  Epoll.m_channels e' !! m_conn_fd (conn s) = Epoll.m_channels e !! m_conn_fd (conn s) ->
  session_ok same_loop e' room (attach e' s).
Proof. intros Hok Hwf Hc Hm. by apply (session_others same_loop e room (attach e s) e' Hok). Qed.

(** A change at one channel and its descriptor. *)
Lemma session_framed p fd e e' room s :
  session_ok same_loop e room (attach e s) -> Epoll.wf e' -> frame p fd e e' ->
  m_channel (conn s) <> p -> m_conn_fd (conn s) <> fd -> session_ok same_loop e' room (attach e' s).
Proof. intros Hok Hwf [Hc Hm] Hp Hfd. by apply (session_moves e e'); auto. Qed.

Lemma attach_id s : attach (poller (conn s)) s = s.
Proof. by destruct s as [[] ?]. Qed.

(** One connection changes, or a new one comes, and the rest see a frame. *)
Lemma reactor_update p s' e' room room' w :
  reactor_ok room w -> room <= room' -> Epoll.wf e' -> frame p (m_conn_fd (conn s')) (shared w) e' ->
  m_channel (conn s') = p -> session_ok same_loop e' room' s' -> attach e' s' = s' ->
  (forall q t, sessions w !! q = Some t -> q <> p -> m_conn_fd (conn t) <> m_conn_fd (conn s')) ->
  reactor_ok room' (mkReactor e' (<[p := s']> (sessions w))).
Proof.
  intros [Hwf Hs Hfds] Hle Hwf' Hfr Hp Hok Hat Hne. split; simpl; [done | |].
  - intros q t Hq. destruct (decide (q = p)) as [->|Hqp].
    + rewrite lookup_insert_eq in Hq. injection Hq as <-. split; [done|]. by rewrite Hat.
    + rewrite lookup_insert_ne in Hq by done. destruct (Hs _ _ Hq) as [Hch Ht]. split; [done|].
      eapply session_weaken; [|exact Hle].
      apply (session_framed p (m_conn_fd (conn s')) (shared w)); [done.. | congruence | by eapply Hne].
  - intros q1 q2 t1 t2 H1 H2 Hq.
    destruct (decide (q1 = p)) as [->|N1]; [rewrite lookup_insert_eq in H1; injection H1 as <- | rewrite lookup_insert_ne in H1 by done].
    + rewrite lookup_insert_ne in H2 by done. intros E. symmetry in E. revert E. by apply (Hne q2).
    + destruct (decide (q2 = p)) as [->|N2]; [rewrite lookup_insert_eq in H2; injection H2 as <- | rewrite lookup_insert_ne in H2 by done].
      * by apply (Hne q1).
      * by apply (Hfds q1 q2).
Qed.

Lemma accept_ok wr r il p fd id room w :
  reactor_ok room w -> can_act (Accept wr r il p fd id) w -> kPrePendIndex <= room ->
  exists w', act (Accept wr r il p fd id) w = Ok w' /\ reactor_ok room w'.
Proof.
  intros Hok [Hopen Hfds] Hroom. eexists. split; [done|].
  pose proof (opening_ok same_loop (shared w) wr r il p fd id (ok_shared _ _ Hok) Hopen) as Hs.
  apply (session_weaken _ _ _ room) in Hs; [|done].
  eapply (reactor_update p _ _ room); [done | lia | | | | exact Hs | | ]; try done.
  - simpl. by apply (session_wf _ _ _ _ Hs).
  - simpl. apply frame_set_channel.
  - intros q t Hq _. by apply (Hfds q).
Qed.

Lemma revents_ok p r ch room w :
  reactor_ok room w -> Epoll.channels (shared w) !! p = Some ch ->
  reactor_ok room (mkReactor (Epoll.set_channel p (Chan.setRevents r ch) (shared w)) (sessions w)).
Proof.
  intros [Hwf Hs Hfds] Hch.
  assert (Epoll.wf (Epoll.set_channel p (Chan.setRevents r ch) (shared w))) as Hwf' by (by apply Epoll.set_revents_wf).
  split; simpl; [done | | done]. intros q s Hq. destruct (Hs _ _ Hq) as [Hqc Hok]. split; [done|].
  destruct (decide (q = p)) as [->|Hne].
  - pose proof (session_revents _ _ _ r ch _ Hok) as H. simpl in H. rewrite Hqc in H. by apply H.
  - apply (session_moves (shared w)); [done | done | | done]. simpl. rewrite lookup_insert_ne by congruence. done.
Qed.

Lemma fill_ok evs : forall active room w,
  reactor_ok room w -> Forall (fun '(_, p) => is_Some (Epoll.channels (shared w) !! p)) evs ->
  exists e', Epoll.fillActiveChannels evs active (shared w) = Ok (active ++ evs.*2, e') /\
    reactor_ok room (mkReactor e' (sessions w)).
Proof.
  induction evs as [|[r p] evs IH]; intros active room w Hok Hl; simpl.
  { exists (shared w). rewrite app_nil_r. by destruct w. }
  apply Forall_cons in Hl as [[ch Hch] Hl']. rewrite (Epoll.deref_Ok _ _ _ Hch). cbn [mbind res_bind].
  destruct (IH (active ++ [p]) room _ (revents_ok p r ch room w Hok Hch)) as (e' & Hrun & Hok').
  { eapply Forall_impl; [exact Hl'|]. intros [? q] Hq. simpl. destruct (decide (q = p)) as [->|];
      [by rewrite lookup_insert_eq | by rewrite lookup_insert_ne by done]. }
  exists e'. rewrite <- app_assoc in Hrun. by split.
Qed.

Lemma poll_ok evs room w :
  reactor_ok room w -> can_act (Poll evs) w ->
  exists e', Epoll.poll (WaitOk evs) [] (shared w) = Ok (evs.*2, e') /\ reactor_ok room (mkReactor e' (sessions w)).
Proof.
  intros Hok Hev. apply (fill_ok evs [] room w Hok). eapply Forall_impl; [exact Hev|].
  intros [r p] Hw. simpl in Hw. destruct Hw as (fd & ev & H). rewrite (Epoll.wf_kernel _ (ok_shared _ _ Hok)) in H. unfold Epoll.watched in H.
  destruct (Epoll.m_channels (shared w) !! fd) as [q|]; [|done]. simpl in H.
  destruct (Epoll.channels (shared w) !! q) as [ch|] eqn:E; [|done]. simpl in H. case_decide; simplify_eq. by exists ch.
Qed.

Lemma release_ok p room w :
  reactor_ok room w -> can_act (Release p) w -> exists w', act (Release p) w = Ok w' /\ reactor_ok room w'.
Proof.
  intros [Hwf Hs Hfds] (s & Hp & Hst & Hrem & Hf). destruct (Hs _ _ Hp) as [Hpc Hok].
  pose proof (session_over _ _ _ _ Hok Hst Hrem Hf) as [(ch & Hch & _ & Hfd & _) _ Hmap _ _]. simpl in *. rewrite Hpc in Hch.
  cbn [act]. rewrite Hp. unfold Tcp.destroy, Epoll.destroy, Epoll.hasChannel. simpl. rewrite Hpc, (Epoll.deref_Ok _ _ _ Hch). cbn [mbind res_bind].
  rewrite Hfd, Hmap. cbn [mbind res_bind]. eexists. split; [done|].
  assert (forall fd, Epoll.m_channels (shared w) !! fd <> Some p) as Hnot.
  { intros fd H. destruct (Epoll.wf_map _ Hwf _ _ H) as (c0 & Hc0 & Hfd0 & _). congruence. }
  pose proof (Epoll.wf_delete p (shared w) Hwf Hnot) as Hwf'.
  split; simpl; [done | |].
  - intros q t [Hqp Hq]%lookup_delete_Some. destruct (Hs _ _ Hq) as [Hqc Hqok]. split; [done|].
    apply (session_moves (shared w)); [done | done | | done]. simpl. by rewrite lookup_delete_ne by congruence.
  - intros q1 q2 t1 t2 [_ H1]%lookup_delete_Some [_ H2]%lookup_delete_Some. by apply Hfds.
Qed.

Lemma outside_ok e room w :
  reactor_ok room w -> can_act (Outside e) w -> exists w', act (Outside e) w = Ok w' /\ reactor_ok room w'.
Proof.
  intros [Hwf Hs Hfds] [Hwf' He]. eexists. split; [done|]. split; simpl; [done | | done].
  intros q s Hq. destruct (Hs _ _ Hq) as [Hqc Hok]. split; [done|]. destruct (He _ _ Hq).
  by apply (session_moves (shared w)); [..|rewrite Hqc|].
Qed.

(** The responses are bounded. *)
Context (bound : Z).
Hypothesis bound_request : forall r close, zlen (Response.serialize (cb r (Response.new close))) <= bound.
Hypothesis bound_bad : zlen bad_request <= bound.
Hypothesis bound_int : bound + 2 * kPrePendIndex <= INT_MAX.

(** The one way to crash. *)
Definition crashes (a : action) (w : Reactor) : Prop :=
  exists p ev s, a = At p ev /\ sessions w !! p = Some s /\ headerless ev (attach (shared w) s) /\
    act a w = Fault Undefined.

Lemma at_ok p ev room w :
  reactor_ok room w -> can_act (At p ev) w -> kPrePendIndex <= room -> room + reads ev * bound <= INT_MAX ->
  (exists w', act (At p ev) w = Ok w' /\ reactor_ok (room + reads ev * bound) w') \/ crashes (At p ev) w.
Proof.
  intros Hok (Hne & s & Hp & Hen) Hlow Hroom. pose proof Hok as [Hwf Hs Hfds]. destruct (Hs _ _ Hp) as [Hpc Hsok].
  simpl. rewrite Hp.
  destruct (step_ok same_loop auto_close cb memory bound bound_request bound_bad bound_int ev _ _ _ Hsok Hen Hlow Hroom)
    as [(s' & Hrun & Hok' & [Efd Ech _])|[Hrun Hh]].
  - left. rewrite Hrun. cbn [mbind res_bind]. eexists. split; [done|].
    assert (base ev (shared w) = shared w) as Eb by (destruct ev; try done; by destruct (Hne e)).
    rewrite Eb in Hok'. simpl in Efd, Ech. rewrite Hpc in Ech.
    assert (0 <= reads ev * bound).
    { apply Z.mul_nonneg_nonneg; [by destruct ev|]. pose proof (zlen_nonneg bad_request). lia. }
    eapply (reactor_update p s' _ room); [done | lia | | | | | apply attach_id | ].
    + by apply (session_wf _ _ _ _ Hok').
    + rewrite <- Ech. by eapply session_frame.
    + done.
    + by eapply session_rebase.
    + intros q t Hq Hqp. rewrite Efd. by apply (Hfds q p).
  - right. exists p, ev, s. split_and!; [done..|]. simpl. by rewrite Hp, Hrun.
Qed.

Lemma act_ok a room w :
  reactor_ok room w -> can_act a w -> kPrePendIndex <= room -> room + act_reads a * bound <= INT_MAX ->
  (exists w', act a w = Ok w' /\ reactor_ok (room + act_reads a * bound) w') \/ crashes a w.
Proof.
  intros Hok Hcan Hlow Hroom. destruct a as [wr r il p fd id|evs|p ev|p|e]; cbn [act_reads] in *; rewrite ?Z.add_0_r in *.
  - left. by apply accept_ok.
  - left. destruct (poll_ok evs room w Hok Hcan) as (e' & Hrun & Hok'). cbn [act]. rewrite Hrun. cbn [mbind res_bind]. by eexists.
  - by apply at_ok.
  - left. by apply release_ok.
  - left. by apply outside_ok.
Qed.

Lemma acts_ok l : forall room w,
  reactor_ok room w -> can_acts l w -> kPrePendIndex <= room -> room + acts_reads l * bound <= INT_MAX ->
  (exists w', acts l w = Ok w' /\ reactor_ok (room + acts_reads l * bound) w') \/
  (exists l1 a l2 w1, l = l1 ++ a :: l2 /\ acts l1 w = Ok w1 /\ crashes a w1).
Proof.
  assert (0 <= bound) as Hb by (pose proof (zlen_nonneg bad_request); lia).
  assert (forall a : action, 0 <= act_reads a) as Ha by (intros [| | ? [] | |]; simpl; lia).
  induction l as [|a l IH]; intros room w Hok Hcan Hlow Hroom; simpl.
  { left. exists w. by rewrite Z.add_0_r. }
  destruct Hcan as [Hc Hcan]. cbn [acts_reads] in Hroom. pose proof (Ha a).
  assert (0 <= acts_reads l) by (clear -Ha; induction l as [|b l]; simpl; [lia | pose proof (Ha b); lia]).
  destruct (act_ok a room w Hok Hc Hlow) as [(w' & Hrun & Hok')|Hcr]; [nia| |].
  - rewrite Hrun. cbn [mbind res_bind].
    destruct (IH _ _ Hok' (Hcan _ Hrun)) as [(w2 & Hrun2 & Hok2)|(l1 & a1 & l2 & w1 & -> & Hrun1 & Hcr)]; [nia | nia | left | right].
    + exists w2. split; [done|]. by replace (room + (act_reads a + acts_reads l) * bound)
        with (room + act_reads a * bound + acts_reads l * bound) by lia.
    + exists (a :: l1), a1, l2, w1. simpl. rewrite Hrun. by split_and!.
  - right. by exists [], a, l, w.
Qed.

(** A loop before its first connection. *)
Definition idle_loop (e : Epoll.Epoller K) : Reactor := mkReactor e ∅.

Lemma idle_loop_ok e : Epoll.wf e -> reactor_ok kPrePendIndex (idle_loop e).
Proof. by intros Hwf; split. Qed.

Lemma acts_app l1 l2 w : acts (l1 ++ l2) w = (w' ← acts l1 w; acts l2 w').
Proof.
  revert w. induction l1 as [|a l1 IH]; intros w; [done|]. cbn [app acts].
  destruct (act a w); cbn [mbind res_bind]; [apply IH | done].
Qed.

Lemma handle_active_acts handle active w :
  handle_active handle active w = acts (concat (map handle active)) w.
Proof.
  revert w. induction active as [|p active IH]; intros w; [done|]. cbn [map concat handle_active].
  rewrite acts_app. by destruct (acts (handle p) w); cbn [mbind res_bind].
Qed.

Lemma doPendingFunctors_acts picks w :
  doPendingFunctors picks w = acts (map (fun p => At p RunFunctor) picks) w.
Proof.
  revert w. induction picks as [|p picks IH]; intros w; [done|]. cbn [map doPendingFunctors acts].
  by destruct (act (At p RunFunctor) w); cbn [mbind res_bind].
Qed.

(** What [poll] makes active is what it was given. *)
Lemma fill_active evs : forall active (e : Epoll.Epoller K),
  match Epoll.fillActiveChannels evs active e with Ok (active', _) => active' = active ++ evs.*2 | Fault _ => True end.
Proof.
  induction evs as [|[r p] evs IH]; intros active e; simpl; [by rewrite app_nil_r|].
  destruct (Epoll.deref p e); cbn [mbind res_bind]; [|done]. specialize (IH (active ++ [p])).
  rewrite <- app_assoc in IH. apply IH.
Qed.

(** ** Properties *)

(** A loop survives all its connections.  Starting with none, whatever
    connections come and whatever happens to each of them in any
    interleaving, the loop never fails an assertion, aborts, or touches a
    channel or connection that is gone, and it keeps its invariant, as long as
    the responses fit an [int]; but for the one case of Session.v, a message
    that completes a request without a Connection header. *)
Theorem loop_never_crashes l e :
  Epoll.wf e -> can_acts l (idle_loop e) -> kPrePendIndex + acts_reads l * bound <= INT_MAX ->
  (exists w, acts l (idle_loop e) = Ok w /\ reactor_ok (kPrePendIndex + acts_reads l * bound) w) \/
  (exists l1 a l2 w, l = l1 ++ a :: l2 /\ acts l1 (idle_loop e) = Ok w /\ crashes a w).
Proof. intros Hwf Hcan Hfit. by apply acts_ok; [apply idle_loop_ok|..]. Qed.

(** One turn of the loop, as the code runs it, is a run of actions: the poll,
    what the handlers of the reported channels do, in the order they were
    reported, and then the functors; also when something faults. *)
Theorem turn_is_acts evs handle picks w :
  turn evs handle picks w =
    acts (Poll evs :: concat (map handle evs.*2) ++ map (fun p => At p RunFunctor) picks) w.
Proof.
  unfold turn. cbn [acts act Epoll.poll]. pose proof (fill_active evs [] (shared w)) as Ha.
  destruct (Epoll.fillActiveChannels evs [] (shared w)) as [[active e]|]; cbn [mbind res_bind]; [|done].
  simpl in Ha. subst active. rewrite acts_app, <- handle_active_acts.
  destruct (handle_active handle evs.*2 _); cbn [mbind res_bind]; [apply doPendingFunctors_acts | done].
Qed.

(** No connection is forgotten: after any run, the kernel watches every
    connection that is connected or disconnecting, for reading, under its own
    descriptor and with the events of its channel, and watches the channel of
    no connection that is disconnected. *)
Theorem loop_watches l e w p s :
  Epoll.wf e -> can_acts l (idle_loop e) -> kPrePendIndex + acts_reads l * bound <= INT_MAX ->
  acts l (idle_loop e) = Ok w -> sessions w !! p = Some s ->
  (m_state (conn s) = kConnected \/ m_state (conn s) = kDisconnecting ->
   exists ch, Epoll.channels (shared w) !! p = Some ch /\ Chan.isReading ch = true /\
     interest (Epoll.kernel (shared w)) !! m_conn_fd (conn s) = Some (Chan.m_events ch, p)) /\
  (m_state (conn s) = kDisconnected ->
   forall fd ev, interest (Epoll.kernel (shared w)) !! fd <> Some (ev, p)).
Proof.
  intros Hwf Hcan Hfit Hrun Hp.
  destruct (acts_ok l _ _ (idle_loop_ok e Hwf) Hcan ltac:(done) Hfit) as [(w' & Hrun' & Hok)|(l1 & a & l2 & w1 & -> & Hrun1 & Hcr)].
  2: { rewrite acts_app, Hrun1 in Hrun. cbn [mbind res_bind acts] in Hrun.
       destruct Hcr as (? & ? & ? & _ & _ & _ & E). by rewrite E in Hrun. }
  rewrite Hrun in Hrun'. injection Hrun' as <-. destruct Hok as [Hwfw Hs _]. destruct (Hs _ _ Hp) as [Hpc Hok].
  split.
  - intros Hst. destruct (phase_cases _ _ _ _ Hok) as [[Ho _]|Hcl].
    { simpl. destruct Hst as [E|E]; by rewrite E. }
    2: { simpl in Hcl. destruct Hst; congruence. }
    destruct Ho as [(ch & [_ Hc Hi Hr] & _ & Hfd & _) _ _ _ _ _]. simpl in *. rewrite Hpc in Hc.
    exists ch. split_and!; [done | done|].
    rewrite (Epoll.wf_kernel _ Hwfw), <- Hfd, (Epoll.watched_at _ _ p ch); [by rewrite decide_True | | done].
    by apply Epoll.wf_added.
  - intros Hst fd ev. destruct Hok as [_ Hph]. unfold phase_ok in Hph. simpl in Hph. rewrite Hst in Hph. rewrite <- Hpc.
    destruct Hph as [(_&Hc&_)|[(_&Hc&_)|(_&Hc&_)]]; by apply (closed_unwatched _ _ _ fd ev Hc).
Qed.

End WithKernel.
(** ** Witnesses *)

(** Two connections: the first makes a request and goes away, the second makes
    the same request; the first is removed, destroyed and released. *)
Abbreviation Act := (act false true resCallback (fun _ _ => [])).
Abbreviation Acts := (acts false true resCallback (fun _ _ => [])).
Abbreviation Can_acts := (can_acts false true resCallback (fun _ _ => [])).

Definition two_visits : list (@action (gmap Z (Z * chan_ptr))) :=
  [Accept two_bytes ticking true 1 7 0; Accept two_bytes ticking true 2 8 1;
   At 1 Established; At 2 Established;
   Poll [(EPOLLIN, 1%positive)]; At 1 (Dispatched (ReadvOk hello_input));
   Poll [(Z.lor EPOLLIN EPOLLRDHUP, 1%positive); (EPOLLIN, 2%positive)];
   At 1 (Dispatched (ReadvOk [])); At 2 (Dispatched (ReadvOk hello_input));
   At 1 Remove; At 1 RunFunctor; Release 1].

Abbreviation Quiet := (idle_loop no_channels).

Definition reached (r : res (@Reactor (gmap Z (Z * chan_ptr)))) : Reactor :=
  match r with Ok w => w | Fault _ => Quiet end.

Lemma can_cons a l w : can_act a w -> Can_acts l (reached (Act a w)) -> Can_acts (a :: l) w.
Proof. intros Ha Hl. split; [done|]. intros w' E. by rewrite E in Hl. Qed.

Lemma reached_ok r : match r with Ok _ => True | Fault _ => False end -> r = Ok (reached r).
Proof. by destruct r. Qed.

Lemma can_open_at (e : Epoll.Epoller (gmap Z (Z * chan_ptr))) p fd :
  Epoll.channels e !! p = None -> Epoll.m_channels e !! fd = None -> can_open e two_bytes ticking p fd.
Proof. intros Hp Hfd. destruct can_open_example. by split. Qed.

Definition here (w : Reactor) (p : chan_ptr) : Session :=
  match sessions w !! p with Some s => s | None => opening false no_channels two_bytes ticking true p 0 0 end.

Lemma here_ok w p : match sessions w !! p with Some _ => True | None => False end -> sessions w !! p = Some (here w p).
Proof. unfold here. by destruct (sessions w !! p). Qed.

Ltac next_at :=
  apply can_cons;
  [split; [intros ?; discriminate|];
   match goal with |- exists s, sessions ?w !! ?p = _ /\ _ =>
     exists (here w p); split; [apply here_ok; by vm_compute|] end;
   first [exact I | by vm_compute | by vm_compute; eexists | split; [by vm_compute; eexists | by vm_compute]] |].

Ltac next_poll :=
  apply can_cons;
  [unfold can_act; repeat (apply Forall_cons; split; [first [exists 7; by vm_compute; eexists | exists 8; by vm_compute; eexists]|]);
   apply Forall_nil; exact I |].

Lemma two_visits_can : Can_acts two_visits Quiet.
Proof.
  unfold two_visits. apply can_cons; [split; [by apply can_open_at | intros q s Hq; done]|].
  apply can_cons; [split; [by apply can_open_at|] |].
  { intros q s Hq.
    assert ((<[1%positive := opening false no_channels two_bytes ticking true 1 7 0]> (∅ : gmap chan_ptr Session)) !! q = Some s)
      as [[_ <-]|[_ Habs]]%lookup_insert_Some by exact Hq; done. }
  next_at. next_at. next_poll. next_at. next_poll. next_at. next_at. next_at. next_at.
  apply can_cons; [|done].
  match goal with |- can_act _ ?w => exists (here w 1%positive) end.
  split; [apply here_ok; by vm_compute | by vm_compute].
Qed.

Lemma loop_never_crashes_witness :
  (exists w, Acts two_visits Quiet = Ok w /\
     reactor_ok false (kPrePendIndex + acts_reads two_visits * kResponseMax) w) \/
  (exists l1 a l2 w, two_visits = l1 ++ a :: l2 /\ Acts l1 Quiet = Ok w /\
     crashes false true resCallback (fun _ _ => []) a w).
Proof.
  apply (loop_never_crashes false true resCallback (fun _ _ => []) kResponseMax resCallback_bound
           ltac:(by vm_compute) ltac:(by vm_compute) two_visits no_channels).
  - done.
  - apply two_visits_can.
  - by vm_compute.
Defined.

(** It ends with the second connection, open. *)
Definition after_visits : Reactor := reached (Acts two_visits Quiet).

Lemma after_visits_ok : Acts two_visits Quiet = Ok after_visits.
Proof. apply reached_ok. by vm_compute. Qed.

Example after_visits_states :
  map (fun p => m_state (conn p.2)) (map_to_list (sessions after_visits)) = [kConnected].
Proof. vm_compute. reflexivity. Qed.

Lemma loop_watches_witness :
  let s := here after_visits 2%positive in
  (m_state (conn s) = kConnected \/ m_state (conn s) = kDisconnecting ->
   exists ch, Epoll.channels (shared after_visits) !! 2%positive = Some ch /\ Chan.isReading ch = true /\
     interest (Epoll.kernel (shared after_visits)) !! m_conn_fd (conn s) = Some (Chan.m_events ch, 2%positive)) /\
  (m_state (conn s) = kDisconnected ->
   forall fd ev, interest (Epoll.kernel (shared after_visits)) !! fd <> Some (ev, 2%positive)).
Proof.
  apply (loop_watches false true resCallback (fun _ _ => []) kResponseMax resCallback_bound
           ltac:(by vm_compute) ltac:(by vm_compute) two_visits no_channels after_visits 2%positive).
  - done.
  - apply two_visits_can.
  - by vm_compute.
  - apply after_visits_ok.
  - apply here_ok. by vm_compute.
Defined.

End React.
