(* ===== verification/LoopThreadPool.v ===== *)
(** * LoopThreadPool: Net/loopthreadpool.h and Net/loopthreadpool.cpp

    The loops of the I/O threads and how connections are dealt to them.  A
    loop is a number; the order in which the threads add theirs is an argument
    of [start]. *)

From Stdlib Require Import ZArith Lia.
From stdpp Require Import options.
From S2P Require Import Prelude CStd.

Module LoopPool.

Abbreviation loop := nat.

Record LoopThreadPool := mkPool {
  m_base_loop : loop;
  m_thread_num : Z;
  m_next_loop_index : Z;
  m_loops : list loop
}.

Definition new (base : loop) : LoopThreadPool := mkPool base 0 0 [].

Definition setThreadNum (n : Z) (p : LoopThreadPool) : LoopThreadPool :=
  mkPool (m_base_loop p) n (m_next_loop_index p) (m_loops p).

(** [start()] returns when [m_loops.size() == m_thread_num], a comparison of
    [size_t]s: [order] is the loops the threads added, in the order they took
    the mutex.  With another number it waits for ever: [None]. *)
Definition start (order : list loop) (p : LoopThreadPool) : option LoopThreadPool :=
  if zlen order =? Z.max 0 (m_thread_num p) then
    let loops := m_loops p ++ order in
    if zlen loops =? to_size_t (m_thread_num p)
    then Some (mkPool (m_base_loop p) (m_thread_num p) (m_next_loop_index p) loops) else None
  else None.

(** [getNextLoop()] *)
Definition getNextLoop (p : LoopThreadPool) : res (loop * LoopThreadPool) :=
  match m_loops p with
  | [] => Ok (m_base_loop p, p)
  | _ =>
      let index := m_next_loop_index p in
      match (if 0 <=? index then m_loops p !! Z.to_nat index else None) with
      | None => Fault Undefined
      | Some l =>
          next ← int_op (index + 1);
          if m_thread_num p =? 0 then Fault Undefined
          else Ok (l, mkPool (m_base_loop p) (m_thread_num p) (Z.rem next (m_thread_num p)) (m_loops p))
      end
  end.

(** [~LoopThreadPool()]: nothing joins the threads, and the destructor of a
    [std::thread] that was started ends the program. *)
Definition destroy (p : LoopThreadPool) : res unit :=
  match m_loops p with [] => Ok tt | _ => Fault Exited end.

Fixpoint nextLoops (n : nat) (p : LoopThreadPool) : res (list loop * LoopThreadPool) :=
  match n with
  | O => Ok ([], p)
  | S n' => '(l, p) ← getNextLoop p; '(ls, p) ← nextLoops n' p; Ok (l :: ls, p)
  end.

(** A started pool, and the index in range. *)
Record wf (p : LoopThreadPool) : Prop := {
  wf_num : m_thread_num p = zlen (m_loops p);
  wf_int : m_thread_num p <= INT_MAX;
  wf_index : 0 <= m_next_loop_index p /\
             (m_loops p <> [] -> m_next_loop_index p < m_thread_num p)
}.

Lemma getNextLoop_ok p :
  wf p -> m_loops p <> [] ->
  exists l p', getNextLoop p = Ok (l, p') /\ wf p' /\ m_loops p' = m_loops p /\
    m_loops p !! Z.to_nat (m_next_loop_index p) = Some l /\
    m_next_loop_index p' = (m_next_loop_index p + 1) mod zlen (m_loops p).
Proof.
  intros [Hn Hi [H1 H2]] Hne. specialize (H2 Hne).
  destruct (lookup_lt_is_Some_2 (m_loops p) (Z.to_nat (m_next_loop_index p))) as [l Hl].
  { unfold zlen in Hn. lia. }
  unfold getNextLoop. rewrite (proj2 (Z.leb_le 0 _)), Hl by done.
  rewrite int_op_Ok by (zsimpl; lia). simpl.
  rewrite (proj2 (Z.eqb_neq _ 0)) by lia.
  assert (Z.rem (m_next_loop_index p + 1) (m_thread_num p) =
          (m_next_loop_index p + 1) mod zlen (m_loops p)) as Hrem
    by (rewrite Z.rem_mod_nonneg, Hn by lia; done).
  destruct (m_loops p) as [|x xs] eqn:E; [done|].
  do 2 eexists. split; [done|]. split_and!; simpl; try done.
  split; simpl; try done. rewrite Hrem.
  pose proof (Z.mod_pos_bound (m_next_loop_index p + 1) (zlen (x :: xs))). lia.
Qed.

Lemma getNextLoop_keeps p l p' :
  wf p -> getNextLoop p = Ok (l, p') -> wf p' /\ m_base_loop p' = m_base_loop p.
Proof.
  intros Hwf H. destruct (decide (m_loops p = [])) as [E|Hne].
  - unfold getNextLoop in H. rewrite E in H. by injection H as <- <-.
  - destruct (getNextLoop_ok p Hwf Hne) as (l0 & p0 & E & Hwf0 & _). rewrite E in H.
    injection H as -> ->. split; [done|]. revert E. unfold getNextLoop.
    destruct (m_loops p); [done|]. destruct (if 0 <=? _ then _ else _); [|done].
    destruct (int_op _); simpl; [|done]. destruct (m_thread_num p =? 0); [done|]. by intros [= <- <-].
Qed.

(** Connections are dealt round robin: the calls of [getNextLoop] on a
    started pool give its loops in turn from the current index, and never
    leave the range; a pool without threads gives the base loop. *)
Theorem nextLoops_round_robin n p :
  wf p ->
  exists ls p', nextLoops n p = Ok (ls, p') /\ wf p' /\ length ls = n /\
    forall k, (k < n)%nat ->
      ls !! k = (if decide (m_loops p = []) then Some (m_base_loop p)
                 else m_loops p !! Z.to_nat ((m_next_loop_index p + Z.of_nat k) mod zlen (m_loops p))).
Proof.
  revert p. induction n as [|n IH]; intros p Hwf; simpl.
  { exists [], p. split_and!; [done..|]. lia. }
  destruct (decide (m_loops p = [])) as [E|Hne].
  - unfold getNextLoop. rewrite E. simpl. destruct (IH p Hwf) as (ls & p' & -> & Hwf' & Hl & Hk).
    simpl. do 2 eexists. split; [done|]. split_and!; [done | simpl; lia|].
    intros [|k] H; [done|]. simpl. rewrite Hk by lia. by rewrite decide_True.
  - destruct (getNextLoop_ok p Hwf Hne) as (l & p1 & -> & Hwf1 & Hls & Hl & Hi). simpl.
    destruct (IH p1 Hwf1) as (ls & p' & -> & Hwf' & Hlen & Hk). simpl.
    do 2 eexists. split; [done|]. split_and!; [done | simpl; lia|].
    pose proof Hwf as [Hn _ [H1 H2]]. specialize (H2 Hne).
    intros [|k] H; simpl.
    + rewrite Z.add_0_r, Z.mod_small by lia. done.
    + rewrite Hk by lia. rewrite Hls, decide_False by done. do 2 f_equal.
      rewrite Hi, Zplus_mod_idemp_l. f_equal. lia.
Qed.

Lemma start_wf order p :
  m_loops p = [] -> m_next_loop_index p = 0 -> 0 <= m_thread_num p <= INT_MAX ->
  zlen order = m_thread_num p -> exists p', start order p = Some p' /\ wf p' /\ m_loops p' = order.
Proof.
  intros Hl Hi Hn Ho. unfold start. rewrite Hl, (proj2 (Z.eqb_eq _ _)) by lia. simpl.
  rewrite to_size_t_id by (zsimpl; lia). rewrite (proj2 (Z.eqb_eq _ _)) by lia.
  eexists. split; [done|]. split; [|done]. split; simpl; try lia.
  split; [lia|]. intros Hne. rewrite Hi. destruct order; [done|]. unfold zlen in Ho. simpl in Ho. lia.
Qed.

Lemma nextLoops_round_robin_witness :
  exists ls p', nextLoops 4 (mkPool 0 3 0 [11; 12; 13]%nat) = Ok (ls, p') /\ wf p' /\ length ls = 4%nat /\
    forall k, (k < 4)%nat ->
      ls !! k = (if decide ([11; 12; 13]%nat = []) then Some 0%nat
                 else [11; 12; 13]%nat !! Z.to_nat ((0 + Z.of_nat k) mod zlen [11; 12; 13]%nat)).
Proof.
  apply (nextLoops_round_robin 4 (mkPool 0 3 0 [11; 12; 13]%nat)).
  split; [reflexivity | unfold INT_MAX; simpl; lia | simpl; split; [lia | intros; lia]].
Defined.

End LoopPool.
