(* ===== verification/Cluster.v ===== *)
(** * Cluster: the server with all its loops

    The server of TcpServer.v and LoopThreadPool.v over the loops of Reactor.v:
    connections are accepted in the base loop and dealt to the loops of the
    pool, each loop works through the events of its connections, and the table
    of connections follows.  The steps of the loops interleave in any order.

    A connection object is known by its loop and the address of its channel.
    [same_loop] tells whether the pool has no threads; the base loop is then
    the loop of every connection. *)

From Stdlib Require Import ZArith Lia Ascii String.
From stdpp Require Import options.
From S2P Require Import Prelude CStd Buffer HttpRequest HttpRequestParser HttpResponse Channel Epoller Timestamp TcpConnection HttpServer TcpSafety Session Reactor LoopThreadPool.

#[local] Set Default Proof Using "Type*".

Module Clust.
Import Request Tcp Server Safe Life React.

Abbreviation loop := LoopPool.loop.

Section WithKernel.
Context {K : Type} `{!EpollKernel K}.
Context (same_loop auto_close : bool).
Context (cb : HttpRequest -> Response.HttpResponse -> Response.HttpResponse).
Context (memory : Z -> Z -> bytes).

Abbreviation Sess := (@Session K).
Abbreviation Loop := (@Reactor K).
Abbreviation Event := (@event K).
Abbreviation Action := (@action K).

Record Cluster := mkCluster {
  m_loop_thread_pool : LoopPool.LoopThreadPool;
  m_next_connection_id : Z;
  m_connections : gmap Z (loop * chan_ptr);
  loops : gmap loop Loop
}.

(** Whether an event of a connection runs [handleRemoveConnectionInLoop]: the
    event [Remove] is that call; without I/O threads it is part of the close
    callback. *)
Definition erases (ev : Event) (s s' : Sess) : bool :=
  match ev with
  | Remove => true
  | _ => same_loop && negb (isDisconnected (conn s)) && isDisconnected (conn s')
  end.

(** [m_connections.erase(conn->getFd())], if the action runs it. *)
Definition erase (a : Action) (w w' : Loop) (m : gmap Z (loop * chan_ptr)) : gmap Z (loop * chan_ptr) :=
  match a with
  | At p ev =>
      match sessions w !! p, sessions w' !! p with
      | Some s, Some s' => if erases ev s s' then delete (m_conn_fd (conn s)) m else m
      | _, _ => m
      end
  | _ => m
  end.

(** An action of the loop [l]. *)
Definition act_in (l : loop) (a : Action) (c : Cluster) : res Cluster :=
  match loops c !! l with
  | None => Fault Undefined
  | Some w =>
      w' ← act same_loop auto_close cb memory a w;
      Ok (mkCluster (m_loop_thread_pool c) (m_next_connection_id c) (erase a w w' (m_connections c))
            (<[l := w']> (loops c)))
  end.

(** [TcpServer::handleNewConnection], in the base loop; the socket of the new
    descriptor answers [wr] and its channel is at [p].  In the base loop
    itself [connectionEstablished] runs at once. *)
Definition handleNewConnection (wr : nat -> Z -> write_result) (r : nat -> Ts.Timestamp)
    (p : chan_ptr) (conn_fd : Z) (c : Cluster) : res Cluster :=
  '(l, pool) ← LoopPool.getNextLoop (m_loop_thread_pool c);
  let here := bool_decide (l = LoopPool.m_base_loop pool) in
  let conn_id := m_next_connection_id c in
  c ← act_in l (Accept wr r here p conn_fd conn_id) c;
  id ← int_op (conn_id + 1);
  let id := if id =? INT_MAX then 0 else id in
  let c := mkCluster pool id (<[conn_fd := (l, p)]> (m_connections c)) (loops c) in
  if here then act_in l (At p Established) c else Ok c.

Inductive server_action :=
| NewConnection (wr : nat -> Z -> write_result) (r : nat -> Ts.Timestamp) (p : chan_ptr) (fd : Z)
| InLoop (l : loop) (a : Action).

Definition serve (a : server_action) (c : Cluster) : res Cluster :=
  match a with
  | NewConnection wr r p fd => handleNewConnection wr r p fd c
  | InLoop l a => act_in l a c
  end.

Fixpoint serve_all (l : list server_action) (c : Cluster) : res Cluster :=
  match l with
  | [] => Ok c
  | a :: l' => c ← serve a c; serve_all l' c
  end.

(** What a connection is to the table: its descriptor, and whether it is to be
    found there. *)
Definition listed (s : Sess) : bool :=
  if same_loop then negb (isDisconnected (conn s)) else negb (removed s).

Definition entry (c : Cluster) (l : loop) (p : chan_ptr) : option (Z * bool) :=
  match loops c !! l with
  | Some w => (fun s => (m_conn_fd (conn s), listed s)) <$> sessions w !! p
  | None => None
  end.

(** When an action can happen.  The kernel answers [accept4] with a descriptor
    that no connection has open, in any loop. *)
Definition can_serve (a : server_action) (c : Cluster) : Prop :=
  match a with
  | NewConnection wr r p fd =>
      (forall l pool w, LoopPool.getNextLoop (m_loop_thread_pool c) = Ok (l, pool) -> loops c !! l = Some w ->
         can_open (shared w) wr r p fd) /\
      (forall l q b, entry c l q <> Some (fd, b))
  | InLoop l a =>
      exists w, loops c !! l = Some w /\ can_act a w /\
        match a with Accept _ _ _ _ _ _ => False | _ => True end
  end.

Fixpoint can_serve_all (l : list server_action) (c : Cluster) : Prop :=
  match l with
  | [] => True
  | a :: l' => can_serve a c /\ forall c', serve a c = Ok c' -> can_serve_all l' c'
  end.

Definition serve_reads (a : server_action) : Z := match a with NewConnection _ _ _ _ => 0 | InLoop _ a => act_reads a end.

Fixpoint all_serve_reads (l : list server_action) : Z :=
  match l with [] => 0 | a :: l' => serve_reads a + all_serve_reads l' end.

(** The server after [Start()]: its loops are idle. *)
Definition started (c : Cluster) : Prop :=
  let pool := m_loop_thread_pool c in
  LoopPool.wf pool /\ (LoopPool.m_base_loop pool ∉ LoopPool.m_loops pool) /\ same_loop = bool_decide (LoopPool.m_loops pool = []) /\
  m_next_connection_id c = 0 /\ m_connections c = ∅ /\
  (forall l w, loops c !! l = Some w -> Epoll.wf (shared w) /\ sessions w = ∅) /\
  (forall l, l ∈ LoopPool.m_base_loop pool :: LoopPool.m_loops pool -> is_Some (loops c !! l)).

(** ** The invariant *)

(** The table [m] and the connections [f]: it holds exactly those to be found
    there, each under its descriptor, and no two have the same descriptor. *)
Record table_ok (f : loop -> chan_ptr -> option (Z * bool)) (m : gmap Z (loop * chan_ptr)) : Prop := {
  table_exact : forall fd l p, m !! fd = Some (l, p) <-> f l p = Some (fd, true);
  table_unique : forall l1 p1 b1 l2 p2 b2 fd, f l1 p1 = Some (fd, b1) -> f l2 p2 = Some (fd, b2) ->
    l1 = l2 /\ p1 = p2
}.

Record cluster_ok (room : Z) (c : Cluster) : Prop := {
  ok_pool : LoopPool.wf (m_loop_thread_pool c);
  ok_id : 0 <= m_next_connection_id c < INT_MAX;
  ok_loops : forall l, l ∈ LoopPool.m_base_loop (m_loop_thread_pool c) :: LoopPool.m_loops (m_loop_thread_pool c) ->
    is_Some (loops c !! l);
  ok_reactors : forall l w, loops c !! l = Some w -> reactor_ok same_loop room w;
  ok_removed : forall l w p s, loops c !! l = Some w -> sessions w !! p = Some s ->
    same_loop = true -> removed s = true;
  ok_table : table_ok (entry c) (m_connections c)
}.

(** ** Lemmas: the table *)

(** The connections but the one at [p] in the loop [l]. *)
Definition same_but (l : loop) (p : chan_ptr) (f f' : loop -> chan_ptr -> option (Z * bool)) : Prop :=
  forall l' q, l' <> l \/ q <> p -> f' l' q = f l' q.

Lemma same_but_cases l p f f' l' q :
  same_but l p f f' -> (l' = l /\ q = p) \/ ((l' <> l \/ q <> p) /\ f' l' q = f l' q).
Proof.
  intros H. destruct (decide (l' = l)) as [->|]; [destruct (decide (q = p)) as [->|]|]; auto 6.
Qed.

Lemma table_change l p fd b b' f f' m :
  table_ok f m -> same_but l p f f' -> f l p = Some (fd, b) -> f' l p = Some (fd, b') -> (b' = true -> b = true) ->
  table_ok f' (if b && negb b' then delete fd m else m).
Proof.
  intros [He Hu] Hs Hf Hf' Hb. split.
  - intros fd' l' q. destruct (same_but_cases _ _ _ _ l' q Hs) as [[-> ->]|[Hne E]].
    + rewrite Hf'. destruct b'; [rewrite Hb by done; simpl; by rewrite He, Hf, Hb|].
      split; [|intros [=]]. rewrite andb_true_r.
      assert (m !! fd' = Some (l, p) -> fd' = fd /\ b = true) as Hm by (rewrite He, Hf; by intros [= -> ->]).
      destruct b; [intros [Hne H]%lookup_delete_Some|intros H]; destruct (Hm H); congruence.
    + rewrite E. destruct (b && negb b') eqn:Eb; [|apply He].
      rewrite lookup_delete_Some, He. split; [by intros []|]. intros H. split; [|done]. intros ->.
      apply andb_true_iff in Eb as [-> _]. destruct (Hu _ _ _ _ _ _ _ Hf H) as [<- <-]. by destruct Hne.
  - assert (forall l0 q d e, f' l0 q = Some (d, e) -> exists e0, f l0 q = Some (d, e0)) as Hback.
    { intros l0 q d e H. destruct (same_but_cases _ _ _ _ l0 q Hs) as [[-> ->]|[_ E]];
        [rewrite Hf' in H; injection H as <- <-; eauto | rewrite <- E; eauto]. }
    intros l1 p1 b1 l2 p2 b2 d [e1 H1]%Hback [e2 H2]%Hback. by eapply Hu.
Qed.

Lemma table_same f f' m : table_ok f m -> (forall l p, f' l p = f l p) -> table_ok f' m.
Proof. intros [He Hu] Hs. split; [intros; by rewrite Hs | intros ? ? ? ? ? ? ?; rewrite !Hs; apply Hu]. Qed.

Lemma table_gone l p fd f f' m :
  table_ok f m -> same_but l p f f' -> f l p = Some (fd, false) -> f' l p = None -> table_ok f' m.
Proof.
  intros [He Hu] Hs Hf Hf'.
  assert (forall l0 q d e, f' l0 q = Some (d, e) -> f l0 q = Some (d, e)) as Hback.
  { intros l0 q d e H. destruct (same_but_cases _ _ _ _ l0 q Hs) as [[-> ->]|[_ <-]]; [congruence | done]. }
  split.
  - intros fd' l' q. destruct (same_but_cases _ _ _ _ l' q Hs) as [[-> ->]|[_ ->]]; [|apply He].
    rewrite He, Hf, Hf'. split; [intros [=] | done].
  - intros l1 p1 b1 l2 p2 b2 d H1%Hback H2%Hback. by eapply Hu.
Qed.

Lemma table_new l p fd f f' m :
  table_ok f m -> same_but l p f f' -> f l p = None -> f' l p = Some (fd, true) ->
  (forall l' q b, f l' q <> Some (fd, b)) -> table_ok f' (<[fd := (l, p)]> m).
Proof.
  intros [He Hu] Hs Hf Hf' Hfree. split.
  - intros fd' l' q. rewrite lookup_insert_Some.
    destruct (same_but_cases _ _ _ _ l' q Hs) as [[-> ->]|[Hne E]].
    + rewrite Hf', He, Hf. split; [intros [[<- _]|[_ [=]]]; done | intros [= <-]; by left].
    + rewrite E, <- He. split; [intros [[_ [= <- <-]]|[_ H]]; [by destruct Hne | done]|].
      intros H. right. split; [|done]. intros <-. apply He in H. by eapply Hfree.
  - assert (forall l0 q d e, f' l0 q = Some (d, e) -> (l0 = l /\ q = p /\ d = fd) \/ (f l0 q = Some (d, e) /\ d <> fd)) as Hback.
    { intros l0 q d e H. destruct (same_but_cases _ _ _ _ l0 q Hs) as [[-> ->]|[_ E]].
      - rewrite Hf' in H. injection H as <- <-. by left.
      - right. rewrite E in H. split; [done|]. intros ->. by eapply Hfree. }
    intros l1 p1 b1 l2 p2 b2 d [(->&->&->)|[H1 N1]]%Hback [(->&->&E)|[H2 N2]]%Hback; try done. by eapply Hu.
Qed.

(** ** Lemmas: one loop *)

Lemma act_in_inv l a c c' :
  act_in l a c = Ok c' -> exists w w', loops c !! l = Some w /\ act same_loop auto_close cb memory a w = Ok w' /\ loops c' = <[l := w']> (loops c).
Proof.
  unfold act_in. intros H. destruct (loops c !! l) as [w|]; [|done]. bind_inv H. apply Ok_inj in H as <-. by exists w, x.
Qed.

(** The responses are bounded. *)
Context (bound : Z).
Hypothesis bound_request : forall r close, zlen (Response.serialize (cb r (Response.new close))) <= bound.
Hypothesis bound_bad : zlen bad_request <= bound.
Hypothesis bound_int : bound + 2 * kPrePendIndex <= INT_MAX.

Abbreviation Act := (act same_loop auto_close cb memory).

Lemma reactor_weaken room room' w :
  reactor_ok same_loop room w -> room <= room' -> reactor_ok same_loop room' w.
Proof.
  intros [Hwf Hs Hfd] Hle. split; [done| |done]. intros p s Hp. destruct (Hs _ _ Hp). split; [done|].
  by eapply session_weaken.
Qed.

(** The server's loop sets [removed] in one event only. *)
Lemma step_removed ev (s s' : Sess) :
  step same_loop auto_close cb memory ev s = Ok s' ->
  removed s' = match ev with Remove => true | _ => removed s end.
Proof.
  intros H. destruct ev; cbn [step] in H; try (bind_inv H); try (by apply Ok_inj in H as <-).
  - destruct (functors (conn s)); [by apply Ok_inj in H as <-|]. bind_inv H. by apply Ok_inj in H as <-.
  - destruct x as [c t]. by apply Ok_inj in H as <-.
Qed.

(** An event of one connection, as the loop sees it. *)
Lemma at_effect p ev room w w' :
  reactor_ok same_loop room w -> can_act (At p ev) w -> kPrePendIndex <= room -> room + reads ev * bound <= INT_MAX ->
  Act (At p ev) w = Ok w' ->
  exists s s', sessions w !! p = Some s /\ sessions w' = <[p := s']> (sessions w) /\
    m_conn_fd (conn s') = m_conn_fd (conn s) /\ rtc advance (m_state (conn s)) (m_state (conn s')) /\
    removed s' = match ev with Remove => true | _ => removed s end /\
    (ev = Remove -> removed s = false).
Proof.
  intros Hok (_ & s & Hp & Hen) Hlow Hfit H. cbn [act] in H. rewrite Hp in H. bind_inv H. apply Ok_inj in H as <-.
  destruct (ok_session _ _ _ Hok _ _ Hp) as [_ Hsok]. exists s, x.
  pose proof (step_removed _ _ _ Hx) as Hrem.
  destruct (step_ok same_loop auto_close cb memory bound bound_request bound_bad bound_int ev _ _ _ Hsok Hen Hlow Hfit)
    as [(s' & E & _ & [Hfd _ Hst])|[E _]]; rewrite Hx in E; [|done]. apply Ok_inj in E as <-.
  split_and!; [done..|]. intros ->. apply Hen.
Qed.

(** Whether the table is touched. *)
Lemma erases_listed ev (s s' : Sess) :
  (same_loop = true -> removed s = true) -> (ev = Remove -> removed s = false) ->
  removed s' = match ev with Remove => true | _ => removed s end -> rtc advance (m_state (conn s)) (m_state (conn s')) ->
  erases ev s s' = listed s && negb (listed s') /\ (listed s' = true -> listed s = true).
Proof.
  intros Hsame Hre Hrem Hadv. unfold erases, listed. destruct same_loop eqn:Eloop.
  - assert (ev <> Remove) as Hne by (intros ->; by rewrite Hsame in Hre; [discriminate Hre|]).
    unfold isDisconnected.
    assert (m_state (conn s) = kDisconnected -> m_state (conn s') = kDisconnected) as Hend
      by (intros E; apply advance_end; by rewrite <- E).
    destruct ev; try (by destruct Hne); rewrite negb_involutive; (split; [done|]);
      intros H%negb_true_iff%bool_decide_eq_false; apply negb_true_iff, bool_decide_eq_false; auto.
  - rewrite Hrem. destruct ev; try (by destruct (removed s)). by rewrite Hre.
Qed.

(** ** Lemmas: the server *)

(** A loop and the table change. *)
Lemma put_loop room room' c l w w' pool id m :
  cluster_ok room c -> room <= room' -> loops c !! l = Some w -> reactor_ok same_loop room' w' ->
  (forall p s, sessions w' !! p = Some s -> same_loop = true -> removed s = true) ->
  LoopPool.wf pool -> LoopPool.m_base_loop pool = LoopPool.m_base_loop (m_loop_thread_pool c) ->
  LoopPool.m_loops pool = LoopPool.m_loops (m_loop_thread_pool c) -> 0 <= id < INT_MAX ->
  let c' := mkCluster pool id m (<[l := w']> (loops c)) in table_ok (entry c') m -> cluster_ok room' c'.
Proof.
  intros [Hpool Hid Hloops Hreact Hrem Htab] Hle Hl Hw' Hr' Hpool' Eb El Hid' c' Htab'.
  split; cbn [m_loop_thread_pool m_next_connection_id loops m_connections c']; try done.
  - rewrite Eb, El. intros l' Hl'. destruct (decide (l' = l)) as [->|Hne];
      [by rewrite lookup_insert_eq | rewrite lookup_insert_ne by done; by apply Hloops].
  - intros l' w0 [[<- <-]|[_ H]]%lookup_insert_Some; [done|]. eapply reactor_weaken; [by eapply Hreact | done].
  - intros l' w0 p s [[<- <-]|[_ H]]%lookup_insert_Some; [by apply Hr' | by eapply Hrem].
Qed.

Lemma entry_at c l w pool id m p :
  entry (mkCluster pool id m (<[l := w]> (loops c))) l p = (fun s => (m_conn_fd (conn s), listed s)) <$> sessions w !! p.
Proof. unfold entry. simpl. by rewrite lookup_insert_eq. Qed.

Lemma entry_other c l w pool id m l' p :
  l' <> l -> entry (mkCluster pool id m (<[l := w]> (loops c))) l' p = entry c l' p.
Proof. intros. unfold entry. simpl. by rewrite lookup_insert_ne. Qed.

Lemma entry_loop c l w p :
  loops c !! l = Some w -> entry c l p = (fun s => (m_conn_fd (conn s), listed s)) <$> sessions w !! p.
Proof. intros H. unfold entry. by rewrite H. Qed.

(** The connections of a loop, but the one at [p], are as they were. *)
Lemma entries_but c l w w' pool id m p :
  loops c !! l = Some w -> (forall q, q <> p -> sessions w' !! q = sessions w !! q) ->
  same_but l p (entry c) (entry (mkCluster pool id m (<[l := w']> (loops c)))).
Proof.
  intros Hl Hs l' q Hne. destruct (decide (l' = l)) as [->|]; [|by apply entry_other].
  destruct Hne as [|Hq]; [done|]. rewrite entry_at, (entry_loop _ _ _ _ Hl). by rewrite Hs.
Qed.

(** What the actions other than a new connection do to the table. *)
Lemma at_table p ev room c l w w' :
  cluster_ok room c -> loops c !! l = Some w -> can_act (At p ev) w -> kPrePendIndex <= room ->
  room + reads ev * bound <= INT_MAX -> Act (At p ev) w = Ok w' ->
  (forall q s, sessions w' !! q = Some s -> same_loop = true -> removed s = true) /\
  forall pool id m0, let m := erase (At p ev) w w' (m_connections c) in
    table_ok (entry (mkCluster pool id m0 (<[l := w']> (loops c)))) m.
Proof.
  intros Hok Hl Hcan Hlow Hfit Hrun.
  destruct (at_effect p ev room w w' (ok_reactors _ _ Hok _ _ Hl) Hcan Hlow Hfit Hrun)
    as (s & s' & Hp & Hs' & Hfd & Hst & Hrem & Hre).
  assert (same_loop = true -> removed s = true) as Hsame by (by eapply (ok_removed _ _ Hok)).
  split.
  - intros q t Hq Esame. rewrite Hs' in Hq. apply lookup_insert_Some in Hq as [[<- <-]|[_ Hq]].
    + rewrite Hrem. destruct ev; auto.
    + by eapply (ok_removed _ _ Hok).
  - intros pool id m0 m. destruct (erases_listed ev s s' Hsame Hre Hrem Hst) as [Eer Himp].
    assert (sessions w' !! p = Some s') as Hp' by (rewrite Hs'; apply lookup_insert_eq).
    unfold m, erase. rewrite Hp, Hp', Eer.
    apply (table_change l p (m_conn_fd (conn s)) (listed s) (listed s') (entry c)); [apply Hok | | | | done].
    + apply (entries_but c l w); [done|]. intros q Hq. rewrite Hs'. by apply lookup_insert_ne.
    + rewrite (entry_loop _ _ _ _ Hl), Hp. done.
    + rewrite entry_at, Hp'. simpl. by rewrite Hfd.
Qed.

Lemma other_table a room c l w w' :
  cluster_ok room c -> loops c !! l = Some w -> can_act a w ->
  match a with Poll _ | Release _ | Outside _ => True | _ => False end -> Act a w = Ok w' ->
  (forall q s, sessions w' !! q = Some s -> same_loop = true -> removed s = true) /\
  forall pool id m0, table_ok (entry (mkCluster pool id m0 (<[l := w']> (loops c)))) (m_connections c).
Proof.
  intros Hok Hl Hcan Ha Hrun.
  assert ((forall q, sessions w' !! q = sessions w !! q) ->
    (forall q s, sessions w' !! q = Some s -> same_loop = true -> removed s = true) /\
    forall pool id m0, table_ok (entry (mkCluster pool id m0 (<[l := w']> (loops c)))) (m_connections c)) as Hquiet.
  { intros Hs. split.
    - intros q s Hq. rewrite Hs in Hq. by eapply (ok_removed _ _ Hok).
    - intros pool id m0. apply (table_same (entry c)); [apply Hok|]. intros l' q.
      destruct (decide (l' = l)) as [->|]; [|by apply entry_other].
      by rewrite entry_at, (entry_loop _ _ _ _ Hl), Hs. }
  destruct a as [|evs|?|p|e]; try done; cbn [act] in Hrun.
  - bind_inv Hrun. destruct x as [active e]. apply Ok_inj in Hrun as <-. by apply Hquiet.
  - destruct Hcan as (s & Hp & Hst & Hrem & _). rewrite Hp in Hrun. bind_inv Hrun. apply Ok_inj in Hrun as <-.
    simpl. split.
    + intros q t [_ Hq]%lookup_delete_Some. by eapply (ok_removed _ _ Hok).
    + intros pool id m0. apply (table_gone l p (m_conn_fd (conn s)) (entry c)); [apply Hok | | |].
      * apply (entries_but c l w); [done|]. intros q Hq. by apply lookup_delete_ne.
      * rewrite (entry_loop _ _ _ _ Hl), Hp. simpl. unfold listed, isDisconnected. rewrite Hst, Hrem.
        by destruct same_loop.
      * rewrite entry_at. simpl. by rewrite lookup_delete_eq.
  - apply Ok_inj in Hrun as <-. by apply Hquiet.
Qed.

(** An action of a loop. *)
Lemma act_in_ok l a room c :
  cluster_ok room c -> can_serve (InLoop l a) c -> kPrePendIndex <= room -> room + act_reads a * bound <= INT_MAX ->
  (exists c', act_in l a c = Ok c' /\ cluster_ok (room + act_reads a * bound) c') \/
  (exists w, loops c !! l = Some w /\ crashes same_loop auto_close cb memory a w).
Proof.
  intros Hok (w & Hl & Hcan & Hna) Hlow Hfit. pose proof (ok_reactors _ _ Hok _ _ Hl) as Hw.
  destruct (act_ok same_loop auto_close cb memory bound bound_request bound_bad bound_int a room w Hw Hcan Hlow Hfit)
    as [(w' & Hrun & Hw')|Hcr]; [left | right; by exists w].
  unfold act_in. rewrite Hl, Hrun. cbn [mbind res_bind]. eexists. split; [done|].
  assert (0 <= act_reads a * bound) as Hpos.
  { pose proof (zlen_nonneg bad_request). apply Z.mul_nonneg_nonneg; [by destruct a as [| |? []| |] | lia]. }
  assert ((forall q s, sessions w' !! q = Some s -> same_loop = true -> removed s = true) /\
    forall pool id m0, table_ok (entry (mkCluster pool id m0 (<[l := w']> (loops c)))) (erase a w w' (m_connections c)))
    as [Hrem Htab].
  { destruct a as [|?|p ev|?|?]; [done | by eapply other_table | by eapply at_table | by eapply other_table..]. }
  apply (put_loop room _ c l w w'); try done; [lia | apply Hok | apply Hok].
Qed.

(** The pool deals one of the loops. *)
Lemma next_loop pool :
  LoopPool.wf pool -> exists l pool', LoopPool.getNextLoop pool = Ok (l, pool') /\ LoopPool.wf pool' /\
    LoopPool.m_base_loop pool' = LoopPool.m_base_loop pool /\ LoopPool.m_loops pool' = LoopPool.m_loops pool /\
    l ∈ LoopPool.m_base_loop pool :: LoopPool.m_loops pool.
Proof.
  intros Hwf. destruct (decide (LoopPool.m_loops pool = [])) as [E|Hne].
  - exists (LoopPool.m_base_loop pool), pool. unfold LoopPool.getNextLoop. rewrite E. split_and!; try done. by left.
  - destruct (LoopPool.getNextLoop_ok pool Hwf Hne) as (l & pool' & E & Hwf' & El & Hl & _).
    destruct (LoopPool.getNextLoop_keeps pool l pool' Hwf E) as [_ Eb].
    exists l, pool'. split_and!; try done. right. by eapply list_elem_of_lookup_2.
Qed.

(** A channel object that does not exist yet belongs to no connection. *)
Lemma fresh_session room w p :
  reactor_ok same_loop room w -> Epoll.channels (shared w) !! p = None -> sessions w !! p = None.
Proof.
  intros Hok Hp. destruct (sessions w !! p) as [s|] eqn:E; [|done].
  destruct (ok_session _ _ _ Hok _ _ E) as [Hch Hs].
  destruct (session_channel same_loop _ _ _ Hs) as (ch & Hc & _).
  simpl in Hc. congruence.
Qed.

Lemma new_connection_ok wr r p fd room c :
  cluster_ok room c -> can_serve (NewConnection wr r p fd) c -> kPrePendIndex <= room -> room <= INT_MAX ->
  exists c', handleNewConnection wr r p fd c = Ok c' /\ cluster_ok room c'.
Proof.
  intros Hok [Hopen Hfree] Hlow Hroom. unfold handleNewConnection.
  destruct (next_loop _ (ok_pool _ _ Hok)) as (l & pool & El & Hpool & Eb & Els & Hin). rewrite El. cbn [mbind res_bind].
  destruct (ok_loops _ _ Hok l Hin) as [w Hl]. specialize (Hopen _ _ _ El Hl).
  pose proof (ok_reactors _ _ Hok _ _ Hl) as Hw. set (here := bool_decide _).
  assert (sessions w !! p = None) as Hnone by (eapply fresh_session; [exact Hw | apply Hopen]).
  destruct (accept_ok same_loop auto_close cb memory wr r here p fd (m_next_connection_id c) room w Hw) as (w' & Hrun & Hw');
    [|done|].
  { split; [done|]. intros q s Hq E. apply (Hfree l q (listed s)). by rewrite (entry_loop _ _ _ _ Hl), Hq, <- E. }
  assert (act_in l (Accept wr r here p fd (m_next_connection_id c)) c =
    Ok (mkCluster (m_loop_thread_pool c) (m_next_connection_id c) (m_connections c) (<[l := w']> (loops c)))) as ->
    by (unfold act_in; by rewrite Hl, Hrun).
  pose proof (ok_id _ _ Hok) as Hid. cbn [mbind res_bind m_connections loops].
  rewrite int_op_Ok by (zsimpl; lia). cbn [mbind res_bind].
  set (id := if _ =? INT_MAX then _ else _).
  set (c2 := mkCluster pool id (<[fd := (l, p)]> (m_connections c)) (<[l := w']> (loops c))).
  cbn [act] in Hrun. apply Ok_inj in Hrun. set (s0 := opening _ _ _ _ _ _ _ _) in Hrun.
  assert (sessions w' = <[p := s0]> (sessions w)) as Hs' by (by subst w').
  assert (listed s0 = true) as Hlisted by (unfold listed, s0; simpl; by destruct same_loop).
  assert (cluster_ok room c2) as Hok2.
  { apply (put_loop room room c l w w'); try done.
    - intros q s Hq. rewrite Hs' in Hq. apply lookup_insert_Some in Hq as [[_ <-]|[_ Hq]]; [done|].
      by eapply (ok_removed _ _ Hok).
    - unfold id. destruct (Z.eqb_spec (m_next_connection_id c + 1) INT_MAX); unfold INT_MAX in *; lia.
    - apply (table_new l p fd (entry c)); [apply Hok | | | |].
      + apply (entries_but c l w); [done|]. intros q Hq. rewrite Hs'. by apply lookup_insert_ne.
      + by rewrite (entry_loop _ _ _ _ Hl), Hnone.
      + rewrite entry_at, Hs', lookup_insert_eq. simpl. by rewrite Hlisted.
      + done. }
  destruct here; [|eauto].
  assert (can_serve (InLoop l (At p Established)) c2) as Hcan.
  { exists w'. split; [apply lookup_insert_eq|]. split; [|done]. split; [intros ?; discriminate|].
    exists s0. by rewrite Hs', lookup_insert_eq. }
  destruct (act_in_ok l (At p Established) room c2 Hok2 Hcan Hlow) as [(c' & Hc' & Hok')|(w0 & _ & Hcr)]; [simpl; lia | |].
  - simpl in Hok'. rewrite Z.add_0_r in Hok'. eauto.
  - destruct Hcr as (p0 & ev & s & [= <- <-] & _ & (data & ? & ? & E & _) & _). discriminate E.
Qed.

(** A new connection, as actions of the loop it is dealt to. *)
Lemma new_connection_acts wr r p fd room c c' :
  cluster_ok room c -> can_serve (NewConnection wr r p fd) c -> kPrePendIndex <= room ->
  handleNewConnection wr r p fd c = Ok c' ->
  exists l pool w w' c2,
    let here := bool_decide (l = LoopPool.m_base_loop pool) in
    let a := Accept wr r here p fd (m_next_connection_id c) in
    LoopPool.getNextLoop (m_loop_thread_pool c) = Ok (l, pool) /\ loops c !! l = Some w /\
    reactor_ok same_loop room w /\ can_act a w /\ Act a w = Ok w' /\ reactor_ok same_loop room w' /\
    loops c2 = <[l := w']> (loops c) /\
    if here then can_act (At p Established) w' /\ act_in l (At p Established) c2 = Ok c' else c' = c2.
Proof.
  intros Hok [Hopen Hfree] Hlow H. unfold handleNewConnection in H.
  destruct (next_loop _ (ok_pool _ _ Hok)) as (l & pool & El & _ & _ & _ & Hin). rewrite El in H. cbn [mbind res_bind] in H.
  destruct (ok_loops _ _ Hok l Hin) as [w Hl]. specialize (Hopen _ _ _ El Hl).
  pose proof (ok_reactors _ _ Hok _ _ Hl) as Hw. set (here := bool_decide _) in H.
  assert (can_act (Accept wr r here p fd (m_next_connection_id c)) w) as Hacc.
  { split; [done|]. intros q s Hq E. apply (Hfree l q (listed s)). by rewrite (entry_loop _ _ _ _ Hl), Hq, <- E. }
  destruct (accept_ok same_loop auto_close cb memory wr r here p fd (m_next_connection_id c) room w Hw Hacc Hlow)
    as (w' & Hrun & Hw').
  assert (act_in l (Accept wr r here p fd (m_next_connection_id c)) c =
    Ok (mkCluster (m_loop_thread_pool c) (m_next_connection_id c) (m_connections c) (<[l := w']> (loops c)))) as E
    by (unfold act_in; by rewrite Hl, Hrun).
  rewrite E in H. cbn [mbind res_bind] in H. bind_inv H. clear Hx.
  set (c2 := mkCluster _ _ _ _) in H. exists l, pool, w, w', c2. cbn zeta.
  fold here. split_and!; [done..|]. destruct here; [|by apply Ok_inj in H]. split; [|done].
  split; [intros ?; discriminate|]. cbn [act] in Hrun. apply Ok_inj in Hrun. rewrite <- Hrun. simpl.
  eexists. by rewrite lookup_insert_eq.
Qed.

(** The one way to crash. *)
Definition crashes_in (a : server_action) (c : Cluster) : Prop :=
  exists l x w, a = InLoop l x /\ loops c !! l = Some w /\ crashes same_loop auto_close cb memory x w /\
    serve a c = Fault Undefined.

Lemma serve_ok a room c :
  cluster_ok room c -> can_serve a c -> kPrePendIndex <= room -> room + serve_reads a * bound <= INT_MAX ->
  (exists c', serve a c = Ok c' /\ cluster_ok (room + serve_reads a * bound) c') \/ crashes_in a c.
Proof.
  intros Hok Hcan Hlow Hfit. destruct a as [wr r p fd|l a]; cbn [serve serve_reads] in *.
  - left. rewrite Z.add_0_r in *. by apply new_connection_ok.
  - destruct (act_in_ok l a room c Hok Hcan Hlow Hfit) as [|(w & Hl & Hcr)]; [by left|]. right.
    exists l, a, w. split_and!; try done. simpl. unfold act_in. rewrite Hl.
    by destruct Hcr as (? & ? & ? & _ & _ & _ & ->).
Qed.

Lemma serve_reads_nonneg a : 0 <= serve_reads a.
Proof. by destruct a as [|? [| |? []| |]]. Qed.

Lemma serve_all_ok l : forall room c,
  cluster_ok room c -> can_serve_all l c -> kPrePendIndex <= room -> room + all_serve_reads l * bound <= INT_MAX ->
  (exists c', serve_all l c = Ok c' /\ cluster_ok (room + all_serve_reads l * bound) c') \/
  (exists l1 a l2 c1, l = l1 ++ a :: l2 /\ serve_all l1 c = Ok c1 /\ crashes_in a c1 /\
     serve_all l c = Fault Undefined).
Proof.
  pose proof (zlen_nonneg bad_request).
  assert (forall l, 0 <= all_serve_reads l) as Hall
    by (intros l0; induction l0 as [|b l0 IH]; simpl; [lia | pose proof (serve_reads_nonneg b); lia]).
  induction l as [|a l IH]; intros room c Hok Hcan Hlow Hfit; cbn [serve_all all_serve_reads] in *.
  { left. exists c. by rewrite Z.add_0_r. }
  destruct Hcan as [Ha Hcan]. pose proof (serve_reads_nonneg a). pose proof (Hall l).
  destruct (serve_ok a room c Hok Ha) as [(c1 & Hrun & Hok1)|Hcr]; [done | nia | |].
  - rewrite Hrun. cbn [mbind res_bind].
    destruct (IH _ _ Hok1 (Hcan _ Hrun)) as [(c' & Hrun' & Hok')|(l1 & a1 & l2 & c2 & -> & Hrun2 & Hcr & Hf)];
      [nia | nia | left | right].
    + exists c'. split; [done|]. by replace (room + (serve_reads a + all_serve_reads l) * bound)
        with (room + serve_reads a * bound + all_serve_reads l * bound) by lia.
    + exists (a :: l1), a1, l2, c2. cbn [app serve_all]. rewrite Hrun. by split_and!.
  - right. exists [], a, l, c. destruct Hcr as (? & ? & ? & ? & ? & ? & E). rewrite E. split_and!; try done.
    by do 3 eexists.
Qed.

Lemma started_ok c : started c -> cluster_ok kPrePendIndex c.
Proof.
  intros (Hpool & _ & _ & Hid & Hm & Hl & Hin). 
  assert (forall l p, entry c l p = None) as Hnone.
  { intros l p. unfold entry. destruct (loops c !! l) as [w|] eqn:E; [|done]. by rewrite (proj2 (Hl _ _ E)). }
  split; try done.
  - rewrite Hid. unfold INT_MAX. lia.
  - intros l w E. destruct (Hl _ _ E) as [Hwf Hs]. destruct w as [e ss]. simpl in *. subst ss. by apply idle_loop_ok.
  - intros l w p s E Hp. by rewrite (proj2 (Hl _ _ E)) in Hp.
  - split; [intros fd l p; rewrite Hm, Hnone, lookup_empty; by split | intros ? ? ? ? ? ? ?; by rewrite Hnone].
Qed.

(** A connection that is not closed is one to be found in the table. *)
Lemma open_listed room c l w p s :
  cluster_ok room c -> loops c !! l = Some w -> sessions w !! p = Some s -> m_state (conn s) <> kDisconnected ->
  listed s = true.
Proof.
  intros Hok Hl Hp Hst. destruct (ok_session _ _ _ (ok_reactors _ _ Hok _ _ Hl) _ _ Hp) as [_ [_ Hph]].
  unfold listed, isDisconnected. rewrite bool_decide_eq_false_2 by done.
  enough (removed s = same_loop) as -> by (by destruct same_loop).
  unfold phase_ok in Hph. simpl in Hph. destruct (m_state (conn s)); [apply Hph.. | done].
Qed.

(** ** Properties *)

(** C1. The server survives its clients.  From its start, whatever connections
    come and in whatever order its loops work through whatever happens to
    each of them, no loop fails an assertion, aborts, or touches a connection
    or channel that is gone, and the invariant of all loops and the table
    holds, as long as the responses fit an [int]; but for the one case of
    Session.v, a message that completes a request without a Connection
    header. *)
Theorem server_never_crashes l c :
  started c -> can_serve_all l c -> kPrePendIndex + all_serve_reads l * bound <= INT_MAX ->
  (exists c', serve_all l c = Ok c' /\ cluster_ok (kPrePendIndex + all_serve_reads l * bound) c') \/
  (exists l1 a l2 c1, l = l1 ++ a :: l2 /\ serve_all l1 c = Ok c1 /\ crashes_in a c1).
Proof.
  intros Hst Hcan Hfit.
  destruct (serve_all_ok l _ _ (started_ok c Hst) Hcan ltac:(done) Hfit) as [?|(l1 & a & l2 & c1 & H1 & H2 & H3 & _)];
    [by left | right; by exists l1, a, l2, c1].
Qed.

(** C17. The table of connections is exact, in every run of the server: it
    holds a connection under its own descriptor exactly from its acceptance to
    its removal; a connection that is not closed is in it; and no two
    connections of the server, in whatever loops, have one descriptor. *)
Theorem server_table l c c' :
  started c -> can_serve_all l c -> kPrePendIndex + all_serve_reads l * bound <= INT_MAX -> serve_all l c = Ok c' ->
  (forall fd i p, m_connections c' !! fd = Some (i, p) <->
     exists w s, loops c' !! i = Some w /\ sessions w !! p = Some s /\ m_conn_fd (conn s) = fd /\ listed s = true) /\
  (forall i w p s, loops c' !! i = Some w -> sessions w !! p = Some s -> m_state (conn s) <> kDisconnected ->
     m_connections c' !! m_conn_fd (conn s) = Some (i, p)) /\
  (forall i w p s j v q t, loops c' !! i = Some w -> sessions w !! p = Some s ->
     loops c' !! j = Some v -> sessions v !! q = Some t -> m_conn_fd (conn s) = m_conn_fd (conn t) -> i = j /\ p = q).
Proof.
  intros Hst Hcan Hfit Hrun.
  destruct (serve_all_ok l _ _ (started_ok c Hst) Hcan ltac:(done) Hfit) as [(c2 & Hrun2 & Hok)|(? & ? & ? & ? & _ & _ & _ & E)];
    [|congruence].
  rewrite Hrun in Hrun2. apply Ok_inj in Hrun2 as <-. destruct (ok_table _ _ Hok) as [He Hu].
  assert (forall i w p s, loops c' !! i = Some w -> sessions w !! p = Some s ->
    entry c' i p = Some (m_conn_fd (conn s), listed s)) as Hentry.
  { intros i w p s Hi Hp. by rewrite (entry_loop _ _ _ _ Hi), Hp. }
  split_and!.
  - intros fd i p. rewrite He. split.
    + unfold entry. destruct (loops c' !! i) as [w|]; [|done]. destruct (sessions w !! p) as [s|] eqn:Ep; [|done].
      intros [= <- Hls]. by exists w, s.
    + intros (w & s & Hi & Hp & <- & <-). by eapply Hentry.
  - intros i w p s Hi Hp Hopen. apply He. rewrite (Hentry _ _ _ _ Hi Hp).
    by rewrite (open_listed _ _ _ _ _ _ Hok Hi Hp Hopen).
  - intros i w p s j v q t Hi Hp Hj Hq E. eapply Hu; [by eapply Hentry|]. rewrite E. by eapply Hentry.
Qed.

End WithKernel.

(** ** Witnesses *)

(** A base loop and two I/O loops; two connections are accepted and dealt to
    them; the second makes a request while the first goes away, is removed,
    destroyed and released. *)
Abbreviation table := (gmap Z (Z * chan_ptr)).
Abbreviation Serve := (serve false true resCallback (fun _ _ => [])).
Abbreviation Serve_all := (serve_all false true resCallback (fun _ _ => [])).
Abbreviation Can_all := (can_serve_all false true resCallback (fun _ _ => [])).
Abbreviation Quiet := (idle_loop no_channels).

Definition two_loops : Cluster :=
  mkCluster (LoopPool.mkPool 0 2 0 [1; 2]%nat) 0 ∅ {[ 0%nat := Quiet; 1%nat := Quiet; 2%nat := Quiet ]}.

Definition two_clients : list (@server_action table) :=
  [NewConnection two_bytes ticking 1 7; NewConnection two_bytes ticking 1 8;
   InLoop 1 (At 1 Established); InLoop 2 (At 1 Established);
   InLoop 2 (Poll [(EPOLLIN, 1%positive)]); InLoop 2 (At 1 (Dispatched (ReadvOk hello_input)));
   InLoop 1 (Poll [(Z.lor EPOLLIN EPOLLRDHUP, 1%positive)]); InLoop 1 (At 1 (Dispatched (ReadvOk [])));
   InLoop 1 (At 1 Remove); InLoop 1 (At 1 RunFunctor); InLoop 1 (Release 1)].

Lemma two_loops_started : started false two_loops.
Proof.
  unfold started, two_loops. cbn [m_loop_thread_pool m_next_connection_id m_connections loops].
  assert (forall l w, ({[ 0%nat := Quiet; 1%nat := Quiet; 2%nat := Quiet ]} : gmap loop (@Reactor table)) !! l = Some w ->
    w = Quiet) as Hq.
  { intros l w. rewrite !lookup_insert_Some, lookup_singleton_Some. by intros [[_ <-]|[_ [[_ <-]|[_ [_ <-]]]]]. }
  split_and!; try done.
  - apply (bool_decide_unpack _). by vm_compute.
  - intros l w ->%Hq. by split.
  - intros l Hl. apply (bool_decide_unpack _). simpl in Hl.
    repeat (apply elem_of_cons in Hl as [->|Hl]; [by vm_compute|]). by apply elem_of_nil in Hl.
Qed.

Definition served (r : res (@Cluster table)) : Cluster := match r with Ok c => c | Fault _ => two_loops end.

Lemma served_ok r : match r with Ok _ => True | Fault _ => False end -> r = Ok (served r).
Proof. by destruct r. Qed.

Lemma can_serve_cons a l c : can_serve false a c -> Can_all l (served (Serve a c)) -> Can_all (a :: l) c.
Proof. intros Ha Hl. split; [done|]. intros c' E. by rewrite E in Hl. Qed.

Definition loop_at (c : @Cluster table) (l : loop) : Reactor := default Quiet (loops c !! l).

Lemma loop_at_ok c l : match loops c !! l with Some _ => True | None => False end -> loops c !! l = Some (loop_at c l).
Proof. unfold loop_at. by destruct (loops c !! l). Qed.

(** No connection has a descriptor. *)
Definition unused (fd : Z) (c : @Cluster table) : bool :=
  bool_decide (map_Forall (fun _ w => map_Forall (fun _ s => m_conn_fd (conn s) <> fd) (sessions w)) (loops c)).

Lemma can_new p fd c l pool w :
  LoopPool.getNextLoop (m_loop_thread_pool c) = Ok (l, pool) -> loops c !! l = Some w ->
  Epoll.channels (shared w) !! p = None -> Epoll.m_channels (shared w) !! fd = None -> unused fd c = true ->
  can_serve false (NewConnection two_bytes ticking p fd) c.
Proof.
  intros El Hl Hp Hfd Hu%bool_decide_eq_true. split.
  - intros l' pool' w' E Hw. rewrite El in E. apply Ok_inj in E as [= <- <-]. rewrite Hl in Hw. injection Hw as <-.
    by apply can_open_at.
  - intros l' q b H. unfold entry in H. destruct (loops c !! l') as [v|] eqn:Hv; [|done].
    destruct (sessions v !! q) as [s|] eqn:Hq; [|done]. injection H as H _. by apply (Hu _ _ Hv _ _ Hq).
Qed.

Ltac new_connection l :=
  apply can_serve_cons;
  [match goal with |- can_serve _ (NewConnection _ _ ?p ?fd) ?c =>
     eapply (can_new p fd c l _ (loop_at c l));
     [by vm_compute | apply loop_at_ok; by vm_compute | by vm_compute..] end |].

Ltac in_loop :=
  apply can_serve_cons;
  [match goal with |- can_serve _ (InLoop ?l ?a) ?c =>
     exists (loop_at c l); split; [apply loop_at_ok; by vm_compute|]; split; [|done];
     match a with
     | At ?p _ =>
         split; [intros ?; discriminate|]; exists (here (loop_at c l) p); split; [apply here_ok; by vm_compute|];
         first [exact I | by vm_compute | by vm_compute; eexists | split; [by vm_compute; eexists | by vm_compute]]
     | Poll _ => apply Forall_singleton; first [exists 7; by vm_compute; eexists | exists 8; by vm_compute; eexists]
     | Release ?p => exists (here (loop_at c l) p); split; [apply here_ok; by vm_compute | by vm_compute]
     end end |].

Lemma two_clients_can : Can_all two_clients two_loops.
Proof. unfold two_clients. new_connection 1%nat. new_connection 2%nat. do 9 in_loop. done. Qed.

Lemma server_never_crashes_witness :
  (exists c', Serve_all two_clients two_loops = Ok c' /\
     cluster_ok false (kPrePendIndex + all_serve_reads two_clients * kResponseMax) c') \/
  (exists l1 a l2 c1, two_clients = l1 ++ a :: l2 /\ Serve_all l1 two_loops = Ok c1 /\
     crashes_in false true resCallback (fun _ _ => []) a c1).
Proof.
  apply (server_never_crashes false true resCallback (fun _ _ => []) kResponseMax resCallback_bound
           ltac:(by vm_compute) ltac:(by vm_compute) two_clients two_loops).
  - apply two_loops_started.
  - apply two_clients_can.
  - by vm_compute.
Defined.

Definition after_clients : Cluster := served (Serve_all two_clients two_loops).

(** The second is left, and in the table. *)
Example after_clients_table : map_to_list (m_connections after_clients) = [(8, (2%nat, 1%positive))].
Proof. vm_compute. reflexivity. Qed.

Lemma server_table_witness :
  (forall fd i p, m_connections after_clients !! fd = Some (i, p) <->
     exists w s, loops after_clients !! i = Some w /\ sessions w !! p = Some s /\ m_conn_fd (conn s) = fd /\
       listed false s = true) /\
  (forall i w p s, loops after_clients !! i = Some w -> sessions w !! p = Some s -> m_state (conn s) <> kDisconnected ->
     m_connections after_clients !! m_conn_fd (conn s) = Some (i, p)) /\
  (forall i w p s j v q t, loops after_clients !! i = Some w -> sessions w !! p = Some s ->
     loops after_clients !! j = Some v -> sessions v !! q = Some t -> m_conn_fd (conn s) = m_conn_fd (conn t) ->
     i = j /\ p = q).
Proof.
  apply (server_table false true resCallback (fun _ _ => []) kResponseMax resCallback_bound
           ltac:(by vm_compute) ltac:(by vm_compute) two_clients two_loops after_clients).
  - apply two_loops_started.
  - apply two_clients_can.
  - by vm_compute.
  - apply served_ok. by vm_compute.
Defined.

End Clust.
