(* ===== verification/Dialogue.v ===== *)
(** * Dialogue: what a client is answered

    A connection hears messages and answers them: here what it sends over its
    whole life, whatever else happens in between, is the answers of a pure
    machine (the parser of HttpRequestParser.v and the response callback) to
    the messages it has read, in their order; the machine stops at the first
    answer that closes.

    As in TcpConnection.v this needs a peer that stays, and an output buffer
    that does not reuse its front when a message is read (see
    [Buf.compacts]). *)

From Stdlib Require Import ZArith Lia Ascii String.
From stdpp Require Import options.
From S2P Require Import Prelude CStd Buffer HttpRequest HttpRequestParser HttpResponse Channel Epoller Timestamp TcpConnection HttpServer TcpSafety Session.

#[local] Set Default Proof Using "Type*".

Module Talk.
Import Request Tcp Server Safe Life.

Section WithKernel.
Context {K : Type} `{!EpollKernel K}.
Context (same_loop auto_close : bool).
Context (cb : HttpRequest -> Response.HttpResponse -> Response.HttpResponse).
Context (memory : Z -> Z -> bytes).

Abbreviation Conn := (TcpConnection K).
Abbreviation Sess := (@Session K).
Abbreviation Event := (@event K).
Abbreviation Step := (step same_loop auto_close cb memory).
Abbreviation Run := (Life.run same_loop auto_close cb memory).

(** ** The machine *)

(** The answer to a message: the parser after it, the bytes to send, and
    whether to close.  The code reads a dangling reference when a complete
    request has no Connection header; there is no answer then. *)
Definition reply (p : Parser.HttpRequestParser) (data : bytes) : option (Parser.HttpRequestParser * bytes * bool) :=
  match Parser.parse_bytes p data with
  | Fault _ => None
  | Ok (p', _) =>
      match Parser.m_state p' with
      | Parser.kParseErrno => Some (p', bad_request, true)
      | Parser.kParseGotCompleteRequest =>
          let request := Parser.m_request p' in
          match m_headers request !! bs "Connection" with
          | Some h =>
              let response := cb request (Response.new (wants_close request h)) in
              Some (p', Response.serialize response, Response.closeConnection response)
          | None => None
          end
      | _ => Some (p', [], false)
      end
  end.

Record Dialogue := mkDialogue {
  listener : Parser.HttpRequestParser;
  said : bytes;
  going : bool
}.

Definition hear (d : Dialogue) (data : bytes) : Dialogue :=
  if going d then
    match reply (listener d) data with
    | Some (p, out, close) => mkDialogue p (said d ++ out) (negb close)
    | None => d
    end
  else d.

Definition answers (messages : list bytes) : Dialogue := foldl hear (mkDialogue Parser.new [] true) messages.

(** The message that an event has the connection read: the reported events
    must ask for a read, and an empty one is the end of input. *)
Definition message (e : Event) (s : Sess) : list bytes :=
  match e with
  | Dispatched (ReadvOk (a :: data)) =>
      match Epoll.deref (m_channel (conn s)) (poller (conn s)) with
      | Ok ch => if Chan.has_bits (Chan.m_revents ch) (Z.lor kReadEvent EPOLLRDHUP) then [a :: data] else []
      | Fault _ => []
      end
  | _ => []
  end.

Fixpoint messages (es : list Event) (s : Sess) : list bytes :=
  match es with
  | [] => []
  | e :: es' => message e s ++ match Step e s with Ok s' => messages es' s' | Fault _ => [] end
  end.

(** What the connection has put on the wire, and what waits in its buffer. *)
Definition flow (c : Conn) : bytes := wire_of (calls c) ++ Buf.content (m_output_buffer c).

(** The peer has not gone. *)
Definition stays (w : nat -> Z -> write_result) : Prop :=
  forall j len, 0 <= len -> match w j len with WriteErr e => e <> EPIPE /\ e <> ECONNRESET | Wrote _ => True end.

(** ** Lemmas: what keeps quiet *)

Record hush (c c' : Conn) : Prop := {
  hush_flow : flow c' = flow c;
  hush_parser : m_parser c' = m_parser c;
  hush_writes : writes c' = writes c
}.

#[global] Instance hush_preorder : PreOrder hush.
Proof. split; [done|]. intros c1 c2 c3 [] []. split; congruence. Qed.

Lemma hush_on_channel f (c c' : Conn) : on_channel f c = Ok c' -> hush c c'.
Proof. unfold on_channel. intros H. bind_inv H. by apply Ok_inj in H as <-. Qed.

Lemma hush_shutDownInLoop (c c' : Conn) : shutDownInLoop c = Ok c' -> hush c c'.
Proof.
  unfold shutDownInLoop. intros H. do 2 bind_inv H. destruct (negb _); apply Ok_inj in H as <-; [|done].
  split; [|done..]. unfold flow. simpl. by rewrite wire_app, app_nil_r.
Qed.

Lemma hush_shutDown (c c' : Conn) : shutDown c = Ok c' -> hush c c'.
Proof.
  unfold shutDown. intros H. case_decide; [|by apply Ok_inj in H as <-].
  destruct (in_loop _); [|by apply Ok_inj in H as <-]. apply hush_shutDownInLoop in H. by destruct H.
Qed.

Lemma hush_close (c c' : Conn) : close_callback same_loop c = Ok c' -> hush c c'.
Proof. unfold close_callback. intros H. apply Ok_inj in H as <-. by destruct same_loop. Qed.

Lemma hush_connection (c c' : Conn) : connection_callback auto_close c = Ok c' -> hush c c'.
Proof. unfold connection_callback, onConnection. intros H. apply Ok_inj in H as <-. by destruct (isConnected c). Qed.

Lemma hush_handleClose (c c' : Conn) : handleClose (close_callback same_loop) c = Ok c' -> hush c c'.
Proof.
  unfold handleClose. intros H. do 3 bind_inv H. apply hush_close in H. apply hush_on_channel in Hx1.
  etrans; [|exact H]. by destruct Hx1.
Qed.

(** ** Lemmas: what is written and what is sent *)

Lemma flow_write d n (c : Conn) : flow (sys [SysWrite d] n c) = wire_of (calls c) ++ d ++ Buf.content (m_output_buffer c).
Proof.
  unfold flow. simpl. rewrite wire_app, <- app_assoc. f_equal. change (wire_of [SysWrite d]) with (d ++ []).
  by rewrite app_nil_r.
Qed.

Lemma pending_slice (b : Buf.Buffer) :
  slice (Buf.peek b) (Buf.peek b + Buf.readableBytes b) (Buf.m_buffer b) = Buf.content b.
Proof. unfold Buf.content, Buf.peek, Buf.curReadPtr, Buf.readableBytes. f_equal. lia. Qed.

Lemma hush_handleWrite e0 room (c c' : Conn) : open_ok e0 room c -> handleWrite c = Ok c' -> hush c c'.
Proof.
  intros Ho H. pose proof Ho as [_ Hwf _ _ Hcontract _]. unfold handleWrite in H. bind_inv H. clear Hx. bind_inv H. clear Hx.
  destruct x0; [|by apply Ok_inj in H as <-]. rewrite pending_slice in H. set (out := Buf.content _) in *.
  unfold write in H. pose proof (Hcontract (written c) (zlen out) (zlen_nonneg out)) as Hr.
  assert (hush c (sys [SysWrite []] 1 c)) as Hnone by (split; [by rewrite flow_write | done..]).
  destruct (writes c (written c) (zlen out)) as [n|e]; [|by apply Ok_inj in H as <-].
  destruct (Z.ltb_spec 0 n) as [Hn|]; [|apply Ok_inj in H as <-; by replace (Z.to_nat n) with 0%nat by lia].
  destruct (Buf.retrieve_ok n (m_output_buffer c)) as (b & Hret & _ & Hb & _);
    [done | rewrite <- Buf.zlen_content by done; fold out; lia|].
  cbn [m_output_buffer sys] in H. rewrite Hret in H. cbn [mbind res_bind] in H. fold out in Hb.
  set (c1 := set_output b (sys [SysWrite (take (Z.to_nat n) out)] 1 c)) in *.
  assert (hush c c1) as H1.
  { split; [|done..]. etrans; [|apply (f_equal (app (wire_of (calls c))) (take_drop (Z.to_nat n) out))].
    change (flow c1) with (wire_of (calls c ++ [SysWrite (take (Z.to_nat n) out)]) ++ Buf.content b).
    rewrite Hb, wire_app, <- app_assoc. f_equal.
    change (wire_of [SysWrite (take (Z.to_nat n) out)]) with (take (Z.to_nat n) out ++ []). by rewrite app_nil_r. }
  destruct (_ =? 0); [|by apply Ok_inj in H as <-]. bind_inv H. apply hush_on_channel in Hx.
  case_decide; [|apply Ok_inj in H as <-; by etrans]. apply hush_shutDownInLoop in H. etrans; [exact H1|]. by etrans.
Qed.

(** The connection [c] says [msg]. *)
Record says (msg : bytes) (c c' : Conn) : Prop := {
  says_flow : flow c' = flow c ++ msg;
  says_parser : m_parser c' = m_parser c;
  says_writes : writes c' = writes c
}.

Lemma says_hush msg (c c1 c' : Conn) : says msg c c1 -> hush c1 c' -> says msg c c'.
Proof. intros [] []. split; congruence. Qed.

(** No append of up to [len] bytes reuses the front of the output buffer. *)
Definition tidy (len : Z) (c : Conn) : Prop := forall n, 0 < n <= len -> Buf.compacts n (m_output_buffer c) = false.

(** That holds whenever a message is read. *)
Fixpoint tidily (len : Z) (es : list Event) (s : Sess) : Prop :=
  match es with
  | [] => True
  | e :: es' => (reads e = 1 -> tidy len (conn s)) /\ forall s', Step e s = Ok s' -> tidily len es' s'
  end.

Lemma stays_socket (c : Conn) : write_contract c -> stays (writes c) -> socket_ok c.
Proof.
  intros Hc Hs k len Hlen. specialize (Hc k len Hlen). specialize (Hs k len Hlen). by destruct (writes c k len).
Qed.

Lemma says_send e0 room len msg (c c' : Conn) :
  open_ok e0 room c -> m_state c = kConnected -> stays (writes c) -> tidy len c -> zlen msg <= len ->
  room + zlen msg <= INT_MAX -> zlen msg + kPrePendIndex <= INT_MAX -> send 0 msg c = Ok c' -> says msg c c'.
Proof.
  intros Ho Hst Hstay Htidy Hmsg Hi Hi8 H. pose proof Ho as [(ch & Hl & _ & _ & Hsync) Hwf Hidx _ Hcontract Hin].
  destruct (send_open e0 room msg c Ho Hi Hi8) as (c2 & H2 & _ & Hsame & _).
  rewrite H in H2. apply Ok_inj in H2 as <-. destruct Hsame.
  split; [|done..]. unfold send in H. rewrite decide_True, Hin in H by done. pose proof (zlen_nonneg msg).
  assert (zlen msg <= INT_MAX) as Hint by (unfold kPrePendIndex in *; lia).
  destruct (sendInLoop_pending c ch msg Hin Hl (stays_socket c Hcontract Hstay) Hst Hwf Hint Hsync)
    as (c1 & n & Hrun & Hn & Hl1 & Hin1 & _ & _ & Hout & _ & Hw1).
  rewrite Hrun in H. clear Hrun. assert (zlen (drop (Z.to_nat n) msg) = zlen msg - n) as Hz by len_lia.
  assert (flow c1 ++ drop (Z.to_nat n) msg = flow c ++ msg) as Hflow.
  { unfold flow. rewrite Hw1, <- !app_assoc, take_drop. done. }
  unfold send_pending in H. destruct (Z.ltb_spec 0 (zlen (drop (Z.to_nat n) msg))) as [Hpos|Hzero].
  - rewrite <- Hflow, <- Hout in *.
    destruct (send_rest c1 ch (drop (Z.to_nat n) msg)) as (c3 & ch3 & b & Hrun & _ & _ & Hb & _ & Hc3 & _ & Hca & _);
      [done | done | done | done | intros E; rewrite E in Hpos; by vm_compute in Hpos | lia | lia | rewrite Hout; apply Htidy; lia |].
    assert (Ok c' = Ok c3) as [= ->] by (rewrite <- H; exact Hrun). unfold flow. by rewrite Hb, Hc3, Hca, app_assoc.
  - apply Ok_inj in H as <-. rewrite <- Hflow. rewrite (zlen_nil_inv (drop (Z.to_nat n) msg)); [by rewrite app_nil_r|].
    pose proof (zlen_nonneg (drop (Z.to_nat n) msg)). lia.
Qed.

(** ** Lemmas: one message *)

(** The responses are bounded. *)
Context (bound : Z).
Hypothesis bound_request : forall r close, zlen (Response.serialize (cb r (Response.new close))) <= bound.
Hypothesis bound_bad : zlen bad_request <= bound.
Hypothesis bound_int : bound + 2 * kPrePendIndex <= INT_MAX.

Definition answer (close : bool) (msg : bytes) (c : Conn) : res Conn :=
  c ← send 0 msg c; if close then shutDown c else Ok c.

(** An answer on a connection that takes messages, and on one that does not. *)
Lemma says_answer close e0 room msg (c c' : Conn) :
  open_ok e0 room c -> m_state c = kConnected -> stays (writes c) -> tidy bound c -> zlen msg <= bound ->
  room + bound <= INT_MAX -> answer close msg c = Ok c' ->
  says msg c c' /\ m_state c' = if close then kDisconnecting else kConnected.
Proof.
  intros Ho Hst Hstay Htidy Hmsg Hroom H. unfold answer in H. bind_inv H. rename x into c1.
  assert (room + zlen msg <= INT_MAX) as Hi by lia. assert (zlen msg + kPrePendIndex <= INT_MAX) as Hi8 by (unfold kPrePendIndex in *; lia).
  pose proof (says_send e0 room bound msg c c1 Ho Hst Hstay Htidy Hmsg Hi Hi8 Hx) as Hsays.
  destruct (send_open e0 room msg c Ho Hi Hi8) as (c2 & H2 & Ho1 & _ & Hst1). rewrite Hx in H2. apply Ok_inj in H2 as <-.
  destruct close; [|apply Ok_inj in H as <-; split; [done | congruence]].
  split; [eapply says_hush; [exact Hsays | by apply hush_shutDown]|].
  unfold shutDown in H. rewrite decide_True in H by congruence. cbn [in_loop set_state] in H. rewrite (open_loop _ _ _ Ho1) in H.
  destruct (shutDownInLoop_open e0 (room + zlen msg) (set_state kDisconnecting c1)) as (c3 & H3 & _ & _ & Hst3);
    [by eapply open_ok_ext|]. rewrite H in H3. by apply Ok_inj in H3 as ->.
Qed.

Lemma mute_answer close msg (c : Conn) : m_state c <> kConnected -> answer close msg c = Ok c.
Proof. intros Hst. unfold answer, send, shutDown. rewrite decide_False by done. cbn [mbind res_bind]. rewrite decide_False by done. by destruct close. Qed.

(** [onMessage] is the parser, and then an answer or nothing. *)
Lemma onMessage_answer (c c' : Conn) :
  Buf.wf (m_input_buffer c) -> in_loop c = true -> onMessage auto_close cb c = Ok c' ->
  exists c1 p, m_parser c1 = p /\ flow c1 = flow c /\ writes c1 = writes c /\ m_state c1 = m_state c /\
    (forall e0 room, open_ok e0 room c -> open_ok e0 room c1) /\ m_output_buffer c1 = m_output_buffer c /\
    exists out close, reply (m_parser c) (Buf.content (m_input_buffer c)) = Some (p, out, close) /\ zlen out <= bound /\
      (c' = c1 /\ out = [] /\ close = false \/ answer close out c1 = Ok c').
Proof.
  intros Hwf Hin H. unfold onMessage in H. set (c0 := if auto_close then updateLastReceiveTime c else c) in H.
  assert (m_parser c0 = m_parser c /\ m_input_buffer c0 = m_input_buffer c) as [E1 E2] by (unfold c0; by destruct auto_close).
  rewrite E1, E2 in H. destruct (Parser.parseContent_spec (m_parser c) (m_input_buffer c) Hwf) as (p & b & Hp & _ & Hpb).
  rewrite Hp in H. cbn [mbind res_bind] in H. set (c1 := set_parser p _) in H.
  assert (flow c1 = flow c /\ writes c1 = writes c /\ m_state c1 = m_state c /\ m_output_buffer c1 = m_output_buffer c /\
    in_loop c1 = true) as (F1 & F2 & F3 & F4 & F5) by (unfold c1, c0; by destruct auto_close).
  assert (forall e0 room, open_ok e0 room c -> open_ok e0 room c1) as Hopen
    by (intros e0 room Ho; eapply open_ok_ext; [exact Ho|..]; unfold c1, c0; by destruct auto_close).
  pose proof (zlen_nonneg bad_request) as Hbad.
  assert (zlen (@nil ascii) <= bound) as Hnil by (change (zlen (@nil ascii)) with 0; lia).
  unfold reply. rewrite Hpb. destruct (Parser.m_state p) eqn:Ep.
  1, 2, 3: apply Ok_inj in H as <-; exists c1, p; split_and!; try done; exists [], false; split_and!; [done | done | by left].
  - unfold handleRequest, Request.header, Parser.getRequest in H. fold (Parser.m_request p) in H.
    destruct (m_headers (Parser.m_request p) !! bs "Connection") as [h|]; [|discriminate H]. cbn [mbind res_bind] in H.
    assert ((if decide (m_version (Parser.m_request p) = kHttp11) then Ok (negb (bool_decide (h = bs "Keep-Alive")))
             else Ok (bool_decide (h = bs "close"))) = Ok (wants_close (Parser.m_request p) h)) as E
      by (unfold wants_close; by destruct (decide (m_version (Parser.m_request p) = kHttp11))).
    rewrite E in H. cbn [mbind res_bind] in H. set (resp := cb _ _) in *.
    assert (zlen (Response.serialize resp) <= bound) as Hb by apply bound_request.
    destruct (serialize_fresh resp) as (b1 & Hb1 & _ & Hc1); [lia|]. rewrite Hb1 in H. cbn [mbind res_bind] in H.
    rewrite send_buffer_op, Hc1, bind_assoc in H by done.
    exists c1, p; split_and!; try done. exists (Response.serialize resp), (Response.closeConnection resp). split_and!; [done | done | right].
    rewrite <- H. apply bind_ext. done.
  - exists (log_error c1), p. split_and!; try done; [intros e0 room Ho; by eapply open_ok_ext; [apply (Hopen e0 room Ho)|..]|].
    exists bad_request, true. split_and!; [done | done | by right].
Qed.

(** ** Lemmas: one event *)

(** The connection goes from [c] to [c'] and hears [msgs]: while it takes
    messages it answers them, and otherwise it says nothing. *)
Record hears (msgs : list bytes) (c c' : Conn) : Prop := {
  hears_flow : flow c' = flow c ++
    (if decide (m_state c = kConnected) then said (foldl hear (mkDialogue (m_parser c) [] true) msgs) else []);
  hears_parser : m_state c' = kConnecting \/ m_state c' = kConnected -> m_state c = kConnecting \/ m_state c = kConnected ->
    let d := foldl hear (mkDialogue (m_parser c) [] true) msgs in going d = true /\ m_parser c' = listener d;
  hears_writes : writes c' = writes c
}.

Lemma hears_hush msgs (c c1 c' : Conn) :
  hears msgs c c1 -> hush c1 c' -> m_state c' = m_state c1 \/ m_state c' = kDisconnecting \/ m_state c' = kDisconnected ->
  hears msgs c c'.
Proof.
  intros [Hf Hp Hw] [Hf' Hp' Hw'] Hst. split; [congruence | | congruence]. rewrite Hp'.
  destruct Hst as [->|[->| ->]]; [exact Hp | by intros [|]..].
Qed.

Lemma hush_hears (c c' : Conn) : hush c c' -> hears [] c c'.
Proof. intros []. split; [|done..]. case_decide; by rewrite app_nil_r. Qed.

(** What does not look at the input or the thread. *)
Lemma hears_from msgs (c c1 c' : Conn) :
  hears msgs c1 c' -> m_state c1 = m_state c -> m_parser c1 = m_parser c -> flow c1 = flow c -> writes c1 = writes c ->
  hears msgs c c'.
Proof. intros [H1 H2 H3] E1 E2 E3 E4. rewrite E1, E2 in H1, H2. split; [by rewrite H1, E3 | exact H2 | congruence]. Qed.

Definition read_message (rv : readv_result) : list bytes :=
  match rv with ReadvOk (a :: data) => [a :: data] | _ => [] end.

Lemma onMessage_hears e0 room (c c' : Conn) :
  open_ok e0 room c -> m_state c = kConnected \/ m_state c = kDisconnecting -> Buf.wf (m_input_buffer c) ->
  stays (writes c) -> tidy bound c -> room + bound <= INT_MAX ->
  onMessage auto_close cb c = Ok c' -> hears [Buf.content (m_input_buffer c)] c c'.
Proof.
  intros Ho Hst Hwf Hstay Htidy Hroom H.
  destruct (onMessage_answer c c' Hwf (open_loop _ _ _ Ho) H)
    as (c1 & p & Hp & Hf & Hw & Hst1 & Hopen & Hout & out & close & Hreply & Hb & Hans).
  assert (foldl hear (mkDialogue (m_parser c) [] true) [Buf.content (m_input_buffer c)] = mkDialogue p out (negb close)) as Hd
    by (simpl; unfold hear; simpl; by rewrite Hreply).
  destruct (decide (m_state c = kConnected)) as [Ec|Ec].
  - destruct Hans as [(-> & -> & ->)|Hans].
    + split; [|intros _ _ |done]; rewrite Hd; [case_decide; [|done]; by rewrite Hf, app_nil_r | by split].
    + destruct (says_answer close e0 room out c1 c' (Hopen _ _ Ho)) as [[Hsf Hsp Hsw] Hst']; try done;
        [congruence | by rewrite Hw | unfold tidy; by rewrite Hout|].
      split; [|intros Hst2 _|congruence]; rewrite Hd; [case_decide; [|done]; by rewrite Hsf, Hf|].
      cbn zeta. simpl. rewrite Hst' in Hst2. destruct close; [by destruct Hst2 | split; [done | congruence]].
  - assert (c' = c1) as ->.
    { destruct Hans as [(-> & _)|Hans]; [done|]. rewrite mute_answer in Hans by congruence. by apply Ok_inj in Hans as <-. }
    split; [by rewrite decide_False, app_nil_r by done | intros _ Hc; destruct Hst; destruct Hc; congruence | done].
Qed.

Lemma handleRead_hears e0 room rv (c c' : Conn) :
  open_ok e0 room c -> m_state c = kConnected \/ m_state c = kDisconnecting -> input_ok (m_input_buffer c) ->
  match rv with ReadvOk data => Buf.readv_fits data (m_input_buffer c) | ReadvErr _ => True end ->
  stays (writes c) -> tidy bound c -> room + bound <= INT_MAX ->
  handleRead (message_callback auto_close cb) (close_callback same_loop) rv c = Ok c' -> hears (read_message rv) c c'.
Proof.
  intros Ho Hst Hin Hfit Hstay Htidy Hroom H.
  assert (forall b c1, handleClose (close_callback same_loop) (set_input b c) = Ok c1 -> hears [] c c1) as Hclose.
  { intros b c1 Hc. apply hush_hears. etrans; [|by apply hush_handleClose]. done. }
  unfold handleRead in H. bind_inv H. clear Hx. destruct rv as [errno|data].
  - cbn [Buf.readFd mbind res_bind] in H. simpl in H. bind_inv H. apply Ok_inj in H as <-.
    eapply hears_hush; [by eapply Hclose | done | by left].
  - destruct (readFd_input data (m_input_buffer c) Hin Hfit) as (b & Hread & Hwf & Hc & _). rewrite Hread in H.
    cbn [mbind res_bind] in H. destruct data as [|a data]; [exact (Hclose b c' H)|].
    rewrite (proj2 (Z.ltb_lt _ _)) in H by (unfold zlen; simpl; lia).
    assert (hears [Buf.content b] (set_input b c) c') as Hh.
    { apply (onMessage_hears e0 room (set_input b c) c'); try done. by eapply open_ok_ext. }
    rewrite Hc in Hh. by destruct Hh.
Qed.

(** [handleWrite] after [handleRead], which may have closed the connection. *)
Lemma quiet_handleWrite e0 room (c c1 c' : Conn) :
  outcome same_loop e0 room c c1 -> in_loop c = true -> kPrePendIndex <= room -> handleWrite c1 = Ok c' ->
  hush c1 c' /\ m_state c' = m_state c1.
Proof.
  intros [H1 H2 H3 H4 _ _ [(Ho&_&_)|(Hc&_&_)]] Hin Hroom H.
  - destruct (handleWrite_open e0 room c1 Ho Hroom) as (c2 & H' & _ & _ & Hst). rewrite H in H'. apply Ok_inj in H' as <-.
    split; [by eapply hush_handleWrite | done].
  - destruct Hc as [(ch & Hl & _ & _ & Hw) _ _ _ _]. unfold handleWrite, isWriting, assertInLoopThread in H.
    rewrite H4, Hin, (Epoll.deref_Ok _ _ _ Hl) in H. cbn [mbind res_bind] in H. rewrite Hw in H. by apply Ok_inj in H as <-.
Qed.

Lemma dispatch_hears e0 room rv ch (c c' : Conn) :
  open_ok e0 room c -> m_state c = kConnected \/ m_state c = kDisconnecting -> input_ok (m_input_buffer c) ->
  time_ok (m_last_receive_time c) -> (forall k, time_ok (readings c k)) ->
  match rv with ReadvOk data => Buf.readv_fits data (m_input_buffer c) | ReadvErr _ => True end ->
  stays (writes c) -> tidy bound c -> kPrePendIndex <= room -> room + bound <= INT_MAX ->
  Epoll.channels (poller c) !! m_channel c = Some ch ->
  dispatch same_loop auto_close cb rv c = Ok c' ->
  hears (if Chan.has_bits (Chan.m_revents ch) (Z.lor kReadEvent EPOLLRDHUP) then read_message rv else []) c c'.
Proof.
  intros Ho Hst Hin Ht Hclock Hfit Hstay Htidy Hlow Hroom Hch H. pose proof (zlen_nonneg bad_request).
  unfold dispatch in H. rewrite (Epoll.deref_Ok _ _ _ Hch) in H. cbn [mbind res_bind] in H.
  assert (Chan.m_tied ch = true) as Htied.
  { destruct Ho as [(ch0 & [_ Hc _ _] & Htied & _) _ _ _ _ _]. congruence. }
  unfold Chan.handleEvent, Chan.handleEventWithGuard in H. rewrite Htied in H. set (revents := Chan.m_revents ch) in *.
  bind_inv H. rename x into c2.
  assert (same c c2 /\ m_state c2 = m_state c /\ flow c2 = flow c /\ m_output_buffer c2 = m_output_buffer c /\
    open_ok e0 room c2) as (Hs2 & Hst2 & Hf2 & Hb2 & Ho2).
  { destruct (Chan.has_bits revents kErrorEvent); apply Ok_inj in Hx as <-; [|by split_and!].
    split_and!; try done. by eapply open_ok_ext. }
  clear Hx. bind_inv H. assert (x = c2) as -> by (destruct (_ && _); by apply Ok_inj in Hx). clear Hx.
  apply (hears_from _ c c2); [|done | apply Hs2 | done | apply Hs2]. pose proof Hs2 as Hs2'. destruct Hs2'.
  assert (m_state c2 = kConnected \/ m_state c2 = kDisconnecting) as Hst2' by (by rewrite Hst2).
  assert (in_loop c2 = true) as Hin2 by apply Ho2.
  assert (kPrePendIndex <= room + bound) as Hlow' by lia.
  assert (forall c1, outcome same_loop e0 (room + bound) c2 c1 ->
    (if Chan.has_bits revents kWriteEvent then handleWrite c1 else Ok c1) = Ok c' ->
    hush c1 c' /\ m_state c' = m_state c1) as Hwrite.
  { intros c1 Hout Hw. destruct (Chan.has_bits revents kWriteEvent); [|by apply Ok_inj in Hw as <-].
    by apply (quiet_handleWrite e0 (room + bound) c2). }
  bind_inv H. rename x into c3. destruct (Chan.has_bits revents (Z.lor kReadEvent EPOLLRDHUP)).
  - cbn [Chan.call callbacks Chan.m_read_callback] in Hx.
    assert (hears (read_message rv) c2 c3) as Hh.
    { apply (handleRead_hears e0 room rv c2 c3); try done; [by rewrite same_input0 | by rewrite same_input0 | by rewrite same_writes0 |].
      unfold tidy. by rewrite Hb2. }
    destruct (handleRead_outcome same_loop auto_close cb bound bound_request bound_bad bound_int e0 room rv c2)
      as [(c4 & Hrun & Hout)|[Hrun _]]; try done;
      [by rewrite same_input0 | by rewrite same_receive0 | by rewrite same_readings0 | by rewrite same_input0 | | by rewrite Hx in Hrun].
    rewrite Hx in Hrun. apply Ok_inj in Hrun as <-. destruct (Hwrite c3 Hout H) as [Hh' Hst'].
    eapply hears_hush; [exact Hh | exact Hh' | by left].
  - apply Ok_inj in Hx as <-. destruct (Hwrite c2) as [Hh _]; [|done | by apply hush_hears].
    split; try done; [by rewrite same_input0 | by rewrite same_receive0 |]. left. split_and!; [|by left | done].
    by eapply open_ok_weaken; [exact Ho2 | lia].
Qed.

Lemma hush_destructor (c c' : Conn) : connectionDestructor (connection_callback auto_close) c = Ok c' -> hush c c'.
Proof.
  unfold connectionDestructor. intros H. bind_inv H. clear Hx. bind_inv H. bind_inv H. apply hush_on_channel in H.
  apply hush_connection in Hx0. etrans; [|exact H]. etrans; [|exact Hx0].
  case_decide; [by apply hush_on_channel in Hx as []; split | by apply Ok_inj in Hx as <-].
Qed.

(** Every event but a dispatch. *)
Lemma hush_step e (s s' : Sess) :
  (forall rv, e <> Dispatched rv) -> (forall ptr len, FSendInLoop ptr len ∉ functors (conn s)) -> Step e s = Ok s' ->
  hush (conn s) (conn s').
Proof.
  intros Hne Hsends H. destruct e as [|rev|rv| | | | |e]; cbn [step] in H.
  - bind_inv H. apply Ok_inj in H as <-. unfold connectionEstablished in Hx. do 3 bind_inv Hx.
    apply hush_on_channel in Hx2. apply hush_connection in Hx. etrans; [|exact Hx]. by destruct Hx2.
  - bind_inv H. apply Ok_inj in H as <-. unfold report in Hx. bind_inv Hx. destruct x0. by apply Ok_inj in Hx as <-.
  - by destruct (Hne rv).
  - destruct (functors (conn s)) as [|f fs]; [by apply Ok_inj in H as <-|]. bind_inv H. apply Ok_inj in H as <-.
    set (c := set_functors _ _) in Hx. assert (hush (conn s) c) as Hc by done. etrans; [exact Hc|].
    destruct f as [| |ptr len|]; cbn [run_functor] in Hx.
    + by apply hush_shutDownInLoop.
    + unfold forceCloseInLoop in Hx. bind_inv Hx. case_decide; [by apply hush_handleClose | by apply Ok_inj in Hx as <-].
    + destruct (Hsends ptr len). by left.
    + by apply hush_destructor.
  - apply Ok_inj in H as <-. done.
  - bind_inv H. destruct x as [c t]. apply Ok_inj in H as <-. unfold handleIdleConnection, now in Hx.
    bind_inv Hx. clear Hx0. bind_inv Hx. clear Hx0. destruct (Ts.lt _ _); [|apply Ok_inj in Hx as [= <- _]; done].
    bind_inv Hx. apply Ok_inj in Hx as [= <- _]. apply hush_shutDown in Hx0. by destruct Hx0.
  - apply Ok_inj in H as <-. unfold forceClose. simpl. by case_decide.
  - apply Ok_inj in H as <-. done.
Qed.

Lemma step_hears e e0 room (s s' : Sess) :
  session_ok same_loop e0 room s -> enabled e s -> kPrePendIndex <= room -> room + reads e * bound <= INT_MAX ->
  stays (writes (conn s)) -> (reads e = 1 -> tidy bound (conn s)) -> Step e s = Ok s' ->
  hears (message e s) (conn s) (conn s').
Proof.
  intros Hok Hen Hlow Hfit Hstay Htidy H. pose proof (ok_fine _ _ _ _ Hok) as [Hin Ht Hr Hs].
  assert ((forall rv, e <> Dispatched rv) -> message e s = [] -> hears (message e s) (conn s) (conn s')) as Hhush.
  { intros Hne ->. by apply hush_hears, (hush_step e). }
  destruct e as [| |rv| | | | |]; try (by apply Hhush). clear Hhush. cbn [reads] in *. rewrite Z.mul_1_l in Hfit.
  destruct Hen as [[ev Hev] Hread]. destruct (watched_open same_loop e0 room s ev Hok Hev) as (Ho & Hst & _).
  pose proof Ho as [(ch & [_ Hc _ _] & _) _ _ _ _ _]. simpl in Hc.
  cbn [step] in H. bind_inv H. rename x into c'. apply Ok_inj in H as <-. cbn [conn].
  pose proof (dispatch_hears e0 room rv ch (set_in_loop true (conn s)) c' Ho Hst Hin Ht Hr Hread Hstay (Htidy eq_refl) Hlow Hfit Hc Hx) as Hh.
  assert (message (Dispatched rv) s =
    if Chan.has_bits (Chan.m_revents ch) (Z.lor kReadEvent EPOLLRDHUP) then read_message rv else []) as ->.
  { unfold message. destruct rv as [|[|a data]]; [by destruct (Chan.has_bits _ _).. |].
    by rewrite (Epoll.deref_Ok _ _ _ Hc). }
  by destruct Hh.
Qed.

(** ** Lemmas: a whole run *)

Lemma hear_said d data : hear d data =
  mkDialogue (listener (hear (mkDialogue (listener d) [] (going d)) data))
    (said d ++ said (hear (mkDialogue (listener d) [] (going d)) data)) (going (hear (mkDialogue (listener d) [] (going d)) data)).
Proof.
  destruct d as [p s [|]]; unfold hear; simpl; [|by rewrite app_nil_r].
  destruct (reply p data) as [[[p' out] close]|]; simpl; [done | by rewrite app_nil_r].
Qed.

Lemma foldl_hear_said msgs : forall d, said (foldl hear d msgs) =
    said d ++ said (foldl hear (mkDialogue (listener d) [] (going d)) msgs) /\
  listener (foldl hear d msgs) = listener (foldl hear (mkDialogue (listener d) [] (going d)) msgs) /\
  going (foldl hear d msgs) = going (foldl hear (mkDialogue (listener d) [] (going d)) msgs).
Proof.
  induction msgs as [|m msgs IH]; intros d; cbn [foldl]; [by rewrite app_nil_r|].
  set (d1 := hear (mkDialogue (listener d) [] (going d)) m).
  destruct (IH (hear d m)) as (H1 & H2 & H3). destruct (IH d1) as (G1 & G2 & G3).
  pose proof (hear_said d m) as E. fold d1 in E.
  assert (listener (hear d m) = listener d1 /\ going (hear d m) = going d1 /\ said (hear d m) = said d ++ said d1) as (E1 & E2 & E3)
    by (by rewrite E).
  rewrite H1, H2, H3, G1, G2, G3, E1, E2, E3, app_assoc. done.
Qed.

Lemma answers_app msgs msgs' : answers (msgs ++ msgs') = foldl hear (answers msgs) msgs'.
Proof. unfold answers. apply foldl_app. Qed.

(** What the connection has said, of the messages [msgs] that it has read. *)
Definition spoken (msgs : list bytes) (s : Sess) : Prop :=
  exists heard, heard `prefix_of` msgs /\ flow (conn s) = said (answers heard) /\
    (m_state (conn s) = kConnecting \/ m_state (conn s) = kConnected ->
     heard = msgs /\ going (answers msgs) = true /\ m_parser (conn s) = listener (answers msgs)).

Lemma advance_early st st' : rtc advance st st' -> st' = kConnecting \/ st' = kConnected -> st = kConnecting \/ st = kConnected.
Proof.
  induction 1 as [|st1 st2 st3 Hstep _ IH]; [done|]. intros H. specialize (IH H).
  inversion Hstep; subst; auto; destruct IH; discriminate.
Qed.

Lemma spoken_step e e0 room msgs (s s' : Sess) :
  session_ok same_loop e0 room s -> enabled e s -> kPrePendIndex <= room -> room + reads e * bound <= INT_MAX ->
  stays (writes (conn s)) -> (reads e = 1 -> tidy bound (conn s)) -> Step e s = Ok s' -> spoken msgs s ->
  spoken (msgs ++ message e s) s'.
Proof.
  intros Hok Hen Hlow Hfit Hstay Htidy H (heard & Hpre & Hflow & Hopen).
  destruct (step_hears e e0 room s s' Hok Hen Hlow Hfit Hstay Htidy H) as [Hf Hp _].
  destruct (step_ok same_loop auto_close cb memory bound bound_request bound_bad bound_int e e0 room s Hok Hen Hlow Hfit)
    as [(s2 & H2 & _ & [_ _ Hadv])|[H2 _]]; rewrite H in H2; [|discriminate H2]. apply Ok_inj in H2 as <-.
  destruct (decide (m_state (conn s) = kConnecting \/ m_state (conn s) = kConnected)) as [Hst|Hst].
  - destruct (Hopen Hst) as (-> & Hg & Hpar). rewrite Hpar in Hf, Hp.
    destruct (foldl_hear_said (message e s) (answers msgs)) as (E1 & E2 & E3). rewrite Hg in E1, E2, E3.
    exists (msgs ++ message e s). rewrite answers_app. split_and!; [done | | ].
    + rewrite E1, Hf, Hflow. case_decide as Ec; [done|].
      assert (message e s = []) as ->; [|reflexivity].
      destruct Hst as [Hst|]; [|done]. destruct e as [| |rv| | | | |]; try done. destruct Hen as [[ev Hev] _].
      destruct (watched_open same_loop e0 room s ev Hok Hev) as (_ & [?|?] & _); congruence.
    + intros Hst'. destruct (Hp Hst' Hst) as [H1 H2]. rewrite E2, E3. by split_and!.
  - exists heard. split_and!; [by apply prefix_app_r | | intros Hst'; destruct Hst; by eapply advance_early].
    rewrite Hf, decide_False by auto. by rewrite app_nil_r.
Qed.

Lemma step_writes e e0 room (s s' : Sess) :
  session_ok same_loop e0 room s -> enabled e s -> kPrePendIndex <= room -> room + reads e * bound <= INT_MAX ->
  stays (writes (conn s)) -> (reads e = 1 -> tidy bound (conn s)) -> Step e s = Ok s' ->
  writes (conn s') = writes (conn s).
Proof. intros. by eapply hears_writes, step_hears. Qed.

Lemma spoken_run es : forall e0 room msgs (s s' : Sess),
  session_ok same_loop e0 room s -> possible same_loop auto_close cb memory es s -> kPrePendIndex <= room ->
  room + all_reads es * bound <= INT_MAX -> stays (writes (conn s)) -> tidily bound es s -> Run es s = Ok s' ->
  spoken msgs s -> spoken (msgs ++ messages es s) s'.
Proof.
  pose proof (zlen_nonneg bad_request).
  induction es as [|e es IH]; intros e0 room msgs s s' Hok Hpos Hlow Hfit Hstay Htidy Hrun Hsp; cbn [Life.run messages all_reads] in *.
  { apply Ok_inj in Hrun as <-. by rewrite app_nil_r. }
  destruct Hpos as [Hen Hpos]. destruct Htidy as [Ht Htidy]. bind_inv Hrun. rename x into s1. rewrite Hx.
  pose proof (all_reads_nonneg es). assert (0 <= reads e) by (destruct e; simpl; lia).
  destruct (step_ok same_loop auto_close cb memory bound bound_request bound_bad bound_int e e0 room s Hok Hen Hlow)
    as [(s2 & H2 & Hok1 & _)|[H2 _]]; [nia | | by rewrite Hx in H2]. rewrite Hx in H2. apply Ok_inj in H2 as <-.
  rewrite app_assoc. apply (IH (base e e0) (room + reads e * bound) _ s1); auto; [nia | nia | | ].
  - rewrite (step_writes e e0 room s s1); auto. nia.
  - apply (spoken_step e e0 room msgs s s1); auto. nia.
Qed.

(** A new connection. *)
Lemma spoken_opening e w r il p fd id : spoken [] (opening same_loop e w r il p fd id).
Proof using Type. exists []. split_and!; [done | by vm_compute | done]. Qed.

(** ** Properties *)


End WithKernel.

(** ** Witnesses *)

Lemma tidy_low {K} len (c : TcpConnection K) : Buf.m_read_index (m_output_buffer c) <= kPrePendIndex -> tidy len c.
Proof. intros H n _. by apply Buf.compacts_false_low. Qed.

Abbreviation Tidily := (tidily false true resCallback (fun _ _ => []) kResponseMax).

Lemma tidily_cons (e : event (K := gmap Z (Z * chan_ptr))) es s :
  Buf.m_read_index (m_output_buffer (conn s)) <= kPrePendIndex -> Tidily es (ended (Life.Step e s)) -> Tidily (e :: es) s.
Proof. intros He Hes. split; [intros _; by apply tidy_low|]. intros s' E. by rewrite E in Hes. Qed.

(** The visit of Session.v: a request, part of whose answer is written, and the
    end of input. *)
Lemma visit_tidy : Tidily visit Opened.
Proof. repeat (apply tidily_cons; [by vm_compute|]). exact I. Qed.

Lemma two_bytes_stays : stays two_bytes.
Proof. done. Qed.

Abbreviation Messages := (messages false true resCallback (fun _ _ => [])).
Abbreviation Answers := (answers resCallback).


(** The one message of the visit is the request; the end of input is none. *)
Example visit_messages : Messages visit Opened = [hello_input].
Proof. vm_compute. reflexivity. Qed.

(** A second request on the connection is answered with the 400. *)
Example second_request_refused :
  said (Answers [hello_input; hello_input]) = said (Answers [hello_input]) ++ bad_request /\
  going (Answers [hello_input; hello_input]) = false.
Proof. vm_compute. done. Qed.

End Talk.
