(* ===== verification/Projection.v ===== *)
(** * Projection: every connection of the server lives a life of Session.v

    Session.v follows one connection and takes everything else as the event
    [Others].  Here the server of Cluster.v, with all its loops and connections
    interleaved, is projected to each of its connections: its own events, the
    reports of its channel, and [Others] for the rest, are a possible run of
    Session.v from the opening of the connection to the state it has in the
    server.  So the theorems on one connection hold of every connection of the
    server; with Dialogue.v, each client is sent the answers to its own
    messages. *)

From Stdlib Require Import ZArith Lia Ascii String.
From stdpp Require Import options.
From S2P Require Import Prelude CStd Buffer HttpRequest HttpRequestParser HttpResponse Channel Epoller Timestamp TcpConnection HttpServer TcpSafety Session Reactor LoopThreadPool Cluster Dialogue.

#[local] Set Default Proof Using "Type*".

Module Proj.
Import Request Tcp Server Safe Life React Clust Talk.

Section WithKernel.
Context {K : Type} `{!EpollKernel K}.
Context (same_loop auto_close : bool).
Context (cb : HttpRequest -> Response.HttpResponse -> Response.HttpResponse).
Context (memory : Z -> Z -> bytes).

Abbreviation Sess := (@Session K).
Abbreviation Step := (step same_loop auto_close cb memory).
Abbreviation Run := (Life.run same_loop auto_close cb memory).
Abbreviation Possible := (possible same_loop auto_close cb memory).

(** A session, whatever thread last worked on it. *)
Definition loose (s : Sess) : Sess := mkSession (set_in_loop true (conn s)) (removed s).

(** Everything but [in_loop] decides what a session does. *)
Lemma enabled_loose ev s : enabled ev (loose s) <-> enabled ev s.
Proof. by destruct ev. Qed.

Lemma step_loose ev (s s' : Sess) : Step ev s = Ok s' -> exists s2, Step ev (loose s) = Ok s2 /\ loose s2 = loose s'.
Proof.
  intros H. destruct ev; try (exists s'; split; [exact H | reflexivity]); cbn [step] in *.
  - simpl. destruct (functors (conn s)) eqn:E; [apply Ok_inj in H as <-; by exists (loose s)|].
    exists s'. split; [exact H | reflexivity].
  - apply Ok_inj in H as <-. eexists. by split.
  - apply Ok_inj in H as <-. eexists. split; [reflexivity|]. unfold forceClose, loose. simpl. by case_decide.
  - apply Ok_inj in H as <-. eexists. by split.
Qed.

(** Two sessions alike, and an event of both. *)
Lemma step_alike ev (s t s' : Sess) :
  loose s = loose t -> Step ev s = Ok s' -> exists t', Step ev t = Ok t' /\ loose t' = loose s'.
Proof.
  intros E H. destruct (step_loose ev s s' H) as (s2 & H2 & E2). rewrite E in H2.
  assert (match Step ev t with Ok t' => exists t2, Step ev (loose t) = Ok t2 /\ loose t2 = loose t' | Fault _ => Step ev (loose t) = Step ev t end) as Ht.
  { destruct (Step ev t) eqn:Et; [by apply step_loose|]. destruct ev; try exact Et; cbn [step] in *; try done.
    simpl. by destruct (functors (conn t)). }
  destruct (Step ev t) as [t'|]; [|congruence]. destruct Ht as (t2 & Ht2 & E3). exists t'. split; [done|].
  rewrite H2 in Ht2. apply Ok_inj in Ht2 as <-. congruence.
Qed.

(** A condition on the events of a run and the states they find. *)
Fixpoint along (R : @event K -> Sess -> Prop) (es : list (@event K)) (s : Sess) : Prop :=
  match es with
  | [] => True
  | e :: es' => R e s /\ forall s', Step e s = Ok s' -> along R es' s'
  end.

Lemma possible_along es (s : Sess) : Possible es s <-> along enabled es s.
Proof. revert s. induction es as [|e es IH]; intros s; simpl; [done|]. by setoid_rewrite IH. Qed.

Lemma along_snoc R es e (s : Sess) :
  along R es s -> (forall s', Run es s = Ok s' -> R e s') -> along R (es ++ [e]) s.
Proof.
  revert s. induction es as [|x es IH]; intros s Hp He; cbn [app along Life.run] in *.
  - split; [by apply He | intros; exact I].
  - destruct Hp as [Hx Hp]. split; [done|]. intros s' Hs. apply IH; [by apply Hp|].
    intros s2 H2. apply He. by rewrite Hs.
Qed.

Lemma run_snoc es e (s : Sess) : Run (es ++ [e]) s = (s' ← Run es s; Step e s').
Proof. rewrite session_run_app. apply bind_ext. intros s1. apply bind_ret_r. Qed.

(** The events of a session that are its own: neither the poller's reports,
    which come for all the connections of a loop together, nor the rest of the
    loop. *)
Definition is_own (e : @event K) : bool := match e with Reported _ | Others _ => false | _ => true end.

Definition own (es : list (@event K)) : list (@event K) := List.filter is_own es.

Lemma own_snoc es e : own (es ++ [e]) = own es ++ own [e].
Proof using Type. apply List.filter_app. Qed.

Lemma own_reads es : all_reads (own es) = all_reads es.
Proof using Type. induction es as [|e es IH]; [done|]. unfold own in *. destruct e; simpl; by rewrite ?IH. Qed.

(** ** The lives *)

(** A condition on the sockets of the connections, and one on their events. *)
Context (W : (nat -> Z -> write_result) -> Prop) (Q : @event K -> Sess -> Prop).
Hypothesis Q_loose : forall ev s t, loose s = loose t -> Q ev s -> Q ev t.
Hypothesis Q_quiet : forall ev s, reads ev = 0 -> Q ev s.

(** The session has lived a possible run, from the opening of its connection on
    a poller with room for it, of which its own events are [h]. *)
Definition lived (p : chan_ptr) (s : Sess) (h : list (@event K)) : Prop :=
  exists e w r il fd id es s',
    Epoll.wf e /\ can_open e w r p fd /\ W w /\ Possible es (opening same_loop e w r il p fd id) /\
    along Q es (opening same_loop e w r il p fd id) /\
    Run es (opening same_loop e w r il p fd id) = Ok s' /\ loose s' = loose s /\ own es = h.

Lemma opening_lived (e : Epoll.Epoller K) w r il p fd id :
  Epoll.wf e -> can_open e w r p fd -> W w -> lived p (opening same_loop e w r il p fd id) [].
Proof. intros Hwf Ho Hw. exists e, w, r, il, fd, id, [], (opening same_loop e w r il p fd id). by split_and!. Qed.

(** One event more. *)
Lemma lived_step p ev s s' s2 h :
  lived p s h -> enabled ev s -> Q ev s -> Step ev s = Ok s' -> loose s' = loose s2 -> lived p s2 (h ++ own [ev]).
Proof.
  intros (e & w & r & il & fd & id & es & t & Hwf & Ho & Hw & Hp & Ha & Hrun & El & Hn) Hen HQ Hs E2.
  destruct (step_alike ev s t s' (eq_sym El) Hs) as (t' & Ht & Et).
  exists e, w, r, il, fd, id, (es ++ [ev]), t'. split_and!; [done | done | done | | | | congruence |].
  - apply possible_along, along_snoc; [by apply possible_along|]. intros t2 H2. rewrite Hrun in H2. apply Ok_inj in H2 as <-.
    apply (proj1 (enabled_loose ev t)). rewrite El. by apply (proj2 (enabled_loose ev s)).
  - apply along_snoc; [done|]. intros t2 H2. rewrite Hrun in H2. apply Ok_inj in H2 as <-. by apply (Q_loose ev s).
  - rewrite run_snoc, Hrun. exact Ht.
  - by rewrite own_snoc, Hn.
Qed.

(** One event more that is not its own. *)
Lemma lived_quiet p ev s s' s2 h :
  lived p s h -> enabled ev s -> is_own ev = false -> Step ev s = Ok s' -> loose s' = loose s2 -> lived p s2 h.
Proof.
  intros Hl Hen Hq Hs E. assert (reads ev = 0) as Hr by (by destruct ev). assert (own [ev] = []) as Hnil by (simpl; by rewrite Hq).
  rewrite <- (app_nil_r h), <- Hnil. apply (lived_step p ev s s'); auto.
Qed.

(** The rest of the loop works. *)
Lemma lived_others p s h (e e' : Epoll.Epoller K) :
  lived p (attach e s) h -> Epoll.wf e' -> Epoll.channels e' !! m_channel (conn s) = Epoll.channels e !! m_channel (conn s) ->
  Epoll.m_channels e' !! m_conn_fd (conn s) = Epoll.m_channels e !! m_conn_fd (conn s) -> lived p (attach e' s) h.
Proof.
  intros Hl Hwf Hc Hm.
  by apply (lived_quiet p (Others e') (attach e s) (attach e' s)).
Qed.

(** ** The loops *)

Context (bound : Z).
Hypothesis bound_request : forall r close, zlen (Response.serialize (cb r (Response.new close))) <= bound.
Hypothesis bound_bad : zlen bad_request <= bound.
Hypothesis bound_int : bound + 2 * kPrePendIndex <= INT_MAX.

Abbreviation History := (chan_ptr -> list (@event K)).

Definition all_lived (w : @Reactor K) (h : History) : Prop :=
  forall p s, sessions w !! p = Some s -> lived p (attach (shared w) s) (h p).

(** What an action adds to the own events of the connection at [p]. *)
Definition past (a : @action K) (p : chan_ptr) (h : list (@event K)) : list (@event K) :=
  match a with
  | Accept _ _ _ q _ _ => if decide (q = p) then [] else h
  | At q ev => if decide (q = p) then h ++ own [ev] else h
  | _ => h
  end.

(** One connection changes, or a new one comes, and the rest see a frame. *)
Lemma update_lived p s' e' room w h h' :
  reactor_ok same_loop room w -> Epoll.wf e' -> frame p (m_conn_fd (conn s')) (shared w) e' ->
  (forall q t, sessions w !! q = Some t -> q <> p -> m_conn_fd (conn t) <> m_conn_fd (conn s')) ->
  (forall q, p <> q -> h' q = h q) -> all_lived w h -> lived p (attach e' s') (h' p) ->
  all_lived (mkReactor e' (<[p := s']> (sessions w))) h'.
Proof.
  intros Hok Hwf [Hc Hm] Hfds Hh Hall Hl q t Hq. cbn [shared sessions] in *.
  apply lookup_insert_Some in Hq as [[<- <-]|[Hne Hq]]; [done|].
  destruct (ok_session _ _ _ Hok _ _ Hq) as [Hqc _]. rewrite Hh by done.
  apply (lived_others q t (h q) (shared w)); [by apply Hall | done | apply Hc; congruence | apply Hm; by apply (Hfds q)].
Qed.

(** The descriptor for which the kernel watches the channel of a session. *)
Lemma session_watched room w p s fd ev :
  reactor_ok same_loop room w -> sessions w !! p = Some s ->
  interest (Epoll.kernel (shared w)) !! fd = Some (ev, p) -> fd = m_conn_fd (conn s).
Proof.
  intros Hok Hp H. pose proof (ok_shared _ _ _ Hok) as Hwf. destruct (ok_session _ _ _ Hok _ _ Hp) as [Hpc Hs].
  rewrite (Epoll.wf_kernel _ Hwf) in H. unfold Epoll.watched in H.
  destruct (Epoll.m_channels (shared w) !! fd) as [q|] eqn:Eq; [|discriminate H]. cbn [mbind option_bind] in H.
  destruct (Epoll.channels (shared w) !! q) as [ch|] eqn:Ech; [|discriminate H]. cbn [mbind option_bind] in H.
  case_decide; [|discriminate H]. injection H as _ ->.
  destruct (Epoll.wf_map _ Hwf _ _ Eq) as (ch1 & Hch1 & Hfd1 & _).
  destruct (session_channel _ _ _ _ Hs) as (ch2 & Hch2 & Hfd2). simpl in Hch2, Hfd2. rewrite Hpc in Hch2. congruence.
Qed.

Lemma fill_lived evs : forall active active' room w e' h,
  reactor_ok same_loop room w ->
  Forall (fun '(_, p) => exists fd ev, interest (Epoll.kernel (shared w)) !! fd = Some (ev, p)) evs ->
  Epoll.fillActiveChannels evs active (shared w) = Ok (active', e') -> all_lived w h ->
  all_lived (mkReactor e' (sessions w)) h.
Proof.
  induction evs as [|[r q] evs IH]; intros active active' room w e' h Hok Hev H Hall; cbn [Epoll.fillActiveChannels] in H.
  { apply Ok_inj in H as [= _ <-]. by destruct w. }
  apply Forall_cons in Hev as [(fd & ev & Hi) Hev]. bind_inv H. rename x into ch.
  assert (Epoll.channels (shared w) !! q = Some ch) as Hch.
  { unfold Epoll.deref in Hx. destruct (Epoll.channels (shared w) !! q); [|discriminate Hx]. by apply Ok_inj in Hx as ->. }
  pose proof (revents_ok same_loop q r ch room w Hok Hch) as Hok1.
  refine (IH _ _ _ _ _ _ Hok1 Hev H _). intros p s Hp. cbn [shared sessions] in *.
  destruct (ok_session _ _ _ Hok _ _ Hp) as [Hpc Hs].
  destruct (decide (p = q)) as [->|Hne].
  - pose proof (session_watched room w q s fd ev Hok Hp Hi) as ->.
    eapply (lived_quiet q (Reported r) (attach (shared w) s)); [by apply (Hall q) | | done | |].
    + exists ev. simpl. by rewrite Hpc.
    + cbn [step]. unfold report, Epoll.poll. simpl. rewrite Hpc, Hx. reflexivity.
    + reflexivity.
  - apply (lived_others p s (h p) (shared w)); [by apply Hall | apply (ok_shared _ _ _ Hok1) | | reflexivity].
    simpl. rewrite lookup_insert_ne by congruence. reflexivity.
Qed.

(** The connection goes with its channel, which the poller does not hold. *)
Lemma destroyed e0 (c : TcpConnection K) e :
  closed_ok e0 None c -> Tcp.destroy c = Ok e ->
  Epoll.wf e /\ Epoll.channels e = delete (m_channel c) (Epoll.channels (poller c)) /\
  Epoll.m_channels e = Epoll.m_channels (poller c).
Proof using Type.
  intros [(ch & Hch & _ & Hfd & _) Hwf Hmap _ _] H. unfold Tcp.destroy, Epoll.destroy, Epoll.hasChannel in H.
  rewrite (Epoll.deref_Ok _ _ _ Hch) in H. cbn [mbind res_bind] in H. rewrite Hfd, Hmap in H. cbn [mbind res_bind] in H.
  apply Ok_inj in H as <-. split_and!; [|reflexivity..]. apply Epoll.wf_delete; [done|].
  intros fd Hreg. destruct (Epoll.wf_map _ Hwf _ _ Hreg) as (c0 & Hc0 & Hfd0 & _). congruence.
Qed.

(** The conditions on an action of the loop. *)
Definition act_side (a : @action K) (w : @Reactor K) : Prop :=
  match a with
  | Accept wr _ _ _ _ _ => W wr
  | At p ev => forall s, sessions w !! p = Some s -> Q ev (attach (shared w) s)
  | _ => True
  end.

(** An action of the loop. *)
Lemma act_lived a room w w' h :
  reactor_ok same_loop room w -> can_act a w -> act_side a w -> kPrePendIndex <= room -> room + act_reads a * bound <= INT_MAX ->
  act same_loop auto_close cb memory a w = Ok w' -> all_lived w h -> all_lived w' (fun p => past a p (h p)).
Proof.
  intros Hok Hcan Hside Hlow Hfit H Hall. pose proof (ok_shared _ _ _ Hok) as Hwf.
  destruct a as [wr r il p fd id|evs|p ev|p|e]; cbn [act_reads act] in *; rewrite ?Z.add_0_r in *.
  - apply Ok_inj in H as <-. destruct Hcan as [Ho Hfds].
    pose proof (opening_ok same_loop (shared w) wr r il p fd id Hwf Ho) as Hs.
    apply (update_lived p _ _ room w h); [done | by apply (session_wf _ _ _ _ Hs) | apply frame_set_channel | | | done |].
    + intros q t Hq _. by apply (Hfds q).
    + intros q Hne. simpl. by rewrite decide_False.
    + unfold past. rewrite decide_True, attach_id by done. by apply opening_lived.
  - bind_inv H. destruct x as [active e]. apply Ok_inj in H as <-. by eapply fill_lived.
  - destruct Hcan as (Hno & s & Hp & Hen). rewrite Hp in H. bind_inv H. rename x into s'. apply Ok_inj in H as <-.
    destruct (ok_session _ _ _ Hok _ _ Hp) as [Hpc Hsok].
    destruct (step_ok same_loop auto_close cb memory bound bound_request bound_bad bound_int ev _ _ _ Hsok Hen Hlow Hfit)
      as [(s1 & E & Hok1 & [Efd Ech _])|[E _]]; rewrite Hx in E; [|discriminate E]. apply Ok_inj in E as <-.
    assert (base ev (shared w) = shared w) as Eb by (destruct ev as [| | | | | | |e1]; try reflexivity; by destruct (Hno e1)).
    simpl in Efd, Ech. pose proof (session_frame _ _ _ _ Hok1) as Hfr. rewrite Eb, Ech, Hpc in Hfr.
    apply (update_lived p _ _ room w h); [done | by apply (session_wf _ _ _ _ Hok1) | done | | | done |].
    + intros q t Hq Hne. rewrite Efd. by apply (ok_fds _ _ _ Hok q p).
    + intros q Hne. unfold past. by rewrite decide_False.
    + unfold past. rewrite decide_True, attach_id by done. apply (lived_step p ev (attach (shared w) s) s'); auto.
  - destruct Hcan as (s & Hp & Hst & Hrem & Hf). rewrite Hp in H. bind_inv H. apply Ok_inj in H as <-.
    pose proof (session_over _ _ _ _ (proj2 (ok_session _ _ _ Hok _ _ Hp)) Hst Hrem Hf) as Hover.
    destruct (destroyed _ _ _ Hover Hx) as (Hwf' & Hc & Hm).
    simpl in Hc, Hm. rewrite (proj1 (ok_session _ _ _ Hok _ _ Hp)) in Hc.
    intros q t Hq. cbn [sessions shared] in *. apply lookup_delete_Some in Hq as [Hqp Hq]. destruct (ok_session _ _ _ Hok _ _ Hq) as [Hqc _].
    apply (lived_others q t (h q) (shared w)); [by apply Hall | done | | by rewrite Hm].
    rewrite Hc, Hqc. by apply lookup_delete_ne.
  - apply Ok_inj in H as <-. destruct Hcan as [Hwf' He]. intros p s Hp. cbn [shared sessions] in *.
    destruct (He _ _ Hp). destruct (ok_session _ _ _ Hok _ _ Hp) as [Hpc _].
    apply (lived_others p s (h p) (shared w)); [by apply Hall | done | by rewrite Hpc | done].
Qed.

(** ** The server *)

Abbreviation Server := (@Cluster K).
Abbreviation ActIn := (act_in same_loop auto_close cb memory).
Abbreviation Serve := (serve same_loop auto_close cb memory).

(** The actions of the loops in a step of the server, as [handleNewConnection]
    deals a new connection and establishes it at once in its own loop. *)
Definition acted (a : @server_action K) (c : Server) : list (loop * @action K) :=
  match a with
  | InLoop l a => [(l, a)]
  | NewConnection wr r p fd =>
      match LoopPool.getNextLoop (m_loop_thread_pool c) with
      | Ok (l, pool) =>
          let here := bool_decide (l = LoopPool.m_base_loop pool) in
          (l, Accept wr r here p fd (m_next_connection_id c)) :: (if here then [(l, At p Established)] else [])
      | Fault _ => []
      end
  end.

Fixpoint trace (l : list (@server_action K)) (c : Server) : list (loop * @action K) :=
  match l with
  | [] => []
  | a :: l' => acted a c ++ match Serve a c with Ok c' => trace l' c' | Fault _ => [] end
  end.

(** The own events of the connection at [p] of the loop [i] in a trace, since
    its acceptance; [h] came before. *)
Fixpoint history (i : loop) (p : chan_ptr) (tr : list (loop * @action K)) (h : list (@event K)) : list (@event K) :=
  match tr with
  | [] => h
  | (l, a) :: tr' => history i p tr' (if decide (l = i) then past a p h else h)
  end.

Lemma history_app i p tr tr' h : history i p (tr ++ tr') h = history i p tr' (history i p tr h).
Proof using Type. revert h. induction tr as [|[l a] tr IH]; intros h; [done|]. apply IH. Qed.

Definition all_lived_in (c : Server) (h : loop -> History) : Prop :=
  forall l w, loops c !! l = Some w -> all_lived w (h l).

Lemma put_lived l a w w' room (c c' : Server) h :
  loops c !! l = Some w -> loops c' = <[l := w']> (loops c) -> reactor_ok same_loop room w -> can_act a w -> act_side a w ->
  kPrePendIndex <= room -> room + act_reads a * bound <= INT_MAX -> act same_loop auto_close cb memory a w = Ok w' ->
  all_lived_in c h -> all_lived_in c' (fun i p => history i p [(l, a)] (h i p)).
Proof.
  intros Hl E Hw Hcan Hside Hlow Hfit Hrun Hall i v Hv. rewrite E in Hv. cbn [history].
  apply lookup_insert_Some in Hv as [[<- <-]|[Hne Hv]]; intros p s Hp.
  - rewrite decide_True by done. by apply (act_lived a room w w' (h l) Hw Hcan Hside Hlow Hfit Hrun (Hall l w Hl)).
  - rewrite decide_False by done. by apply (Hall i v Hv).
Qed.

Lemma act_in_lived l a w room (c c' : Server) h :
  loops c !! l = Some w -> reactor_ok same_loop room w -> can_act a w -> act_side a w -> kPrePendIndex <= room ->
  room + act_reads a * bound <= INT_MAX -> ActIn l a c = Ok c' -> all_lived_in c h ->
  all_lived_in c' (fun i p => history i p [(l, a)] (h i p)).
Proof.
  intros Hl Hw Hcan Hside Hlow Hfit H. apply act_in_inv in H as (v & w' & Hv & Hrun & E). rewrite Hl in Hv. injection Hv as <-.
  by apply (put_lived l a w w' room c c' h Hl E).
Qed.

(** The conditions on a step of the server, and on a run of it. *)
Definition serve_side (a : @server_action K) (c : Server) : Prop :=
  match a with
  | NewConnection wr _ _ _ => W wr
  | InLoop l a => forall w, loops c !! l = Some w -> act_side a w
  end.

Fixpoint all_side (l : list (@server_action K)) (c : Server) : Prop :=
  match l with
  | [] => True
  | a :: l' => serve_side a c /\ forall c', Serve a c = Ok c' -> all_side l' c'
  end.

Lemma serve_lived a room (c c' : Server) h :
  cluster_ok same_loop room c -> can_serve same_loop a c -> serve_side a c -> kPrePendIndex <= room ->
  room + serve_reads a * bound <= INT_MAX -> Serve a c = Ok c' -> all_lived_in c h ->
  all_lived_in c' (fun i p => history i p (acted a c) (h i p)).
Proof.
  intros Hok Hcan Hside Hlow Hfit H Hall. destruct a as [wr r p fd|l a]; cbn [serve serve_reads acted] in *.
  - destruct (new_connection_acts same_loop auto_close cb memory bound bound_request bound_bad bound_int wr r p fd room c c'
      Hok Hcan Hlow H) as (l & pool & w & w' & c2 & El & Hl & Hw & Hacc & Hrun & Hw' & Hl2 & Hc').
    rewrite El. cbn zeta in *. set (here := bool_decide _) in *.
    pose proof (put_lived l _ w w' room c c2 h Hl Hl2 Hw Hacc Hside Hlow ltac:(simpl; lia) Hrun Hall) as Hall2.
    destruct here; [|by subst]. destruct Hc' as [Hest Hc'].
    refine (act_in_lived l (At p Established) w' room c2 c' _ _ Hw' Hest _ Hlow ltac:(simpl; lia) Hc' Hall2).
    + by rewrite Hl2, lookup_insert_eq.
    + intros s _. by apply Q_quiet.
  - destruct Hcan as (w & Hl & Hcan & _). apply (act_in_lived l a w room c c' h); try done; [by apply (ok_reactors _ _ _ Hok l) | by apply Hside].
Qed.

Lemma all_serve_reads_nonneg (l : list (@server_action K)) : 0 <= all_serve_reads l.
Proof using EpollKernel0. induction l as [|a l IH]; simpl; [lia|]. pose proof (serve_reads_nonneg a). lia. Qed.

Lemma serve_all_lived l : forall room (c c' : Server) h,
  cluster_ok same_loop room c -> can_serve_all same_loop auto_close cb memory l c -> all_side l c -> kPrePendIndex <= room ->
  room + all_serve_reads l * bound <= INT_MAX -> serve_all same_loop auto_close cb memory l c = Ok c' ->
  all_lived_in c h -> all_lived_in c' (fun i p => history i p (trace l c) (h i p)).
Proof.
  pose proof (zlen_nonneg bad_request).
  induction l as [|a l IH]; intros room c c' h Hok Hcan Hside Hlow Hfit H' Hall; cbn [serve_all all_serve_reads trace all_side] in *.
  { by apply Ok_inj in H' as <-. }
  destruct Hcan as [Ha Hcan]. destruct Hside as [Hs Hside].
  pose proof (serve_reads_nonneg a). pose proof (all_serve_reads_nonneg l). bind_inv H'.
  destruct (serve_ok same_loop auto_close cb memory bound bound_request bound_bad bound_int a room c Hok Ha Hlow)
    as [(c1 & Hrun & Hok1)|(l0 & a0 & w0 & -> & _ & _ & Hf)]; [nia | | by rewrite Hx in Hf].
  rewrite Hx in Hrun. apply Ok_inj in Hrun as <-. rewrite Hx.
  pose proof (serve_lived a room c x h Hok Ha Hs Hlow ltac:(nia) Hx Hall) as Hall1.
  intros i w Hi p s Hp. rewrite history_app.
  by apply (IH (room + serve_reads a * bound) x c' _ Hok1 (Hcan _ Hx) (Hside _ Hx) ltac:(nia) ltac:(nia) H' Hall1 i w Hi p s).
Qed.

(** The messages that a connection has read are messages the server has. *)
Definition trace_reads (tr : list (loop * @action K)) : Z := fold_right (fun x n => act_reads x.2 + n) 0 tr.

Lemma act_reads_nonneg (a : @action K) : 0 <= act_reads a.
Proof using Type. by destruct a as [| |? []| |]. Qed.

Lemma past_reads a p h : all_reads (past a p h) <= all_reads h + act_reads a.
Proof using EpollKernel0.
  pose proof (act_reads_nonneg a). pose proof (all_reads_nonneg h).
  destruct a as [| |q ev| |]; cbn [past act_reads] in *; try case_decide; try (simpl; lia).
  rewrite all_reads_app, own_reads. simpl. lia.
Qed.

Lemma history_reads i p tr : forall h, all_reads (history i p tr h) <= all_reads h + trace_reads tr.
Proof using EpollKernel0.
  induction tr as [|[l a] tr IH]; intros h; cbn [history trace_reads fold_right snd]; [lia|].
  etrans; [apply IH|]. fold (trace_reads tr). pose proof (past_reads a p h). pose proof (act_reads_nonneg a). case_decide; lia.
Qed.

Lemma trace_reads_served l : forall c : Server, trace_reads (trace l c) <= all_serve_reads l.
Proof using EpollKernel0.
  assert (forall tr tr', trace_reads (tr ++ tr') = trace_reads tr + trace_reads tr') as Happ
    by (intros tr tr'; induction tr as [|x tr IH]; cbn [app trace_reads fold_right] in *; [done|]; unfold trace_reads in *; lia).
  induction l as [|a l IH]; intros c; cbn [trace all_serve_reads]; [done|]. rewrite Happ.
  assert (trace_reads (acted a c) <= serve_reads a) as Ha.
  { destruct a as [wr r p fd|l0 a]; cbn [acted serve_reads]; [|unfold trace_reads; simpl; lia].
    destruct (LoopPool.getNextLoop _) as [[l0 pool]|]; [|done]. by case_bool_decide. }
  pose proof (all_serve_reads_nonneg l). destruct (Serve a c) as [c'|]; [specialize (IH c'); lia | simpl; lia].
Qed.

End WithKernel.

(** ** Properties *)

Section Properties.
Context {K : Type} `{!EpollKernel K}.
Context (same_loop auto_close : bool).
Context (cb : HttpRequest -> Response.HttpResponse -> Response.HttpResponse).
Context (memory : Z -> Z -> bytes).

(** The responses are bounded. *)
Context (bound : Z).
Hypothesis bound_request : forall r close, zlen (Response.serialize (cb r (Response.new close))) <= bound.
Hypothesis bound_bad : zlen bad_request <= bound.
Hypothesis bound_int : bound + 2 * kPrePendIndex <= INT_MAX.

(** What the connection lived, from the start of the server. *)
Lemma server_lived W Q l (c c' : @Cluster K) i w p s :
  (forall ev s t, loose s = loose t -> Q ev s -> Q ev t) -> (forall ev s, reads ev = 0 -> Q ev s) ->
  started same_loop c -> can_serve_all same_loop auto_close cb memory l c -> all_side same_loop auto_close cb memory W Q l c ->
  kPrePendIndex + all_serve_reads l * bound <= INT_MAX -> serve_all same_loop auto_close cb memory l c = Ok c' ->
  loops c' !! i = Some w -> sessions w !! p = Some s ->
  lived same_loop auto_close cb memory W Q p (attach (shared w) s) (history i p (trace same_loop auto_close cb memory l c) []).
Proof.
  intros HQ1 HQ2 Hst Hcan Hside Hfit Hrun Hi Hp.
  assert (all_lived_in same_loop auto_close cb memory W Q c (fun _ _ => [])) as H0.
  { intros l0 w0 Hl0 p0 s0 Hp0. destruct Hst as (_ & _ & _ & _ & _ & Hidle & _). by rewrite (proj2 (Hidle _ _ Hl0)) in Hp0. }
  exact (serve_all_lived same_loop auto_close cb memory W Q HQ1 HQ2 bound bound_request bound_bad bound_int
    l _ c c' _ (started_ok _ c Hst) Hcan Hside ltac:(done) Hfit Hrun H0 i w Hi p s Hp).
Qed.

Lemma all_side_trivial l : forall c : @Cluster K,
  all_side same_loop auto_close cb memory (fun _ => True) (fun _ _ => True) l c.
Proof.
  induction l as [|a l IH]; intros c; [done|]. split; [|by intros c' _].
  destruct a as [|l0 []]; simpl; try exact I; intros ? _; try exact I. intros ? _. exact I.
Qed.

(** The payloads of the reads among the events. *)
Definition payloads (es : list (@event K)) : list bytes :=
  flat_map (fun e => match e with Dispatched (ReadvOk (a :: data)) => [a :: data] | _ => [] end) es.

Lemma payloads_own es : payloads (own es) = payloads es.
Proof.
  induction es as [|e es IH]; [done|]. destruct e; cbn [own List.filter is_own payloads flat_map app]; fold (own es); fold (payloads es);
    try exact IH. by rewrite <- IH.
Qed.

Lemma messages_payloads es : forall s, messages same_loop auto_close cb memory es s `sublist_of` payloads es.
Proof.
  induction es as [|e es IH]; intros s; [done|]. cbn [messages payloads flat_map]. apply sublist_app.
  - destruct e as [| |[|[|a data]]| | | | |]; try done. unfold message. destruct (Epoll.deref _ _) as [ch|]; [|apply sublist_nil_l].
    destruct (Chan.has_bits _ _); [done | apply sublist_nil_l].
  - destruct (step _ _ _ _ e s); [apply IH | apply sublist_nil_l].
Qed.

(** The peers stay, and no output buffer reuses its front when a message is
    read. *)
Definition polite (l : list (@server_action K)) (c : @Cluster K) : Prop :=
  all_side same_loop auto_close cb memory stays (fun e s => reads e = 1 -> tidy bound (conn s)) l c.

Lemma along_tidily es : forall s,
  along same_loop auto_close cb memory (fun e s => reads e = 1 -> tidy bound (conn s)) es s ->
  tidily same_loop auto_close cb memory bound es s.
Proof. induction es as [|e es IH]; intros s; [done|]. intros [H1 H2]. split; auto. Qed.

(** C9. The server does to each of its connections what Session.v says of one:
    in any run of the server, however its loops and connections interleave,
    every connection is what a possible run of Session.v makes of its opening on
    a poller with room for it (but for the record of which thread last worked
    on it); and the events of that run, besides the poller's reports and
    [Others], are exactly those the server had this connection do since its
    acceptance, in their order.  So the theorems on one connection hold of
    every connection of the server. *)
Theorem connection_projects l c c' i w p s :
  started same_loop c -> can_serve_all same_loop auto_close cb memory l c ->
  kPrePendIndex + all_serve_reads l * bound <= INT_MAX -> serve_all same_loop auto_close cb memory l c = Ok c' ->
  loops c' !! i = Some w -> sessions w !! p = Some s ->
  exists e wr r il fd id es s',
    Epoll.wf e /\ can_open e wr r p fd /\
    possible same_loop auto_close cb memory es (opening same_loop e wr r il p fd id) /\
    Life.run same_loop auto_close cb memory es (opening same_loop e wr r il p fd id) = Ok s' /\
    loose s' = loose (attach (shared w) s) /\
    own es = history i p (trace same_loop auto_close cb memory l c) [] /\ all_reads es <= all_serve_reads l.
Proof.
  intros Hst Hcan Hfit Hrun Hi Hp.
  destruct (server_lived (fun _ => True) (fun _ _ => True) l c c' i w p s ltac:(done) ltac:(done) Hst Hcan (all_side_trivial l c) Hfit Hrun Hi Hp)
    as (e & wr & r & il & fd & id & es & s' & Hwf & Ho & _ & Hpos & _ & Hr & El & Hown).
  exists e, wr, r, il, fd, id, es, s'. split_and!; try done.
  rewrite <- own_reads, Hown. etrans; [apply history_reads|]. apply trace_reads_served.
Qed.


End Properties.

(** ** Witnesses *)

Abbreviation Polite := (polite false true resCallback (fun _ _ => []) kResponseMax).
Abbreviation Trace := (trace false true resCallback (fun _ _ => [])).

(** The output buffer of a connection has not moved far. *)
Definition low (c : @Cluster table) (l : loop) (p : chan_ptr) : bool :=
  match loops c !! l with
  | Some w => match sessions w !! p with Some s => Buf.m_read_index (m_output_buffer (conn s)) <=? kPrePendIndex | None => true end
  | None => true
  end.

Definition calm (a : @server_action table) (c : @Cluster table) : bool :=
  match a with InLoop l (At p (Dispatched _)) => low c l p | InLoop _ (Accept _ _ _ _ _ _) => false | _ => true end.

Lemma polite_cons wr (a : @server_action table) l c :
  stays wr -> match a with NewConnection wr' _ _ _ => wr' = wr | _ => True end ->
  calm a c = true -> Polite l (served (Clust.Serve a c)) -> Polite (a :: l) c.
Proof.
  intros Hw Ha Hcalm Hl. split; [|intros c' E; by rewrite E in Hl].
  destruct a as [wr' r' p fd|i a]; simpl; [by subst|]. intros w Hi.
  destruct a as [| |p ev| |]; try done. intros s Hs. simpl. intros Hr. destruct ev; try done.
  apply tidy_low. simpl in *. unfold low in Hcalm. rewrite Hi, Hs in Hcalm. by apply Z.leb_le.
Qed.

Lemma two_clients_polite : Polite two_clients two_loops.
Proof.
  unfold two_clients.
  repeat (apply (polite_cons two_bytes); [done | done | by vm_compute |]). exact I.
Qed.

(** What the server had the second connection do. *)
Example second_history :
  history 2 1%positive (Trace two_clients two_loops) [] = [Established; Dispatched (ReadvOk hello_input)].
Proof. vm_compute. reflexivity. Qed.

Abbreviation Second := (here (loop_at after_clients 2) 1%positive).

Lemma connection_projects_witness :
  exists e wr r il fd id es s',
    Epoll.wf e /\ can_open e wr r 1%positive fd /\
    Life.Possible es (opening false e wr r il 1%positive fd id) /\
    Life.Run es (opening false e wr r il 1%positive fd id) = Ok s' /\
    loose s' = loose (attach (shared (loop_at after_clients 2)) Second) /\
    own es = history 2 1%positive (Trace two_clients two_loops) [] /\ all_reads es <= all_serve_reads two_clients.
Proof.
  apply (connection_projects false true resCallback (fun _ _ => []) kResponseMax resCallback_bound
           ltac:(by vm_compute) ltac:(by vm_compute) two_clients two_loops after_clients).
  - apply two_loops_started.
  - apply two_clients_can.
  - by vm_compute.
  - apply served_ok. by vm_compute.
  - apply loop_at_ok. by vm_compute.
  - apply here_ok. by vm_compute.
Defined.


(** And it is the page, all of it. *)
Example second_answered :
  wire_of (calls (conn Second)) ++ Buf.content (m_output_buffer (conn Second)) = said (answers resCallback [hello_input]).
Proof. vm_compute. reflexivity. Qed.

End Proj.
