(* ===== verification/Service.v ===== *)
(** * Service: any client of the server is served

    Session.v and Visit.v let one connection run with its events following one
    another; here such a run is carried out by the server of Cluster.v, on the
    loop that the new connection is dealt to, among all the connections there
    are, and none of the others is disturbed.  With Visit.v it follows that
    whatever the server has been through, the next client that asks gets its
    answer. *)

From Stdlib Require Import ZArith Lia Ascii String.
From stdpp Require Import options.
From S2P Require Import Prelude CStd Buffer HttpRequest HttpRequestParser HttpResponse Channel Epoller Timestamp TcpConnection HttpServer TcpSafety Session Visit Reactor LoopThreadPool Cluster Dialogue Projection.

#[local] Set Default Proof Using "Type*".

Module Service.
Import Request Tcp Server Safe Life Visit React Clust Proj.

Section WithKernel.
Context {K : Type} `{!EpollKernel K}.
Context (same_loop auto_close : bool).
Context (cb : HttpRequest -> Response.HttpResponse -> Response.HttpResponse).
Context (memory : Z -> Z -> bytes).

Abbreviation Conn := (TcpConnection K).
Abbreviation Sess := (@Session K).
Abbreviation Event := (@event K).
Abbreviation Server := (@Cluster K).
Abbreviation Step := (step same_loop auto_close cb memory).
Abbreviation Run := (Life.run same_loop auto_close cb memory).
Abbreviation Possible := (possible same_loop auto_close cb memory).
Abbreviation Serve := (serve same_loop auto_close cb memory).
Abbreviation Serve_all := (serve_all same_loop auto_close cb memory).
Abbreviation Can_serve_all := (can_serve_all same_loop auto_close cb memory).

(** ** Lemmas: the channel of a connection stays *)

Lemma channel_on_channel f (c c' : Conn) : on_channel f c = Ok c' -> m_channel c' = m_channel c.
Proof. unfold on_channel. intros H. bind_inv H. by apply Ok_inj in H as <-. Qed.

Lemma channel_shutDownInLoop (c c' : Conn) : shutDownInLoop c = Ok c' -> m_channel c' = m_channel c.
Proof. unfold shutDownInLoop. intros H. do 2 bind_inv H. by destruct (negb _); apply Ok_inj in H as <-. Qed.

Lemma channel_shutDown (c c' : Conn) : shutDown c = Ok c' -> m_channel c' = m_channel c.
Proof.
  unfold shutDown. intros H. case_decide; [|by apply Ok_inj in H as <-].
  destruct (in_loop _); [by apply channel_shutDownInLoop in H | by apply Ok_inj in H as <-].
Qed.

Lemma channel_sendInLoop msg (c c' : Conn) : sendInLoop msg c = Ok c' -> m_channel c' = m_channel c.
Proof.
  unfold sendInLoop. intros H. bind_inv H. case_decide; [by apply Ok_inj in H as <-|]. bind_inv H.
  assert (forall n rest (faulty : bool) c1, m_channel c1 = m_channel c ->
    (_ ← assert_ (rest <=? zlen msg);
     if negb faulty && (0 <? rest) then
       b ← Buf.append (drop (Z.to_nat n) msg) rest (m_output_buffer c1);
       let c := set_output b c1 in
       writing ← isWriting c;
       if negb writing then on_channel Epoll.enableWriting c else Ok c
     else Ok c1) = Ok c' -> m_channel c' = m_channel c) as Hrest.
  { intros n rest faulty c1 <- Hc. clear H. bind_inv Hc. destruct (_ && _); [|by apply Ok_inj in Hc as <-].
    bind_inv Hc. cbv zeta in Hc. bind_inv Hc. destruct (negb _); [by apply channel_on_channel in Hc | by apply Ok_inj in Hc as <-]. }
  destruct (negb _ && _); [|by apply Hrest in H]. unfold write in H.
  destruct (writes c _ _) as [n|e]; [by apply Hrest in H|]. destruct (e =? EWOULDBLOCK); by apply Hrest in H.
Qed.

Lemma channel_send msg (c c' : Conn) : send 0 msg c = Ok c' -> m_channel c' = m_channel c.
Proof.
  unfold send. intros H. case_decide; [|by apply Ok_inj in H as <-].
  destruct (in_loop c); [by apply channel_sendInLoop in H | by apply Ok_inj in H as <-].
Qed.

Lemma channel_handleWrite (c c' : Conn) : handleWrite c = Ok c' -> m_channel c' = m_channel c.
Proof.
  unfold handleWrite, write. intros H. do 2 bind_inv H. destruct x0; [|by apply Ok_inj in H as <-].
  destruct (writes c _ _) as [n|e]; [|by apply Ok_inj in H as <-].
  destruct (0 <? n); [|by apply Ok_inj in H as <-]. bind_inv H. cbv zeta in H.
  destruct (_ =? 0); [|by apply Ok_inj in H as <-]. bind_inv H. apply channel_on_channel in Hx2.
  case_decide; [apply channel_shutDownInLoop in H; by rewrite H | by apply Ok_inj in H as <-].
Qed.

Lemma channel_handleClose (c c' : Conn) : handleClose (close_callback same_loop) c = Ok c' -> m_channel c' = m_channel c.
Proof.
  unfold handleClose, close_callback. intros H. do 3 bind_inv H. apply channel_on_channel in Hx1.
  apply Ok_inj in H as <-. by destruct same_loop.
Qed.

Lemma channel_onMessage (c c' : Conn) : onMessage auto_close cb c = Ok c' -> m_channel c' = m_channel c.
Proof.
  unfold onMessage. intros H. bind_inv H. destruct x as [p b]. clear Hx. set (c1 := set_parser p _) in H.
  assert (m_channel c1 = m_channel c) as E by (unfold c1; by destruct auto_close). rewrite <- E. clear E.
  destruct (Parser.m_state p); try (by apply Ok_inj in H as <-).
  - unfold handleRequest, send_buffer in H. bind_inv H. bind_inv H. bind_inv H. bind_inv H. destruct x2 as [c2 b2].
    assert (m_channel c2 = m_channel c1) as E2.
    { clear H. case_decide; [|by apply Ok_inj in Hx2 as [= <- _]].
      destruct (in_loop c1); [bind_inv Hx2; apply Ok_inj in Hx2 as [= <- _]; by apply channel_sendInLoop in Hx3
        | by apply Ok_inj in Hx2 as [= <- _]]. }
    destruct (Response.closeConnection _); [apply channel_shutDown in H; by rewrite H | by apply Ok_inj in H as <-].
  - bind_inv H. apply channel_send in Hx. apply channel_shutDown in H. by rewrite H.
Qed.

Lemma channel_handleRead rv (c c' : Conn) :
  handleRead (message_callback auto_close cb) (close_callback same_loop) rv c = Ok c' -> m_channel c' = m_channel c.
Proof.
  unfold handleRead. intros H. do 2 bind_inv H. destruct x0 as [b n]. cbv zeta in H.
  destruct (0 <? n); [by apply channel_onMessage in H|]. destruct (n =? 0); [by apply channel_handleClose in H|].
  bind_inv H. apply Ok_inj in H as <-. simpl in Hx1. by apply channel_handleClose in Hx1.
Qed.

Lemma channel_dispatch rv (c c' : Conn) : dispatch same_loop auto_close cb rv c = Ok c' -> m_channel c' = m_channel c.
Proof.
  unfold dispatch. intros H. bind_inv H. rename x into ch.
  assert (Chan.handleEventWithGuard (Chan.m_revents ch) (callbacks same_loop auto_close cb rv) c = Ok c') as Hg
    by (unfold Chan.handleEvent in H; by destruct (Chan.m_tied ch)).
  clear H. unfold Chan.handleEventWithGuard in Hg. do 3 bind_inv Hg. cbn [Chan.call callbacks] in *.
  assert (m_channel x = m_channel c) as <- by (destruct (Chan.has_bits _ kErrorEvent); by apply Ok_inj in Hx0 as <-).
  assert (m_channel x0 = m_channel x) as <- by (destruct (_ && _); by apply Ok_inj in Hx1 as <-).
  assert (m_channel x1 = m_channel x0) as <-
    by (destruct (Chan.has_bits _ (Z.lor _ _)); [by apply channel_handleRead in Hx2 | by apply Ok_inj in Hx2 as <-]).
  destruct (Chan.has_bits _ kWriteEvent); [by apply channel_handleWrite in Hg | by apply Ok_inj in Hg as <-].
Qed.

Lemma channel_connection (c c' : Conn) : connection_callback auto_close c = Ok c' -> m_channel c' = m_channel c.
Proof. unfold connection_callback, onConnection. intros H. apply Ok_inj in H as <-. by destruct (isConnected c). Qed.

Lemma channel_step e (s s' : Sess) : Step e s = Ok s' -> m_channel (conn s') = m_channel (conn s).
Proof.
  intros H. destruct e as [|rev|rv| | | | |e]; cbn [step] in H.
  - bind_inv H. apply Ok_inj in H as <-. unfold connectionEstablished in Hx. do 3 bind_inv Hx.
    apply channel_connection in Hx. apply channel_on_channel in Hx2. cbn [conn]. by rewrite Hx, Hx2.
  - bind_inv H. apply Ok_inj in H as <-. unfold report in Hx. bind_inv Hx. destruct x0. by apply Ok_inj in Hx as <-.
  - bind_inv H. apply Ok_inj in H as <-. apply channel_dispatch in Hx. exact Hx.
  - destruct (functors (conn s)) as [|f fs]; [by apply Ok_inj in H as <-|]. bind_inv H. apply Ok_inj in H as <-. cbn [conn].
    set (c := set_functors _ _) in Hx. change (m_channel (conn s)) with (m_channel c).
    destruct f as [| |ptr len|]; cbn [run_functor] in Hx.
    + by apply channel_shutDownInLoop.
    + unfold forceCloseInLoop in Hx. bind_inv Hx. case_decide; [by apply channel_handleClose in Hx | by apply Ok_inj in Hx as <-].
    + by apply channel_sendInLoop in Hx.
    + unfold connectionDestructor in Hx. do 3 bind_inv Hx. apply channel_on_channel in Hx. apply channel_connection in Hx2.
      rewrite Hx, Hx2. case_decide; [by apply channel_on_channel in Hx1 | by apply Ok_inj in Hx1 as <-].
  - by apply Ok_inj in H as <-.
  - bind_inv H. destruct x as [c t]. apply Ok_inj in H as <-. unfold handleIdleConnection, now in Hx.
    bind_inv Hx. clear Hx0. bind_inv Hx. clear Hx0. destruct (Ts.lt _ _); [|by apply Ok_inj in Hx as [= <- _]].
    bind_inv Hx. apply Ok_inj in Hx as [= <- _]. by apply channel_shutDown in Hx0.
  - apply Ok_inj in H as <-. unfold forceClose. simpl. by case_decide.
  - by apply Ok_inj in H as <-.
Qed.

(** ** A run of one connection on the server *)

Definition session_at (c : Server) (l : loop) (p : chan_ptr) : option Sess := w ← loops c !! l; sessions w !! p.

(** The server has the session [s] in the loop [l], at [p]. *)
Definition houses (c : Server) (l : loop) (p : chan_ptr) (s : Sess) : Prop :=
  exists w t, loops c !! l = Some w /\ sessions w !! p = Some t /\ loose (attach (shared w) t) = loose s /\
    m_channel (conn s) = p.

(** The other connections are as they were. *)
Definition undisturbed (l : loop) (p : chan_ptr) (c c' : Server) : Prop :=
  forall j q, j <> l \/ q <> p -> session_at c' j q = session_at c j q.

#[global] Instance undisturbed_preorder l p : PreOrder (undisturbed l p).
Proof. split; [done|]. intros c1 c2 c3 H1 H2 j q Hne. by rewrite H2, H1. Qed.

(** The step of the server that is an event of the connection. *)
Definition on_server (l : loop) (p : chan_ptr) (e : Event) : @server_action K :=
  match e with
  | Reported revents => InLoop l (Poll [(revents, p)])
  | _ => InLoop l (At p e)
  end.

Lemma undisturbed_loop l p (c c' : Server) w w' :
  loops c !! l = Some w -> loops c' = <[l := w']> (loops c) -> (forall q, q <> p -> sessions w' !! q = sessions w !! q) ->
  undisturbed l p c c'.
Proof.
  intros Hl E Hs j q Hne. unfold session_at. rewrite E. destruct (decide (j = l)) as [->|Hj].
  - rewrite lookup_insert_eq, Hl. simpl. apply Hs. by destruct Hne.
  - by rewrite lookup_insert_ne.
Qed.

Lemma step_on_server e (c : Server) l p (s s' : Sess) :
  houses c l p s -> enabled e s -> (forall x, e <> Others x) -> Step e s = Ok s' ->
  can_serve same_loop (on_server l p e) c /\
  exists c', Serve (on_server l p e) c = Ok c' /\ houses c' l p s' /\ undisturbed l p c c'.
Proof.
  intros (w & t & Hl & Hp & El & Ech) Hen Hno Hs.
  assert (m_channel (conn s') = p) as Ech' by (rewrite <- Ech; by eapply channel_step).
  assert ((forall r, e <> Reported r) -> can_serve same_loop (InLoop l (At p e)) c /\
    exists c', Serve (InLoop l (At p e)) c = Ok c' /\ houses c' l p s' /\ undisturbed l p c c') as Hat.
  { intros Hnr. destruct (step_alike same_loop auto_close cb memory e s (attach (shared w) t) s' (eq_sym El) Hs) as (t' & Ht & Et).
    split.
    - exists w. split_and!; [done | | done]. split; [done|]. exists t. split; [done|].
      apply (proj1 (enabled_loose e (attach (shared w) t))). rewrite El. by apply enabled_loose.
    - cbn [serve]. unfold act_in. rewrite Hl. cbn [act]. rewrite Hp, Ht. cbn [mbind res_bind].
      eexists. split; [done|]. split.
      + eexists _, t'. cbn [loops]. rewrite lookup_insert_eq. split; [done|]. cbn [sessions shared].
        rewrite lookup_insert_eq, attach_id. by split_and!.
      + eapply undisturbed_loop; [done | reflexivity|]. intros q Hq. cbn [sessions]. by apply lookup_insert_ne. }
  destruct e as [|rev|rv| | | | |x]; try (apply Hat; intros ?; discriminate).
  clear Hat. destruct Hen as [ev Hev]. cbn [on_server].
  pose proof (f_equal (fun x => poller (conn x)) El) as Epo. pose proof (f_equal (fun x => m_conn_fd (conn x)) El) as Efd.
  simpl in Epo, Efd. cbn [step] in Hs. unfold report in Hs. simpl in Hs. rewrite Ech in Hs, Hev. rewrite <- Epo in Hs, Hev.
  split.
  - exists w. split_and!; [done | | done]. apply Forall_singleton. by eexists _, _.
  - cbn [serve]. unfold act_in. rewrite Hl. cbn [act]. unfold Epoll.poll. simpl.
    destruct (Epoll.deref p (shared w)) as [ch|]; [|discriminate Hs]. cbn [mbind res_bind] in *. apply Ok_inj in Hs as <-.
    eexists. split; [done|]. split.
    + eexists _, t. cbn [loops]. rewrite lookup_insert_eq. split; [done|]. cbn [sessions shared].
      split_and!; [done | | done].
      apply (f_equal (fun x => attach (Epoll.set_channel p (Chan.setRevents rev ch) (shared w)) x)) in El.
      exact El.
    + eapply undisturbed_loop; [done | reflexivity | done].
Qed.

(** A run of events without [Others]. *)
Lemma run_on_server es : forall (c : Server) l p (s s' : Sess),
  houses c l p s -> Possible es s -> Forall (fun e => forall x, e <> Others x) es -> Run es s = Ok s' ->
  Can_serve_all (map (on_server l p) es) c /\
  exists c', Serve_all (map (on_server l p) es) c = Ok c' /\ houses c' l p s' /\ undisturbed l p c c'.
Proof.
  induction es as [|e es IH]; intros c l p s s' Hh Hpos Hno Hrun; cbn [map Life.run serve_all can_serve_all] in *.
  { apply Ok_inj in Hrun as <-. split; [done|]. by exists c. }
  destruct Hpos as [Hen Hpos]. apply Forall_cons in Hno as [He Hno]. bind_inv Hrun. rename x into s1.
  destruct (step_on_server e c l p s s1 Hh Hen He Hx) as [Hcan (c1 & Hc1 & Hh1 & Hu1)].
  destruct (IH c1 l p s1 s' Hh1 (Hpos _ Hx) Hno Hrun) as [Hcan1 (c' & Hc' & Hh' & Hu')].
  split; [split; [done|]; intros c2 E; rewrite Hc1 in E; by apply Ok_inj in E as <-|].
  exists c'. rewrite Hc1. split_and!; [done | done | by etrans].
Qed.

(** ** The visit *)

(** The loop's answer to a writable socket, on the server: the kernel watches
    the connection for writability, and the report and its handlers run. *)
Definition server_round (l : loop) (p : chan_ptr) (c c' : Server) : Prop :=
  (exists w s ev, loops c !! l = Some w /\ sessions w !! p = Some s /\
     interest (Epoll.kernel (shared w)) !! m_conn_fd (conn s) = Some (ev, p) /\ Chan.has_bits ev EPOLLOUT = true) /\
  Can_serve_all (map (on_server l p) round) c /\ Serve_all (map (on_server l p) round) c = Ok c'.

Abbreviation Writable := (writable same_loop auto_close cb memory).

Lemma rounds_on_server n : forall (c : Server) l p (s s' : Sess),
  houses c l p s -> nsteps Writable n s s' ->
  exists c', nsteps (server_round l p) n c c' /\ houses c' l p s' /\ undisturbed l p c c'.
Proof.
  induction n as [|n IH]; intros c l p s s' Hh Hn; inversion Hn as [|n' x s1 z Hw Hrest]; subst.
  { exists c. split_and!; [constructor | done | done]. }
  destruct Hw as ((ev & Hint & Hbit) & Hpos & Hrun).
  destruct (run_on_server round c l p s s1 Hh Hpos) as [Hcan (c1 & Hc1 & Hh1 & Hu1)];
    [repeat (apply Forall_cons; split; [intros ?; discriminate|]); by apply Forall_nil | done |].
  destruct (IH c1 l p s1 s' Hh1 Hrest) as (c' & Hc' & Hh' & Hu').
  exists c'. split_and!; [|done | by etrans]. eapply nsteps_l; [|exact Hc']. split; [|done].
  destruct Hh as (w & t & Hl & Hp & El & Ech). exists w, t, ev. split_and!; [done | done | | done].
  pose proof (f_equal (fun x => poller (conn x)) El) as Epo. pose proof (f_equal (fun x => m_conn_fd (conn x)) El) as Efd.
  simpl in Epo, Efd. by rewrite Epo, Efd, Hint, Ech.
Qed.

(** The responses are bounded. *)
Context (bound : Z).
Hypothesis bound_request : forall r close, zlen (Response.serialize (cb r (Response.new close))) <= bound.
Hypothesis bound_bad : zlen bad_request <= bound.
Hypothesis bound_int : bound + 2 * kPrePendIndex <= INT_MAX.

(** A new connection of the server is the opening of a session; what that then
    does, the server does. *)
Lemma opened_on_server wr r p fd room (c : Server) :
  cluster_ok same_loop room c -> can_serve same_loop (NewConnection wr r p fd) c -> kPrePendIndex <= room -> room <= INT_MAX ->
  exists i e il id, Epoll.wf e /\ can_open e wr r p fd /\
    forall es s, let s0 := opening same_loop e wr r il p fd id in
      Possible (Established :: es) s0 -> Run (Established :: es) s0 = Ok s -> Forall (fun e => forall x, e <> Others x) es ->
      let first := if bool_decide (i = LoopPool.m_base_loop (m_loop_thread_pool c)) then [] else [Established] in
      let l := NewConnection wr r p fd :: map (on_server i p) (first ++ es) in
      Can_serve_all l c /\ exists c', Serve_all l c = Ok c' /\ houses c' i p s /\ undisturbed i p c c'.
Proof.
  intros Hok Hcan Hlow Hroom.
  destruct (new_connection_ok same_loop auto_close cb memory bound bound_request bound_bad bound_int wr r p fd room c Hok Hcan Hlow Hroom)
    as (c1 & Hrun & _).
  destruct (new_connection_acts same_loop auto_close cb memory bound bound_request bound_bad bound_int wr r p fd room c c1 Hok Hcan Hlow Hrun)
    as (i & pool & w & w' & c2 & El & Hi & Hw & Hacc & Hact & Hw' & Hl2 & Hc').
  destruct (next_loop _ (ok_pool _ _ _ Hok)) as (i0 & pool0 & El0 & _ & Eb & _). rewrite El in El0. apply Ok_inj in El0 as [= <- <-].
  cbn zeta in Hacc, Hact, Hc'. rewrite Eb in Hacc, Hact, Hc'. set (here := bool_decide _) in *.
  exists i, (shared w), here, (m_next_connection_id c). split_and!; [apply Hw | apply Hacc |].
  intros es s s0 Hpos Hes Hno first. set (l := NewConnection _ _ _ _ :: _).
  cbn [act] in Hact. apply Ok_inj in Hact. fold s0 in Hact.
  assert (houses c2 i p s0) as H2.
  { exists w', s0. rewrite Hl2, lookup_insert_eq. split_and!; [done | by rewrite <- Hact; simpl; rewrite lookup_insert_eq | by rewrite <- Hact | done]. }
  assert (undisturbed i p c c2) as Hu2.
  { eapply undisturbed_loop; [exact Hi | exact Hl2|]. intros q Hq. rewrite <- Hact. cbn [sessions]. by apply lookup_insert_ne. }
  assert (Can_serve_all (map (on_server i p) (first ++ es)) c1 /\ exists c', Serve_all (map (on_server i p) (first ++ es)) c1 = Ok c' /\
    houses c' i p s /\ undisturbed i p c c') as [Hcan1 (c' & Hc1 & Hh & Hu)].
  { assert (first = if here then [] else [Established]) as -> by done. destruct here; cbn [app].
    - destruct Hc' as [_ Hest]. destruct Hpos as [Hen Hpos]. cbn [Life.run] in Hes. bind_inv Hes. rename x into s1.
      destruct (step_on_server Established c2 i p s0 s1 H2 Hen ltac:(intros ?; discriminate) Hx) as [_ (c3 & Hc3 & Hh3 & Hu3)].
      cbn [serve on_server] in Hc3. rewrite Hest in Hc3. apply Ok_inj in Hc3 as <-.
      destruct (run_on_server es c1 i p s1 s Hh3 (Hpos _ Hx) Hno Hes) as [Hcan1 (c' & Hc1 & Hh & Hu)].
      split; [done|]. exists c'. split_and!; [done | done|]. etrans; [exact Hu2|]. by etrans.
    - subst c1. destruct (run_on_server (Established :: es) c2 i p s0 s H2 Hpos) as [Hcan1 (c' & Hc1 & Hh & Hu)];
        [by apply Forall_cons; split; [intros ?; discriminate|] | done|].
      split; [done|]. exists c'. split_and!; [done | done | by etrans]. }
  unfold l. cbn [can_serve_all serve_all serve]. rewrite Hrun. cbn [mbind res_bind]. split.
  - split; [done|]. intros c3 E. by apply Ok_inj in E as <-.
  - by exists c'.
Qed.

(** ** Lemmas: the end of a connection *)

Lemma serve_all_app l1 l2 (c : Server) : Serve_all (l1 ++ l2) c = (c' ← Serve_all l1 c; Serve_all l2 c').
Proof.
  revert c. induction l1 as [|a l1 IH]; intros c; [done|]. cbn [app serve_all].
  destruct (Serve a c); cbn [mbind res_bind]; [apply IH | done].
Qed.

Lemma can_serve_all_app l1 l2 (c c' : Server) :
  Can_serve_all l1 c -> Serve_all l1 c = Ok c' -> Can_serve_all l2 c' -> Can_serve_all (l1 ++ l2) c.
Proof.
  revert c. induction l1 as [|a l1 IH]; intros c Hcan Hrun H2; cbn [app can_serve_all serve_all] in *.
  { by apply Ok_inj in Hrun as <-. }
  destruct Hcan as [Ha Hcan]. split; [done|]. intros c1 H1. rewrite H1 in Hrun. cbn [mbind res_bind] in Hrun. by eapply IH; [apply Hcan|..].
Qed.

Lemma on_server_reads l p e : serve_reads (on_server l p e) = reads e.
Proof. by destruct e. Qed.

Lemma finish_reads l p (s : Sess) : all_serve_reads (map (on_server l p) (finish s)) = 0.
Proof.
  unfold finish. assert (forall n, all_serve_reads (map (on_server l p) (replicate n RunFunctor)) = 0) as H by (induction n; simpl; lia).
  rewrite map_app. destruct (removed s); cbn [map app all_serve_reads]; by rewrite ?on_server_reads, H.
Qed.

Lemma finish_no_others (s : Sess) : Forall (fun e => forall x, e <> Others x) (finish s).
Proof.
  unfold finish. apply Forall_app. split; [destruct (removed s); repeat constructor; discriminate|].
  apply Forall_replicate. intros x. discriminate.
Qed.

(** The last reference goes. *)
Lemma release_on_server l p room (c : Server) w s :
  cluster_ok same_loop room c -> kPrePendIndex <= room -> room <= INT_MAX ->
  loops c !! l = Some w -> sessions w !! p = Some s -> m_state (conn s) = kDisconnected -> removed s = true ->
  functors (conn s) = [] ->
  can_serve same_loop (InLoop l (Release p)) c /\
  exists c', Serve (InLoop l (Release p)) c = Ok c' /\ cluster_ok same_loop room c' /\ undisturbed l p c c' /\
    session_at c' l p = None /\ exists w', loops c' !! l = Some w' /\ Epoll.channels (shared w') !! p = None /\
      Epoll.m_channels (shared w') !! m_conn_fd (conn s) = None.
Proof.
  intros Hok Hlow Hroom Hl Hp Hst Hrem Hf.
  assert (can_serve same_loop (InLoop l (Release p)) c) as Hcan by (exists w; split_and!; [done | by exists s | done]).
  split; [done|].
  destruct (act_in_ok same_loop auto_close cb memory bound bound_request bound_bad bound_int l (Release p) room c Hok Hcan Hlow)
    as [(c' & Hrun & Hok')|(w0 & _ & ? & ? & ? & E & _)]; [simpl; lia | | discriminate E].
  exists c'. cbn [serve]. split; [done|]. split; [by replace room with (room + act_reads (K := K) (Release p) * bound) by (simpl; lia)|].
  apply act_in_inv in Hrun as (w1 & w' & Hl1 & Hact & El). rewrite Hl in Hl1. injection Hl1 as <-.
  cbn [act] in Hact. rewrite Hp in Hact. bind_inv Hact. apply Ok_inj in Hact as <-.
  destruct (ok_session _ _ _ (ok_reactors _ _ _ Hok _ _ Hl) _ _ Hp) as [Hpc Hsok].
  pose proof (session_over _ _ _ _ Hsok Hst Hrem Hf) as Hover. destruct (destroyed _ _ _ Hover Hx) as (_ & Hc & Hm).
  simpl in Hc, Hm. rewrite Hpc in Hc. split_and!.
  - eapply undisturbed_loop; [exact Hl | exact El|]. intros q Hq. cbn [sessions]. by apply lookup_delete_ne.
  - unfold session_at. rewrite El, lookup_insert_eq. apply lookup_delete_eq.
  - eexists. rewrite El, lookup_insert_eq. split; [done|]. cbn [shared]. split; [rewrite Hc; apply lookup_delete_eq|].
    rewrite Hm. apply Hover.
Qed.

(** ** Properties *)

(** C3. Whatever the server has been through, the next client is served.  After
    any run of the server, with any connections in its loops, a client connects
    and its request, with a Connection header, arrives in one packet; its
    socket takes any part of each write, or refuses it, but from some write on
    takes something.  Then the server accepts it, deals it to a loop and
    answers without a fault; as long as bytes are pending the kernel watches
    the socket for writability; after a bounded number of writable reports the
    bytes on the wire are exactly the serialised response of the callback,
    followed by the half-close if the response asks for it and by nothing
    otherwise; and no other connection has been touched. *)
Theorem server_serves l c0 c wr r p fd N line m t ver hs h :
  started same_loop c0 -> Can_serve_all l c0 -> kPrePendIndex + all_serve_reads l * bound <= INT_MAX -> Serve_all l c0 = Ok c ->
  can_serve same_loop (NewConnection wr r p fd) c ->
  (forall k len, 0 <= len -> match wr k len with Wrote n => 0 <= n <= len | WriteErr e => e <> EPIPE /\ e <> ECONNRESET end) ->
  (forall k len, (N <= k)%nat -> 0 < len -> (0 < taken (wr k len))%nat) ->
  request_line line m t ver -> CR ∉ line -> Forall Parser.header_ok hs ->
  zlen (Parser.render_request line hs) <= Buf.extrabuf_size ->
  let request := Parser.set_headers hs (setVersion ver (set_target t (setMethod (method_name m) Request.new))) in
  m_headers request !! bs "Connection" = Some h ->
  let response := cb request (Response.new (wants_close request h)) in
  let read := [Reported EPOLLIN; Dispatched (ReadvOk (Parser.render_request line hs))] in
  exists i c1 n c2,
    let first := if bool_decide (i = LoopPool.m_base_loop (m_loop_thread_pool c)) then [] else [Established] in
    let arrival := NewConnection wr r p fd :: map (on_server i p) (first ++ read) in
    Can_serve_all arrival c /\ Serve_all arrival c = Ok c1 /\
    (n <= N + length (Response.serialize response))%nat /\ nsteps (server_round i p) n c1 c2 /\ undisturbed i p c c2 /\
    exists s, session_at c2 i p = Some s /\ wire_of (calls (conn s)) = Response.serialize response /\
      if Response.closeConnection response then
        m_state (conn s) = kDisconnecting /\ exists pre, calls (conn s) = pre ++ [SysShutdown] /\ SysShutdown ∉ pre
      else m_state (conn s) = kConnected /\ SysShutdown ∉ calls (conn s).
Proof.
  intros Hst Hcan Hfit Hrun Hnew Hsock Hprog Hline Hcr Hhs Hlen request Hh response read.
  destruct (serve_all_ok same_loop auto_close cb memory bound bound_request bound_bad bound_int l _ _ (started_ok _ c0 Hst) Hcan ltac:(done) Hfit)
    as [(c' & Hrun' & Hok)|(? & ? & ? & ? & _ & _ & _ & E)]; [|congruence]. rewrite Hrun in Hrun'. apply Ok_inj in Hrun' as <-.
  assert (kPrePendIndex <= kPrePendIndex + all_serve_reads l * bound) as Hlow.
  { pose proof (zlen_nonneg bad_request). pose proof (all_serve_reads_nonneg l). nia. }
  destruct (opened_on_server wr r p fd _ c Hok Hnew Hlow Hfit) as (i & e & il & id & Hwf & Ho & Hserve).
  destruct (visitor_served same_loop auto_close cb memory bound bound_request bound_bad bound_int e wr r il p fd id N line m t ver hs h
    Hwf Ho Hsock Hprog Hline Hcr Hhs Hlen Hh) as (s1 & n & s2 & Hpos & Hses & Hn & Hsteps & Hwire & Hend).
  destruct (Hserve read s1 Hpos Hses) as [Hcan1 (c1 & Hc1 & Hh1 & Hu1)];
    [repeat (apply Forall_cons; split; [intros ?; discriminate|]); by apply Forall_nil|].
  destruct (rounds_on_server n c1 i p s1 s2 Hh1 Hsteps) as (c2 & Hc2 & (w & s & Hl & Hp & El & _) & Hu2).
  exists i, c1, n, c2. split_and!; [done.. | by etrans |]. exists s.
  pose proof (f_equal (fun x => calls (conn x)) El) as Ecalls. pose proof (f_equal (fun x => m_state (conn x)) El) as Est.
  simpl in Ecalls, Est. rewrite Ecalls, Est. split_and!; [by unfold session_at; rewrite Hl | done | done].
Qed.

(** C15. A closed connection leaves the server.  After any run of the server, with
    any connections in its loops, a connection that is closed is removed by the
    server's loop (if it was not), runs the functors that are due and goes with
    its last reference, without a fault: its descriptor and its channel are
    then in no entry of its poller, it is not in the table of connections, and
    no other connection has been touched. *)
Theorem server_drains l c0 c i w p s :
  started same_loop c0 -> Can_serve_all l c0 -> kPrePendIndex + all_serve_reads l * bound <= INT_MAX -> Serve_all l c0 = Ok c ->
  loops c !! i = Some w -> sessions w !! p = Some s -> m_state (conn s) = kDisconnected ->
  let rest := map (on_server i p) (finish s) ++ [InLoop i (Release p)] in
  Can_serve_all rest c /\
  exists c', Serve_all rest c = Ok c' /\ undisturbed i p c c' /\ session_at c' i p = None /\
    (forall fd, m_connections c' !! fd <> Some (i, p)) /\
    exists w', loops c' !! i = Some w' /\ Epoll.channels (shared w') !! p = None /\
      Epoll.m_channels (shared w') !! m_conn_fd (conn s) = None.
Proof.
  intros Hst Hcan Hfit Hrun Hi Hp Hcl rest. set (room := kPrePendIndex + all_serve_reads l * bound) in *.
  destruct (serve_all_ok same_loop auto_close cb memory bound bound_request bound_bad bound_int l _ _ (started_ok _ c0 Hst) Hcan ltac:(done) Hfit)
    as [(c1 & Hrun' & Hok)|(? & ? & ? & ? & _ & _ & _ & E)]; [|congruence]. rewrite Hrun in Hrun'. apply Ok_inj in Hrun' as <-.
  fold room in Hok. assert (kPrePendIndex <= room) as Hlow.
  { pose proof (zlen_nonneg bad_request). pose proof (all_serve_reads_nonneg l). unfold room. nia. }
  destruct (ok_session _ _ _ (ok_reactors _ _ _ Hok _ _ Hi) _ _ Hp) as [Hpc Hsok]. set (s0 := attach (shared w) s) in *.
  destruct (finish_ok same_loop auto_close cb memory bound bound_request bound_bad bound_int room s0 Hsok Hcl)
    as [Hpos (s' & e & Hses & _ & Hfol & Hnil & Hrem & Hst')].
  assert (houses c i p s0) as Hh by (by exists w, s).
  destruct (run_on_server (finish s) c i p s0 s' Hh Hpos (finish_no_others s) Hses)
    as [Hcan1 (c1 & Hc1 & (w1 & t & Hl1 & Hp1 & El & _) & Hu1)].
  destruct (serve_all_ok same_loop auto_close cb memory bound bound_request bound_bad bound_int (map (on_server i p) (finish s)) room c Hok Hcan1 Hlow)
    as [(c2 & Hc2 & Hok1)|(? & ? & ? & ? & _ & _ & _ & E)]; [rewrite finish_reads; lia | | congruence].
  rewrite Hc1 in Hc2. apply Ok_inj in Hc2 as <-. rewrite finish_reads, Z.mul_0_l, Z.add_0_r in Hok1.
  pose proof (f_equal (fun x => m_state (conn x)) El) as Est. pose proof (f_equal removed El) as Erem.
  pose proof (f_equal (fun x => functors (conn x)) El) as Ef. pose proof (f_equal (fun x => m_conn_fd (conn x)) El) as Efd.
  simpl in Est, Erem, Ef, Efd.
  destruct (release_on_server i p room c1 w1 t Hok1 Hlow Hfit Hl1 Hp1) as [Hcan2 (c2 & Hc2 & Hok2 & Hu2 & Hnone & w2 & Hl2 & Hch & Hmap)];
    [congruence..|].
  split; [by apply (can_serve_all_app _ _ c c1); [..|split]|]. exists c2. split_and!.
  - unfold rest. rewrite serve_all_app, Hc1. cbn [mbind res_bind serve_all]. by rewrite Hc2.
  - by etrans.
  - done.
  - intros fd E. apply (table_exact _ _ (ok_table _ _ _ Hok2)) in E. unfold entry in E. unfold session_at in Hnone.
    rewrite Hl2 in Hnone, E. simpl in Hnone. by rewrite Hnone in E.
  - exists w2. split_and!; [done | done|]. rewrite Efd in Hmap. rewrite <- Hmap. f_equal. by rewrite (follows_fd _ _ Hfol).
Qed.

End WithKernel.

(** ** Witnesses *)

(** After the visits of Cluster.v, one of whose clients is still there, a third
    client comes. *)
Lemma server_serves_witness :
  let request := Parser.set_headers hello_headers
             (setVersion kHttp11 (set_target (Target (bs "/hello") None)
               (setMethod (method_name kGet) Request.new))) in
  let response := resCallback request (Response.new (wants_close request (bs "Keep-Alive"))) in
  let read := [Reported EPOLLIN; Dispatched (ReadvOk hello_input)] in
  exists i c1 n c2,
    let first := if bool_decide (i = LoopPool.m_base_loop (m_loop_thread_pool after_clients)) then [] else [Established] in
    let arrival := NewConnection two_bytes ticking 2%positive 9 :: map (on_server i 2%positive) (first ++ read) in
    Can_all arrival after_clients /\ Clust.Serve_all arrival after_clients = Ok c1 /\
    (n <= 0 + length (Response.serialize response))%nat /\
    nsteps (server_round false true resCallback (fun _ _ => []) i 2%positive) n c1 c2 /\ undisturbed i 2%positive after_clients c2 /\
    exists s, session_at c2 i 2%positive = Some s /\ wire_of (calls (conn s)) = Response.serialize response /\
      if Response.closeConnection response then
        m_state (conn s) = kDisconnecting /\ exists pre, calls (conn s) = pre ++ [SysShutdown] /\ SysShutdown ∉ pre
      else m_state (conn s) = kConnected /\ SysShutdown ∉ calls (conn s).
Proof.
  apply (server_serves false true resCallback (fun _ _ => []) kResponseMax resCallback_bound
           ltac:(by vm_compute) ltac:(by vm_compute) two_clients two_loops after_clients two_bytes ticking 2%positive 9 0
           (bs "GET /hello HTTP/1.1") kGet (Target (bs "/hello") None) kHttp11 hello_headers (bs "Keep-Alive")).
  - apply two_loops_started.
  - apply two_clients_can.
  - by vm_compute.
  - apply served_ok. by vm_compute.
  - eapply (can_new 2%positive 9 after_clients 1%nat _ (loop_at after_clients 1));
      [by vm_compute | apply loop_at_ok; by vm_compute | by vm_compute..].
  - intros k len Hlen. simpl. lia.
  - intros k len _ Hlen. simpl. lia.
  - apply hello_line.
  - apply (bool_decide_unpack _). by vm_compute.
  - apply hello_headers_ok.
  - by vm_compute.
  - reflexivity.
Defined.

(** The visits of Cluster.v, up to the close of the first client. *)
Definition until_close : list (@server_action table) := take 8 two_clients.

Lemma until_close_can : Can_all until_close two_loops.
Proof. unfold until_close, two_clients. cbn [take]. new_connection 1%nat. new_connection 2%nat. do 6 in_loop. done. Qed.

Definition when_closed : Cluster := served (Clust.Serve_all until_close two_loops).

Abbreviation Closed := (here (loop_at when_closed 1) 1%positive).

Lemma server_drains_witness :
  let rest := map (on_server 1 1%positive) (finish Closed) ++ [InLoop 1 (Release 1%positive)] in
  Can_all rest when_closed /\
  exists c', Clust.Serve_all rest when_closed = Ok c' /\ undisturbed 1 1%positive when_closed c' /\
    session_at c' 1 1%positive = None /\
    (forall fd, m_connections c' !! fd <> Some (1%nat, 1%positive)) /\
    exists w', loops c' !! 1%nat = Some w' /\ Epoll.channels (shared w') !! 1%positive = None /\
      Epoll.m_channels (shared w') !! m_conn_fd (conn Closed) = None.
Proof.
  apply (server_drains false true resCallback (fun _ _ => []) kResponseMax resCallback_bound
           ltac:(by vm_compute) ltac:(by vm_compute) until_close two_loops when_closed 1%nat (loop_at when_closed 1)).
  - apply two_loops_started.
  - apply until_close_can.
  - by vm_compute.
  - apply served_ok. by vm_compute.
  - apply loop_at_ok. by vm_compute.
  - apply here_ok. by vm_compute.
  - by vm_compute.
Defined.

End Service.
