(* ===== verification/IdleTimers.v ===== *)
(** * IdleTimers: the idle checks of the server's connections

    [HttpServer] watches for idle connections with one-shot timers of the
    server's loop: [onConnection] sets the first one, in whatever loop the
    connection lives, and [handleIdleConnection] sets the next one as long as it
    finds the connection alive and not idle.  This file puts the timer queue of
    RBTreeTimer.v and the server of Cluster.v together: the timers of the queue
    carry the checks, and a check is the event [Idle] of its connection.

    The timerfd's channel is registered when the server starts, since main()
    sets its own timer first (Startup.v), so the queue no longer changes the
    poller. *)

From Stdlib Require Import ZArith Lia Ascii String Sorted.
From stdpp Require Import options.
From S2P Require Import Prelude CStd Buffer HttpRequest HttpRequestParser HttpResponse Channel Epoller Timestamp RBTreeTimer TcpConnection HttpServer TcpSafety Session Reactor LoopThreadPool Cluster.

#[local] Set Default Proof Using "Type*".

Module IdleWatch.
Import Tcp Server Safe Life React Clust.

(** A connection object, by its loop and the address of its channel. *)
Abbreviation conn_ref := (loop * chan_ptr)%type.

(** The callbacks of the queue's timers: [timerEvent] of main.cpp, and the
    bound [handleIdleConnection].  The first bind of a connection holds the
    shared pointer, the later ones a weak one. *)
Inductive timer_callback :=
| TimerEvent
| CheckIdle (id : conn_ref) (shared_ptr : bool).

Section WithKernel.
Context {K T : Type} `{!EpollKernel K} `{!TimerfdKernel T}.
Context (same_loop auto_close : bool).
Context (cb : HttpRequest.Request.HttpRequest -> Response.HttpResponse -> Response.HttpResponse).
Context (memory : Z -> Z -> bytes).
(** The readings of the queue's clock that are considered. *)
Context (horizon : nat).

Abbreviation Server := (@Cluster K).
Abbreviation Queue := (Timers.RBTreeTimer K T timer_callback).
Abbreviation Timer := (Timers.Timer timer_callback).
Abbreviation Serve := (serve same_loop auto_close cb memory).

Definition session_at (c : Server) (id : conn_ref) : option (@Session K) :=
  w ← loops c !! fst id; attach (shared w) <$> sessions w !! snd id.

(** A check runs, in the server's loop: the weak pointer is locked, and the
    connection asked; the delay of the next check is the result. *)
Definition check_idle (id : conn_ref) (c : Server) : res (Server * option double) :=
  match session_at c id with
  | None => Ok (c, None)
  | Some s =>
      '(_, next) ← handleIdleConnection true (set_in_loop same_loop (conn s));
      c ← act_in same_loop auto_close cb memory (fst id) (At (snd id) Idle) c;
      Ok (c, next)
  end.

Definition run_callback (f : timer_callback) (c : Server) (q : Queue) : res (Server * Queue) :=
  match f with
  | TimerEvent => Ok (c, q)
  | CheckIdle id _ =>
      '(c, next) ← check_idle id c;
      match next with
      | None => Ok (c, q)
      | Some second => q ← Timers.runAfter true second (CheckIdle id false) q; Ok (c, q)
      end
  end.

(** The connection on which an action runs [onConnection] for the first time,
    with [connectionEstablished]. *)
Definition opens (a : @server_action K) (c : Server) : option conn_ref :=
  match a with
  | InLoop l (At p Established) => Some (l, p)
  | InLoop _ _ => None
  | NewConnection _ _ p _ =>
      match LoopPool.getNextLoop (m_loop_thread_pool c) with
      | Ok (l, pool) => if bool_decide (l = LoopPool.m_base_loop pool) then Some (l, p) else None
      | Fault _ => None
      end
  end.

Record IdleServer := mkServer { server : Server; timers : Queue }.

Inductive idle_event :=
| Serves (a : @server_action K)    (* whatever the server and its loops do but the checks *)
| Inserts                          (* the server's loop runs the next queued addTimerInLoop *)
| Wakes (read_ok : bool).          (* the timerfd is readable: RBTreeTimer::handleRead *)

Definition set_queued (l : list Timer) (q : Queue) : Queue :=
  Timers.mkQueue (Timers.m_timer q) (Timers.m_timer_channel q) (Timers.timerfd q) (Timers.poller q)
    (Timers.readings q) (Timers.clock q) l (Timers.errors q) (Timers.fired q).

(** The functor at the head of those queued by [addTimer]. *)
Definition insert_queued (q : Queue) : res Queue :=
  match Timers.queued q with
  | [] => Ok q
  | t :: l => Timers.addTimerInLoop t (set_queued l q)
  end.

(** [onConnection] sets the first check of a connection. *)
Definition set_first_check (opened : option conn_ref) (c : Server) (q : Queue) : res Queue :=
  match opened with
  | Some id =>
      if auto_close
      then Timers.runAfter (bool_decide (fst id = LoopPool.m_base_loop (m_loop_thread_pool c)))
             kIdleConnectionTimeOuts (CheckIdle id true) q
      else Ok q
  | None => Ok q
  end.

Definition idle_step (e : idle_event) (w : IdleServer) : res IdleServer :=
  match e with
  | Serves a =>
      c ← Serve a (server w);
      q ← set_first_check (opens a (server w)) c (timers w);
      Ok (mkServer c q)
  | Inserts => q ← insert_queued (timers w); Ok (mkServer (server w) q)
  | Wakes read_ok =>
      '(c, q) ← Timers.handleRead run_callback read_ok (server w) (timers w);
      Ok (mkServer c q)
  end.

Fixpoint idle_run (es : list idle_event) (w : IdleServer) : res IdleServer :=
  match es with
  | [] => Ok w
  | e :: es' => w ← idle_step e w; idle_run es' w
  end.

(** All timers, in the set or on their way to it. *)
Definition all_timers (q : Queue) : list Timer := Timers.m_timer q ++ Timers.queued q.

Definition checks (l : list Timer) : list timer_callback := Timers.m_callback <$> l.

(** The readings of the clock an event takes at most: two for every timer it
    may set, and two more in a wake-up. *)
Definition clock_reads (e : idle_event) (w : IdleServer) : nat :=
  match e with
  | Serves _ => 2
  | Inserts => 1
  | Wakes _ => 2 + 2 * length (Timers.m_timer (timers w))
  end.

(** When an event can happen.  The checks come from the timers only; a
    connection is released when no timer holds it; and a connection is named
    by the address of its channel, which is not given to another one while a
    timer still names the first.  The clock stays before the horizon. *)
Definition can_happen (e : idle_event) (w : IdleServer) : Prop :=
  (Timers.clock (timers w) + clock_reads e w <= horizon)%nat /\
  match e with
  | Serves a =>
      can_serve same_loop a (server w) /\
      match a with
      | NewConnection _ _ p _ => forall l b, CheckIdle (l, p) b ∉ checks (all_timers (timers w))
      | InLoop l (At _ Idle) => False
      | InLoop l (Release p) => CheckIdle (l, p) true ∉ checks (all_timers (timers w))
      | _ => True
      end
  | Inserts | Wakes _ => True
  end.

Fixpoint may_happen (es : list idle_event) (w : IdleServer) : Prop :=
  match es with
  | [] => True
  | e :: es' => can_happen e w /\ forall w', idle_step e w = Ok w' -> may_happen es' w'
  end.

Definition event_reads (e : idle_event) : Z := match e with Serves a => serve_reads a | _ => 0 end.

Fixpoint all_event_reads (es : list idle_event) : Z :=
  match es with [] => 0 | e :: es' => event_reads e + all_event_reads es' end.

(** ** The queue *)

Definition eight : Z := 8000000000.

Definition due (t : Timer) : Z := Ts.m_time_point (Timers.m_expiration t).

(** The clock of the queue, up to the horizon: strictly increasing, and eight
    seconds can be added to it. *)
Record clock_ok (r : nat -> Ts.Timestamp) : Prop := {
  clock_strict : forall i j, (i < j <= horizon)%nat -> Ts.m_time_point (r i) < Ts.m_time_point (r j);
  clock_time : forall k, (k <= horizon)%nat -> time_ok (r k)
}.

(** One-shot timers at different times, none further away than eight seconds
    from the next reading of the clock. *)
Record timers_ok (q : Queue) : Prop := {
  t_clock : clock_ok (Timers.readings q);
  t_within : (Timers.clock q <= horizon)%nat;
  t_ordered : Timers.ordered (Timers.m_timer q);
  t_channel : exists ch, Epoll.channels (Timers.poller q) !! Timers.m_timer_channel q = Some ch /\
    Chan.isRegistered ch = true;
  t_single : forall t, t ∈ all_timers q -> Timers.m_repeat t = false;
  t_distinct : NoDup (due <$> all_timers q);
  t_past : forall t, t ∈ all_timers q ->
    due t < Ts.m_time_point (Timers.readings q (Timers.clock q)) + eight
}.

(** ** The invariant *)

(** The checks of [l] are of connections that are established, and every
    connection that is connected has one. *)
Record watched_by (c : Server) (l : list timer_callback) : Prop := {
  w_named : forall id b s, CheckIdle id b ∈ l -> session_at c id = Some s -> m_state (conn s) <> kConnecting;
  w_watched : forall id s, session_at c id = Some s -> m_state (conn s) = kConnected ->
    exists b, CheckIdle id b ∈ l
}.

Record idle_ok (room : Z) (w : IdleServer) : Prop := {
  i_server : cluster_ok same_loop room (server w);
  i_timers : timers_ok (timers w);
  i_watched : watched_by (server w) (checks (all_timers (timers w)))
}.

(** ** Lemmas: the queue *)

Lemma same_due (a b : Timer) : Timers.same_time a b -> due a = due b.
Proof. unfold Timers.same_time, due. by intros ->. Qed.

Lemma resetTimerFd_clock t (q : Queue) :
  Timers.queued (Timers.resetTimerFd t q) = Timers.queued q /\
  Timers.clock (Timers.resetTimerFd t q) = S (Timers.clock q).
Proof. unfold Timers.resetTimerFd, Timers.now. simpl. by destruct (timerfd_settime _ _). Qed.

Lemma clock_later r i j :
  clock_ok r -> (i <= j <= horizon)%nat -> Ts.m_time_point (r i) <= Ts.m_time_point (r j).
Proof.
  intros Hc Hle. destruct (decide (i = j)) as [->|]; [lia|].
  apply Z.lt_le_incl, Hc. lia.
Qed.

(** Inserting a timer whose time no other has. *)
Lemma addTimerInLoop_adds t (q : Queue) ch :
  Epoll.channels (Timers.poller q) !! Timers.m_timer_channel q = Some ch -> Chan.isRegistered ch = true ->
  Timers.ordered (Timers.m_timer q) -> (due t ∉ due <$> Timers.m_timer q) ->
  exists q', Timers.addTimerInLoop t q = Ok q' /\
    Timers.m_timer q' ≡ₚ t :: Timers.m_timer q /\ Timers.ordered (Timers.m_timer q') /\
    Timers.queued q' = Timers.queued q /\ Timers.poller q' = Timers.poller q /\
    Timers.m_timer_channel q' = Timers.m_timer_channel q /\ Timers.readings q' = Timers.readings q /\
    (Timers.clock q <= Timers.clock q' <= S (Timers.clock q))%nat.
Proof.
  intros Hch Hreg Ho Hnew. unfold Timers.addTimerInLoop, Timers.enableTimerfd.
  rewrite (Epoll.deref_Ok _ _ _ Hch). cbn [mbind res_bind]. rewrite Hreg. cbn [negb mbind res_bind].
  assert (Timers.set_insert t (Timers.m_timer q) ≡ₚ t :: Timers.m_timer q) as Hperm.
  { destruct (Timers.set_insert_cases t _ Ho) as [(x & Hx & Hs & _)|[_ H]]; [|done].
    destruct Hnew. rewrite (same_due _ _ Hs). by apply list_elem_of_fmap_2. }
  pose proof (Timers.set_insert_ordered t _ Ho) as Ho'.
  unfold Timers.insertTimer. set (q1 := Timers.set_timers _ q). set (first := match _ with [] => _ | _ => _ end).
  destruct first.
  - destruct (Timers.resetTimerFd_frame t q1) as (Em & _ & Er & Ep & Ec).
    destruct (resetTimerFd_clock t q1) as [Eq Ek].
    exists (Timers.resetTimerFd t q1). rewrite Em, Er, Ep, Ec, Eq, Ek. split_and!; try done. simpl. lia.
  - exists q1. split_and!; try done. simpl. lia.
Qed.

(** A timer more, as [runAfter] makes it, keeps the queue. *)
Lemma timers_ok_add t (q q' : Queue) :
  timers_ok q -> Timers.readings q' = Timers.readings q -> (Timers.clock q < Timers.clock q' <= horizon)%nat ->
  Timers.poller q' = Timers.poller q -> Timers.m_timer_channel q' = Timers.m_timer_channel q ->
  Timers.ordered (Timers.m_timer q') -> Timers.m_repeat t = false ->
  due t = Ts.m_time_point (Timers.readings q (Timers.clock q)) + eight ->
  all_timers q' ≡ₚ t :: all_timers q -> timers_ok q'.
Proof.
  intros [Hc _ _ Hch Hs Hd Hp] Er Hk Ep Ech Ho Hrep Hdue Hperm.
  pose proof (clock_strict _ Hc _ _ Hk) as Hlt.
  split; rewrite ?Er, ?Ep, ?Ech; try done; [lia | ..].
  - intros x Hx. rewrite Hperm in Hx. apply elem_of_cons in Hx as [->|Hx]; auto.
  - rewrite Hperm. simpl. apply NoDup_cons. split; [|done].
    intros (x & Ex & Hx)%list_elem_of_fmap. specialize (Hp _ Hx). lia.
  - intros x Hx. rewrite Hperm in Hx. apply elem_of_cons in Hx as [->|Hx]; [lia|].
    specialize (Hp _ Hx). lia.
Qed.

Lemma runAfter_adds in_base f (q : Queue) :
  timers_ok q -> (Timers.clock q + 2 <= horizon)%nat ->
  exists q' t, Timers.runAfter in_base kIdleConnectionTimeOuts f q = Ok q' /\ Timers.m_callback t = f /\
    all_timers q' ≡ₚ t :: all_timers q /\ timers_ok q' /\ (Timers.clock q' <= Timers.clock q + 2)%nat.
Proof.
  intros Hq Hfit. pose proof Hq as [Hc Hin Ho (ch & Hch & Hreg) _ _ Hp].
  unfold Timers.runAfter, kIdleConnectionTimeOuts, Timers.now.
  rewrite (Ts.addTime_eight _ (clock_time _ Hc _ Hin)). cbn [mbind res_bind].
  set (e := Ts.mkTimestamp _). set (q1 := Timers.mkQueue _ _ _ _ _ _ _ _ _).
  unfold Timers.addTimer. change (Timers.newTimer f e (double_of_Z 0)) with (Timers.mkTimer f e (double_of_Z 0) false).
  set (t := Timers.mkTimer f e (double_of_Z 0) false).
  assert (due t = Ts.m_time_point (Timers.readings q (Timers.clock q)) + eight) as Hdue by done.
  destruct in_base.
  - destruct (addTimerInLoop_adds t q1 ch Hch Hreg Ho) as (q' & Hrun & Hperm & Ho' & Eq & Ep & Ech & Er & Hk).
    { intros (x & Ex & Hx)%list_elem_of_fmap.
      assert (x ∈ all_timers q) as Hx' by (apply elem_of_app; by left). specialize (Hp _ Hx'). lia. }
    assert (all_timers q' ≡ₚ t :: all_timers q) as Hall by (unfold all_timers; rewrite Hperm, Eq; done).
    simpl in Hk. exists q', t. split_and!; try done; [|lia]. apply (timers_ok_add t q); try done. lia.
  - set (q' := Timers.mkQueue _ _ _ _ _ _ _ _ _). exists q', t.
    assert (all_timers q' ≡ₚ t :: all_timers q) as Hall.
    { unfold all_timers. simpl. rewrite app_assoc. symmetry. apply Permutation_cons_append. }
    split_and!; try done; [|simpl; lia]. apply (timers_ok_add t q); try done. simpl. lia.
Qed.

Lemma insert_queued_ok (q : Queue) :
  timers_ok q -> (Timers.clock q + 1 <= horizon)%nat ->
  exists q', insert_queued q = Ok q' /\ all_timers q' ≡ₚ all_timers q /\ timers_ok q'.
Proof.
  intros Hq Hfit. pose proof Hq as [Hc Hin Ho (ch & Hch & Hreg) Hs Hd Hp]. unfold insert_queued.
  destruct (Timers.queued q) as [|t l] eqn:Eq; [by exists q|].
  destruct (addTimerInLoop_adds t (set_queued l q) ch Hch Hreg Ho)
    as (q' & Hrun & Hperm & Ho' & Eq' & Ep & Ech & Er & Hk).
  { unfold all_timers in Hd. rewrite Eq, fmap_app in Hd. apply NoDup_app in Hd as (_ & Hd & _).
    intros Hd'. apply (Hd _ Hd'). by left. }
  assert (all_timers q' ≡ₚ all_timers q) as Hall.
  { unfold all_timers. rewrite Hperm, Eq', Eq. simpl. apply Permutation_middle. }
  exists q'. split_and!; try done. simpl in *. split; rewrite ?Er, ?Ep, ?Ech; try done.
  - lia.
  - by exists ch.
  - intros x. rewrite Hall. apply Hs.
  - by rewrite Hall.
  - intros x. rewrite Hall. intros Hx. specialize (Hp _ Hx).
    pose proof (clock_later (Timers.readings q) (Timers.clock q) (Timers.clock q') Hc ltac:(lia)). lia.
Qed.

(** ** Lemmas: the events of a connection *)

Abbreviation Step := (step same_loop auto_close cb memory).

(** [connectionEstablished] connects. *)
Lemma established_connected (s s' : @Session K) : Step Established s = Ok s' -> m_state (conn s') = kConnected.
Proof.
  cbn [step]. intros H. bind_inv H. apply Ok_inj in H as <-. simpl.
  unfold connectionEstablished in Hx. bind_inv Hx. bind_inv Hx. bind_inv Hx.
  unfold on_channel in Hx2. bind_inv Hx2. apply Ok_inj in Hx2 as <-.
  unfold connection_callback in Hx. apply Ok_inj in Hx as <-.
  unfold onConnection. by case_match.
Qed.

(** Nothing else does. *)
Lemma connecting_stays e0 room ev (s s' : @Session K) :
  session_ok same_loop e0 room s -> enabled ev s -> Step ev s = Ok s' -> ev <> Established ->
  m_state (conn s) = kConnecting -> m_state (conn s') = kConnecting.
Proof.
  intros Hok Hen H Hne Hst. pose proof (ok_phase _ _ _ _ Hok) as Hph. unfold phase_ok in Hph. rewrite Hst in Hph.
  destruct Hph as (Hnew & Hf & _). pose proof (new_unwatched _ _ Hnew) as Hun.
  destruct ev as [|rev|rv| | | | |e]; cbn [step] in H.
  - done.
  - bind_inv H. apply Ok_inj in H as <-. unfold report in Hx. bind_inv Hx. destruct x0 as [? e].
    by apply Ok_inj in Hx as <-.
  - destruct Hen as [(ev & He) _]. congruence.
  - rewrite Hf in H. by apply Ok_inj in H as <-.
  - destruct Hen. congruence.
  - by destruct Hen.
  - by destruct Hen.
  - by apply Ok_inj in H as <-.
Qed.

Lemma shutDown_unconnected (c c' : TcpConnection K) : shutDown c = Ok c' -> m_state c' <> kConnected.
Proof.
  unfold shutDown. case_decide as E; [|by intros [= <-]]. intros H.
  destruct (in_loop (set_state kDisconnecting c)); [|by apply Ok_inj in H as <-].
  unfold shutDownInLoop in H. bind_inv H. bind_inv H. destruct (negb _); by apply Ok_inj in H as <-.
Qed.

(** A check that asks for no other leaves a connection that is not connected. *)
Lemma checked_unconnected (c c' : TcpConnection K) :
  handleIdleConnection true c = Ok (c', None) -> m_state c' <> kConnected.
Proof.
  unfold handleIdleConnection. intros H. bind_inv H. unfold now in H. bind_inv H.
  destruct (Ts.lt _ _); [|done]. bind_inv H. apply Ok_inj in H as [= <-].
  by eapply shutDown_unconnected.
Qed.

(** ** Lemmas: the connections of the server *)

Context (bound : Z).
Hypothesis bound_request : forall r close, zlen (Response.serialize (cb r (Response.new close))) <= bound.
Hypothesis bound_bad : zlen bad_request <= bound.
Hypothesis bound_int : bound + 2 * kPrePendIndex <= INT_MAX.

Definition state_at (c : Server) (id : conn_ref) : option ConnectionState :=
  (fun s => m_state (conn s)) <$> session_at c id.

Lemma state_at_loop c l w p :
  loops c !! l = Some w -> state_at c (l, p) = (fun s => m_state (conn s)) <$> sessions w !! p.
Proof. intros Hl. unfold state_at, session_at. simpl. rewrite Hl. simpl. by destruct (sessions w !! p). Qed.

Lemma state_at_put c l w' pool id m l' p :
  state_at (mkCluster pool id m (<[l := w']> (loops c))) (l', p) =
  if decide (l' = l) then (fun s => m_state (conn s)) <$> sessions w' !! p else state_at c (l', p).
Proof.
  unfold state_at, session_at. simpl. case_decide as E.
  - rewrite E, lookup_insert_eq. simpl. by destruct (sessions w' !! p).
  - by rewrite lookup_insert_ne.
Qed.

(** How the state of the connection [id] may change. *)
Definition moves (opened : option conn_ref) (id : conn_ref) (st st' : ConnectionState) : Prop :=
  rtc advance st st' /\ (st = kConnecting -> st' = kConnecting \/ opened = Some id /\ st' = kConnected).

Lemma moves_same opened id st : moves opened id st st.
Proof. split; [done | auto]. Qed.

Lemma moves_connected opened id st :
  moves opened id st kConnected -> st = kConnected \/ opened = Some id.
Proof.
  intros [Hadv Hc]. destruct st; [|by left|exfalso..].
  - destruct (Hc eq_refl) as [?|[? _]]; [done | by right].
  - inversion Hadv as [|? y ? Hy Hrest]; subst. inversion Hy; subst.
    by apply advance_end in Hrest.
  - by apply advance_end in Hadv.
Qed.

Lemma moves_not_connecting opened id st st' : moves opened id st st' -> st <> kConnecting -> st' <> kConnecting.
Proof.
  intros [Hadv _] Hne ->. apply rtc_inv_r in Hadv as [->|(y & _ & Hy)]; [done | inversion Hy].
Qed.

(** An event at a connection, in its loop. *)
Lemma at_moves room c l p ev w w' s :
  cluster_ok same_loop room c -> loops c !! l = Some w -> can_act (At p ev) w ->
  kPrePendIndex <= room -> room + reads ev * bound <= INT_MAX ->
  act same_loop auto_close cb memory (At p ev) w = Ok w' -> sessions w !! p = Some s ->
  exists s', sessions w' = <[p := s']> (sessions w) /\
    Step ev (attach (shared w) s) = Ok s' /\
    moves (opens (InLoop l (At p ev)) c) (l, p) (m_state (conn s)) (m_state (conn s')) /\
    (ev = Established -> m_state (conn s') = kConnected).
Proof.
  intros Hok Hl Hcan Hlow Hfit Hrun Hp. pose proof (ok_reactors _ _ _ Hok _ _ Hl) as Hw.
  destruct (at_effect same_loop auto_close cb memory bound bound_request bound_bad bound_int p ev room w w' Hw Hcan Hlow Hfit Hrun)
    as (s0 & s' & Hp0 & Hs' & _ & Hadv & _). rewrite Hp in Hp0. injection Hp0 as <-.
  cbn [act] in Hrun. rewrite Hp in Hrun. bind_inv Hrun. apply Ok_inj in Hrun as Ew.
  assert (x = s') as ->.
  { rewrite <- Ew in Hs'. simpl in Hs'. apply (f_equal (lookup p)) in Hs'. rewrite !lookup_insert_eq in Hs'. congruence. }
  exists s'. split; [done|]. split; [done|]. split; [|by intros ->; eapply established_connected].
  split; [done|]. intros Hst. destruct Hcan as (_ & s1 & Hp1 & Hen). rewrite Hp in Hp1. injection Hp1 as <-.
  destruct (ok_session _ _ _ Hw _ _ Hp) as [_ Hsok].
  assert (ev = Established \/ ev <> Established) as [->|Hne] by (destruct ev; auto).
  - right. split; [done|]. by eapply established_connected.
  - left. by eapply (connecting_stays _ _ ev).
Qed.

(** An action of a loop, as its connections see it. *)
Lemma act_in_moves room c c' l a :
  cluster_ok same_loop room c -> can_serve same_loop (InLoop l a) c -> kPrePendIndex <= room ->
  room + act_reads a * bound <= INT_MAX -> act_in same_loop auto_close cb memory l a c = Ok c' ->
  (forall id st', state_at c' id = Some st' ->
     exists st, state_at c id = Some st /\ moves (opens (InLoop l a) c) id st st') /\
  (forall id, opens (InLoop l a) c = Some id -> state_at c' id = Some kConnected).
Proof.
  intros Hok (w & Hl & Hcan & Hna) Hlow Hfit Hrun. unfold act_in in Hrun. rewrite Hl in Hrun. bind_inv Hrun.
  apply Ok_inj in Hrun as <-. rename x into w', Hx into Hw'.
  assert ((forall p s', sessions w' !! p = Some s' -> sessions w !! p = Some s') ->
    (forall id st', state_at (mkCluster (m_loop_thread_pool c) (m_next_connection_id c) (erase same_loop a w w' (m_connections c)) (<[l := w']> (loops c))) id = Some st' ->
     exists st, state_at c id = Some st /\ moves (opens (InLoop l a) c) id st st')) as Hquiet.
  { intros Hs [l' p] st'. rewrite state_at_put. case_decide as E; [subst l'|]; intros H;
      exists st'; (split; [|apply moves_same]); [|done].
    rewrite (state_at_loop _ _ _ _ Hl). destruct (sessions w' !! p) as [s|] eqn:Ep; [|done]. by rewrite (Hs _ _ Ep). }
  destruct a as [|evs|p ev|p|e]; try done; cbn [act] in Hw'.
  - split; [apply Hquiet | done]. bind_inv Hw'. destruct x as [? e]. by apply Ok_inj in Hw' as <-.
  - pose proof Hcan as (_ & s & Hp & _). 
    destruct (at_moves room c l p ev w w' s Hok Hl Hcan Hlow Hfit Hw' Hp) as (s' & Hs' & _ & Hmv & Hest).
    split.
    + intros [l' q] st'. rewrite state_at_put. case_decide as E; [subst l'|by exists st'; split; [|apply moves_same]].
      rewrite Hs', (state_at_loop _ _ _ _ Hl). intros H. destruct (decide (q = p)) as [->|Hqp].
      * rewrite lookup_insert_eq in H. injection H as <-. rewrite Hp. eauto.
      * rewrite lookup_insert_ne in H by done. exists st'. split; [done | apply moves_same].
    + intros id. destruct ev; try done. intros [= <-]. rewrite state_at_put, decide_True by done.
      rewrite Hs', lookup_insert_eq. simpl. by rewrite Hest.
  - split; [apply Hquiet | done]. destruct (sessions w !! p); [|done]. bind_inv Hw'. apply Ok_inj in Hw' as <-.
    intros q s'. simpl. by intros [_ ?]%lookup_delete_Some.
  - split; [apply Hquiet | done]. by apply Ok_inj in Hw' as <-.
Qed.

(** Any action, as the connections see it; [fresh]: the one it makes. *)
Definition fresh_conn (a : @server_action K) (id : conn_ref) : Prop :=
  match a with NewConnection _ _ p _ => id.2 = p | _ => False end.

Lemma serve_moves room c c' a :
  cluster_ok same_loop room c -> can_serve same_loop a c -> kPrePendIndex <= room ->
  room + serve_reads a * bound <= INT_MAX -> Serve a c = Ok c' ->
  (forall id st', state_at c' id = Some st' ->
     (exists st, state_at c id = Some st /\ moves (opens a c) id st st') \/
     (fresh_conn a id /\ (st' = kConnecting \/ opens a c = Some id /\ st' = kConnected))) /\
  (forall id, opens a c = Some id -> state_at c' id = Some kConnected).
Proof.
  intros Hok Hcan Hlow Hfit Hrun. destruct a as [wr r p fd|l a]; cbn [serve serve_reads] in *.
  2:{ destruct (act_in_moves room c c' l a Hok Hcan Hlow Hfit Hrun) as [H1 H2]. split; [|done].
      intros id st' H. left. auto. }
  unfold handleNewConnection in Hrun. cbn [opens].
  destruct (LoopPool.getNextLoop (m_loop_thread_pool c)) as [[l pool]|] eqn:El; [|done]. cbn [mbind res_bind] in Hrun.
  bind_inv Hrun. bind_inv Hrun. unfold act_in in Hx.
  destruct (loops c !! l) as [w|] eqn:Hl; [|done]. cbn [act mbind res_bind] in Hx. apply Ok_inj in Hx.
  set (s0 := opening _ _ _ _ _ _ _ _) in Hx. set (w1 := mkReactor _ _) in Hx. subst x.
  cbn [m_connections loops m_loop_thread_pool m_next_connection_id] in Hrun.
  set (c1 := mkCluster pool _ (<[fd := (l, p)]> _) _) in Hrun.
  assert (forall id st', state_at c1 id = Some st' ->
    (id <> (l, p) /\ state_at c id = Some st') \/ (id = (l, p) /\ st' = kConnecting)) as Hc1.
  { intros [l' q] st'. unfold c1. rewrite state_at_put. destruct (decide (l' = l)) as [->|E].
    - unfold w1. simpl. destruct (decide (q = p)) as [->|Hqp].
      + rewrite lookup_insert_eq. simpl. intros [= <-]. by right.
      + rewrite lookup_insert_ne by done. rewrite (state_at_loop _ _ _ _ Hl). left. split; [congruence | done].
    - left. split; [congruence | done]. }
  case_bool_decide as Eb.
  - unfold act_in in Hrun. assert (loops c1 !! l = Some w1) as Hl1 by apply lookup_insert_eq.
    rewrite Hl1 in Hrun. apply bind_Ok_inv in Hrun as (w2 & Ha & Hrun). apply Ok_inj in Hrun as <-. cbn [act] in Ha.
    assert (sessions w1 !! p = Some s0) as Hp1 by apply lookup_insert_eq. rewrite Hp1 in Ha.
    apply bind_Ok_inv in Ha as (s1 & Hs1 & Ha). apply Ok_inj in Ha as <-. apply established_connected in Hs1 as Hst.
    assert (forall l' q, state_at (mkCluster (m_loop_thread_pool c1) (m_next_connection_id c1)
       (erase same_loop (At p Established) w1 (mkReactor (poller (conn s1)) (<[p := s1]> (sessions w1))) (m_connections c1))
       (<[l := mkReactor (poller (conn s1)) (<[p := s1]> (sessions w1))]> (loops c1))) (l', q) =
       if decide ((l', q) = (l, p)) then Some kConnected else state_at c1 (l', q)) as Hat.
    { intros l' q. rewrite state_at_put. destruct (decide (l' = l)) as [->|].
      - simpl. destruct (decide (q = p)) as [->|Hqp].
        + rewrite lookup_insert_eq, decide_True by done. simpl. by rewrite Hst.
        + rewrite lookup_insert_ne, decide_False by congruence. by rewrite (state_at_loop _ _ _ _ Hl1).
      - by rewrite decide_False by congruence. }
    split.
    + intros [l' q] st'. rewrite Hat. case_decide as E.
      * intros [= <-]. right. rewrite E. split; [done|]. by right.
      * intros H. left. destruct (Hc1 _ _ H) as [[_ ?]|[? _]]; [|done]. exists st'. split; [done | apply moves_same].
    + intros [l' q] [= <- <-]. rewrite Hat. by rewrite decide_True.
  - apply Ok_inj in Hrun as <-. split; [|done]. intros id st' H. destruct (Hc1 _ _ H) as [[_ ?]|[-> ->]].
    + left. exists st'. split; [done | apply moves_same].
    + right. split; [done | by left].
Qed.

(** ** Lemmas: the checks *)

Lemma session_at_state c id s : session_at c id = Some s -> state_at c id = Some (m_state (conn s)).
Proof. unfold state_at. by intros ->. Qed.

(** [watched_by] speaks of states only. *)
Lemma watched_by_states c l :
  watched_by c l <->
  (forall id b, CheckIdle id b ∈ l -> state_at c id <> Some kConnecting) /\
  (forall id, state_at c id = Some kConnected -> exists b, CheckIdle id b ∈ l).
Proof.
  split.
  - intros [Hn Hw]. split.
    + intros id b Hin H. unfold state_at in H. destruct (session_at c id) as [s|] eqn:E; [|done].
      injection H. by apply (Hn id b).
    + intros id H. unfold state_at in H. destruct (session_at c id) as [s|] eqn:E; [|done].
      injection H as H. by apply (Hw id s).
  - intros [Hn Hw]. split.
    + intros id b s Hin E H. apply (Hn id b Hin). rewrite (session_at_state _ _ _ E). by rewrite H.
    + intros id s E H. apply Hw. rewrite (session_at_state _ _ _ E). by rewrite H.
Qed.

(** A check runs its connection's event, and asks for another one while the
    connection stays connected. *)
Lemma check_idle_ok room c id :
  cluster_ok same_loop room c -> kPrePendIndex <= room -> room <= INT_MAX -> state_at c id <> Some kConnecting ->
  exists c' next, check_idle id c = Ok (c', next) /\ cluster_ok same_loop room c' /\
    (next = None \/ next = Some kIdleConnectionTimeOuts) /\
    (forall id' st', state_at c' id' = Some st' -> exists st, state_at c id' = Some st /\ moves None id' st st') /\
    (next = None -> state_at c' id <> Some kConnected).
Proof.
  intros Hok Hlow Hroom Hst. destruct id as [l p]. unfold check_idle.
  destruct (session_at c (l, p)) as [s|] eqn:Es.
  2:{ exists c, None. split_and!; [done | done | by left | |].
      - intros id' st' H. exists st'. split; [done | apply moves_same].
      - intros _. unfold state_at. by rewrite Es. }
  rewrite (session_at_state _ _ _ Es) in Hst. unfold session_at in Es. cbn [fst snd] in *.
  destruct (loops c !! l) as [w|] eqn:Hl; [|done]. cbn [mbind option_bind] in Es.
  destruct (sessions w !! p) as [s0|] eqn:Hp; [|done]. simpl in Es. injection Es as <-.
  assert (can_serve same_loop (InLoop l (At p Idle)) c) as Hcan.
  { exists w. split; [done|]. split; [|done]. split; [by intros ?|]. exists s0. split; [done|]. simpl in *. congruence. }
  destruct (act_in_ok same_loop auto_close cb memory bound bound_request bound_bad bound_int l (At p Idle) room c Hok Hcan Hlow)
    as [(c' & Hrun & Hok')|(w0 & _ & Hcr)]; [simpl; lia | |
    by destruct Hcr as (? & ? & ? & [= <- <-] & _ & (? & ? & ? & ? & _) & _)].
  simpl in Hok'. rewrite Z.add_0_r in Hok'.
  destruct (act_in_moves room c c' l (At p Idle) Hok Hcan Hlow) as [Hmv _]; [simpl; lia | done |].
  pose proof Hrun as Hrun2. unfold act_in in Hrun2. rewrite Hl in Hrun2. bind_inv Hrun2. apply Ok_inj in Hrun2 as Ec'.
  cbn [act] in Hx. rewrite Hp in Hx. bind_inv Hx. apply Ok_inj in Hx as Ex. cbn [step] in Hx0.
  bind_inv Hx0. destruct x1 as [c1 next]. apply Ok_inj in Hx0 as Ex0. rewrite Hx1. cbn [mbind res_bind]. rewrite Hrun.
  exists c', next. split_and!; [done | done | | exact Hmv |].
  - unfold handleIdleConnection in Hx1. bind_inv Hx1. unfold now in Hx1. bind_inv Hx1.
    destruct (Ts.lt _ _); [bind_inv Hx1|]; apply Ok_inj in Hx1 as [= _ <-]; auto.
  - intros ->. rewrite <- Ec', state_at_put, decide_True by done. rewrite <- Ex. simpl.
    rewrite lookup_insert_eq, <- Ex0. simpl. intros [= E]. by apply (checked_unconnected _ _ Hx1).
Qed.

(** The queue after some of its timers were taken out, or time passed. *)
Lemma timers_ok_less l (q q' : Queue) :
  timers_ok q -> Timers.readings q' = Timers.readings q -> (Timers.clock q <= Timers.clock q' <= horizon)%nat ->
  Timers.poller q' = Timers.poller q -> Timers.m_timer_channel q' = Timers.m_timer_channel q ->
  Timers.ordered (Timers.m_timer q') -> all_timers q ≡ₚ l ++ all_timers q' -> timers_ok q'.
Proof.
  intros [Hc _ _ Hch Hs Hd Hp] Er Hk Ep Ech Ho Hperm.
  pose proof (clock_later _ _ _ Hc Hk) as Hle.
  assert (forall t, t ∈ all_timers q' -> t ∈ all_timers q) as Hin
    by (intros t Ht; rewrite Hperm; apply elem_of_app; by right).
  split; rewrite ?Er, ?Ep, ?Ech; auto; [lia | |].
  - rewrite Hperm, fmap_app in Hd. by apply NoDup_app in Hd as (_ & _ & ?).
  - intros t Ht. specialize (Hp _ (Hin _ Ht)). lia.
Qed.

Lemma watched_move c c' l :
  watched_by c l ->
  (forall id st', state_at c' id = Some st' -> exists st, state_at c id = Some st /\ moves None id st st') ->
  watched_by c' l.
Proof.
  rewrite !watched_by_states. intros [Hn Hw] Hmv. split.
  - intros id b Hin H. destruct (Hmv _ _ H) as (st & Hst & Hm).
    apply (moves_not_connecting _ _ _ _ Hm); [|done]. intros ->. by apply (Hn id b).
  - intros id H. destruct (Hmv _ _ H) as (st & Hst & Hm).
    apply moves_connected in Hm as [->|?]; [auto | done].
Qed.

Lemma watched_incl c l l' :
  watched_by c l -> (forall id b, CheckIdle id b ∈ l <-> CheckIdle id b ∈ l') -> watched_by c l'.
Proof.
  intros [Hn Hw] Hl. split.
  - intros id b s Hin. by apply (Hn id b), Hl.
  - intros id s Hs Hst. destruct (Hw id s Hs Hst) as [b Hb]. exists b. by apply Hl.
Qed.

(** The expired timers run, their checks all return, and no connection is
    forgotten. *)
Lemma run_expired_watch room l : forall c q,
  cluster_ok same_loop room c -> kPrePendIndex <= room -> room <= INT_MAX -> timers_ok q ->
  (Timers.clock q + 2 * length l <= horizon)%nat ->
  (forall t, t ∈ l -> Timers.m_repeat t = false) -> watched_by c (checks (l ++ all_timers q)) ->
  exists c' q', Timers.run_expired run_callback l c q = Ok (c', q') /\
    cluster_ok same_loop room c' /\ timers_ok q' /\ watched_by c' (checks (all_timers q')) /\
    (Timers.clock q' <= Timers.clock q + 2 * length l)%nat.
Proof.
  induction l as [|t l IH]; intros c q Hok Hlow Hroom Hq Hfit Hrep Hwatch.
  { exists c, q. split_and!; try done. simpl. lia. }
  cbn [Timers.run_expired]. unfold Timers.run. set (q0 := Timers.mkQueue _ _ _ _ _ _ _ _ _).
  simpl in Hfit. pose proof (t_within _ Hq) as Hwi.
  assert (timers_ok q0) as Hq0 by (by apply (timers_ok_less [] q); try apply Hq).
  assert (forall (q1 : Queue), Timers.handleRepeatTimer t q1 = Ok q1) as Hno.
  { intros q1. unfold Timers.handleRepeatTimer. rewrite Hrep; [done | by left]. }
  assert (forall t', t' ∈ l -> Timers.m_repeat t' = false) as Hrep' by (intros t' Ht; apply Hrep; by right).
  destruct (Timers.m_callback t) as [|id b] eqn:Ecb; cbn [run_callback].
  - cbn [mbind res_bind]. rewrite Hno. cbn [mbind res_bind].
    destruct (IH c q0) as (c' & q' & Hrun & H1 & H2 & H3 & H4); [assumption..|simpl; lia|assumption| |
      exists c', q'; split_and!; try assumption; simpl in *; lia].
    apply (watched_incl _ _ _ Hwatch). intros id b. simpl. rewrite Ecb. rewrite elem_of_cons.
    split; [by intros [?|?] | by right].
  - pose proof Hwatch as Hst%watched_by_states. destruct Hst as [Hnamed _].
    destruct (check_idle_ok room c id Hok Hlow Hroom) as (c1 & next & Hrun & Hok1 & Hnext & Hmv & Hnone).
    { apply (Hnamed id b). simpl. rewrite Ecb. by left. }
    rewrite Hrun. cbn [mbind res_bind].
    pose proof (watched_move _ _ _ Hwatch Hmv) as Hw1. simpl in Hw1. rewrite Ecb in Hw1.
    destruct Hnext as [->| ->].
    + cbn [mbind res_bind]. rewrite Hno. cbn [mbind res_bind].
      destruct (IH c1 q0) as (c' & q' & Hrun' & H1 & H2 & H3 & H4); [assumption..|simpl; lia|assumption| |
        exists c', q'; split_and!; try assumption; simpl in *; lia].
      apply watched_by_states in Hw1 as [Hn1 Hw1]. apply watched_by_states. split.
      * intros id' b' Hin. apply (Hn1 id' b'). by right.
      * intros id' H. destruct (Hw1 id' H) as [b' [E|Hb]%elem_of_cons]; [|by exists b'].
        injection E as -> ->. by destruct Hnone.
    + destruct (runAfter_adds true (CheckIdle id false) q0 Hq0) as (q1 & t1 & Hadd & Ecb1 & Hall & Hq1 & Hk1); [simpl; lia|].
      rewrite Hadd. cbn [mbind res_bind]. rewrite Hno. cbn [mbind res_bind]. simpl in Hk1.
      destruct (IH c1 q1) as (c' & q' & Hrun' & H1 & H2 & H3 & H4); [assumption..|lia|assumption| |
        exists c', q'; split_and!; try assumption; simpl in *; lia].
      assert (checks (l ++ all_timers q1) ≡ₚ CheckIdle id false :: checks (l ++ all_timers q)) as Hperm.
      { unfold checks. rewrite !fmap_app, Hall. simpl. rewrite Ecb1. symmetry. apply Permutation_middle. }
      apply watched_by_states in Hw1 as [Hn1 Hw1]. apply watched_by_states. split.
      * intros id' b' Hin. rewrite Hperm in Hin. apply elem_of_cons in Hin as [E|Hin].
        -- injection E as -> _. apply (Hn1 id b). by left.
        -- apply (Hn1 id' b'). by right.
      * intros id' H. destruct (Hw1 id' H) as [b' [E|Hb]%elem_of_cons].
        -- injection E as -> ->. exists false. rewrite Hperm. by left.
        -- exists b'. rewrite Hperm. by right.
Qed.

Lemma resetTimerFd_ok t (q : Queue) :
  timers_ok q -> (S (Timers.clock q) <= horizon)%nat -> timers_ok (Timers.resetTimerFd t q) /\
  all_timers (Timers.resetTimerFd t q) = all_timers q.
Proof.
  intros Hq Hfit. destruct (Timers.resetTimerFd_frame t q) as (Em & _ & Er & Ep & Ec).
  destruct (resetTimerFd_clock t q) as [Eq Ek].
  assert (all_timers (Timers.resetTimerFd t q) = all_timers q) as E by (unfold all_timers; by rewrite Em, Eq).
  split; [|done]. apply (timers_ok_less [] q); try done; [lia | rewrite Em; apply Hq | by rewrite E].
Qed.

Lemma wake_ok room ok c (q : Queue) :
  cluster_ok same_loop room c -> kPrePendIndex <= room -> room <= INT_MAX -> timers_ok q ->
  (Timers.clock q + (2 + 2 * length (Timers.m_timer q)) <= horizon)%nat -> watched_by c (checks (all_timers q)) ->
  exists c' q', Timers.handleRead run_callback ok c q = Ok (c', q') /\
    cluster_ok same_loop room c' /\ timers_ok q' /\ watched_by c' (checks (all_timers q')).
Proof.
  intros Hok Hlow Hroom Hq Hfit Hwatch. unfold Timers.handleRead. destruct ok; cbn [negb]; [|by exists c, q].
  unfold Timers.now. cbn [Timers.m_timer].
  destruct (Timers.split_expired_spec (Timers.readings q (Timers.clock q)) (Timers.m_timer q) (t_ordered _ Hq))
    as (rest & -> & Heq & Hrest).
  set (due_ := filter _ _) in Heq |- *. set (q1 := Timers.set_timers rest _).
  assert (all_timers q = due_ ++ all_timers q1) as Hall by (unfold all_timers; simpl; by rewrite app_assoc, Heq).
  assert (length due_ <= length (Timers.m_timer q))%nat as Hlen by (rewrite <- Heq, length_app; lia).
  assert (timers_ok q1) as Hq1.
  { apply (timers_ok_less due_ q); try done; [simpl; lia | by rewrite Hall]. }
  destruct (run_expired_watch room due_ c q1) as (c' & q' & Hrun & Hok' & Hq' & Hw' & Hk'); try done.
  { simpl. lia. }
  { intros t Ht. apply (t_single _ Hq). rewrite Hall. apply elem_of_app. by left. }
  { by rewrite <- Hall. }
  rewrite Hrun. cbn [mbind res_bind]. destruct (Timers.m_timer q') as [|first l].
  - by exists c', q'.
  - destruct (resetTimerFd_ok first q' Hq') as [Hq2 E]; [simpl in Hk'; lia|]. exists c', (Timers.resetTimerFd first q').
    rewrite E. by split_and!.
Qed.

Hypothesis closes : auto_close = true.

Lemma set_first_check_ok opened c (q : Queue) :
  timers_ok q -> (Timers.clock q + 2 <= horizon)%nat ->
  exists q', set_first_check opened c q = Ok q' /\ timers_ok q' /\
    forall f, f ∈ checks (all_timers q') <->
      f ∈ checks (all_timers q) \/ exists id, opened = Some id /\ f = CheckIdle id true.
Proof.
  intros Hq Hfit. unfold set_first_check. rewrite closes. destruct opened as [id|].
  - destruct (runAfter_adds (bool_decide (id.1 = LoopPool.m_base_loop (m_loop_thread_pool c))) (CheckIdle id true) q Hq Hfit)
      as (q' & t & Hrun & Ecb & Hall & Hq' & _). exists q'. split; [done|]. split; [done|].
    intros f. unfold checks. rewrite Hall. simpl. rewrite Ecb, elem_of_cons. split.
    + intros [->|?]; [right; exists id; split; reflexivity | left; assumption].
    + intros [?|(id' & [= <-] & ->)]; [by right | by left].
  - exists q. split; [done|]. split; [done|]. intros f. split; [by left|]. by intros [?|(? & ? & _)].
Qed.

Lemma serves_watched room c c' a (l l' : list timer_callback) :
  cluster_ok same_loop room c -> can_serve same_loop a c -> kPrePendIndex <= room ->
  room + serve_reads a * bound <= INT_MAX -> Serve a c = Ok c' -> watched_by c l ->
  (forall id b, fresh_conn a id -> CheckIdle id b ∉ l) ->
  (forall f, f ∈ l' <-> f ∈ l \/ exists id, opens a c = Some id /\ f = CheckIdle id true) ->
  watched_by c' l'.
Proof.
  intros Hok Hcan Hlow Hfit Hrun [Hn Hw]%watched_by_states Hfresh Hl.
  destruct (serve_moves room c c' a Hok Hcan Hlow Hfit Hrun) as [Hmv Hop].
  apply watched_by_states. split.
  - intros id b [Hin|(id' & Hid & [= -> ->])]%Hl H; [|apply Hop in Hid; congruence].
    destruct (Hmv _ _ H) as [(st & Hst & Hm)|[Hf _]]; [|by apply (Hfresh id b)].
    apply (moves_not_connecting _ _ _ _ Hm); [|done]. intros ->. by apply (Hn id b).
  - intros id H. assert (state_at c id = Some kConnected \/ opens a c = Some id) as [Hc|Hc].
    { destruct (Hmv _ _ H) as [(st & Hst & Hm)|[_ [?|[? _]]]]; [|done|by right].
      apply moves_connected in Hm as [->|?]; auto. }
    + destruct (Hw _ Hc) as [b Hb]. exists b. apply Hl. by left.
    + exists true. apply Hl. right. by exists id.
Qed.

Lemma idle_step_ok room e w :
  idle_ok room w -> can_happen e w -> kPrePendIndex <= room -> room + event_reads e * bound <= INT_MAX ->
  (exists w', idle_step e w = Ok w' /\ idle_ok (room + event_reads e * bound) w') \/
  (exists a, e = Serves a /\ crashes_in same_loop auto_close cb memory a (server w)).
Proof.
  intros [Hok Hq Hw] [Hk Hcan] Hlow Hfit. destruct e as [a| |ok]; cbn [event_reads idle_step] in *; rewrite ?Z.mul_0_l, ?Z.add_0_r in *.
  - destruct Hcan as [Hcan Hname].
    destruct (serve_ok same_loop auto_close cb memory bound bound_request bound_bad bound_int a room (server w) Hok Hcan Hlow Hfit)
      as [(c' & Hrun & Hok')|Hcr]; [left | right; by exists a].
    rewrite Hrun. cbn [mbind res_bind].
    destruct (set_first_check_ok (opens a (server w)) c' (timers w) Hq Hk) as (q' & -> & Hq' & Hall).
    cbn [mbind res_bind]. eexists. split; [done|]. split; [done | done |].
    apply (serves_watched room (server w) c' a (checks (all_timers (timers w)))); try done.
    intros [l p] b Hf. destruct a as [wr r p' fd|]; [|done]. simpl in Hf. subst p'. apply Hname.
  - left. destruct (insert_queued_ok (timers w) Hq Hk) as (q' & -> & Hall & Hq'). eexists. split; [done|].
    split; [done | done |]. apply (watched_incl _ _ _ Hw). intros id b. simpl. unfold checks. by rewrite Hall.
  - left. destruct (wake_ok room ok (server w) (timers w) Hok Hlow Hfit Hq Hk Hw) as (c' & q' & -> & Hok' & Hq' & Hw').
    eexists. split; [done|]. by split.
Qed.

Lemma event_reads_nonneg e : 0 <= event_reads e.
Proof. destruct e; simpl; [apply serve_reads_nonneg | done..]. Qed.

Lemma all_event_reads_nonneg es : 0 <= all_event_reads es.
Proof. induction es as [|e es IH]; simpl; [done | pose proof (event_reads_nonneg e); lia]. Qed.

Lemma idle_run_ok es : forall room w,
  idle_ok room w -> may_happen es w -> kPrePendIndex <= room -> room + all_event_reads es * bound <= INT_MAX ->
  (exists w', idle_run es w = Ok w' /\ idle_ok (room + all_event_reads es * bound) w') \/
  (exists es1 a es2 w1, es = es1 ++ Serves a :: es2 /\ idle_run es1 w = Ok w1 /\
     crashes_in same_loop auto_close cb memory a (server w1)).
Proof.
  pose proof (zlen_nonneg bad_request).
  induction es as [|e es IH]; intros room w Hok Hcan Hlow Hfit; cbn [idle_run all_event_reads] in *.
  { left. exists w. by rewrite Z.add_0_r. }
  destruct Hcan as [He Hcan]. pose proof (event_reads_nonneg e). pose proof (all_event_reads_nonneg es).
  destruct (idle_step_ok room e w Hok He Hlow) as [(w1 & Hrun & Hok1)|(a & -> & Hcr)]; [nia | |].
  - rewrite Hrun. cbn [mbind res_bind].
    destruct (IH _ _ Hok1 (Hcan _ Hrun)) as [(w' & Hrun' & Hok')|(es1 & a & es2 & w2 & -> & Hrun2 & Hcr)];
      [nia | nia | left | right].
    + exists w'. split; [done|]. by replace (room + (event_reads e + all_event_reads es) * bound)
        with (room + event_reads e * bound + all_event_reads es * bound) by lia.
    + exists (e :: es1), a, es2, w2. cbn [app idle_run]. rewrite Hrun. by split_and!.
  - right. by exists [], a, es, w.
Qed.

(** ** Lemmas: a silent connection *)

(** Eight seconds after its last message, at every reading of its clock to
    come. *)
Definition silent (s : @Session K) : Prop :=
  time_ok (m_last_receive_time (conn s)) /\
  forall k, (clock (conn s) <= k)%nat ->
    Ts.m_time_point (m_last_receive_time (conn s)) + eight < Ts.m_time_point (readings (conn s) k).

Lemma shutDown_disconnecting (c c' : TcpConnection K) :
  m_state c = kConnected \/ m_state c = kDisconnecting -> shutDown c = Ok c' -> m_state c' = kDisconnecting.
Proof.
  unfold shutDown. intros Hst H. case_decide as E; [|apply Ok_inj in H as <-; destruct Hst; congruence].
  destruct (in_loop (set_state kDisconnecting c)); [|by apply Ok_inj in H as <-].
  unfold shutDownInLoop in H. bind_inv H. bind_inv H. destruct (negb _); by apply Ok_inj in H as <-.
Qed.

(** Its check shuts it, and leaves one that is shut. *)
Lemma handleIdle_shuts (s : @Session K) il c next :
  m_state (conn s) = kDisconnecting \/ (m_state (conn s) = kConnected /\ silent s) ->
  handleIdleConnection true (set_in_loop il (conn s)) = Ok (c, next) -> m_state c = kDisconnecting.
Proof.
  intros Hst H. unfold handleIdleConnection in H. cbn [m_last_receive_time set_in_loop] in H.
  bind_inv H. unfold now in H. cbn [m_last_receive_time] in H. bind_inv H.
  destruct (Ts.lt _ _) eqn:Elt.
  - bind_inv H. apply Ok_inj in H as [= <- _]. apply shutDown_disconnecting in Hx1; [done|]. destruct Hst as [?|[? _]]; [by right | by left].
  - apply Ok_inj in H as [= <- _]. simpl. destruct Hst as [?|[_ [Ht Hlate]]]; [done|].
    cbn [m_last_receive_time set_in_loop readings clock] in Hx0, Elt. unfold kIdleConnectionTimeOuts in Hx0.
    rewrite (Ts.addTime_eight _ Ht) in Hx0. apply Ok_inj in Hx0 as <-.
    unfold Ts.lt in Elt. cbn [Ts.m_time_point] in Elt. apply Z.ltb_ge in Elt.
    pose proof (Hlate (S (clock (conn s))) (Nat.le_succ_diag_r _)) as Hl. unfold eight in Hl. destruct (Zlt_not_le _ _ Hl Elt).
Qed.

(** The connections after a check: the one checked, and the others. *)
Lemma check_idle_at id id' c c' next s :
  check_idle id' c = Ok (c', next) -> session_at c id = Some s ->
  exists s', session_at c' id = Some s' /\
    ((exists c1 e, id = id' /\ handleIdleConnection true (set_in_loop same_loop (conn s)) = Ok (c1, next) /\
        conn s' = set_poller e c1) \/
     (id <> id' /\ exists e, conn s' = set_poller e (conn s))).
Proof.
  unfold check_idle. destruct id as [l p], id' as [l' p']. intros H Hs.
  destruct (session_at c (l', p')) as [s0|] eqn:Hs0.
  2:{ apply Ok_inj in H as [= <- <-]. exists s. split; [done|]. right. split; [intros E; rewrite E in Hs; congruence|].
      exists (poller (conn s)). by destruct s as [[] ?]. }
  bind_inv H. destruct x as [c1 n]. bind_inv H. apply Ok_inj in H as [= <- <-]. rename x into c'.
  cbn [fst snd] in *.
  unfold act_in in Hx0. unfold session_at in Hs, Hs0. cbn [fst snd] in *.
  destruct (loops c !! l') as [w|] eqn:Hl; [|done]. bind_inv Hx0. apply Ok_inj in Hx0 as <-.
  cbn [mbind option_bind] in Hs0. destruct (sessions w !! p') as [t0|] eqn:Hp; [|discriminate Hs0]. simpl in Hs0. injection Hs0 as <-.
  cbn [act] in Hx1. rewrite Hp in Hx1. bind_inv Hx1. apply Ok_inj in Hx1 as <-.
  cbn [step] in Hx0. rewrite Hx in Hx0. cbn [mbind res_bind] in Hx0. apply Ok_inj in Hx0 as <-.
  unfold session_at. cbn [fst snd loops].
  destruct (decide (l = l')) as [->|Hne].
  - rewrite lookup_insert_eq. cbn [mbind option_bind sessions shared]. rewrite Hl in Hs. cbn [mbind option_bind] in Hs.
    destruct (decide (p = p')) as [->|Hpne].
    + rewrite lookup_insert_eq. rewrite Hp in Hs. simpl in Hs. injection Hs as <-.
      eexists. split; [reflexivity|]. left. exists c1. eexists. split; [reflexivity|]. split; [exact Hx | reflexivity].
    + rewrite lookup_insert_ne by done. destruct (sessions w !! p) as [t|]; [|discriminate Hs]. simpl in Hs. injection Hs as <-.
      eexists. split; [done|]. right. split; [congruence|]. by eexists.
  - rewrite lookup_insert_ne by done. exists s. split; [done|]. right. split; [congruence|].
    exists (poller (conn s)). by destruct s as [[] ?].
Qed.

Lemma session_at_time room c id s :
  cluster_ok same_loop room c -> session_at c id = Some s -> time_ok (m_last_receive_time (conn s)).
Proof.
  intros Hok Hs. unfold session_at in Hs. destruct (loops c !! fst id) as [w|] eqn:Hl; [|discriminate Hs].
  cbn [mbind option_bind] in Hs. destruct (sessions w !! snd id) as [t|] eqn:Hp; [|discriminate Hs].
  simpl in Hs. injection Hs as <-. destruct (ok_session _ _ _ (ok_reactors _ _ _ Hok _ _ Hl) _ _ Hp) as [_ Hsok].
  exact (fine_receive _ (ok_fine _ _ _ _ Hsok)).
Qed.

(** A connection that is shut, or will be by its check. *)
Definition to_shut (c : Server) (id : conn_ref) : Prop :=
  exists s, session_at c id = Some s /\ (m_state (conn s) = kDisconnecting \/ (m_state (conn s) = kConnected /\ silent s)).

Lemma check_idle_shuts id id' c c' next :
  check_idle id' c = Ok (c', next) -> to_shut c id ->
  to_shut c' id /\ (id' = id \/ state_at c id = Some kDisconnecting -> state_at c' id = Some kDisconnecting).
Proof.
  intros H (s & Hs & Hst). destruct (check_idle_at id id' c c' next s H Hs) as (s' & Hs' & [(c1 & e & -> & Hrun & Ec)|[Hne [e Ec]]]).
  - apply (handleIdle_shuts s) in Hrun; [|done].
    assert (m_state (conn s') = kDisconnecting) as E by (rewrite Ec; exact Hrun).
    split; [exists s'; auto|]. intros _. by rewrite (session_at_state _ _ _ Hs'), E.
  - split.
    + exists s'. split; [done|]. unfold silent. rewrite Ec. exact Hst.
    + intros [E|E]; [by symmetry in E|]. rewrite (session_at_state _ _ _ Hs) in E.
      rewrite (session_at_state _ _ _ Hs'), Ec. exact E.
Qed.

Lemma run_expired_shuts id l : forall c q c' q',
  Timers.run_expired run_callback l c q = Ok (c', q') -> to_shut c id ->
  (state_at c id = Some kDisconnecting \/ exists t b, t ∈ l /\ Timers.m_callback t = CheckIdle id b) ->
  state_at c' id = Some kDisconnecting.
Proof.
  induction l as [|t l IH]; intros c q c' q' H Hto Hor; cbn [Timers.run_expired] in H.
  { apply Ok_inj in H as [= <- <-]. destruct Hor as [?|(t & b & Ht & _)]; [done | by apply elem_of_nil in Ht]. }
  bind_inv H. destruct x as [c1 q1]. bind_inv H. unfold Timers.run in Hx.
  destruct (Timers.m_callback t) as [|id' b'] eqn:Ecb; cbn [run_callback] in Hx.
  - apply Ok_inj in Hx as [= <- _]. apply (IH _ _ _ _ H Hto).
    destruct Hor as [?|(u & b & [->|Hu]%elem_of_cons & Eu)]; [by left | congruence | right; by exists u, b].
  - bind_inv Hx. destruct x0 as [c2 next].
    assert (c2 = c1) as -> by (destruct next; [bind_inv Hx; by apply Ok_inj in Hx as [= <- _] | by apply Ok_inj in Hx as [= <- _]]).
    destruct (check_idle_shuts id id' c c1 next Hx1 Hto) as [Hto1 Hdone]. apply (IH _ _ _ _ H Hto1).
    destruct Hor as [E|(u & b & [->|Hu]%elem_of_cons & Eu)]; [left; auto | left | right; by exists u, b].
    apply Hdone. left. congruence.
Qed.

(** The server after [Start()], with the timers set before. *)
Definition idle_started (w : IdleServer) : Prop :=
  started same_loop (server w) /\ timers_ok (timers w) /\
  Forall (fun f => f = TimerEvent) (checks (all_timers (timers w))).

Lemma idle_started_ok w : idle_started w -> idle_ok kPrePendIndex w.
Proof.
  intros (Hst & Hq & Hcb). split; [by apply started_ok | done |].
  destruct Hst as (_ & _ & _ & _ & _ & Hl & _). split.
  - intros id b s Hin. rewrite Forall_forall in Hcb. by specialize (Hcb _ Hin).
  - intros [l p] s H. unfold session_at in H. simpl in H. destruct (loops (server w) !! l) as [v|] eqn:E; [|done].
    simpl in H. by rewrite (proj2 (Hl _ _ E)) in H.
Qed.

(** C18. No idle connection is forgotten.  From the start of the server,
    whatever its connections do and whenever its timer is woken, every call of
    the timer queue returns, and at every moment each connection that is
    connected has a check that is queued and due less than eight seconds after
    the next reading of the clock, as long as no two readings of it are equal. *)
Theorem idle_checks_cover es w :
  idle_started w -> may_happen es w -> kPrePendIndex + all_event_reads es * bound <= INT_MAX ->
  (exists w', idle_run es w = Ok w' /\
     forall id s, session_at (server w') id = Some s -> m_state (conn s) = kConnected ->
       exists t b, t ∈ all_timers (timers w') /\ Timers.m_callback t = CheckIdle id b /\
         due t < Ts.m_time_point (Timers.readings (timers w') (Timers.clock (timers w'))) + eight) \/
  (exists es1 a es2 w1, es = es1 ++ Serves a :: es2 /\ idle_run es1 w = Ok w1 /\
     crashes_in same_loop auto_close cb memory a (server w1)).
Proof.
  intros Hst Hcan Hfit.
  destruct (idle_run_ok es _ w (idle_started_ok w Hst) Hcan ltac:(done) Hfit) as [(w' & Hrun & Hok)|Hcr]; [left | by right].
  exists w'. split; [done|]. intros id s Hs Hc.
  destruct (w_watched _ _ (i_watched _ _ Hok) id s Hs Hc) as [b Hin].
  apply list_elem_of_fmap in Hin as (t & Ht & Hin). exists t, b. split_and!; [done | done |].
  by apply (t_past _ (i_timers _ _ Hok)).
Qed.

Lemma idle_run_app es es' w : idle_run (es ++ es') w = (w' ← idle_run es w; idle_run es' w').
Proof.
  revert w. induction es as [|e es IH]; intros w; [done|]. cbn [app idle_run].
  destruct (idle_step e w); cbn [mbind res_bind]; [apply IH | done].
Qed.

(** What a run leaves. *)
Lemma idle_run_keeps es w w' :
  idle_started w -> may_happen es w -> kPrePendIndex + all_event_reads es * bound <= INT_MAX -> idle_run es w = Ok w' ->
  idle_ok (kPrePendIndex + all_event_reads es * bound) w'.
Proof.
  intros Hst Hcan Hfit Hrun.
  destruct (idle_run_ok es _ w (idle_started_ok w Hst) Hcan ltac:(done) Hfit) as [(w2 & Hrun2 & Hok)|(es1 & a & es2 & w1 & -> & Hrun1 & Hcr)].
  - rewrite Hrun in Hrun2. apply Ok_inj in Hrun2 as ->. exact Hok.
  - rewrite idle_run_app, Hrun1 in Hrun. cbn [mbind res_bind idle_run idle_step] in Hrun.
    destruct Hcr as (l & x & v & _ & _ & _ & E). rewrite E in Hrun. discriminate Hrun.
Qed.


End WithKernel.

(** ** Witness: two clients of two loops, and the server's clock *)

Abbreviation Timed := (@IdleServer table (option Z)).
Abbreviation Idle_step := (idle_step false true resCallback (fun _ _ => [])).

(** A second between two readings. *)
Definition seconds (k : nat) : Ts.Timestamp := Ts.mkTimestamp (Z.of_nat k * 1000000000).

(** The server has started, with the timer of main() queued. *)
Definition timed_server : Timed :=
  mkServer two_loops
    (Timers.mkQueue [Timers.mkTimer TimerEvent (Ts.mkTimestamp 5000000000) (double_of_Z 0) false]
       1%positive None Epoll.one_added seconds 2 [] 0 []).

(** Both connect; the checks are queued from their loops and inserted; then the
    timerfd wakes the loop until the first check of the first client ran. *)
Definition two_checked : list (@idle_event table) :=
  [Serves (NewConnection two_bytes ticking 1 7); Serves (NewConnection two_bytes ticking 1 8);
   Serves (InLoop 1 (At 1 Established)); Serves (InLoop 2 (At 1 Established));
   Inserts; Inserts; Wakes true; Wakes true; Wakes true; Wakes true; Wakes true].

Definition after_step (r : res Timed) : Timed := match r with Ok w => w | Fault _ => timed_server end.

Lemma may_cons e es (w : Timed) :
  can_happen false 100 e w -> may_happen false true resCallback (fun _ _ => []) 100 es (after_step (Idle_step e w)) ->
  may_happen false true resCallback (fun _ _ => []) 100 (e :: es) w.
Proof. intros He Hes. split; [done|]. intros w' E. by rewrite E in Hes. Qed.

(** Whether a timer names a channel. *)
Definition names (p : chan_ptr) (l : list timer_callback) : bool :=
  existsb (fun f => match f with CheckIdle (_, q) _ => bool_decide (q = p) | TimerEvent => false end) l.

Lemma names_none p l : names p l = false -> forall i b, CheckIdle (i, p) b ∉ l.
Proof.
  intros H i b Hin. enough (names p l = true) by congruence. apply existsb_exists.
  exists (CheckIdle (i, p) b). split; [by apply list_elem_of_In | by apply bool_decide_eq_true].
Qed.

Ltac timed_connection l :=
  apply may_cons; [split; [by apply Nat.leb_le; vm_compute | split; [|apply names_none; by vm_compute]];
    match goal with |- can_serve _ (NewConnection _ _ ?p ?fd) ?c =>
      eapply (can_new p fd c l _ (loop_at c l));
      [by vm_compute | apply loop_at_ok; by vm_compute | by vm_compute..] end|].

Ltac timed_established :=
  apply may_cons; [split; [by apply Nat.leb_le; vm_compute | split; [|done]];
    match goal with |- can_serve _ (InLoop ?l (At ?p Established)) ?c =>
      exists (loop_at c l); split; [apply loop_at_ok; by vm_compute|]; split; [|done];
      split; [intros ?; discriminate|]; exists (here (loop_at c l) p); split; [apply here_ok; by vm_compute|];
      by vm_compute end|].

Ltac timed_timers := apply may_cons; [split; [by apply Nat.leb_le; vm_compute | done]|].

Lemma two_checked_may : may_happen false true resCallback (fun _ _ => []) 100 two_checked timed_server.
Proof.
  unfold two_checked. timed_connection 1%nat. timed_connection 2%nat. do 2 timed_established.
  do 7 timed_timers. done.
Qed.

Lemma timed_server_started : idle_started false 100 timed_server.
Proof.
  split; [apply two_loops_started|]. split; [|by repeat constructor].
  split; simpl.
  - split; unfold seconds, time_ok, INT64_MAX; simpl; intros; lia.
  - lia.
  - repeat constructor.
  - eexists. split; [apply lookup_singleton_eq | done].
  - intros t Ht. unfold all_timers in Ht. simpl in Ht. by apply list_elem_of_singleton in Ht as ->.
  - repeat constructor. by intros ?%elem_of_nil.
  - intros t Ht. unfold all_timers in Ht. simpl in Ht. apply list_elem_of_singleton in Ht as ->. by vm_compute.
Qed.

Definition watched_server : Timed :=
  after_step (idle_run false true resCallback (fun _ _ => []) two_checked timed_server).

(** What the queue says: the callbacks run, and the checks left with the
    seconds at which they are due. *)
Definition queue_of (w : Timed) :=
  (Timers.fired (timers w), (fun t => (Timers.m_callback t, due t / 1000000000)) <$> Timers.m_timer (timers w)).

(** Both checks have run once, found their connections not idle, and are set
    again. *)
Example watched_server_queue :
  queue_of watched_server =
  ([TimerEvent; CheckIdle (1%nat, 1%positive) true; CheckIdle (2%nat, 1%positive) true],
   [(CheckIdle (1%nat, 1%positive) false, 21); (CheckIdle (2%nat, 1%positive) false, 23)]).
Proof. vm_compute. reflexivity. Qed.

(** With a clock that reads the same for both, the second check is dropped
    (RBTreeTimer.v), and nothing watches the second client. *)
Definition stopped_clock : Timed :=
  mkServer two_loops
    (Timers.mkQueue [Timers.mkTimer TimerEvent (Ts.mkTimestamp 5000000000) (double_of_Z 0) false]
       1%positive None Epoll.one_added (fun _ => Ts.mkTimestamp 1000000000) 2 [] 0 []).

Example same_reading_forgotten :
  queue_of (after_step (idle_run false true resCallback (fun _ _ => []) (take 6 two_checked) stopped_clock)) =
  ([], [(TimerEvent, 5); (CheckIdle (1%nat, 1%positive) true, 9)]).
Proof. vm_compute. reflexivity. Qed.

Lemma idle_checks_cover_witness :
  (exists w', idle_run false true resCallback (fun _ _ => []) two_checked timed_server = Ok w' /\
     forall id s, session_at (server w') id = Some s -> m_state (conn s) = kConnected ->
       exists t b, t ∈ all_timers (timers w') /\ Timers.m_callback t = CheckIdle id b /\
         due t < Ts.m_time_point (Timers.readings (timers w') (Timers.clock (timers w'))) + eight) \/
  (exists es1 a es2 w1, two_checked = es1 ++ Serves a :: es2 /\
     idle_run false true resCallback (fun _ _ => []) es1 timed_server = Ok w1 /\
     crashes_in false true resCallback (fun _ _ => []) a (server w1)).
Proof.
  apply (idle_checks_cover false true resCallback (fun _ _ => []) 100 kResponseMax resCallback_bound
           ltac:(by vm_compute) ltac:(by vm_compute) eq_refl two_checked timed_server).
  - apply timed_server_started.
  - apply two_checked_may.
  - by vm_compute.
Defined.

(** A client that is silent: its clock shows nine seconds, and its check comes
    due with the fourth wake-up. *)
Definition nine_seconds (_ : nat) : Ts.Timestamp := Ts.mkTimestamp 9000000000.

Definition silent_client : list (@idle_event table) :=
  [Serves (NewConnection two_bytes nine_seconds 1 7); Serves (InLoop 1 (At 1 Established));
   Inserts; Wakes true; Wakes true; Wakes true; Wakes true].

Lemma can_open_nine p fd (e : Epoll.Epoller table) :
  Epoll.channels e !! p = None -> Epoll.m_channels e !! fd = None -> can_open e two_bytes nine_seconds p fd.
Proof. intros Hp Hfd. destruct can_open_example as [_ _ Hw _]. split; try done. Qed.

Lemma silent_client_may : may_happen false true resCallback (fun _ _ => []) 100 silent_client timed_server.
Proof.
  unfold silent_client. apply may_cons.
  { split; [by apply Nat.leb_le; vm_compute|]. split; [|apply names_none; by vm_compute].
    assert (can_serve false (NewConnection two_bytes ticking 1 7) (server timed_server)) as [Hop Hfree].
    { eapply (can_new 1 7 _ 1%nat _ (loop_at (server timed_server) 1%nat)); [by vm_compute | apply loop_at_ok; by vm_compute | by vm_compute..]. }
    split; [|exact Hfree]. intros l pool v El Hv. destruct (Hop l pool v El Hv). by apply can_open_nine. }
  timed_established. do 5 timed_timers. done.
Qed.

Definition silent_server : Timed :=
  after_step (idle_run false true resCallback (fun _ _ => []) silent_client timed_server).

Lemma all_due (w : Timed) :
  Timers.queued (timers w) = [] ->
  forallb (fun t => bool_decide (Timers.expired (Timers.readings (timers w) (Timers.clock (timers w))) t)) (Timers.m_timer (timers w)) = true ->
  forall t, t ∈ all_timers (timers w) ->
    t ∈ Timers.m_timer (timers w) /\ Timers.expired (Timers.readings (timers w) (Timers.clock (timers w))) t.
Proof.
  intros Hq Hall t Ht. unfold all_timers in Ht. rewrite Hq, app_nil_r in Ht. split; [done|].
  rewrite forallb_forall in Hall. apply list_elem_of_In, Hall, bool_decide_eq_true in Ht. done.
Qed.

Definition silent_session : @Session table :=
  match session_at (server silent_server) (1%nat, 1%positive) with Some s => s | None => Opened end.


End IdleWatch.
