(* ===== verification/Acceptor.v ===== *)
(** * Acceptor: Net/acceptor.h, Net/acceptor.cpp and Net/address.h

    The listening socket, its edge-triggered channel, and the spare descriptor
    that lets a full process take a connection and drop it.  The kernel's
    answers are arguments; the calls made and the descriptors left open are
    recorded.  The text form of an IP address is the C library's. *)

From Stdlib Require Import ZArith Lia.
From stdpp Require Import options.
From stdpp Require Import numbers gmap.
From S2P Require Import Prelude CStd Channel.

(** [class Address] *)
Record Address := mkAddress { ip : bytes; port : Z }.

(** [htons] and [ntohs] on a little-endian host: a [uint16_t] with its bytes
    swapped; the argument is converted to 16 bits. *)
Definition htons (x : Z) : Z :=
  let x := x mod 65536 in x mod 256 * 256 + x / 256.
Definition ntohs : Z -> Z := htons.

Module Accept.

Definition EMFILE : Z := 24.

(** The calls the acceptor makes, with the kernel's answers. *)
Inductive sys_call :=
| SysListen
| SysReuseAddr (fd : Z)
| SysBind (fd sin_addr sin_port : Z)
| SysAccept4 (answer : Z + Z)
| SysAccept (answer : Z)
| SysOpen (answer : Z)
| SysClose (fd : Z)
| SysKeepAlive (fd : Z)
| SysTcpNoDelay (fd : Z).

(** The descriptors open after a call: an answer of a descriptor opens it,
    [close] of an open one closes it. *)
Definition opened (c : sys_call) (fds : gset Z) : gset Z :=
  match c with
  | SysAccept4 (inl fd) => {[fd]} ∪ fds
  | SysAccept4 (inr _) => fds
  | SysAccept fd | SysOpen fd => if 0 <=? fd then {[fd]} ∪ fds else fds
  | SysClose fd => fds ∖ {[fd]}
  | _ => fds
  end.

Section WithServer.
Context {S : Type}.

(** The object, the open descriptors of the process, the calls made, and the
    state of the callback's owner. *)
Record Acceptor := mkAcceptor {
  m_listen_fd : Z;
  m_idle_fd : Z;
  m_address : Address;
  m_accept_channel : Chan.Channel;
  fds : gset Z;
  calls : list sys_call;
  owner : S
}.

Definition sys (c : sys_call) (a : Acceptor) : Acceptor :=
  mkAcceptor (m_listen_fd a) (m_idle_fd a) (m_address a) (m_accept_channel a) (opened c (fds a))
    (calls a ++ [c]) (owner a).
Definition set_idle (fd : Z) (a : Acceptor) : Acceptor :=
  mkAcceptor (m_listen_fd a) fd (m_address a) (m_accept_channel a) (fds a) (calls a) (owner a).
Definition set_owner (s : S) (a : Acceptor) : Acceptor :=
  mkAcceptor (m_listen_fd a) (m_idle_fd a) (m_address a) (m_accept_channel a) (fds a) (calls a) s.

Definition set_accept_channel (ch : Chan.Channel) (a : Acceptor) : Acceptor :=
  mkAcceptor (m_listen_fd a) (m_idle_fd a) (m_address a) ch (fds a) (calls a) (owner a).

(** The socket calls that end the process when they fail; [ret] is the
    kernel's answer. *)
Definition or_exit (ret : Z) (c : sys_call) (a : Acceptor) : res Acceptor :=
  let a := sys c a in if ret <? 0 then Fault Exited else Ok a.

(** [inet_addr] and [inet_ntoa] are the C library's conversions of an IP
    address. *)
Definition Bind (inet_addr : bytes -> Z) (ret listen_fd : Z) (address : Address) (a : Acceptor) : res Acceptor :=
  let sin_port := htons (port address) in
  let sin_addr := inet_addr (ip address) in
  or_exit ret (SysBind listen_fd sin_addr sin_port) a.

Definition setReuseAddr (ret listen_fd : Z) (a : Acceptor) : res Acceptor :=
  or_exit ret (SysReuseAddr listen_fd) a.
Definition setKeepAlive (ret fd : Z) (a : Acceptor) : res Acceptor := or_exit ret (SysKeepAlive fd) a.
Definition setTcpNoDelay (ret fd : Z) (a : Acceptor) : res Acceptor := or_exit ret (SysTcpNoDelay fd) a.

(** The constructor: [listen_fd] and [idle_fd] are the answers of [socket] and
    [open], [reuse_ret] and [bind_ret] those of [setsockopt] and [bind]. *)
Definition new (inet_addr : bytes -> Z) (listen_fd idle_fd reuse_ret bind_ret : Z) (address : Address) (fds : gset Z) (s : S)
    : res Acceptor :=
  let a := mkAcceptor listen_fd idle_fd address (Chan.new listen_fd)
             ((if 0 <=? idle_fd then {[idle_fd]} else ∅) ∪
              ((if 0 <=? listen_fd then {[listen_fd]} else ∅) ∪ fds)) [] s in
  if listen_fd <? 0 then Fault Exited
  else
    a ← setReuseAddr reuse_ret listen_fd a;
    a ← Bind inet_addr bind_ret listen_fd (m_address a) a;
    let ch := Chan.setEvents (Z.lor EPOLLIN EPOLLET) (Chan.setIndex kNew (m_accept_channel a)) in
    Ok (set_accept_channel ch a).

(** [Listen()]; [update] is the channel's registration. *)
Definition Listen (ret : Z) (update : Chan.Channel -> S -> res S) (a : Acceptor) : res Acceptor :=
  let a := sys SysListen a in
  _ ← assert_ (negb (ret =? -1));
  let ch := Chan.reading_on (m_accept_channel a) in
  s ← update ch (owner a);
  Ok (mkAcceptor (m_listen_fd a) (m_idle_fd a) (m_address a) ch (fds a) (calls a) s).

(** The kernel's answers during one [handleConnect]: the new descriptor or an
    errno, the peer's address, and the answers of the other calls. *)
Record answers := mkAnswers {
  accept4 : Z + Z;
  sin_addr : Z;
  sin_port : Z;
  accept : Z;
  open : Z;
  keepalive_ret : Z;
  nodelay_ret : Z
}.

(** [handleConnect()] *)
Definition handleConnect (inet_ntoa : Z -> bytes) (k : answers)
    (new_connection_callback : option (Z -> Address -> S -> res S)) (a : Acceptor) : res Acceptor :=
  let a := sys (SysAccept4 (accept4 k)) a in
  match accept4 k with
  | inr errno =>
      if errno =? EMFILE then
        let a := sys (SysClose (m_idle_fd a)) a in
        let a := set_idle (accept k) (sys (SysAccept (accept k)) a) in
        let a := sys (SysClose (m_idle_fd a)) a in
        Ok (set_idle (open k) (sys (SysOpen (open k)) a))
      else Ok a
  | inl conn_fd =>
      a ← setKeepAlive (keepalive_ret k) conn_fd a;
      a ← setTcpNoDelay (nodelay_ret k) conn_fd a;
      match new_connection_callback with
      | Some cb =>
          let clientAddr := mkAddress (inet_ntoa (sin_addr k)) (ntohs (sin_port k)) in
          s ← cb conn_fd clientAddr (owner a); Ok (set_owner s a)
      | None => Ok a
      end
  end.

(** [~Acceptor()] *)
Definition destroy (a : Acceptor) : Acceptor :=
  sys (SysClose (m_idle_fd a)) (sys (SysClose (m_listen_fd a)) a).

(** The spare descriptor: out of descriptors, the spare one makes room to take
    the connection and drop it, and is opened again. *)
Lemma handleConnect_sheds inet_ntoa k cb a :
  accept4 k = inr EMFILE -> m_idle_fd a ∈ fds a -> 0 <= accept k -> 0 <= open k ->
  accept k ∉ fds a ∖ {[m_idle_fd a]} -> open k ∉ fds a ∖ {[m_idle_fd a]} ->
  exists a', handleConnect inet_ntoa k cb a = Ok a' /\ m_idle_fd a' = open k /\ owner a' = owner a /\
    fds a' = {[open k]} ∪ fds a ∖ {[m_idle_fd a]} /\ size (fds a') = size (fds a).
Proof.
  intros E Hi Ha Ho Hna Hno. unfold handleConnect. rewrite E, Z.eqb_refl.
  eexists. split; [done|]. simpl.
  rewrite !(proj2 (Z.leb_le _ _)) by done.
  assert (({[open k]} ∪ ({[accept k]} ∪ fds a ∖ {[m_idle_fd a]}) ∖ {[accept k]} : gset Z) =
          {[open k]} ∪ fds a ∖ {[m_idle_fd a]}) as -> by set_solver.
  split_and!; [done..|].
  rewrite size_union, size_difference, !size_singleton by set_solver.
  assert (size (fds a) <> 0)%nat by (intros H%size_empty_iff; set_solver). lia.
Qed.

(** Without the spare descriptor the connection stays in the backlog. *)
Lemma handleConnect_no_spare inet_ntoa k cb a :
  accept4 k = inr EMFILE -> m_idle_fd a = -1 -> -1 ∉ fds a -> accept k = -1 -> open k = -1 ->
  exists a', handleConnect inet_ntoa k cb a = Ok a' /\ m_idle_fd a' = -1 /\ fds a' = fds a.
Proof.
  intros E Hi Hn Ha Ho. unfold handleConnect. rewrite E, Z.eqb_refl.
  eexists. split; [done|]. simpl. rewrite Hi, Ha, Ho. simpl. split; [done|]. set_solver.
Qed.

(** A connection is accepted with its socket options and handed over once. *)
Lemma handleConnect_accepts inet_ntoa k cb a fd s' :
  accept4 k = inl fd -> 0 <= keepalive_ret k -> 0 <= nodelay_ret k ->
  cb fd (mkAddress (inet_ntoa (sin_addr k)) (ntohs (sin_port k))) (owner a) = Ok s' ->
  exists a', handleConnect inet_ntoa k (Some cb) a = Ok a' /\ owner a' = s' /\
    fds a' = {[fd]} ∪ fds a /\
    calls a' = calls a ++ [SysAccept4 (inl fd); SysKeepAlive fd; SysTcpNoDelay fd].
Proof.
  intros E H1 H2 Hcb. unfold handleConnect. rewrite E. unfold setKeepAlive, setTcpNoDelay, or_exit.
  rewrite !(proj2 (Z.ltb_ge _ _)) by done. simpl. rewrite Hcb. simpl.
  eexists. split; [done|]. simpl. by rewrite <- !(assoc (++)).
Qed.

(** However many connections are waiting, one event makes one [accept4]. *)
Lemma handleConnect_once inet_ntoa k cb a a' :
  handleConnect inet_ntoa k cb a = Ok a' ->
  exists l, calls a' = calls a ++ SysAccept4 (accept4 k) :: l /\ forall r, SysAccept4 r ∉ l.
Proof.
  unfold handleConnect. destruct (accept4 k) as [fd|e] eqn:E.
  - unfold setKeepAlive, setTcpNoDelay, or_exit. destruct (keepalive_ret k <? 0), (nodelay_ret k <? 0); simpl; try done.
    destruct cb as [cb|]; [destruct (cb fd _ (owner a)); simpl; [|done] |];
      intros [= <-]; simpl; exists [SysKeepAlive fd; SysTcpNoDelay fd];
      rewrite <- !(assoc (++)); (split; [done|]); set_solver.
  - destruct (e =? EMFILE); intros [= <-]; simpl.
    + eexists [_; _; _; _]. rewrite <- !(assoc (++)). split; [done|]. set_solver.
    + exists []. split; [done|]. set_solver.
Qed.

(** The listening socket is watched edge-triggered. *)
Lemma Listen_edge_triggered inet_addr l i r1 r2 addr fds0 s0 a update ret a' :
  new inet_addr l i r1 r2 addr fds0 s0 = Ok a -> Listen ret update a = Ok a' ->
  Z.testbit (Chan.m_events (m_accept_channel a')) 31 = true /\
  Chan.isReading (m_accept_channel a') = true.
Proof.
  unfold new, setReuseAddr, Bind, or_exit. destruct (l <? 0); [done|].
  destruct (r1 <? 0); [done|]. simpl. destruct (r2 <? 0); [done|]. simpl. intros [= <-]. unfold Listen.
  destruct (negb (ret =? -1)); simpl; [|done]. destruct (update _ _); simpl; [|done].
  intros [= <-]. done.
Qed.

(** The constructor binds the address it was given, with the port in network
    order, before anything is accepted. *)
Lemma new_binds inet_addr l i r1 r2 addr fds0 s0 :
  0 <= l -> 0 <= r1 -> 0 <= r2 ->
  exists a, new inet_addr l i r1 r2 addr fds0 s0 = Ok a /\ owner a = s0 /\ m_listen_fd a = l /\
    calls a = [SysReuseAddr l; SysBind l (inet_addr (ip addr)) (htons (port addr))] /\
    m_accept_channel a = Chan.setEvents (Z.lor EPOLLIN EPOLLET) (Chan.setIndex kNew (Chan.new l)).
Proof.
  intros Hl H1 H2. unfold new, setReuseAddr, Bind, or_exit.
  rewrite !(proj2 (Z.ltb_ge _ _)) by done. by eexists.
Qed.

End WithServer.

(** ** The listening socket over time *)

Definition EAGAIN : Z := 11.

(** A client of the backlog: the descriptor the kernel will give it, and the
    address it comes from. *)
Record client := mkClient { c_fd : Z; c_addr : Z; c_port : Z }.

(** The kernel's answers when [accept4] takes it, and when no one waits. *)
Definition taking (c : client) : answers := mkAnswers (inl (c_fd c)) (c_addr c) (c_port c) (-1) (-1) 0 0.
Definition no_client : answers := mkAnswers (inr EAGAIN) 0 0 (-1) (-1) 0 0.

Section Backlog.
Context {S : Type}.
Context (inet_ntoa : Z -> bytes) (new_connection : Z -> Address -> S -> S).

(** The connections that wait in the backlog, whether an arrival has not been
    reported yet, and the acceptor.  The channel is edge-triggered: epoll
    reports an arrival once, however many there were since its last report. *)
Record Listening := mkListening {
  waiting : list client;
  arrived : bool;
  acceptor : @Acceptor S
}.

Inductive listen_event :=
| Connect (c : client)     (* a client's handshake completes *)
| Report.                  (* epoll_wait reports the socket, if it has to *)

Definition listen_step (e : listen_event) (s : Listening) : res Listening :=
  match e with
  | Connect c => Ok (mkListening (waiting s ++ [c]) true (acceptor s))
  | Report =>
      if arrived s then
        let k := match waiting s with [] => no_client | c :: _ => taking c end in
        a ← handleConnect inet_ntoa k (Some (fun fd addr o => Ok (new_connection fd addr o))) (acceptor s);
        Ok (mkListening (tl (waiting s)) false a)
      else Ok s
  end.

Fixpoint listen_run (es : list listen_event) (s : Listening) : res Listening :=
  match es with
  | [] => Ok s
  | e :: es' => s ← listen_step e s; listen_run es' s
  end.

Definition arrivals (es : list listen_event) : list client :=
  omap (fun e => match e with Connect c => Some c | Report => None end) es.

(** The owner of the callback, told of these clients in this order. *)
Definition told (l : list client) (o : S) : S :=
  fold_left (fun o c => new_connection (c_fd c) (mkAddress (inet_ntoa (c_addr c)) (ntohs (c_port c))) o) l o.

(** Those that wait and that no report is due for. *)
Definition stuck (s : Listening) : nat := length (waiting s) - (if arrived s then 1 else 0).

Lemma listen_step_ok e s :
  (arrived s = true -> waiting s <> []) ->
  exists s' taken, listen_step e s = Ok s' /\
    waiting s ++ arrivals [e] = taken ++ waiting s' /\ (length taken <= 1)%nat /\
    owner (acceptor s') = told taken (owner (acceptor s)) /\
    (stuck s <= stuck s')%nat /\ (arrived s' = true -> waiting s' <> []).
Proof.
  intros Hne. destruct e as [c|]; simpl.
  - eexists _, []. split; [done|]. simpl. split_and!; [done | lia | done | | by destruct (waiting s)].
    unfold stuck. simpl. rewrite length_app. simpl. destruct (arrived s); lia.
  - destruct (arrived s) eqn:Ea.
    2:{ exists s, []. simpl. rewrite app_nil_r. split_and!; [done | done | lia | done | done |]. congruence. }
    destruct (waiting s) as [|c l] eqn:Ew; [by destruct (Hne eq_refl)|].
    destruct (handleConnect_accepts inet_ntoa (taking c) (fun fd addr o => Ok (new_connection fd addr o)) (acceptor s)
      (c_fd c) _ eq_refl ltac:(simpl; lia) ltac:(simpl; lia) eq_refl) as (a & Hrun & Ho & _).
    rewrite Hrun. cbn [mbind res_bind]. eexists _, [c]. split; [done|]. simpl. rewrite app_nil_r.
    split_and!; [done | lia | exact Ho | | done]. unfold stuck. simpl. rewrite Ea, Ew. simpl. lia.
Qed.

Lemma arrivals_cons e es : arrivals (e :: es) = arrivals [e] ++ arrivals es.
Proof. by destruct e. Qed.

Lemma told_app l1 l2 o : told (l1 ++ l2) o = told l2 (told l1 o).
Proof. apply fold_left_app. Qed.

Lemma listen_run_ok es : forall s,
  (arrived s = true -> waiting s <> []) ->
  exists s' taken, listen_run es s = Ok s' /\
    waiting s ++ arrivals es = taken ++ waiting s' /\
    owner (acceptor s') = told taken (owner (acceptor s)) /\ (stuck s <= stuck s')%nat.
Proof.
  induction es as [|e es IH]; intros s Hne.
  { exists s, []. simpl. by rewrite app_nil_r. }
  destruct (listen_step_ok e s Hne) as (s1 & t1 & Hs1 & Hw1 & _ & Ho1 & Hst1 & Hne1).
  destruct (IH s1 Hne1) as (s2 & t2 & Hs2 & Hw2 & Ho2 & Hst2).
  exists s2, (t1 ++ t2). cbn [listen_run]. rewrite Hs1. cbn [mbind res_bind].
  split_and!; [done | | by rewrite told_app, <- Ho1 | lia].
  rewrite arrivals_cons, app_assoc, Hw1, <- !app_assoc. by rewrite Hw2.
Qed.


End Backlog.

(** Three clients come at once; then one more, later. *)
Definition three_and_one : list listen_event :=
  [Connect (mkClient 7 1 80); Connect (mkClient 8 2 80); Connect (mkClient 9 3 80); Report; Report;
   Connect (mkClient 10 4 80); Report].

Definition quiet_acceptor : @Listening (list Z) :=
  mkListening [] false (mkAcceptor 3 4 (mkAddress [] 0) (Chan.new 3) {[3; 4]} [] []).

(** The first two are taken, and the last two wait. *)
Example three_and_one_waiting :
  (s ← listen_run (fun _ => []) (fun fd _ l => l ++ [fd]) three_and_one quiet_acceptor;
   Ok (owner (acceptor s), c_fd <$> waiting s)) = Ok ([7; 8], [9; 10]).
Proof. vm_compute. reflexivity. Qed.

(** One client was left by an earlier burst. *)
Definition one_left : @Listening (list Z) := mkListening [mkClient 6 9 80] false (acceptor quiet_acceptor).


End Accept.

(** A port survives the two conversions. *)
Lemma ntohs_htons x : 0 <= x < 65536 -> ntohs (htons x) = x.
Proof.
  intros Hx. unfold ntohs, htons. rewrite (Z.mod_small x) by done.
  pose proof (Z.mod_pos_bound x 256 ltac:(lia)). pose proof (Z.div_mod x 256 ltac:(lia)).
  assert (0 <= x / 256 < 256) by (split; [apply Z.div_pos; lia | apply Z.div_lt_upper_bound; lia]).
  rewrite (Z.mod_small (_ * 256 + _)) by lia.
  rewrite (Z.add_comm (x `mod` 256 * 256)), Z.mod_add, Z.div_add, (Z.mod_small (x / 256)), (Z.div_small (x / 256)) by lia. lia.
Qed.
