(* ===== verification/Descriptors.v ===== *)
(** * Descriptors: the acceptor in front of the server, and who holds what

    The acceptor of Acceptor.v with the server of Cluster.v as the owner of its
    callback: a client is accepted, its connection made and dealt to a loop, and
    its descriptor closed when the last reference to the connection goes.  The
    kernel answers with a descriptor that the process has not open; that no two
    connections share one, which Cluster.v asks for, is shown here.

    The rest of the process (the log files, the pollers, the wake-up and timer
    descriptors) opens and closes descriptors of its own. *)

From Stdlib Require Import ZArith Lia Ascii String.
From stdpp Require Import options.
From S2P Require Import Prelude CStd Buffer HttpRequest HttpRequestParser HttpResponse Channel Epoller Timestamp TcpConnection HttpServer TcpSafety Session Reactor LoopThreadPool Cluster Acceptor.

#[local] Set Default Proof Using "Type*".

Module Descr.
Import Tcp Server Safe Life React Clust.

Lemma remove_absent (fd : Z) (s : gset Z) : fd ∉ s -> s ∖ {[fd]} = s.
Proof. set_solver. Qed.

Lemma open_and_close (fd : Z) (s : gset Z) : fd ∉ s -> ({[fd]} ∪ s) ∖ {[fd]} = s.
Proof. set_solver. Qed.

Section WithKernel.
Context {K : Type} `{!EpollKernel K}.
Context (same_loop auto_close : bool).
Context (cb : HttpRequest.Request.HttpRequest -> Response.HttpResponse -> Response.HttpResponse).
Context (memory : Z -> Z -> bytes).
Context (inet_ntoa : Z -> bytes).

Abbreviation Server := (@Cluster K).
Abbreviation Action := (@action K).
Abbreviation Acceptor := (@Accept.Acceptor Server).
Abbreviation ActIn := (act_in same_loop auto_close cb memory).

(** The acceptor, the server behind it, and the open descriptors that are
    neither's. *)
Record Process := mkProcess {
  acceptor : Acceptor;
  elsewhere : gset Z
}.

Definition server (x : Process) : Server := Accept.owner (acceptor x).
Definition fds (x : Process) : gset Z := Accept.fds (acceptor x).
Definition m_listen_fd (x : Process) : Z := Accept.m_listen_fd (acceptor x).
Definition m_idle_fd (x : Process) : Z := Accept.m_idle_fd (acceptor x).

Inductive process_event :=
| Incoming (k : Accept.answers) (w : nat -> Z -> write_result) (r : nat -> Ts.Timestamp) (p : chan_ptr)
    (* the listening socket is readable: handleConnect *)
| Working (l : loop) (a : Action)     (* a loop works *)
| Opens (fd : Z) | Closes (fd : Z).   (* the rest of the process *)

(** What the constructor of [TcpServer] binds to the acceptor. *)
Definition new_connection_callback (w : nat -> Z -> write_result) (r : nat -> Ts.Timestamp) (p : chan_ptr)
    (conn_fd : Z) (_ : Address) (c : Server) : res Server :=
  handleNewConnection same_loop auto_close cb memory w r p conn_fd c.

Definition conn_fd_at (c : Server) (l : loop) (p : chan_ptr) : option Z := fst <$> entry same_loop c l p.

(** The descriptor that [~TcpConnection] closes in an action. *)
Definition closed_by (l : loop) (a : Action) (c : Server) : option Z :=
  match a with Release p => conn_fd_at c l p | _ => None end.

Definition set_fds (s : gset Z) (a : Acceptor) : Acceptor :=
  Accept.mkAcceptor (Accept.m_listen_fd a) (Accept.m_idle_fd a) (Accept.m_address a) (Accept.m_accept_channel a)
    s (Accept.calls a) (Accept.owner a).

Definition process_step (e : process_event) (x : Process) : res Process :=
  match e with
  | Incoming k w r p =>
      a ← Accept.handleConnect inet_ntoa k (Some (new_connection_callback w r p)) (acceptor x);
      Ok (mkProcess a (elsewhere x))
  | Working l a =>
      c ← ActIn l a (server x);
      let acc := Accept.set_owner c (acceptor x) in
      Ok (mkProcess (match closed_by l a (server x) with
                     | Some fd => set_fds (fds x ∖ {[fd]}) acc
                     | None => acc
                     end) (elsewhere x))
  | Opens fd => Ok (mkProcess (set_fds ({[fd]} ∪ fds x) (acceptor x)) ({[fd]} ∪ elsewhere x))
  | Closes fd => Ok (mkProcess (set_fds (fds x ∖ {[fd]}) (acceptor x)) (elsewhere x ∖ {[fd]}))
  end.

Fixpoint process_run (es : list process_event) (x : Process) : res Process :=
  match es with
  | [] => Ok x
  | e :: es' => x ← process_step e x; process_run es' x
  end.

(** A descriptor the kernel can answer with when those of [s] are open. *)
Definition free (fd : Z) (s : gset Z) : Prop := 0 <= fd /\ fd ∉ s.

(** The answers during [handleConnect].  In the branch of [EMFILE] the spare
    descriptor is closed first, and so is the one of [accept] before [open]. *)
Definition answers_ok (k : Accept.answers) (x : Process) : Prop :=
  match Accept.accept4 k with
  | inl fd => free fd (fds x) /\ 0 <= Accept.keepalive_ret k /\ 0 <= Accept.nodelay_ret k
  | inr _ =>
      (Accept.accept k = -1 \/ free (Accept.accept k) (fds x ∖ {[m_idle_fd x]})) /\
      (Accept.open k = -1 \/ free (Accept.open k) (fds x ∖ {[m_idle_fd x]}))
  end.

(** The socket and the clock of a new connection, and the memory of its
    channel. *)
Definition connection_fits (w : nat -> Z -> write_result) (r : nat -> Ts.Timestamp) (p : chan_ptr) (c : Server) : Prop :=
  (forall j len, 0 <= len -> match w j len with Wrote n => 0 <= n <= len | WriteErr _ => True end) /\
  (forall k, time_ok (r k)) /\
  (forall l v, loops c !! l = Some v -> Epoll.channels (shared v) !! p = None).

(** Whether some loop's poller holds the descriptor. *)
Definition registered (c : Server) (l : loop) (fd : Z) : Prop :=
  exists v, loops c !! l = Some v /\ is_Some (Epoll.m_channels (shared v) !! fd).

(** When an event can happen.  The descriptors that a loop watches besides its
    connections' are the listening one and the rest of the process's, which
    closes none that is watched. *)
Definition can_happen (e : process_event) (x : Process) : Prop :=
  match e with
  | Incoming k w r p => answers_ok k x /\ connection_fits w r p (server x)
  | Working l a =>
      exists v, loops (server x) !! l = Some v /\ can_act a v /\
        match a with
        | Accept _ _ _ _ _ _ => False
        | Outside e => forall fd, is_Some (Epoll.m_channels e !! fd) ->
            is_Some (Epoll.m_channels (shared v) !! fd) \/ fd ∈ elsewhere x \/ fd = m_listen_fd x
        | _ => True
        end
  | Opens fd => free fd (fds x)
  | Closes fd => fd ∈ elsewhere x /\ forall l, ~ registered (server x) l fd
  end.

Fixpoint may_happen (es : list process_event) (x : Process) : Prop :=
  match es with
  | [] => True
  | e :: es' => can_happen e x /\ forall x', process_step e x = Ok x' -> may_happen es' x'
  end.

Definition process_reads (e : process_event) : Z := match e with Working _ a => act_reads a | _ => 0 end.

Fixpoint all_process_reads (es : list process_event) : Z :=
  match es with [] => 0 | e :: es' => process_reads e + all_process_reads es' end.

(** ** Who holds a descriptor *)

Inductive holder :=
| Rest                            (* the rest of the process *)
| Listener                        (* the acceptor, to listen *)
| Spare                           (* the acceptor, m_idle_fd *)
| Connection (l : loop) (p : chan_ptr).

Definition holds (x : Process) (h : holder) (fd : Z) : Prop :=
  match h with
  | Rest => fd ∈ elsewhere x
  | Listener => fd = m_listen_fd x
  | Spare => fd = m_idle_fd x /\ 0 <= fd
  | Connection l p => conn_fd_at (server x) l p = Some fd
  end.

(** Every open descriptor has one holder. *)
Record held (x : Process) : Prop := {
  h_open : forall fd, fd ∈ fds x <-> exists h, holds x h fd;
  h_one : forall fd h h', holds x h fd -> holds x h' fd -> h = h';
  h_positive : forall fd, fd ∈ fds x -> 0 <= fd
}.

(** Who may have a loop watch a descriptor. *)
Definition watcher (x : Process) (l : loop) (fd : Z) : Prop :=
  holds x Rest fd \/ holds x Listener fd \/ exists p, holds x (Connection l p) fd.

Record process_ok (room : Z) (x : Process) : Prop := {
  p_server : cluster_ok same_loop room (server x);
  p_held : held x;
  p_spare : m_idle_fd x = -1 \/ 0 <= m_idle_fd x;
  p_watched : forall l fd, registered (server x) l fd -> watcher x l fd
}.

(** The process when the server has started. *)
Definition process_started (x : Process) : Prop :=
  started same_loop (server x) /\ 0 <= m_listen_fd x /\ (m_idle_fd x = -1 \/ 0 <= m_idle_fd x) /\
  m_listen_fd x <> m_idle_fd x /\ (m_listen_fd x ∉ elsewhere x) /\ (m_idle_fd x ∉ elsewhere x) /\
  (forall fd, fd ∈ elsewhere x -> 0 <= fd) /\
  fds x = elsewhere x ∪ {[m_listen_fd x]} ∪ (if 0 <=? m_idle_fd x then {[m_idle_fd x]} else ∅) /\
  (forall l fd, registered (server x) l fd -> fd ∈ elsewhere x \/ fd = m_listen_fd x).

(** ** Lemmas: the loops *)

Context (bound : Z).
Hypothesis bound_request : forall r close, zlen (Response.serialize (cb r (Response.new close))) <= bound.
Hypothesis bound_bad : zlen bad_request <= bound.
Hypothesis bound_int : bound + 2 * kPrePendIndex <= INT_MAX.

Definition fd_in (w : @Reactor K) (p : chan_ptr) : option Z := (fun s => m_conn_fd (conn s)) <$> sessions w !! p.

Lemma conn_fd_at_loop (c : Server) l p : conn_fd_at c l p = (w ← loops c !! l; fd_in w p).
Proof.
  unfold conn_fd_at, entry, fd_in. destruct (loops c !! l) as [w|]; [|done]. simpl.
  by destruct (sessions w !! p).
Qed.

Lemma fill_registers evs : forall active active' (e e' : Epoll.Epoller K),
  Epoll.fillActiveChannels evs active e = Ok (active', e') -> Epoll.m_channels e' = Epoll.m_channels e.
Proof.
  induction evs as [|[r p] evs IH]; intros active active' e e' H; simpl in H; [by injection H as _ <-|].
  bind_inv H. by apply IH in H.
Qed.

Definition fd_after (a : Action) (q : chan_ptr) (old : option Z) : option Z :=
  match a with
  | Accept _ _ _ p fd _ => if decide (q = p) then Some fd else old
  | Release p => if decide (q = p) then None else old
  | _ => old
  end.

(** What an action of a loop does to the descriptors of its connections and to
    those its poller holds. *)
Lemma act_effect a room w w' :
  reactor_ok same_loop room w -> can_act a w -> kPrePendIndex <= room -> room + act_reads a * bound <= INT_MAX ->
  act same_loop auto_close cb memory a w = Ok w' ->
  (forall q, fd_in w' q = fd_after a q (fd_in w q)) /\
  (forall fd, is_Some (Epoll.m_channels (shared w') !! fd) ->
     is_Some (Epoll.m_channels (shared w) !! fd) \/ (exists q, fd_in w q = Some fd) \/
     (exists e, a = Outside e /\ is_Some (Epoll.m_channels e !! fd))) /\
  match a with Release p => forall fd, fd_in w p = Some fd -> Epoll.m_channels (shared w') !! fd = None | _ => True end.
Proof.
  intros Hok Hcan Hlow Hfit H. destruct a as [wr r il p fd id|evs|p ev|p|e]; cbn [act_reads] in Hfit.
  - apply Ok_inj in H as <-. split_and!; [|by left|done]. intros q. unfold fd_in. simpl.
    case_decide as E; [subst; by rewrite lookup_insert_eq | by rewrite lookup_insert_ne].
  - cbn [act] in H. unfold Epoll.poll in H. bind_inv H. destruct x as [act e].
    apply fill_registers in Hx. apply Ok_inj in H as <-. split_and!; [done | | done]. simpl. rewrite Hx. by left.
  - destruct (at_effect same_loop auto_close cb memory bound bound_request bound_bad bound_int p ev room w w' Hok Hcan Hlow Hfit H)
      as (s & s' & Hp & Hs' & Hfd & _). split_and!; [| | done].
    + intros q. unfold fd_in. rewrite Hs'. destruct (decide (q = p)) as [->|];
        [by rewrite lookup_insert_eq, Hp; simpl; rewrite Hfd | by rewrite lookup_insert_ne].
    + intros fd Hreg. destruct (decide (fd = m_conn_fd (conn s))) as [->|Hne].
      { right; left. exists p. unfold fd_in. by rewrite Hp. }
      left. cbn [act] in H. rewrite Hp in H. bind_inv H. apply Ok_inj in H as <-. simpl in *.
      destruct Hcan as (Hno & s0 & Hp0 & Hen). rewrite Hp in Hp0. injection Hp0 as <-.
      destruct (ok_session _ _ _ Hok _ _ Hp) as [Hpc Hsok].
      destruct (step_ok same_loop auto_close cb memory bound bound_request bound_bad bound_int ev _ _ _ Hsok Hen Hlow Hfit)
        as [(s1 & E & Hok1 & [Efd _ _])|[E _]]; rewrite Hx in E; [|done]. apply Ok_inj in E as <-.
      assert (base ev (shared w) = shared w) as Eb by (destruct ev as [| | | | | | |e1]; try done; by destruct (Hno e1)).
      rewrite Eb in Hok1. destruct (session_frame _ _ _ _ Hok1) as [_ Hm].
      rewrite Efd in Hm. by rewrite <- Hm.
  - cbn [act] in H. destruct (sessions w !! p) as [s|] eqn:Hp; [|done]. bind_inv H. apply Ok_inj in H as <-.
    destruct Hcan as (s0 & Hp0 & Hst & Hrem & Hf). rewrite Hp in Hp0. injection Hp0 as <-.
    destruct (ok_session _ _ _ Hok _ _ Hp) as [Hpc Hsok].
    pose proof (session_over _ _ _ _ Hsok Hst Hrem Hf) as [(ch & Hch & _ & Hfd & _) _ Hmap _ _]. simpl in Hch, Hfd, Hmap. rewrite Hpc in Hch.
    unfold Tcp.destroy, Epoll.destroy, Epoll.hasChannel in Hx. simpl in Hx.
    rewrite Hpc, (Epoll.deref_Ok _ _ _ Hch) in Hx. cbn [mbind res_bind] in Hx.
    rewrite Hfd, Hmap in Hx. cbn [mbind res_bind] in Hx. apply Ok_inj in Hx as <-. split_and!.
    + intros q. unfold fd_in. simpl. case_decide as E; [subst; by rewrite lookup_delete_eq | by rewrite lookup_delete_ne].
    + by left.
    + unfold fd_in. rewrite Hp. intros ? [= <-]. done.
  - apply Ok_inj in H as <-. split_and!; [done | | done]. intros fd Hfd. right; right. by exists e.
Qed.

(** The same of the server. *)
Lemma act_in_effect l a room (c c' : Server) :
  (forall w, loops c !! l = Some w -> reactor_ok same_loop room w /\ can_act a w) -> kPrePendIndex <= room ->
  room + act_reads a * bound <= INT_MAX -> ActIn l a c = Ok c' ->
  (forall l' q, conn_fd_at c' l' q = if decide (l' = l) then fd_after a q (conn_fd_at c l q) else conn_fd_at c l' q) /\
  (forall l' fd, registered c' l' fd ->
     registered c l' fd \/ (exists q, conn_fd_at c l' q = Some fd) \/
     (exists e, a = Outside e /\ l' = l /\ is_Some (Epoll.m_channels e !! fd))) /\
  match a with Release p => forall fd, conn_fd_at c l p = Some fd -> ~ registered c' l fd | _ => True end.
Proof.
  intros Hcan Hlow Hfit H. apply act_in_inv in H as (w & w' & Hl & Hrun & Hl'). destruct (Hcan _ Hl) as [Hok Ha].
  destruct (act_effect a room w w' Hok Ha Hlow Hfit Hrun) as (Hq & Hreg & Hrel).
  split_and!.
  - intros l' q. rewrite !conn_fd_at_loop, Hl'. case_decide as E; [|by rewrite lookup_insert_ne].
    subst. rewrite lookup_insert_eq, Hl. apply Hq.
  - intros l' fd (v & Hv & Hs). rewrite Hl' in Hv. apply lookup_insert_Some in Hv as [[<- <-]|[Hne Hv]].
    + destruct (Hreg _ Hs) as [?|[[q Hfd]|(e & -> & He)]].
      * left. by exists w.
      * right; left. exists q. by rewrite conn_fd_at_loop, Hl.
      * right; right. by exists e.
    + left. by exists v.
  - destruct a; try done. intros fd Hfd (v & Hv & [q Hs]). rewrite Hl', lookup_insert_eq in Hv. injection Hv as <-.
    rewrite conn_fd_at_loop, Hl in Hfd. by rewrite (Hrel _ Hfd) in Hs.
Qed.

Lemma conn_fd_at_loops (c c' : Server) l p : loops c = loops c' -> conn_fd_at c l p = conn_fd_at c' l p.
Proof. intros E. by rewrite !conn_fd_at_loop, E. Qed.

Lemma new_connection_effect w r p fd room (c c' : Server) :
  cluster_ok same_loop room c -> can_serve same_loop (NewConnection w r p fd) c -> kPrePendIndex <= room -> room <= INT_MAX ->
  handleNewConnection same_loop auto_close cb memory w r p fd c = Ok c' ->
  exists l, conn_fd_at c l p = None /\
    (forall l' q, conn_fd_at c' l' q = if decide (l' = l /\ q = p) then Some fd else conn_fd_at c l' q) /\
    (forall l' fd', registered c' l' fd' -> registered c l' fd' \/ exists q, conn_fd_at c' l' q = Some fd').
Proof.
  intros Hok Hcan Hlow Hroom H.
  destruct (new_connection_acts same_loop auto_close cb memory bound bound_request bound_bad bound_int w r p fd room c c' Hok Hcan Hlow H)
    as (l & pool & v & v' & c2 & _ & Hl & Hv & Hacc & Hrun & Hv' & Hl2 & Hc').
  revert Hacc Hrun Hc'. generalize (bool_decide (l = LoopPool.m_base_loop pool)) as here. intros here Hacc Hrun Hc'.
  set (c1 := mkCluster (m_loop_thread_pool c) (m_next_connection_id c) (m_connections c) (<[l := v']> (loops c))).
  assert (ActIn l (Accept w r here p fd (m_next_connection_id c)) c = Ok c1) as Hx by (unfold act_in; by rewrite Hl, Hrun).
  destruct (act_in_effect _ _ room _ _ ltac:(intros ? E; rewrite Hl in E; injection E as <-; exact (conj Hv Hacc)) Hlow ltac:(simpl; lia) Hx)
    as (Hq1 & Hr1 & _). cbn [fd_after] in Hq1.
  assert (conn_fd_at c l p = None) as Hnone.
  { rewrite conn_fd_at_loop, Hl. unfold fd_in. simpl. rewrite (fresh_session same_loop room v p Hv); [done | apply Hacc]. }
  assert (forall l' q, conn_fd_at c2 l' q = if decide (l' = l /\ q = p) then Some fd else conn_fd_at c l' q) as Hq2.
  { intros l' q. rewrite (conn_fd_at_loops c2 c1) by done. rewrite Hq1.
    destruct (decide (l' = l)) as [->|]; [|by rewrite (decide_False (P := _ /\ _)) by (by intros [])].
    destruct (decide (q = p)) as [->|]; [by rewrite decide_True by done | by rewrite (decide_False (P := _ /\ _)) by (by intros [])]. }
  assert (forall l' fd', registered c2 l' fd' -> registered c l' fd' \/ exists q, conn_fd_at c2 l' q = Some fd') as Hr2.
  { intros l' fd' Hr. assert (registered c1 l' fd') as Hr' by (unfold registered in *; by rewrite Hl2 in Hr).
    destruct (Hr1 l' fd' Hr') as [?|[[q Hq]|(e & ? & _)]]; [by left | right | done].
    exists q. rewrite Hq2. case_decide as E; [|done]. destruct E as [-> ->]. congruence. }
  exists l. split; [done|]. destruct here; [|by subst]. destruct Hc' as [Hest Hc'].
  destruct (act_in_effect l (At p Established) room c2 c') as (Hq3 & Hr3 & _); [ | done | simpl; lia | done |].
  { intros v2 Hv2. rewrite Hl2, lookup_insert_eq in Hv2. by injection Hv2 as <-. }
  cbn [fd_after] in Hq3.
  assert (forall l' q, conn_fd_at c' l' q = conn_fd_at c2 l' q) as Hsame.
  { intros l' q. rewrite Hq3. by case_decide; subst. }
  split; [intros; by rewrite Hsame|]. intros l' fd' Hr.
  destruct (Hr3 l' fd' Hr) as [H3|[[q Hq]|(e & ? & _)]]; [ | right; exists q; by rewrite Hsame | done].
  destruct (Hr2 _ _ H3) as [?|[q Hq]]; [by left | right; exists q; by rewrite Hsame].
Qed.

(** ** Lemmas: the holders *)

Lemma held_same x x' :
  held x -> fds x' = fds x -> (forall h fd, holds x' h fd <-> holds x h fd) -> held x'.
Proof.
  intros [Ho H1 Hp] Ef Hh. split.
  - intros fd. rewrite Ef, Ho. by setoid_rewrite Hh.
  - intros fd h h'. rewrite !Hh. apply H1.
  - by rewrite Ef.
Qed.

(** A descriptor is closed, and its holder gives it up. *)
Lemma held_gone fd0 x x' :
  held x -> fds x' = fds x ∖ {[fd0]} -> (forall h fd, holds x' h fd <-> holds x h fd /\ fd <> fd0) -> held x'.
Proof.
  intros [Ho H1 Hp] Ef Hh. split.
  - intros fd. rewrite Ef, elem_of_difference, not_elem_of_singleton, Ho. split.
    + intros [[h H] Hne]. exists h. by apply Hh.
    + intros [h [H Hne]%Hh]. eauto.
  - intros fd h h' [? _]%Hh [? _]%Hh. by eapply H1.
  - rewrite Ef. intros fd [? _]%elem_of_difference. auto.
Qed.

(** A descriptor that was free is opened, and somebody has it. *)
Lemma held_new h0 fd0 x x' :
  held x -> free fd0 (fds x) -> fds x' = {[fd0]} ∪ fds x ->
  (forall h fd, holds x' h fd <-> holds x h fd \/ (h = h0 /\ fd = fd0)) -> held x'.
Proof.
  intros [Ho H1 Hp] [Hpos Hfree] Ef Hh.
  assert (forall h, ~ holds x h fd0) as Hnone by (intros h H; apply Hfree, Ho; eauto).
  split.
  - intros fd. rewrite Ef, elem_of_union, elem_of_singleton, Ho. split.
    + intros [->|[h H]]; [exists h0 | exists h]; apply Hh; auto.
    + intros [h [H|[_ ->]]%Hh]; eauto.
  - intros fd h h' [?|[-> ->]]%Hh [?|[-> E]]%Hh; subst; try done; [by eapply H1 | by destruct (Hnone h) | by destruct (Hnone h')].
  - rewrite Ef. intros fd [->%elem_of_singleton|?]%elem_of_union; auto.
Qed.

Lemma held_released h0 fd0 x x' :
  held x -> holds x h0 fd0 -> (forall fd, holds x h0 fd -> fd = fd0) -> fds x' = fds x ∖ {[fd0]} ->
  (forall h fd, holds x' h fd <-> holds x h fd /\ h <> h0) ->
  held x' /\ forall h fd, holds x' h fd <-> holds x h fd /\ fd <> fd0.
Proof.
  intros Hh H0 Hu Ef Hx'.
  assert (forall h fd, holds x' h fd <-> holds x h fd /\ fd <> fd0) as Hfd.
  { intros h fd. rewrite Hx'. split; intros [H Hne]; split; try done.
    - intros ->. by apply Hne, (h_one _ Hh fd0).
    - intros ->. by apply Hne, Hu. }
  split; [|done]. by apply (held_gone fd0 x).
Qed.

(** ** Lemmas: the events *)

Lemma working_ok l a room x :
  process_ok room x -> can_happen (Working l a) x -> kPrePendIndex <= room -> room + act_reads a * bound <= INT_MAX ->
  (exists x', process_step (Working l a) x = Ok x' /\ process_ok (room + act_reads a * bound) x') \/
  (exists w, loops (server x) !! l = Some w /\ crashes same_loop auto_close cb memory a w).
Proof.
  intros Hok (w & Hl & Hcan & Ha) Hlow Hfit. pose proof Hok as [Hc Hh Hs Hw].
  destruct (act_in_ok same_loop auto_close cb memory bound bound_request bound_bad bound_int l a room (server x) Hc)
    as [(c' & Hrun & Hc')|?]; [|done..|left | by right].
  { exists w. split_and!; [done..|]. by destruct a. }
  destruct (act_in_effect l a room (server x) c') as (Hq & Hreg & Hrel); [|done..|].
  { intros v Hv. split; [by eapply (ok_reactors _ _ _ Hc)|]. rewrite Hl in Hv. by injection Hv as <-. }
  cbn [process_step]. rewrite Hrun. cbn [mbind res_bind]. eexists. split; [done|].
  assert (forall l' fd, registered c' l' fd -> watcher x l' fd) as Hwatch.
  { intros l' fd Hr. destruct (Hreg l' fd Hr) as [?|[[q Hfd]|(e & -> & -> & He)]];
      [by apply Hw | right; right; by exists q|].
    destruct (Ha fd He) as [?|[?|?]]; [apply Hw; by exists w | by left | right; by left]. }
  destruct (closed_by l a (server x)) as [fd0|] eqn:Ecl.
  - destruct a as [| | |p|]; try done. simpl in Ecl.
    destruct (held_released (Connection l p) fd0 x
      (mkProcess (set_fds (fds x ∖ {[fd0]}) (Accept.set_owner c' (acceptor x))) (elsewhere x))) as [Hh' Hholds]; try done.
    + intros fd H. simpl in H. congruence.
    + intros [| | |l' q] fd; simpl; [naive_solver..|]. unfold server. simpl. rewrite Hq. cbn [fd_after].
      repeat case_decide; naive_solver.
    + split; try done. intros l' fd Hr. pose proof (Hwatch l' fd Hr) as Hwa. simpl in Hr.
      destruct (decide (fd = fd0)) as [->|Hne].
      * exfalso. assert (l' = l) as ->; [|by apply (Hrel fd0)].
        destruct Hwa as [Hwa|[Hwa|[q Hwa]]]; pose proof (h_one _ Hh fd0 _ (Connection l p) Hwa Ecl); congruence.
      * destruct Hwa as [?|[?|[q ?]]]; [left | right; left | right; right; exists q]; by apply Hholds.
  - assert (forall l' q, conn_fd_at c' l' q = conn_fd_at (server x) l' q) as Hsame.
    { intros l' q. rewrite Hq. case_decide as E; [|done]. subst. destruct a as [| | |p|]; try done. cbn [fd_after].
      by case_decide; subst. }
    assert (forall h fd, holds (mkProcess (Accept.set_owner c' (acceptor x)) (elsewhere x)) h fd <-> holds x h fd) as Hholds.
    { intros [| | |l' q] fd; try done. simpl. unfold server at 1. simpl. by rewrite Hsame. }
    split; try done; [by apply (held_same x)|]. intros l' fd Hr.
    destruct (Hwatch l' fd Hr) as [?|[?|[q ?]]]; [left | right; left | right; right; exists q]; by apply Hholds.
Qed.

Lemma elsewhere_ok e room x :
  process_ok room x -> can_happen e x -> match e with Opens _ | Closes _ => True | _ => False end ->
  exists x', process_step e x = Ok x' /\ process_ok room x'.
Proof.
  intros [Hc Hh Hs Hw] Hcan He. destruct e as [| |fd0|fd0]; try done; simpl in *.
  - eexists. split; [done|].
    assert (forall h fd, holds (mkProcess (set_fds ({[fd0]} ∪ fds x) (acceptor x)) ({[fd0]} ∪ elsewhere x)) h fd <->
      holds x h fd \/ (h = Rest /\ fd = fd0)) as Hholds.
    { intros [| | |l' q] fd; simpl; [set_solver | naive_solver..]. }
    split; try done; [by apply (held_new Rest fd0 x)|]. intros l' fd Hr.
    destruct (Hw l' fd Hr) as [?|[?|[q ?]]]; [left | right; left | right; right; exists q]; apply Hholds; by left.
  - destruct Hcan as [Hin Hno]. eexists. split; [done|].
    assert (forall h fd, holds (mkProcess (set_fds (fds x ∖ {[fd0]}) (acceptor x)) (elsewhere x ∖ {[fd0]})) h fd <->
      holds x h fd /\ fd <> fd0) as Hholds.
    { intros h fd.
      assert (holds x h fd -> h <> Rest -> fd <> fd0) as Hne by (intros H Hr ->; by apply Hr, (h_one _ Hh fd0)).
      destruct h; simpl in *; [set_solver | naive_solver..]. }
    split; try done; [by apply (held_gone fd0 x)|]. intros l' fd Hr.
    assert (fd <> fd0) by (intros ->; by apply (Hno l')).
    destruct (Hw l' fd Hr) as [?|[?|[q ?]]]; [left | right; left | right; right; exists q]; by apply Hholds.
Qed.

(** The spare descriptor makes room for the connection that is dropped. *)
Definition spare_gone (x : Process) : Process :=
  mkProcess (Accept.set_idle (-1) (set_fds (fds x ∖ {[m_idle_fd x]}) (acceptor x))) (elsewhere x).

Lemma spare_gone_held x : held x -> m_idle_fd x = -1 \/ 0 <= m_idle_fd x -> held (spare_gone x).
Proof.
  intros Hh [E|Hpos].
  - apply (held_same x); [done | |].
    + unfold fds, spare_gone. simpl. fold (fds x). rewrite E.
      apply remove_absent. intros H%(h_positive _ Hh). lia.
    + intros [| | |l q] fd; try done. simpl. unfold m_idle_fd at 1. simpl. rewrite E. done.
  - apply (held_released Spare (m_idle_fd x) x); [done | done | by intros fd [-> _] | done |].
    intros [| | |l q] fd; simpl; try (split; [by intros H; split | by intros []]).
    unfold m_idle_fd at 1. simpl. split; [lia | by intros [_ []]].
Qed.

(** A spare descriptor is opened again, or not. *)
Lemma spare_opened fd x :
  held x -> m_idle_fd x = -1 -> fd = -1 \/ free fd (fds x) ->
  held (mkProcess (Accept.set_idle fd (set_fds (if 0 <=? fd then {[fd]} ∪ fds x else fds x) (acceptor x))) (elsewhere x)).
Proof.
  intros Hh E [->|Hfree].
  - apply (held_same x); try done. intros [| | |l q] fd; try done. simpl. rewrite E. done.
  - pose proof Hfree as [Hpos _]. rewrite (proj2 (Z.leb_le _ _)) by done.
    apply (held_new Spare fd x); [done.. |].
    intros [| | |l q] fd'; simpl; try (split; [by left | by intros [?|[? _]]]).
    unfold m_idle_fd at 1. simpl. rewrite E. split; [intros [-> _]; by right | intros [?|[_ ->]]; [lia | done]].
Qed.

Lemma full_ok k w r p room x e :
  process_ok room x -> answers_ok k x -> Accept.accept4 k = inr e ->
  exists x', process_step (Incoming k w r p) x = Ok x' /\ process_ok room x'.
Proof.
  intros Hok Hk E. unfold answers_ok in Hk. rewrite E in Hk. destruct Hk as [Hacc Hopen].
  cbn [process_step]. unfold Accept.handleConnect. rewrite E. pose proof Hok as [Hc Hh Hs Hw].
  destruct (e =? Accept.EMFILE); cbn [mbind res_bind]; eexists; (split; [done|]).
  2: { split; try done. by apply (held_same x). }
  pose proof (spare_opened (Accept.open k) (spare_gone x) (spare_gone_held x Hh Hs) eq_refl Hopen) as Hfin.
  assert ((if 0 <=? Accept.accept k then {[Accept.accept k]} ∪ (fds x ∖ {[m_idle_fd x]}) else fds x ∖ {[m_idle_fd x]})
    ∖ {[Accept.accept k]} = fds x ∖ {[m_idle_fd x]}) as Ecl.
  { destruct Hacc as [->|[Hpos Hfree]].
    - apply remove_absent. intros [H%(h_positive _ Hh) _]%elem_of_difference. lia.
    - rewrite (proj2 (Z.leb_le _ _)) by done. by apply open_and_close. }
  unfold fds, m_idle_fd in Ecl.
  split; simpl; [done | | | done].
  - refine (held_same _ _ Hfin _ _); [by unfold fds; simpl; rewrite Ecl | done].
  - destruct Hopen as [->|[? _]]; [by left | by right].
Qed.

Lemma accepted_ok k w r p room x fd :
  process_ok room x -> answers_ok k x -> connection_fits w r p (server x) -> Accept.accept4 k = inl fd ->
  kPrePendIndex <= room -> room <= INT_MAX ->
  exists x', process_step (Incoming k w r p) x = Ok x' /\ process_ok room x'.
Proof.
  intros Hok Hk (Hwr & Ht & Hmem) E Hlow Hfit. unfold answers_ok in Hk. rewrite E in Hk.
  destruct Hk as ([Hpos Hfree] & Hk1 & Hk2). pose proof Hok as [Hc Hh Hs Hw].
  assert (forall h, ~ holds x h fd) as Hnone by (intros h H; apply Hfree, (h_open _ Hh); eauto).
  assert (can_serve same_loop (NewConnection w r p fd) (server x)) as Hcan.
  { split.
    - intros l pool v _ Hv. split; try done; [by eapply Hmem|].
      destruct (Epoll.m_channels (shared v) !! fd) as [q|] eqn:Ev; [|done].
      destruct (Hw l fd) as [H|[H|[q' H]]]; [exists v; by rewrite Ev | by destruct (Hnone Rest) | by destruct (Hnone Listener) |
        by destruct (Hnone (Connection l q'))].
    - intros l q b H. apply (Hnone (Connection l q)). simpl. unfold conn_fd_at. by rewrite H. }
  destruct (new_connection_ok same_loop auto_close cb memory bound bound_request bound_bad bound_int w r p fd room (server x) Hc Hcan Hlow Hfit)
    as (c' & Hrun & Hc').
  destruct (new_connection_effect w r p fd room (server x) c' Hc Hcan Hlow Hfit Hrun) as (l0 & Hl0 & Hq & Hreg).
  cbn [process_step]. unfold Accept.handleConnect, Accept.setKeepAlive, Accept.setTcpNoDelay, Accept.or_exit. rewrite E.
  rewrite !(proj2 (Z.ltb_ge _ _)) by done. cbn [mbind res_bind Accept.owner Accept.sys].
  unfold new_connection_callback. fold (server x). rewrite Hrun. cbn [mbind res_bind]. eexists. split; [done|].
  set (x' := mkProcess _ _).
  assert (forall h fd', holds x' h fd' <-> holds x h fd' \/ (h = Connection l0 p /\ fd' = fd)) as Hholds.
  { intros [| | |l q] fd'; simpl; [naive_solver..|]. unfold server at 1. simpl. rewrite Hq. case_decide as Ed.
    - destruct Ed as [-> ->]. rewrite Hl0. naive_solver.
    - split; [by left|]. intros [?|[[= -> ->] _]]; [done|]. by destruct Ed. }
  split; try done; [by apply (held_new (Connection l0 p) fd x)|]. intros l' fd' Hr.
  destruct (Hreg l' fd' Hr) as [Hr'|[q Hfd]]; [|right; right; by exists q].
  destruct (Hw l' fd' Hr') as [?|[?|[q ?]]]; [left | right; left | right; right; exists q]; apply Hholds; by left.
Qed.

Lemma process_step_ok e room x :
  process_ok room x -> can_happen e x -> kPrePendIndex <= room -> room + process_reads e * bound <= INT_MAX ->
  (exists x', process_step e x = Ok x' /\ process_ok (room + process_reads e * bound) x') \/
  (exists l a w, e = Working l a /\ loops (server x) !! l = Some w /\ crashes same_loop auto_close cb memory a w).
Proof.
  intros Hok Hcan Hlow Hfit.
  destruct e as [k w r p|l a|fd|fd]; cbn [process_reads] in *; rewrite ?Z.add_0_r in *.
  - left. destruct Hcan as [Hk Hfits]. destruct (Accept.accept4 k) as [fd|e] eqn:E;
      [by apply (accepted_ok k w r p room x fd) | by apply (full_ok k w r p room x e)].
  - destruct (working_ok l a room x Hok Hcan Hlow Hfit) as [?|[w ?]]; [by left | right; by exists l, a, w].
  - left. by apply elsewhere_ok.
  - left. by apply elsewhere_ok.
Qed.

Lemma process_reads_nonneg e : 0 <= process_reads e.
Proof. by destruct e as [|? [| |? []| |]| |]. Qed.

Lemma all_process_reads_nonneg es : 0 <= all_process_reads es.
Proof. induction es as [|e es IH]; simpl; [done | pose proof (process_reads_nonneg e); lia]. Qed.

Lemma process_run_ok es : forall room x,
  process_ok room x -> may_happen es x -> kPrePendIndex <= room -> room + all_process_reads es * bound <= INT_MAX ->
  (exists x', process_run es x = Ok x' /\ process_ok (room + all_process_reads es * bound) x') \/
  (exists es1 l a es2 x1 w, es = es1 ++ Working l a :: es2 /\ process_run es1 x = Ok x1 /\
     loops (server x1) !! l = Some w /\ crashes same_loop auto_close cb memory a w).
Proof.
  pose proof (zlen_nonneg bad_request).
  induction es as [|e es IH]; intros room x Hok Hcan Hlow Hfit; cbn [process_run all_process_reads] in *.
  { left. exists x. by rewrite Z.add_0_r. }
  destruct Hcan as [He Hcan]. pose proof (process_reads_nonneg e). pose proof (all_process_reads_nonneg es).
  destruct (process_step_ok e room x Hok He Hlow) as [(x1 & Hrun & Hok1)|(l & a & w & -> & Hl & Hcr)]; [nia | |].
  - rewrite Hrun. cbn [mbind res_bind].
    destruct (IH _ _ Hok1 (Hcan _ Hrun)) as [(x' & Hrun' & Hok')|(es1 & l & a & es2 & x2 & w & -> & Hrun2 & Hl & Hcr)];
      [nia | nia | left | right].
    + exists x'. split; [done|]. by replace (room + (process_reads e + all_process_reads es) * bound)
        with (room + process_reads e * bound + all_process_reads es * bound) by lia.
    + exists (e :: es1), l, a, es2, x2, w. cbn [app process_run]. rewrite Hrun. by split_and!.
  - right. by exists [], l, a, es, x, w.
Qed.

Lemma process_started_ok x : process_started x -> process_ok kPrePendIndex x.
Proof.
  intros (Hst & Hl & Hi & Hne & Hle & Hie & Hpos & Hf & Hw).
  assert (forall l p, conn_fd_at (server x) l p = None) as Hnone.
  { intros l p. rewrite conn_fd_at_loop. destruct Hst as (_ & _ & _ & _ & _ & Hidle & _).
    destruct (loops (server x) !! l) as [w|] eqn:E; [|done]. simpl. unfold fd_in. by rewrite (proj2 (Hidle _ _ E)). }
  assert (forall fd, fd ∈ fds x <-> fd ∈ elsewhere x \/ fd = m_listen_fd x \/ (fd = m_idle_fd x /\ 0 <= fd)) as Hin.
  { intros fd. rewrite Hf, !elem_of_union, elem_of_singleton.
    destruct (Z.leb_spec 0 (m_idle_fd x)); rewrite ?elem_of_singleton, ?elem_of_empty; clear -H; intuition lia. }
  split; [by apply started_ok | split | done |].
  - intros fd. rewrite Hin. split.
    + intros [?|[?|?]]; [by exists Rest | by exists Listener | by exists Spare].
    + intros [[| | |l p] H]; simpl in H; auto. by rewrite Hnone in H.
  - intros fd [| | |l p] [| | |l' p']; simpl; rewrite ?Hnone; intros H H'; try congruence; destruct_and?; congruence.
  - intros fd [?|[->|[_ ?]]]%Hin; auto.
  - intros l fd Hr. destruct (Hw l fd Hr); [by left | right; by left].
Qed.

(** ** Properties *)

(** C19. No descriptor is leaked or closed twice.  From the start of the server,
    whatever clients come, whatever its connections do in whatever order, and
    even when the process runs out of descriptors and the spare one is used to
    drop a client: as long as the kernel answers with descriptors that are
    free, every open descriptor has exactly one holder (a connection of some
    loop, the listening socket, the spare one or the rest of the process), no
    two connections share one, a loop watches none that is closed, and the
    server's own invariant holds; but for the one crash of Session.v. *)
Theorem descriptors_accounted es x :
  process_started x -> may_happen es x -> kPrePendIndex + all_process_reads es * bound <= INT_MAX ->
  (exists x', process_run es x = Ok x' /\
     (forall fd, fd ∈ fds x' <-> exists h, holds x' h fd) /\
     (forall fd h h', holds x' h fd -> holds x' h' fd -> h = h') /\
     (forall l fd, registered (server x') l fd -> fd ∈ fds x') /\
     cluster_ok same_loop (kPrePendIndex + all_process_reads es * bound) (server x')) \/
  (exists es1 l a es2 x1 w, es = es1 ++ Working l a :: es2 /\ process_run es1 x = Ok x1 /\
     loops (server x1) !! l = Some w /\ crashes same_loop auto_close cb memory a w).
Proof.
  intros Hst Hcan Hfit.
  destruct (process_run_ok es _ x (process_started_ok x Hst) Hcan ltac:(done) Hfit) as [(x' & Hrun & [Hc [Ho H1 _] _ Hw])|?];
    [left | by right].
  exists x'. split_and!; try done. intros l fd Hr. apply Ho.
  destruct (Hw l fd Hr) as [?|[?|[p ?]]]; [by exists Rest | by exists Listener | by exists (Connection l p)].
Qed.

End WithKernel.

(** ** A witness *)

(** The two clients of Cluster.v through the acceptor; the first goes away, the
    log rolls a file, and then the process is full: the spare descriptor lets a
    third one in to be dropped. *)
Abbreviation table := (gmap Z (Z * chan_ptr)).
Abbreviation Process_step := (process_step false true resCallback (fun _ _ => []) (fun _ => [])).
Abbreviation Process_run := (process_run false true resCallback (fun _ _ => []) (fun _ => [])).
Abbreviation May_happen := (may_happen false true resCallback (fun _ _ => []) (fun _ => [])).

Definition ready_process : @Process table :=
  mkProcess (Accept.mkAcceptor 3 4 (mkAddress [] 0) (Chan.new 3) {[3; 4; 5; 6]} [] two_loops) {[5; 6]}.

Definition arriving (fd : Z) : Accept.answers := Accept.mkAnswers (inl fd) 1 80 (-1) (-1) 0 0.
Definition full : Accept.answers := Accept.mkAnswers (inr Accept.EMFILE) 0 0 4 4 0 0.

Definition busy_day : list (@process_event table) :=
  [Incoming (arriving 7) two_bytes ticking 1; Incoming (arriving 8) two_bytes ticking 2;
   Working 1 (At 1 Established); Working 2 (At 2 Established);
   Working 1 (Poll [(Z.lor EPOLLIN EPOLLRDHUP, 1%positive)]); Working 1 (At 1 (Dispatched (ReadvOk [])));
   Working 1 (At 1 Remove); Working 1 (At 1 RunFunctor); Closes 6; Opens 9; Working 1 (Release 1);
   Incoming full two_bytes ticking 3].

Definition process_at (r : res (@Process table)) : Process := match r with Ok x => x | Fault _ => ready_process end.

Example busy_day_fds : elements (fds (process_at (Process_run busy_day ready_process))) ≡ₚ [3; 4; 5; 8; 9].
Proof. apply (bool_decide_unpack _). vm_compute. reflexivity. Qed.

Lemma ready_process_started : process_started false ready_process.
Proof.
  assert (forall fd, fd ∈ ({[5; 6]} : gset Z) -> 0 <= fd) as Hpos
    by (intros fd [->%elem_of_singleton| ->%elem_of_singleton]%elem_of_union; lia).
  unfold process_started. repeat match goal with |- _ /\ _ => split end;
    [apply two_loops_started | done | by right | done | by apply (bool_decide_unpack _) | by apply (bool_decide_unpack _)
    | exact Hpos | by apply (bool_decide_unpack _) |].
  intros l fd (v & Hv & [q Hq]). unfold server, ready_process, two_loops in Hv. simpl in Hv.
  rewrite !lookup_insert_Some, lookup_singleton_Some in Hv.
  destruct Hv as [[_ <-]|[_ [[_ <-]|[_ [_ <-]]]]]; by vm_compute in Hq.
Qed.

Lemma happens_next e es x :
  can_happen e x -> May_happen es (process_at (Process_step e x)) -> May_happen (e :: es) x.
Proof. intros He Hes. split; [done|]. intros x' E. by rewrite E in Hes. Qed.

(** [can_happen], by evaluation. *)
Definition fresh_channel (p : chan_ptr) (x : @Process table) : bool :=
  bool_decide (map_Forall (fun _ v => Epoll.channels (shared v) !! p = None) (loops (server x))).

Definition unwatched (fd : Z) (x : @Process table) : bool :=
  bool_decide (map_Forall (fun _ v => Epoll.m_channels (shared v) !! fd = None) (loops (server x))).

Lemma can_incoming k p x :
  answers_ok k x -> fresh_channel p x = true -> can_happen (Incoming k two_bytes ticking p) x.
Proof.
  intros Hk Hp%bool_decide_eq_true. destruct can_open_example as [_ _ Hw Hr].
  split; [done|]. split; [exact Hw|]. split; [exact Hr|]. intros l v Hv. exact (Hp l v Hv).
Qed.

Lemma can_close fd x : bool_decide (fd ∈ elsewhere x) = true -> unwatched fd x = true -> can_happen (Closes fd) x.
Proof.
  intros Hin%bool_decide_eq_true Hw%bool_decide_eq_true. split; [done|]. intros l (v & Hv & [q Hq]). by rewrite (Hw l v Hv) in Hq.
Qed.

Lemma can_arrive fd p x :
  0 <= fd -> bool_decide (fd ∈ fds x) = false -> fresh_channel p x = true ->
  can_happen (Incoming (arriving fd) two_bytes ticking p) x.
Proof. intros Hpos Hfd%bool_decide_eq_false Hp. apply can_incoming; [|done]. by split. Qed.

Lemma can_shed p x : m_idle_fd x = 4 -> fresh_channel p x = true -> can_happen (Incoming full two_bytes ticking p) x.
Proof.
  intros Hi Hp. apply can_incoming; [|done]. unfold answers_ok. simpl. rewrite Hi.
  split; right; (split; [lia|]); by intros [_ []%not_elem_of_singleton]%elem_of_difference.
Qed.

Lemma can_open_fd fd x : 0 <= fd -> bool_decide (fd ∈ fds x) = false -> can_happen (Opens fd) x.
Proof. intros Hpos Hfd%bool_decide_eq_false. by split. Qed.

Ltac works l :=
  apply happens_next;
  [match goal with |- can_happen (Working l ?a) ?x =>
     exists (loop_at (server x) l); split; [apply loop_at_ok; by vm_compute|]; split; [|exact I];
     match a with
     | At ?p _ =>
         split; [intros ?; discriminate|]; exists (here (loop_at (server x) l) p); split; [apply here_ok; by vm_compute|];
         first [exact I | by vm_compute | by vm_compute; eexists | split; [by vm_compute; eexists | by vm_compute]]
     | Poll _ => apply Forall_singleton; first [exists 7; by vm_compute; eexists | exists 8; by vm_compute; eexists]
     | Release ?p => exists (here (loop_at (server x) l) p); split; [apply here_ok; by vm_compute | by vm_compute]
     end end |].

Lemma busy_day_may : May_happen busy_day ready_process.
Proof.
  unfold busy_day. do 2 (apply happens_next; [by apply can_arrive; vm_compute|]).
  works 1%nat. works 2%nat. do 4 works 1%nat.
  apply happens_next; [by apply can_close; vm_compute|].
  apply happens_next; [by apply can_open_fd; vm_compute|].
  works 1%nat. apply happens_next; [by apply can_shed; vm_compute | done].
Qed.

Lemma descriptors_accounted_witness :
  (exists x', Process_run busy_day ready_process = Ok x' /\
     (forall fd, fd ∈ fds x' <-> exists h, holds false x' h fd) /\
     (forall fd h h', holds false x' h fd -> holds false x' h' fd -> h = h') /\
     (forall l fd, registered (server x') l fd -> fd ∈ fds x') /\
     cluster_ok false (kPrePendIndex + all_process_reads busy_day * kResponseMax) (server x')) \/
  (exists es1 l a es2 x1 w, busy_day = es1 ++ Working l a :: es2 /\ Process_run es1 ready_process = Ok x1 /\
     loops (server x1) !! l = Some w /\ crashes false true resCallback (fun _ _ => []) a w).
Proof.
  apply (descriptors_accounted false true resCallback (fun _ _ => []) (fun _ => []) kResponseMax resCallback_bound
           ltac:(by vm_compute) ltac:(by vm_compute) busy_day ready_process).
  - apply ready_process_started.
  - apply busy_day_may.
  - by vm_compute.
Defined.

End Descr.
