(* ===== verification/Startup.v ===== *)
(** * Startup: what main() builds before it runs the loop

    main.cpp, with the constructors it calls: the event loop with its poller,
    its eventfd and its timer queue, the HTTP server with its acceptor and its
    thread pool, then the listening socket and the first timer.  The answers of
    the kernel are arguments. *)

From Stdlib Require Import ZArith Lia Ascii String.
From stdpp Require Import options.
From S2P Require Import Prelude CStd HttpRequest HttpResponse Channel Epoller Timestamp RBTreeTimer HttpServer LoopThreadPool Acceptor.

#[local] Set Default Proof Using "Type*".

Module Main.
Import Request.

Section WithKernel.
Context {K T : Type} `{!EpollKernel K} `{!TimerfdKernel T}.

(** The timer callbacks of the process: that of main, which does nothing, and
    the idle checks. *)
Inductive timer_callback := timerEvent | IdleCheck (p : chan_ptr).

Abbreviation Timers := (Timers.RBTreeTimer K T timer_callback).
Abbreviation Poller := (Epoll.Epoller K).

(** ** The event loop *)

(** The answers of [epoll_create1], [eventfd] and [timerfd_create], and the
    addresses of the two channels. *)
Record loop_answers := mkLoopAnswers {
  epoll_fd : Z;
  wakeup_fd : Z;
  timer_fd : Z;
  wakeup_channel : chan_ptr;
  timer_channel : chan_ptr
}.

(** [EventLoop::EventLoop()]; the queue of functors is [Loop.new] of
    EventLoop.v.  The loop's poller is the one of its timer queue. *)
Definition EventLoop_new (a : loop_answers) (k : K) (t : T) (readings : nat -> Ts.Timestamp)
    (store : gmap chan_ptr Chan.Channel) : res Timers :=
  e ← Epoll.create (epoll_fd a) k store;
  let e := Epoll.set_channel (wakeup_channel a) (Chan.new (wakeup_fd a)) e in
  let q := Timers.new (timer_channel a) (timer_fd a) t readings e in
  _ ← assert_ (0 <? wakeup_fd a);
  e ← Epoll.enableReading (wakeup_channel a) (Timers.poller q);
  Ok (Timers.set_poller e q).

(** ** The server *)

Abbreviation Callback := (HttpRequest -> Response.HttpResponse -> Response.HttpResponse).

(** [class HttpServer] and the parts of [class TcpServer] it starts with. *)
Record HttpServer := mkHttpServer {
  m_acceptor : Accept.Acceptor (S := Poller);
  accept_channel : chan_ptr;
  m_loop_thread_pool : LoopPool.LoopThreadPool;
  m_auto_close_idle_connection : bool;
  m_response_callback : Callback
}.

(** The answers of [socket], [open], [setsockopt], [bind] and [listen], and the
    address of the accept channel. *)
Record server_answers := mkServerAnswers {
  listen_fd : Z;
  idle_fd : Z;
  reuse_ret : Z;
  bind_ret : Z;
  listen_ret : Z;
  accept_chan : chan_ptr
}.

Context (inet_addr : bytes -> Z).

(** [HttpServer::HttpServer(loop, address, close_flag)], with the constructor of
    TcpServer; the acceptor works on the poller [e]. *)
Definition HttpServer_new (a : server_answers) (base : LoopPool.loop) (address : Address) (close_flag : bool)
    (fds : gset Z) (e : Poller) : res HttpServer :=
  let e := Epoll.set_channel (accept_chan a) (Chan.new (listen_fd a)) e in
  acceptor ← Accept.new inet_addr (listen_fd a) (idle_fd a) (reuse_ret a) (bind_ret a) address fds e;
  let e := Epoll.set_channel (accept_chan a) (Accept.m_accept_channel acceptor) (Accept.owner acceptor) in
  Ok (mkHttpServer (Accept.set_owner e acceptor) (accept_chan a) (LoopPool.new base) close_flag
        Server.defaultHttpCallback).

(** [HttpServer::setThreadNum(num_threads)] *)
Definition setThreadNum (n : Z) (s : HttpServer) : HttpServer :=
  mkHttpServer (m_acceptor s) (accept_channel s) (LoopPool.setThreadNum n (m_loop_thread_pool s))
    (m_auto_close_idle_connection s) (m_response_callback s).

(** [setResponseCallback(cb)] *)
Definition setResponseCallback (cb : Callback) (s : HttpServer) : HttpServer :=
  mkHttpServer (m_acceptor s) (accept_channel s) (m_loop_thread_pool s)
    (m_auto_close_idle_connection s) cb.

(** [HttpServer::start()] and [TcpServer::Start()]: the threads, in the order
    they add their loops, then the listening socket; [None] waits for ever. *)
Definition start (a : server_answers) (order : list LoopPool.loop) (s : HttpServer) : option (res HttpServer) :=
  match LoopPool.start order (m_loop_thread_pool s) with
  | None => None
  | Some pool =>
      Some (acceptor ← Accept.Listen (listen_ret a)
              (fun ch e => Epoll.updateChannel (accept_channel s) (Epoll.set_channel (accept_channel s) ch e))
              (m_acceptor s);
            Ok (mkHttpServer acceptor (accept_channel s) pool (m_auto_close_idle_connection s)
                  (m_response_callback s)))
  end.

(** ** main() *)

(** Up to [loop.loop()]; [n] is what [hardware_concurrency()] answers.  The
    poller after it is the one of the timers. *)
Definition main (la : loop_answers) (sa : server_answers) (n : Z) (order : list LoopPool.loop) (k : K) (t : T)
    (readings : nat -> Ts.Timestamp) (fds : gset Z) : option (res (Timers * HttpServer)) :=
  match EventLoop_new la k t readings ∅ with
  | Fault f => Some (Fault f)
  | Ok loop =>
      match HttpServer_new sa 0%nat (mkAddress (bs "0.0.0.0") 9090) true fds (Timers.poller loop) with
      | Fault f => Some (Fault f)
      | Ok server =>
          let server := setThreadNum (n + 1) server in
          let server := setResponseCallback Server.resCallback server in
          match start sa order server with
          | None => None
          | Some started =>
              Some (server ← started;
                    let loop := Timers.set_poller (Accept.owner (m_acceptor server)) loop in
                    loop ← Timers.runAfter true (double_of_Z 5) timerEvent loop;
                    Ok (loop, server))
          end
      end
  end.

(** ** Lemmas *)

(** The first [enableReading] of a channel whose descriptor is free. *)
Lemma first_enable p ch (e : Poller) :
  Epoll.wf e -> Epoll.channels e !! p = Some ch -> Chan.m_index ch = kNew ->
  Epoll.m_channels e !! Chan.m_fd ch = None ->
  exists k, Epoll.enableReading p e =
      Ok (Epoll.with_channel p (Chan.setIndex kAdded (Chan.reading_on ch)) k e) /\
    Epoll.wf (Epoll.with_channel p (Chan.setIndex kAdded (Chan.reading_on ch)) k e).
Proof.
  intros Hwf Hp Hi Hfd.
  destruct (Epoll.change_events_ok Chan.reading_on p e ch Hwf Hp) as (k & Hrun & Hwf'); [|done|].
  { exists ch. by rewrite Hi. }
  assert (Epoll.updated (Chan.reading_on ch) = Chan.setIndex kAdded (Chan.reading_on ch)) as E.
  { unfold Epoll.updated. by rewrite decide_False by (simpl; by rewrite Hi). }
  rewrite E in *. by exists k.
Qed.

(** What a poller watches once it has a channel more. *)
Lemma watched_with p ch k (e : Poller) fd :
  Chan.m_index ch = kAdded -> Epoll.m_channels e !! fd <> Some p ->
  Epoll.watched (Epoll.with_channel p ch k e) fd =
    if decide (fd = Chan.m_fd ch) then Some (Chan.m_events ch, p) else Epoll.watched e fd.
Proof.
  intros Hi Hp. unfold Epoll.watched. simpl. destruct (decide (fd = Chan.m_fd ch)) as [->|Hne].
  - rewrite lookup_insert_eq. simpl. rewrite lookup_insert_eq. simpl. by rewrite decide_True.
  - rewrite lookup_insert_ne by done. destruct (Epoll.m_channels e !! fd) as [q|]; [|done]. simpl.
    rewrite lookup_insert_ne by congruence. done.
Qed.

Lemma addTime_five t :
  0 <= Ts.m_time_point t <= INT64_MAX - 5000000000 ->
  Ts.addTime t (double_of_Z 5) = Ok (Ts.mkTimestamp (Ts.m_time_point t + 5000000000)).
Proof.
  intros Ht. unfold Ts.addTime.
  change (Ts.to_microseconds (double_of_Z 5)) with (@Ok Z 5000000). simpl.
  unfold int64_op at 1. unfold INT64_MAX in *. simpl.
  unfold int64_op. unfold INT64_MAX. decide_bool. done.
Qed.

(** ** When main() comes to the loop *)

Record loop_ok (a : loop_answers) : Prop := {
  epoll_ok : 0 <= epoll_fd a;
  wakeup_ok : 0 < wakeup_fd a;
  loop_fds : wakeup_fd a <> timer_fd a;
  loop_channels : wakeup_channel a <> timer_channel a
}.

Record server_ok (la : loop_answers) (a : server_answers) : Prop := {
  socket_ok : 0 <= listen_fd a;
  setup_ok : 0 <= reuse_ret a /\ 0 <= bind_ret a /\ listen_ret a <> -1;
  server_fds : listen_fd a <> wakeup_fd la /\ listen_fd a <> timer_fd la;
  server_channels : accept_chan a <> wakeup_channel la /\ accept_chan a <> timer_channel la
}.

(** The channels as they are in the end. *)
Definition wakeup_done (a : loop_answers) : Chan.Channel :=
  Chan.setIndex kAdded (Chan.reading_on (Chan.new (wakeup_fd a))).
Definition timer_done (a : loop_answers) : Chan.Channel :=
  Chan.setIndex kAdded (Chan.reading_on (Chan.new (timer_fd a))).
Definition accept_ready (a : server_answers) : Chan.Channel :=
  Chan.setEvents (Z.lor EPOLLIN EPOLLET) (Chan.setIndex kNew (Chan.new (listen_fd a))).
Definition accept_done (a : server_answers) : Chan.Channel :=
  Chan.setIndex kAdded (Chan.reading_on (accept_ready a)).

Lemma EventLoop_new_ok a k t r :
  loop_ok a -> (forall fd, interest k !! fd = None) ->
  exists kw, let e := Epoll.with_channel (wakeup_channel a) (wakeup_done a) kw
      (Epoll.set_channel (timer_channel a) (Chan.new (timer_fd a))
        (Epoll.set_channel (wakeup_channel a) (Chan.new (wakeup_fd a)) (Epoll.mkEpoller ∅ ∅ k 0))) in
    EventLoop_new a k t r ∅ = Ok (Timers.mkQueue [] (timer_channel a) t e r 0 [] 0 []) /\ Epoll.wf e.
Proof.
  intros [He Hw Hfd Hch] Hk.
  set (e0 := Epoll.mkEpoller ∅ ∅ k 0 : Poller).
  set (e1 := Epoll.set_channel (wakeup_channel a) (Chan.new (wakeup_fd a)) e0).
  assert (Epoll.wf e0) as Hwf0 by (split; [done | done | intros fd; simpl; by rewrite Hk]).
  assert (Epoll.wf e1) as Hwf1 by (apply Epoll.wf_new_channel; [exact Hwf0 | apply lookup_empty | discriminate]).
  assert (Epoll.channels e1 !! timer_channel a = None) as Hnone by (simpl; by rewrite lookup_insert_ne).
  pose proof (Epoll.wf_new_channel (timer_channel a) (Chan.new (timer_fd a)) e1 Hwf1 Hnone ltac:(done)) as Hwf2.
  destruct (first_enable (wakeup_channel a) (Chan.new (wakeup_fd a)) _ Hwf2) as (kw & Hrun & Hwf3); [|done..|].
  { simpl. rewrite lookup_insert_ne by done. apply lookup_insert_eq. }
  exists kw. simpl. split; [|exact Hwf3]. unfold EventLoop_new, Epoll.create.
  rewrite (proj2 (Z.ltb_ge (epoll_fd a) 0)) by done. cbn [mbind res_bind].
  rewrite (proj2 (assert_Ok _)) by (by apply Z.ltb_lt). cbn [mbind res_bind Timers.new Timers.poller].
  fold e0 e1. by rewrite Hrun.
Qed.

Lemma HttpServer_new_ok a base address flag fds e :
  0 <= listen_fd a -> 0 <= reuse_ret a -> 0 <= bind_ret a ->
  exists acc, HttpServer_new a base address flag fds e =
      Ok (mkHttpServer acc (accept_chan a) (LoopPool.new base) flag Server.defaultHttpCallback) /\
    Accept.owner acc = Epoll.set_channel (accept_chan a) (accept_ready a) e /\
    Accept.m_accept_channel acc = accept_ready a /\ Accept.m_listen_fd acc = listen_fd a /\
    Accept.calls acc = [Accept.SysReuseAddr (listen_fd a);
      Accept.SysBind (listen_fd a) (inet_addr (ip address)) (htons (port address))].
Proof.
  intros Hl H1 H2. unfold HttpServer_new.
  destruct (Accept.new_binds inet_addr (listen_fd a) (idle_fd a) (reuse_ret a) (bind_ret a) address fds
    (Epoll.set_channel (accept_chan a) (Chan.new (listen_fd a)) e) Hl H1 H2) as (acc & -> & Ho & Hfd & Hcalls & Hch).
  cbn [mbind res_bind]. eexists. split; [done|]. simpl. split_and!; [|done..].
  rewrite Ho, Hch. unfold Epoll.set_channel. simpl. by rewrite insert_insert_eq.
Qed.

Lemma start_ok a order s n (e : Poller) :
  m_loop_thread_pool s = LoopPool.setThreadNum n (LoopPool.new 0%nat) -> 0 <= n <= INT_MAX -> zlen order = n ->
  listen_ret a <> -1 -> accept_channel s = accept_chan a ->
  Accept.owner (m_acceptor s) = Epoll.set_channel (accept_chan a) (accept_ready a) e ->
  Accept.m_accept_channel (m_acceptor s) = accept_ready a ->
  Epoll.wf e -> Epoll.channels e !! accept_chan a = None -> Epoll.m_channels e !! listen_fd a = None ->
  exists s' ka, start a order s = Some (Ok s') /\
    let e' := Epoll.with_channel (accept_chan a) (accept_done a) ka
      (Epoll.set_channel (accept_chan a) (accept_ready a) e) in
    Accept.owner (m_acceptor s') = e' /\ Epoll.wf e' /\
    Accept.calls (m_acceptor s') = Accept.calls (m_acceptor s) ++ [Accept.SysListen] /\
    LoopPool.wf (m_loop_thread_pool s') /\ LoopPool.m_loops (m_loop_thread_pool s') = order /\
    m_response_callback s' = m_response_callback s /\
    m_auto_close_idle_connection s' = m_auto_close_idle_connection s.
Proof.
  intros Hpool Hn Ho Hret Hp Hown Hch Hwf Hnone Hfd. unfold start. rewrite Hpool.
  destruct (LoopPool.start_wf order (LoopPool.setThreadNum n (LoopPool.new 0%nat))) as (pool & -> & Hpwf & Hloops); [done..|].
  unfold Accept.Listen. cbn [Accept.sys Accept.m_accept_channel Accept.owner]. rewrite Hown, Hch, Hp.
  rewrite (proj2 (assert_Ok _)) by (by rewrite (proj2 (Z.eqb_neq _ _))). cbn [mbind res_bind].
  pose proof (Epoll.wf_new_channel (accept_chan a) (accept_ready a) e Hwf Hnone ltac:(done)) as Hwf5.
  destruct (first_enable (accept_chan a) (accept_ready a) _ Hwf5) as (ka & Hrun & Hwf6); [apply lookup_insert_eq | done | done |].
  unfold Epoll.enableReading, Epoll.change_events in Hrun.
  rewrite (Epoll.deref_Ok _ _ (accept_ready a)) in Hrun by apply lookup_insert_eq. cbn [mbind res_bind] in Hrun.
  rewrite Hrun. cbn [mbind res_bind]. eexists _, ka. split; [done|]. by split_and!.
Qed.


(** The first timer of an empty queue. *)
Lemma runAfter_first q ch e' :
  Timers.m_timer q = [] -> Epoll.channels (Timers.poller q) !! Timers.m_timer_channel q = Some ch ->
  Chan.isRegistered ch = false -> Epoll.enableReading (Timers.m_timer_channel q) (Timers.poller q) = Ok e' ->
  0 <= Ts.m_time_point (Timers.readings q (Timers.clock q)) <= INT64_MAX - 5000000000 ->
  exists q', Timers.runAfter true (double_of_Z 5) timerEvent q = Ok q' /\ Timers.poller q' = e' /\
    let due := Ts.m_time_point (Timers.readings q (Timers.clock q)) + 5000000000 in
    Timers.m_timer q' = [Timers.mkTimer timerEvent (Ts.mkTimestamp due) (double_of_Z 0) false] /\
    let left := due - Ts.m_time_point (Timers.readings q (S (Timers.clock q))) in
    1000 <= left -> armed (Timers.timerfd q') = Some (left / 1000 * 1000).
Proof.
  intros Hnil Hch Hreg Hrun Ht. rewrite (Timers.runAfter_one_shot _ _ _ _ (addTime_five _ Ht)).
  unfold Timers.addTimerInLoop, Timers.enableTimerfd, Timers.now.
  cbn [snd Timers.m_timer_channel Timers.poller]. rewrite (Epoll.deref_Ok _ _ _ Hch). cbn [mbind res_bind].
  rewrite Hreg. cbn [negb]. rewrite Hrun. cbn [mbind res_bind].
  unfold Timers.insertTimer. cbn [Timers.m_timer Timers.set_poller]. rewrite Hnil. cbn [Timers.set_insert].
  generalize (double_of_Z 0) as z. intros z.
  set (t := Timers.mkTimer _ _ _ _). set (q1 := Timers.set_timers _ _).
  destruct (Timers.resetTimerFd_frame t q1) as (Hm & _ & _ & Hp & _).
  destruct (Timers.resetTimerFd_arms t q1) as [Harm _].
  exists (Timers.resetTimerFd t q1). split_and!; [done | by rewrite Hp | by rewrite Hm | exact Harm].
Qed.

(** ** Properties *)

(** C32. The server comes up.  When the kernel grants its calls, with descriptors
    of its own for each, and all threads start, main() reaches the loop: the
    address is bound with its port in network order before the socket listens;
    the kernel watches the eventfd and the timerfd for reading, the listening
    socket edge-triggered, and nothing else; the pool holds the loops of its
    threads; the program's callback answers requests; and the timerfd is armed
    for the one timer, five seconds ahead. *)
Theorem main_starts la sa n order k t r fds :
  loop_ok la -> server_ok la sa -> (forall fd, interest k !! fd = None) ->
  0 <= n -> n + 1 <= INT_MAX -> zlen order = n + 1 ->
  0 <= Ts.m_time_point (r 0%nat) <= INT64_MAX - 5000000000 ->
  exists q s, main la sa n order k t r fds = Some (Ok (q, s)) /\
    Epoll.wf (Timers.poller q) /\
    (forall fd, interest (Epoll.kernel (Timers.poller q)) !! fd =
       if decide (fd = timer_fd la) then Some (kReadEvent, timer_channel la)
       else if decide (fd = listen_fd sa) then Some (Z.lor (Z.lor EPOLLIN EPOLLET) kReadEvent, accept_chan sa)
       else if decide (fd = wakeup_fd la) then Some (kReadEvent, wakeup_channel la) else None) /\
    Accept.calls (m_acceptor s) =
      [Accept.SysReuseAddr (listen_fd sa); Accept.SysBind (listen_fd sa) (inet_addr (bs "0.0.0.0")) (htons 9090);
       Accept.SysListen] /\
    LoopPool.wf (m_loop_thread_pool s) /\ LoopPool.m_loops (m_loop_thread_pool s) = order /\
    m_response_callback s = Server.resCallback /\ m_auto_close_idle_connection s = true /\
    (let due := Ts.m_time_point (r 0%nat) + 5000000000 in
     Timers.m_timer q = [Timers.mkTimer timerEvent (Ts.mkTimestamp due) (double_of_Z 0) false] /\
     let left := due - Ts.m_time_point (r 1%nat) in
     1000 <= left -> armed (Timers.timerfd q) = Some (left / 1000 * 1000)).
Proof.
  intros Hla Hsa Hk Hn Hn1 Horder Ht. pose proof Hla as [_ _ Hfd Hch]. pose proof Hsa as [Hl (H1 & H2 & H3) [Hf1 Hf2] [Hc1 Hc2]].
  unfold main. destruct (EventLoop_new_ok la k t r Hla Hk) as (kw & Hloop & Hwf3). cbv zeta in Hloop, Hwf3.
  rewrite Hloop. cbn [Timers.poller]. set (e3 := Epoll.with_channel (wakeup_channel la) _ _ _) in *.
  destruct (HttpServer_new_ok sa 0%nat (mkAddress (bs "0.0.0.0") 9090) true fds e3 Hl H1 H2)
    as (acc & -> & Hown & Hac & Hafd & Hcalls). cbv zeta.
  assert (Epoll.channels e3 !! accept_chan sa = None) as Hnone
    by (unfold e3; simpl; by rewrite !lookup_insert_ne).
  assert (Epoll.m_channels e3 !! listen_fd sa = None) as Hmnone by (unfold e3; simpl; by rewrite lookup_insert_ne).
  destruct (start_ok sa order (setResponseCallback Server.resCallback (setThreadNum (n + 1)
      (mkHttpServer acc (accept_chan sa) (LoopPool.new 0%nat) true Server.defaultHttpCallback))) (n + 1) e3)
    as (s & ka & -> & Howns & Hwf6 & Hcallss & Hpwf & Hloops & Hcb & Hauto); [done | lia | done..|].
  cbn [mbind res_bind]. rewrite Howns in *. set (e6 := Epoll.with_channel (accept_chan sa) _ _ _) in *.
  assert (Epoll.channels e6 !! timer_channel la = Some (Chan.new (timer_fd la))) as Htc.
  { unfold e6, e3. simpl. rewrite lookup_insert_ne, lookup_insert_ne, lookup_insert_ne by done. apply lookup_insert_eq. }
  assert (Epoll.m_channels e6 !! timer_fd la = None) as Htm.
  { unfold e6, e3. simpl. by rewrite lookup_insert_ne, lookup_insert_ne by done. }
  destruct (first_enable (timer_channel la) _ e6 Hwf6 Htc) as (kt & Hrun & Hwf7); [done | done |].
  set (q0 := Timers.set_poller _ _).
  destruct (runAfter_first q0 (Chan.new (timer_fd la)) _ eq_refl Htc eq_refl Hrun Ht) as (q & -> & Hp & Htimer & Harm).
  cbn [mbind res_bind]. exists q, s. split; [done|]. rewrite Hp.
  split_and!; [done | | by rewrite Hcallss; simpl; rewrite Hcalls | done | done | done | done | done | done].
  intros fd. rewrite (Epoll.wf_kernel _ Hwf7). unfold e6, e3, Epoll.watched. simpl.
  destruct (decide (fd = timer_fd la)) as [->|N1]; [rewrite lookup_insert_eq; simpl; by rewrite lookup_insert_eq|].
  rewrite lookup_insert_ne by done.
  destruct (decide (fd = listen_fd sa)) as [->|N2].
  { rewrite lookup_insert_eq. simpl. by rewrite lookup_insert_ne, lookup_insert_eq by done. }
  rewrite lookup_insert_ne by done.
  destruct (decide (fd = wakeup_fd la)) as [->|N3]; [|by rewrite lookup_insert_ne].
  rewrite lookup_insert_eq. simpl. by rewrite !lookup_insert_ne, lookup_insert_eq by done.
Qed.

End WithKernel.

(** ** Witnesses *)

(** A process that gets the descriptors 3 to 7 and starts three threads. *)
Definition some_loop : loop_answers := mkLoopAnswers 3 4 5 1 2.
Definition some_server : server_answers := mkServerAnswers 6 7 0 0 0 3.

Lemma main_starts_witness :
  let r := fun i => Ts.mkTimestamp (1000000 * Z.of_nat i) in
  exists q s, main (K := gmap Z (Z * chan_ptr)) (T := option Z) (fun _ => 0) some_loop some_server 2 [1; 2; 3]%nat
      ∅ None r ∅ = Some (Ok (q, s)) /\
    Epoll.wf (Timers.poller q) /\
    (forall fd, interest (Epoll.kernel (Timers.poller q)) !! fd =
       if decide (fd = 5) then Some (kReadEvent, 2%positive)
       else if decide (fd = 6) then Some (Z.lor (Z.lor EPOLLIN EPOLLET) kReadEvent, 3%positive)
       else if decide (fd = 4) then Some (kReadEvent, 1%positive) else None) /\
    Accept.calls (m_acceptor s) =
      [Accept.SysReuseAddr 6; Accept.SysBind 6 0 (htons 9090); Accept.SysListen] /\
    LoopPool.wf (m_loop_thread_pool s) /\ LoopPool.m_loops (m_loop_thread_pool s) = [1; 2; 3]%nat /\
    m_response_callback s = Server.resCallback /\ m_auto_close_idle_connection s = true /\
    (let due := Ts.m_time_point (r 0%nat) + 5000000000 in
     Timers.m_timer q = [Timers.mkTimer timerEvent (Ts.mkTimestamp due) (double_of_Z 0) false] /\
     let left := due - Ts.m_time_point (r 1%nat) in
     1000 <= left -> armed (Timers.timerfd q) = Some (left / 1000 * 1000)).
Proof.
  intros r.
  apply (main_starts (K := gmap Z (Z * chan_ptr)) (T := option Z) (fun _ => 0) some_loop some_server 2 [1; 2; 3]%nat ∅ None r ∅);
    [by split | by split | done | done | by vm_compute | reflexivity | by vm_compute].
Defined.

End Main.
