(* ===== verification/TcpServer.v ===== *)
(** * TcpServer: Net/tcpserver.h and Net/tcpserver.cpp

    The table of connections and the functors the server hands to the loops
    over a connection's life, as a transition system in which the loops run
    in any order.

    A loop is a number and a connection a pointer into the store of live
    objects.  The server is written against the interface [ServerConn], which
    TcpConnection implements ([TcpConn.tcp_conn]). *)

From Stdlib Require Import ZArith Lia Ascii String.
From stdpp Require Import options.
From stdpp Require Import numbers gmap sorting relations.
From S2P Require Import Prelude CStd Buffer Channel Epoller Timestamp TcpConnection LoopThreadPool.

(** ** What the server needs of a connection

    The operations of TcpConnection the server calls, with its callbacks in
    place, in the thread of loop [here]. *)

Abbreviation loop := LoopPool.loop.

Class ServerConn (C : Type) := {
  make : loop -> Z -> Z -> C;
  setIPPort : bytes * Z -> C -> C;
  getFd : C -> Z;
  getLoop : C -> loop;
  connectionEstablished : loop -> C -> res C;
  connectionDestructor : loop -> C -> res C;
  make_fd : forall l fd id, getFd (make l fd id) = fd;
  make_loop : forall l fd id, getLoop (make l fd id) = l;
  setIPPort_keeps : forall a c, getFd (setIPPort a c) = getFd c /\ getLoop (setIPPort a c) = getLoop c;
  established_keeps : forall here c c', connectionEstablished here c = Ok c' ->
    getFd c' = getFd c /\ getLoop c' = getLoop c;
  destructor_keeps : forall here c c', connectionDestructor here c = Ok c' ->
    getFd c' = getFd c /\ getLoop c' = getLoop c
}.

(** ** TcpServer *)

Module Serve.

Abbreviation ptr := nat.

(** The functions the server gives to [runInLoop] and [queueInLoop]; each keeps
    its connection alive. *)
Inductive functor :=
| FConnectionEstablished (p : ptr)
| FHandleRemoveConnectionInLoop (p : ptr)
| FConnectionDestructor (p : ptr).

Definition bound (f : functor) : ptr :=
  match f with
  | FConnectionEstablished p | FHandleRemoveConnectionInLoop p | FConnectionDestructor p => p
  end.

Section WithConn.
Context {C : Type} `{!ServerConn C}.

(** The object; the connection objects that are alive; the functors waiting in
    the loops, in the order they were queued; the references kept elsewhere
    (by running handlers, by the functors of a loop's current turn, by
    timers); and, for the specification, the connections that were closed. *)
Record TcpServer := mkServer {
  m_loop_thread_pool : LoopPool.LoopThreadPool;
  m_next_connection_id : Z;
  m_connections : gmap Z ptr;
  objects : gmap ptr C;
  next_ptr : ptr;
  tasks : list (loop * functor);
  held : list ptr;
  closed : gset ptr
}.

Definition m_loop (s : TcpServer) : loop := LoopPool.m_base_loop (m_loop_thread_pool s).

Definition new (base : loop) : TcpServer :=
  mkServer (LoopPool.new base) 0 ∅ ∅ 0 [] [] ∅.

Definition set_pool (q : LoopPool.LoopThreadPool) (s : TcpServer) : TcpServer :=
  mkServer q (m_next_connection_id s) (m_connections s) (objects s) (next_ptr s) (tasks s) (held s) (closed s).
Definition set_connections (m : gmap Z ptr) (s : TcpServer) : TcpServer :=
  mkServer (m_loop_thread_pool s) (m_next_connection_id s) m (objects s) (next_ptr s) (tasks s) (held s) (closed s).
Definition set_objects (m : gmap ptr C) (s : TcpServer) : TcpServer :=
  mkServer (m_loop_thread_pool s) (m_next_connection_id s) (m_connections s) m (next_ptr s) (tasks s) (held s) (closed s).
Definition set_tasks (l : list (loop * functor)) (s : TcpServer) : TcpServer :=
  mkServer (m_loop_thread_pool s) (m_next_connection_id s) (m_connections s) (objects s) (next_ptr s) l (held s) (closed s).
Definition set_held (l : list ptr) (s : TcpServer) : TcpServer :=
  mkServer (m_loop_thread_pool s) (m_next_connection_id s) (m_connections s) (objects s) (next_ptr s) (tasks s) l (closed s).
Definition mark_closed (p : ptr) (s : TcpServer) : TcpServer :=
  mkServer (m_loop_thread_pool s) (m_next_connection_id s) (m_connections s) (objects s) (next_ptr s) (tasks s) (held s) ({[p]} ∪ closed s).

(** [loop->queueInLoop(f)] *)
Definition queueInLoop (l : loop) (f : functor) (s : TcpServer) : TcpServer :=
  set_tasks (tasks s ++ [(l, f)]) s.

(** A call of a member function of connection [p]. *)
Definition on_conn (f : C -> res C) (p : ptr) (s : TcpServer) : res TcpServer :=
  match objects s !! p with
  | None => Fault Undefined
  | Some c => c' ← f c; Ok (set_objects (<[p := c']> (objects s)) s)
  end.

Definition handleRemoveConnectionInLoop (here : loop) (p : ptr) (s : TcpServer) : res TcpServer :=
  if decide (here = m_loop s) then
    match objects s !! p with
    | None => Fault Undefined
    | Some conn =>
        let s := set_connections (delete (getFd conn) (m_connections s)) s in
        Ok (queueInLoop (getLoop conn) (FConnectionDestructor p) s)
    end
  else Fault Exited.

Definition run_functor (here : loop) (f : functor) (s : TcpServer) : res TcpServer :=
  match f with
  | FConnectionEstablished p => on_conn (connectionEstablished here) p s
  | FHandleRemoveConnectionInLoop p => handleRemoveConnectionInLoop here p s
  | FConnectionDestructor p => on_conn (connectionDestructor here) p s
  end.

(** [loop->runInLoop(f)] in the thread of [here] *)
Definition runInLoop (here l : loop) (f : functor) (s : TcpServer) : res TcpServer :=
  if decide (here = l) then run_functor here f s else Ok (queueInLoop l f s).

Definition handleRemoveConnection (here : loop) (p : ptr) (s : TcpServer) : res TcpServer :=
  runInLoop here (m_loop s) (FHandleRemoveConnectionInLoop p) s.

Definition handleNewConnection (here : loop) (conn_fd : Z) (con_addr : bytes * Z) (s : TcpServer)
    : res TcpServer :=
  '(l, pool) ← LoopPool.getNextLoop (m_loop_thread_pool s);
  let p := next_ptr s in
  let conn := make l conn_fd (m_next_connection_id s) in
  id ← int_op (m_next_connection_id s + 1);
  let id := if id =? INT_MAX then 0 else id in
  let conn := setIPPort con_addr conn in
  let s := mkServer pool id (<[conn_fd := p]> (m_connections s)) (<[p := conn]> (objects s))
             (S p) (tasks s) (held s) (closed s) in
  runInLoop here l (FConnectionEstablished p) s.

Definition setThreadNum (n : Z) (s : TcpServer) : TcpServer :=
  set_pool (LoopPool.setThreadNum n (m_loop_thread_pool s)) s.

(** [Start()]: [order] is the loops of the pool's threads, as in
    [LoopPool.start]; then [Listen()] on the acceptor, [listen]. *)
Definition Start (order : list loop) (listen : TcpServer -> res TcpServer) (s : TcpServer)
    : option (res TcpServer) :=
  match LoopPool.start order (m_loop_thread_pool s) with
  | None => None
  | Some pool => Some (listen (set_pool pool s))
  end.

(** The table in the order of [std::map]. *)
Definition key_le (a b : Z * ptr) : Prop := a.1 <= b.1.

#[global] Instance key_le_dec a b : Decision (key_le a b).
Proof. apply Z_le_dec. Defined.

Definition in_order (m : gmap Z ptr) : list (Z * ptr) := merge_sort key_le (map_to_list m).

Fixpoint destroy_loop (here : loop) (items : list (Z * ptr)) (s : TcpServer) : res TcpServer :=
  match items with
  | [] => Ok s
  | (fd, p) :: items' =>
      match objects s !! p with
      | None => Fault Undefined
      | Some conn =>
          let s := set_connections (delete fd (m_connections s)) s in
          s ← runInLoop here (getLoop conn) (FConnectionDestructor p) s;
          destroy_loop here items' s
      end
  end.

(** [~TcpServer()] *)
Definition destroy (here : loop) (s : TcpServer) : res TcpServer :=
  destroy_loop here (in_order (m_connections s)) s.

(** ** Steps *)

(** A connection object lives as long as something refers to it; its
    destructor closes the descriptor. *)
Definition referenced (s : TcpServer) (p : ptr) : Prop :=
  p ∈ (map_to_list (m_connections s)).*2 \/ p ∈ (fun t => bound t.2) <$> tasks s \/ p ∈ held s.

#[global] Instance referenced_dec s p : Decision (referenced s p).
Proof. unfold referenced. apply _. Defined.

Definition release (s : TcpServer) : TcpServer :=
  set_objects (filter (fun pc => referenced s pc.1) (objects s)) s.

(** The first functor waiting in a loop, and the rest. *)
Fixpoint next_task (l : loop) (ts : list (loop * functor)) : option (functor * list (loop * functor)) :=
  match ts with
  | [] => None
  | (l', f) :: ts' =>
      if decide (l' = l) then Some (f, ts')
      else match next_task l ts' with
           | Some (g, rest) => Some (g, (l', f) :: rest)
           | None => None
           end
  end.

(** The descriptors [accept4] cannot answer: those still open. *)
Definition fd_free (fd : Z) (s : TcpServer) : Prop :=
  forall p c, objects s !! p = Some c -> getFd c <> fd.

(** What can happen: a connection is accepted; a loop runs its next functor,
    and keeps it until the end of its turn; a connection calls its close
    callback in its thread; a reference is taken, or dropped; a connection
    works on its own. *)
Inductive step : TcpServer -> TcpServer -> Prop :=
| StepAccept fd addr s s' :
    fd_free fd s -> handleNewConnection (m_loop s) fd addr s = Ok s' -> step s (release s')
| StepRun l f rest s s' :
    next_task l (tasks s) = Some (f, rest) ->
    run_functor l f (set_held (bound f :: held s) (set_tasks rest s)) = Ok s' ->
    step s (release s')
| StepClose p c s s' :
    objects s !! p = Some c -> handleRemoveConnection (getLoop c) p s = Ok s' ->
    step s (release (mark_closed p s'))
| StepHold p s :
    is_Some (objects s !! p) -> step s (set_held (p :: held s) s)
| StepDrop p l1 l2 s :
    held s = l1 ++ p :: l2 -> step s (release (set_held (l1 ++ l2) s))
| StepWork p c c' s :
    objects s !! p = Some c -> getFd c' = getFd c -> getLoop c' = getLoop c ->
    step s (set_objects (<[p := c']> (objects s)) s).

(** A server whose pool was started. *)
Definition started (s : TcpServer) : Prop :=
  exists pool, LoopPool.wf pool /\ s = mkServer pool 0 ∅ ∅ 0 [] [] ∅.

Definition reachable (s : TcpServer) : Prop := exists s0, started s0 /\ rtc step s0 s.

(** ** The invariant *)

(** The loop a functor belongs to. *)
Definition loop_of (base : loop) (f : functor) (c : C) : loop :=
  match f with FHandleRemoveConnectionInLoop _ => base | _ => getLoop c end.

(** [removing]: a closed connection whose removal is being handed over. *)
Record Inv (removing : option ptr) (s : TcpServer) : Prop := {
  inv_pool : LoopPool.wf (m_loop_thread_pool s);
  inv_id : 0 <= m_next_connection_id s < INT_MAX;
  inv_table : forall fd p, m_connections s !! fd = Some p ->
    exists c, objects s !! p = Some c /\ getFd c = fd;
  inv_fds : forall p1 p2 c1 c2, objects s !! p1 = Some c1 -> objects s !! p2 = Some c2 ->
    getFd c1 = getFd c2 -> p1 = p2;
  inv_fresh : forall p, is_Some (objects s !! p) \/ p ∈ closed s -> (p < next_ptr s)%nat;
  inv_tasks : forall l f, (l, f) ∈ tasks s ->
    exists c, objects s !! bound f = Some c /\ l = loop_of (m_loop s) f c;
  inv_held : forall p, p ∈ held s -> is_Some (objects s !! p);
  inv_closed : forall l p, (l, FHandleRemoveConnectionInLoop p) ∈ tasks s -> p ∈ closed s;
  inv_open : forall p, (p < next_ptr s)%nat -> p ∉ closed s ->
    exists c, objects s !! p = Some c /\ m_connections s !! getFd c = Some p;
  inv_pending : forall fd p, m_connections s !! fd = Some p -> p ∈ closed s ->
    removing = Some p \/ (m_loop s, FHandleRemoveConnectionInLoop p) ∈ tasks s
}.

Lemma next_task_perm l ts f rest : next_task l ts = Some (f, rest) -> ts ≡ₚ (l, f) :: rest.
Proof.
  revert f rest. induction ts as [|[l' g] ts IH]; simpl; [done|]. intros f rest.
  destruct (decide (l' = l)) as [->|]; [by intros [= -> ->]|].
  destruct (next_task l ts) as [[h r]|] eqn:E; [|done]. intros [= -> <-].
  rewrite (IH _ _ eq_refl). apply perm_swap.
Qed.

Lemma queueInLoop_inv r l f c s :
  Inv r s -> objects s !! bound f = Some c -> l = loop_of (m_loop s) f c ->
  (forall p, f = FHandleRemoveConnectionInLoop p -> p ∈ closed s) -> Inv r (queueInLoop l f s).
Proof.
  intros [] Ho Hl Hc. split; simpl; try done.
  - intros l' f' [?|[= -> ->]%list_elem_of_singleton]%elem_of_app; eauto.
  - intros l' p [?|[= -> Hf]%list_elem_of_singleton]%elem_of_app; eauto.
  - intros fd p H1 H2. destruct (inv_pending0 fd p H1 H2); [by left|]. right. set_solver.
Qed.

Lemma on_conn_inv r f p s s' :
  (forall c c', objects s !! p = Some c -> f c = Ok c' -> getFd c' = getFd c /\ getLoop c' = getLoop c) ->
  Inv r s -> on_conn f p s = Ok s' -> Inv r s'.
Proof.
  intros Hf [] H. unfold on_conn in H. destruct (objects s !! p) as [c|] eqn:Ec; [|done].
  destruct (f c) as [c'|] eqn:Efc; simpl in H; [|done]. injection H as <-.
  destruct (Hf _ _ eq_refl Efc) as [Hfd Hlp].
  assert (forall q d, <[p := c']> (objects s) !! q = Some d ->
            exists d0, objects s !! q = Some d0 /\ getFd d = getFd d0 /\ getLoop d = getLoop d0) as Hback.
  { intros q d. destruct (decide (q = p)) as [->|];
      rewrite ?lookup_insert_eq, ?lookup_insert_ne by done; [intros [= <-]|]; eauto. }
  assert (forall q d0, objects s !! q = Some d0 ->
            exists d, <[p := c']> (objects s) !! q = Some d /\ getFd d = getFd d0 /\ getLoop d = getLoop d0) as Hfwd.
  { intros q d0 Hq. destruct (decide (q = p)) as [->|];
      rewrite ?lookup_insert_eq, ?lookup_insert_ne by done; [|by eauto].
    exists c'. rewrite Ec in Hq. injection Hq as <-. done. }
  split; simpl; try done.
  - intros fd q Hq. destruct (inv_table0 fd q Hq) as (d0 & Hd & <-).
    destruct (Hfwd _ _ Hd) as (d & ? & ? & ?). eauto.
  - intros p1 p2 c1 c2 H1 H2 He. destruct (Hback _ _ H1) as (d1 & ? & ? & _).
    destruct (Hback _ _ H2) as (d2 & ? & ? & _). eapply inv_fds0; [done..|]. congruence.
  - intros q [[d Hq]|Hq]; apply inv_fresh0; [left | by right].
    destruct (Hback _ _ Hq) as (? & ? & _). by eexists.
  - intros l g Hg. destruct (inv_tasks0 l g Hg) as (d0 & Hd & ->).
    destruct (Hfwd _ _ Hd) as (d & ? & _ & Hl). exists d. split; [done|]. unfold m_loop. simpl.
    destruct g; simpl; congruence.
  - intros q Hq. destruct (inv_held0 q Hq) as [d0 Hd]. destruct (Hfwd _ _ Hd) as (d & ? & _). by eexists.
  - intros q H1 H2. destruct (inv_open0 q H1 H2) as (d0 & Hd & ?).
    destruct (Hfwd _ _ Hd) as (d & ? & He & _). exists d. by rewrite He.
Qed.

Lemma remove_inv here p s s' :
  Inv (Some p) s -> p ∈ closed s -> handleRemoveConnectionInLoop here p s = Ok s' -> Inv None s'.
Proof.
  intros HI Hp H. unfold handleRemoveConnectionInLoop in H. destruct (decide (here = m_loop s)); [|done].
  destruct (objects s !! p) as [c|] eqn:Ec; [|done]. injection H as <-.
  apply (queueInLoop_inv None _ _ c); [|done..]. destruct HI.
  assert (forall fd q, delete (getFd c) (m_connections s) !! fd = Some q ->
            m_connections s !! fd = Some q /\ q <> p) as Hdel.
  { intros fd q [Hne Hq]%lookup_delete_Some. split; [done|]. intros ->.
    destruct (inv_table0 _ _ Hq) as (c' & Hc' & <-). rewrite Ec in Hc'. by injection Hc' as <-. }
  split; simpl; try done.
  - intros fd q [Hq _]%Hdel. eauto.
  - intros q H1 H2. destruct (inv_open0 q H1 H2) as (d & Hd & Ht). exists d. split; [done|].
    rewrite lookup_delete_ne; [done|]. intros He.
    by assert (p = q) as -> by (eapply inv_fds0; done).
  - intros fd q [Hq Hne]%Hdel Hc. destruct (inv_pending0 fd q Hq Hc) as [[= ->]|]; [done|].
    by right.
Qed.

Lemma release_lookup s p c :
  objects (release s) !! p = Some c <-> objects s !! p = Some c /\ referenced s p.
Proof. simpl. by rewrite map_lookup_filter_Some. Qed.

Lemma referenced_table s fd p : m_connections s !! fd = Some p -> referenced s p.
Proof.
  intros H. left. apply list_elem_of_fmap. exists (fd, p). split; [done|]. by apply elem_of_map_to_list.
Qed.

Lemma referenced_task s l f : (l, f) ∈ tasks s -> referenced s (bound f).
Proof. intros H. right. left. apply list_elem_of_fmap. by exists (l, f). Qed.

Lemma release_inv r s : Inv r s -> Inv r (release s).
Proof.
  intros []. split; try done; cbn [m_loop_thread_pool m_connections closed next_ptr tasks held release set_objects].
  - intros fd p H. destruct (inv_table0 _ _ H) as (c & ? & ?). exists c. split; [|done].
    apply release_lookup. split; [done|]. by eapply referenced_table.
  - intros p1 p2 c1 c2 [H1 _]%release_lookup [H2 _]%release_lookup. by eapply inv_fds0.
  - intros p [[c [H _]%release_lookup]|H]; apply inv_fresh0; [left; by eexists | by right].
  - intros l f H. destruct (inv_tasks0 _ _ H) as (c & ? & ?). exists c. split; [|done].
    apply release_lookup. split; [done|]. by eapply referenced_task.
  - intros p H. destruct (inv_held0 _ H) as [c ?]. exists c.
    apply release_lookup. split; [done|]. by right; right.
  - intros p H1 H2. destruct (inv_open0 _ H1 H2) as (c & ? & ?). exists c. split; [|done].
    apply release_lookup. split; [done|]. by eapply referenced_table.
Qed.

Lemma started_inv s : started s -> Inv None s.
Proof.
  intros (pool & Hp & ->). split; simpl; try done.
  - intros p [[c H]|H]; set_solver.
  - intros l f H. set_solver.
  - intros p H. set_solver.
  - intros l p H. set_solver.
  - intros p H. lia.
Qed.

Lemma run_functor_inv here f s s' :
  (forall p, f <> FHandleRemoveConnectionInLoop p) ->
  Inv None s -> run_functor here f s = Ok s' -> Inv None s'.
Proof.
  intros Hf HI H. destruct f as [p|p|p]; simpl in H.
  - eapply on_conn_inv; [|done..]. intros ? ? _. apply established_keeps.
  - by destruct (Hf p).
  - eapply on_conn_inv; [|done..]. intros ? ? _. apply destructor_keeps.
Qed.

Lemma accept_inv here fd addr s s' :
  fd_free fd s -> Inv None s -> handleNewConnection here fd addr s = Ok s' -> Inv None s'.
Proof.
  intros Hfree HI H. unfold handleNewConnection in H.
  destruct (LoopPool.getNextLoop _) as [[l pool]|] eqn:El; simpl in H; [|done].
  assert (LoopPool.wf pool /\ LoopPool.m_base_loop pool = m_loop s) as [Hwf Hbase].
  { by eapply LoopPool.getNextLoop_keeps; [apply HI|]. }
  pose proof (inv_id _ _ HI) as Hid. rewrite int_op_Ok in H by (zsimpl; lia). simpl in H.
  set (c := setIPPort addr (make l fd (m_next_connection_id s))) in H.
  destruct (setIPPort_keeps addr (make l fd (m_next_connection_id s))) as [Hcfd Hcl].
  fold c in Hcfd, Hcl. rewrite make_fd in Hcfd. rewrite make_loop in Hcl.
  set (s1 := mkServer _ _ _ _ _ _ _ _) in H.
  assert (objects s1 !! next_ptr s = Some c) as Hnew by apply lookup_insert_eq.
  assert (forall q d, objects s !! q = Some d -> objects s1 !! q = Some d /\ q <> next_ptr s) as Hold.
  { intros q d Hq. assert (q <> next_ptr s).
    { pose proof (inv_fresh _ _ HI q (or_introl (ex_intro _ d Hq))). lia. }
    simpl. by rewrite lookup_insert_ne by done. }
  assert (Inv None s1) as HI1.
  { destruct HI. split; simpl; try done.
    - destruct (Z.eqb_spec (m_next_connection_id s + 1) INT_MAX); unfold INT_MAX in *; lia.
    - intros fd' p [[<- <-]|[Hne Hp]]%lookup_insert_Some; [by exists c|].
      destruct (inv_table0 _ _ Hp) as (d & Hd & ?). exists d. split; [by apply Hold | done].
    - intros p1 p2 c1 c2 [[<- <-]|[? H1]]%lookup_insert_Some [[<- <-]|[? H2]]%lookup_insert_Some He; try done.
      + by destruct (Hfree _ _ H2); rewrite <- He, Hcfd.
      + by destruct (Hfree _ _ H1); rewrite He, Hcfd.
      + by eapply inv_fds0.
    - intros p [[d [[<- _]|[_ Hd]]%lookup_insert_Some]|Hc]; [lia| |];
        (assert (p < next_ptr s)%nat; [|lia]); apply inv_fresh0; [left; by eexists | by right].
    - intros l' f Hf. destruct (inv_tasks0 _ _ Hf) as (d & Hd & ->). exists d.
      split; [by apply Hold|]. unfold m_loop at 2. simpl. by rewrite Hbase.
    - intros p Hp. destruct (inv_held0 _ Hp) as [d Hd]. exists d. by apply Hold.
    - intros p Hlt Hc. destruct (decide (p = next_ptr s)) as [->|Hne].
      + exists c. split; [done|]. rewrite Hcfd. apply lookup_insert_eq.
      + destruct (inv_open0 p) as (d & Hd & Ht); [lia | done|]. exists d. split; [by apply Hold|].
        rewrite lookup_insert_ne; [done|]. intros He. by destruct (Hfree _ _ Hd).
    - intros fd' p [[<- <-]|[Hne Hp]]%lookup_insert_Some Hc.
      + assert (next_ptr s < next_ptr s)%nat; [|lia]. apply inv_fresh0. by right.
      + destruct (inv_pending0 _ _ Hp Hc) as [?|?]; [by left|]. right. unfold m_loop. simpl. by rewrite Hbase. }
  unfold runInLoop in H. destruct (decide (here = l)) as [->|].
  - eapply run_functor_inv; [|exact HI1|exact H]. done.
  - injection H as <-. eapply queueInLoop_inv; [done | exact Hnew | done | done].
Qed.

Lemma pop_inv l f rest s :
  next_task l (tasks s) = Some (f, rest) -> Inv None s ->
  Inv (match f with FHandleRemoveConnectionInLoop p => Some p | _ => None end)
    (set_held (bound f :: held s) (set_tasks rest s)) /\
  forall p, f = FHandleRemoveConnectionInLoop p -> p ∈ closed s.
Proof.
  intros E%next_task_perm []. 
  assert (forall t, t ∈ tasks s <-> t = (l, f) \/ t ∈ rest) as Ht
    by (intros t; rewrite E; apply elem_of_cons).
  split; [split; simpl; try done|].
  - intros l' g Hg. apply inv_tasks0, Ht. by right.
  - intros p [->|Hp]%elem_of_cons; [|by apply inv_held0].
    destruct (inv_tasks0 l f) as (c & ? & _); [apply Ht; by left | by eexists].
  - intros l' p Hp. eapply inv_closed0, Ht. by right.
  - intros fd p H1 H2. destruct (inv_pending0 _ _ H1 H2) as [|[[= _ <-]|]%Ht]; [done | by left | by right].
  - intros p ->. eapply (inv_closed0 l), Ht. by left.
Qed.

Lemma close_inv p c s s' :
  objects s !! p = Some c -> Inv None s -> handleRemoveConnection (getLoop c) p s = Ok s' ->
  Inv None (mark_closed p s').
Proof.
  intros Hc HI H.
  assert (handleRemoveConnection (getLoop c) p (mark_closed p s) = Ok (mark_closed p s')) as H'.
  { revert H. unfold handleRemoveConnection, runInLoop. simpl. unfold handleRemoveConnectionInLoop.
    unfold m_loop. simpl. repeat (destruct (decide _); simpl); try done;
      rewrite ?Hc; by intros [= <-]. }
  assert (Inv (Some p) (mark_closed p s)) as HI'.
  { destruct HI. split; simpl; try done.
    - intros q [Hq|[->%elem_of_singleton|Hq]%elem_of_union]; apply inv_fresh0;
        [by left | left; by eexists | by right].
    - intros l q Hq. apply elem_of_union. right. eauto.
    - intros q H1 H2. apply inv_open0; [done | set_solver].
    - intros fd q H1 [->%elem_of_singleton|H2]%elem_of_union; [by left|]. right.
      by destruct (inv_pending0 _ _ H1 H2). }
  assert (p ∈ closed (mark_closed p s)) as Hp by set_solver.
  clear H HI. unfold handleRemoveConnection, runInLoop in H'. destruct (decide _) as [He|].
  - simpl in H'. by eapply remove_inv.
  - apply Ok_inj in H' as <-. destruct (queueInLoop_inv (Some p) (m_loop (mark_closed p s))
      (FHandleRemoveConnectionInLoop p) c _ HI' Hc eq_refl) as []; [by intros q [= <-]|].
    split; try done. intros fd q H1 H2. destruct (inv_pending0 _ _ H1 H2) as [[= <-]|]; [|by right].
    right. simpl. set_solver.
Qed.

Lemma server_step_inv s s' : step s s' -> Inv None s -> Inv None s'.
Proof.
  intros Hs HI. destruct Hs as [fd addr s s' Hf H|l f rest s s' E H|p c s s' Hc H|p s [c Hc]|p l1 l2 s E|p c c' s Hc H1 H2].
  - apply release_inv. by eapply accept_inv.
  - apply release_inv. destruct (pop_inv _ _ _ _ E HI) as [HI' Hp].
    destruct f as [p|p|p]; [by eapply (run_functor_inv l _ _ s') in H | | by eapply (run_functor_inv l _ _ s') in H].
    eapply remove_inv; [exact HI' | by apply Hp | exact H].
  - apply release_inv. by eapply close_inv.
  - destruct HI. split; simpl; try done.
    intros q [->|Hq]%elem_of_cons; [by eexists | by apply inv_held0].
  - apply release_inv. destruct HI. split; simpl; try done.
    intros q Hq. apply inv_held0. rewrite E. set_solver.
  - eapply (on_conn_inv None (fun _ => Ok c') p s); [|done|].
    2: { unfold on_conn. by rewrite Hc. }
    intros d d' Hd [= <-]. rewrite Hc in Hd. by injection Hd as <-.
Qed.

Lemma reachable_inv s : reachable s -> Inv None s.
Proof.
  intros (s0 & H0 & Hs). apply started_inv in H0. revert H0. induction Hs as [|? ? ? H ? IH]; [done|].
  intros H0. by eapply IH, server_step_inv.
Qed.

(** Nothing is alive that nobody refers to. *)
Lemma reachable_referenced s p c : reachable s -> objects s !! p = Some c -> referenced s p.
Proof.
  intros (s0 & (pool & _ & ->) & Hs). revert s Hs p c.
  apply (rtc_ind_r (fun s => forall p c, objects s !! p = Some c -> referenced s p)); [done|].
  intros s1 s2 _ H12 IH p c Hc.
  destruct H12 as [| | | q s | | q d d' s Hq _ _];
    try (apply release_lookup in Hc as [_ Hc]; exact Hc).
  - destruct (IH p c Hc) as [?|[?|?]]; [by left | by right; left | right; right; by right].
  - simpl in Hc. apply lookup_insert_Some in Hc as [[<- _]|[_ Hc]]; by eapply IH.
Qed.

(** C8. The life of a connection, whatever the order in which the loops run
    what they are handed: a connection nobody closed stays alive, and in the
    table under its own descriptor, so that neither accepting another nor
    removing another disturbs it; every entry of the table is a live
    connection with that descriptor; a functor only ever waits in the loop it
    belongs to, with its connection alive; and once the loops are idle no
    closed connection is in the table, nor, once the other references are
    gone, alive, so its descriptor is closed. *)
Theorem connections_lifecycle s :
  reachable s ->
  (forall p, (p < next_ptr s)%nat -> p ∉ closed s ->
     exists c, objects s !! p = Some c /\ m_connections s !! getFd c = Some p) /\
  (forall fd p, m_connections s !! fd = Some p -> exists c, objects s !! p = Some c /\ getFd c = fd) /\
  (forall l f, (l, f) ∈ tasks s ->
     exists c, objects s !! bound f = Some c /\
       l = match f with FHandleRemoveConnectionInLoop _ => m_loop s | _ => getLoop c end) /\
  (tasks s = [] -> forall fd p, m_connections s !! fd = Some p -> p ∉ closed s) /\
  (tasks s = [] -> held s = [] -> forall p c, objects s !! p = Some c -> p ∉ closed s).
Proof.
  intros Hr. pose proof (reachable_inv s Hr) as HI.
  assert (tasks s = [] -> forall fd p, m_connections s !! fd = Some p -> p ∉ closed s) as Hidle.
  { intros E fd p H Hc. destruct (inv_pending _ _ HI _ _ H Hc) as [?|Ht]; [done|].
    rewrite E in Ht. by apply elem_of_nil in Ht. }
  split_and!; [apply HI..| done |].
  intros Et Eh p c Hc. destruct (reachable_referenced s p c Hr Hc) as [H|[H|H]].
  - apply list_elem_of_fmap in H as ([fd q] & -> & H). simpl. apply elem_of_map_to_list in H. eauto.
  - rewrite Et in H. by apply elem_of_nil in H.
  - rewrite Eh in H. by apply elem_of_nil in H.
Qed.

(** A free descriptor is not in the table: [handleNewConnection] overwrites no
    entry, and its number stays an [int]. *)
Lemma accept_overwrites_nothing s fd :
  reachable s -> fd_free fd s -> m_connections s !! fd = None /\ 0 <= m_next_connection_id s < INT_MAX.
Proof.
  intros Hr Hf. pose proof (reachable_inv s Hr) as HI. split; [|apply HI].
  destruct (m_connections s !! fd) as [p|] eqn:E; [|done].
  destruct (inv_table _ _ HI _ _ E) as (c & Hc & He). by destruct (Hf p c Hc).
Qed.

(** ** The destructor *)

Lemma destroy_loop_table here items s s' :
  destroy_loop here items s = Ok s' ->
  forall fd, m_connections s' !! fd = if decide (fd ∈ items.*1) then None else m_connections s !! fd.
Proof.
  revert s. induction items as [|[fd0 p] items IH]; simpl; intros s H fd; [by injection H as <-|].
  destruct (objects s !! p) as [c|]; [|done]. bind_inv H.
  assert (m_connections x = delete fd0 (m_connections s)) as E.
  { revert Hx. unfold runInLoop, run_functor, on_conn. destruct (decide _); [|by intros [= <-]].
    destruct (objects _ !! p); [|done]. intros Hx. bind_inv Hx. by apply Ok_inj in Hx as <-. }
  rewrite (IH _ H fd), E. destruct (decide (fd = fd0)) as [->|Hne].
  - rewrite lookup_delete_eq. rewrite (decide_True (P := fd0 ∈ fd0 :: _)) by set_solver. by destruct (decide _).
  - rewrite lookup_delete_ne by done. do 2 destruct (decide _); set_solver.
Qed.

(** The destructor leaves no entry. *)
Lemma destroy_empties here s s' : destroy here s = Ok s' -> m_connections s' = ∅.
Proof.
  intros H. apply map_eq. intros fd. rewrite (destroy_loop_table _ _ _ _ H fd), lookup_empty.
  destruct (decide _) as [|Hn]; [done|]. destruct (m_connections s !! fd) as [p|] eqn:E; [|done].
  destruct Hn. apply list_elem_of_fmap. exists (fd, p). split; [done|].
  unfold in_order. rewrite merge_sort_Permutation. by apply elem_of_map_to_list.
Qed.

End WithConn.
End Serve.

(** ** The connections of TcpConnection *)

Module TcpConn.

Section WithKernel.
Context {K : Type} `{!EpollKernel K}.

(** The poller of each loop, the channel object made for a descriptor, the
    answers of its socket, the clock, and the server's connection callback. *)
Variables (pollers : loop -> Epoll.Epoller K) (channel_of : Z -> chan_ptr)
  (writes : nat -> Z -> write_result) (readings : nat -> Ts.Timestamp)
  (connection_callback : Tcp.TcpConnection K -> res (Tcp.TcpConnection K)).
Hypothesis callback_keeps : forall c c',
  connection_callback c = Ok c' -> Tcp.m_conn_fd c' = Tcp.m_conn_fd c.

(** The address and the loop, which TcpConnection only stores. *)
Record Conn := mkConn {
  m_ip_port : bytes * Z;
  m_loop : loop;
  object : Tcp.TcpConnection K
}.

Definition in_thread (f : Tcp.TcpConnection K -> res (Tcp.TcpConnection K)) (here : loop) (c : Conn) : res Conn :=
  o ← f (Tcp.set_in_loop (bool_decide (here = m_loop c)) (object c));
  Ok (mkConn (m_ip_port c) (m_loop c) o).

Lemma in_thread_keeps f here c c' :
  (forall o o', f o = Ok o' -> Tcp.m_conn_fd o' = Tcp.m_conn_fd o) ->
  in_thread f here c = Ok c' ->
  Tcp.m_conn_fd (object c') = Tcp.m_conn_fd (object c) /\ m_loop c' = m_loop c.
Proof. 
  intros Hf H. unfold in_thread in H. bind_inv H. apply Ok_inj in H as <-. simpl. by rewrite (Hf _ _ Hx).
Qed.

Lemma on_channel_keeps f (c c' : Tcp.TcpConnection K) : Tcp.on_channel f c = Ok c' -> Tcp.m_conn_fd c' = Tcp.m_conn_fd c.
Proof. intros H. unfold Tcp.on_channel in H. bind_inv H. by apply Ok_inj in H as <-. Qed.

#[global] Program Instance tcp_conn : ServerConn Conn := {
  make l fd id := mkConn ([], 0) l (Tcp.new (pollers l) writes readings false (channel_of fd) fd id);
  setIPPort a c := mkConn a (m_loop c) (object c);
  getFd c := Tcp.m_conn_fd (object c);
  getLoop c := m_loop c;
  connectionEstablished := in_thread (Tcp.connectionEstablished connection_callback);
  connectionDestructor := in_thread (Tcp.connectionDestructor connection_callback)
}.
Next Obligation. done. Qed.
Next Obligation. done. Qed.
Next Obligation. done. Qed.
Next Obligation.
  intros here c c' H. eapply in_thread_keeps; [|exact H]. intros o o' Ho.
  unfold Tcp.connectionEstablished in Ho. do 3 bind_inv Ho.
  apply callback_keeps in Ho. apply on_channel_keeps in Hx1. by rewrite Ho, Hx1.
Qed.
Next Obligation.
  intros here c c' H. eapply in_thread_keeps; [|exact H]. intros o o' Ho.
  unfold Tcp.connectionDestructor in Ho. do 3 bind_inv Ho.
  apply on_channel_keeps in Ho. apply callback_keeps in Hx1. rewrite Ho, Hx1.
  destruct (decide _); [by apply on_channel_keeps in Hx0 | by injection Hx0 as <-].
Qed.

End WithKernel.

(** ** Witness *)

Abbreviation table := (gmap Z (Z * chan_ptr)).
Abbreviation Server := (@Serve.TcpServer (@Conn table)).

(** [HttpServer::onConnection], as far as the server sees it. *)
Definition emptying (c : Tcp.TcpConnection table) : res (Tcp.TcpConnection table) :=
  Ok (Tcp.set_input (Buf.retrieveAll (Tcp.m_input_buffer c)) c).

Lemma emptying_keeps c c' : emptying c = Ok c' -> Tcp.m_conn_fd c' = Tcp.m_conn_fd c.
Proof. by intros [= <-]. Qed.

#[local] Instance sample_conn : ServerConn (@Conn table) :=
  tcp_conn (fun _ => Epoll.mkEpoller ∅ ∅ ∅ 0) (fun _ => 1%positive) (fun _ len => Wrote len)
    (fun k => Ts.mkTimestamp (Z.of_nat k)) emptying emptying_keeps.

(** A connection on descriptor 7 is accepted, established in loop 1, and closed
    there. *)
Definition s0 : Server := Serve.mkServer (LoopPool.mkPool 0 2 0 [1; 2]%nat) 0 ∅ ∅ 0 [] [] ∅.
Definition after (r : res Server) : Server := match r with Ok s => s | Fault _ => s0 end.
Definition s1 := Serve.release (after (Serve.handleNewConnection 0 7 (bs "10.0.0.1", 80) s0)).
Definition s2 := Serve.release (after
  (Serve.run_functor 1 (Serve.FConnectionEstablished 0) (Serve.set_held [0%nat] (Serve.set_tasks [] s1)))).
Definition s3 := Serve.release (Serve.mark_closed 0 (after (Serve.handleRemoveConnection 1 0 s2))).

Lemma after_ok r : match r with Ok _ => true | Fault _ => false end = true -> r = Ok (after r).
Proof. by destruct r. Qed.

Lemma s3_reachable : Serve.reachable s3.
Proof.
  exists s0. split.
  { exists (LoopPool.mkPool 0 2 0 [1; 2]%nat). split; [|done].
    split; [done | unfold INT_MAX; simpl; lia | simpl; split; [lia | intros; lia]]. }
  apply (rtc_l _ _ s1).
  { eapply (Serve.StepAccept 7 (bs "10.0.0.1", 80)).
    - intros p c Hc. unfold s0 in Hc; simpl in Hc; by rewrite lookup_empty in Hc.
    - apply after_ok. vm_compute. reflexivity. }
  apply (rtc_l _ _ s2).
  { eapply (Serve.StepRun 1 (Serve.FConnectionEstablished 0) []); [vm_compute; reflexivity|].
    apply after_ok. vm_compute. reflexivity. }
  apply rtc_once. destruct (Serve.objects s2 !! 0%nat) as [c|] eqn:Hc; [|vm_compute in Hc; discriminate].
  assert (getLoop c = 1%nat) as Hl by (vm_compute in Hc; injection Hc as <-; reflexivity).
  apply (Serve.StepClose 0 c); [exact Hc|]. rewrite Hl. apply after_ok. vm_compute. reflexivity.
Qed.

Lemma connections_lifecycle_witness :
  Serve.tasks s3 = [(0%nat, Serve.FHandleRemoveConnectionInLoop 0)] /\
  forall l f, (l, f) ∈ Serve.tasks s3 ->
    exists c, Serve.objects s3 !! Serve.bound f = Some c /\
      l = match f with Serve.FHandleRemoveConnectionInLoop _ => Serve.m_loop s3 | _ => getLoop c end.
Proof.
  split; [vm_compute; reflexivity|].
  apply (Serve.connections_lifecycle s3 s3_reachable).
Defined.

End TcpConn.
