(* ===== verification/ThreadPool.v ===== *)
(** * ThreadPool: threadpool.hpp

    The pool of worker threads over a list of tasks, as a transition system.
    A worker is about to take the mutex and test the wait's predicate, asleep
    in the wait, running a task, or out of its loop; what it does under the
    mutex is one step.  A notification is a step of its own, after the mutex
    was released, and a sleeper may also wake up by itself.

    A task is what the wrapper of [append] calls; the future it returns is not
    modelled. *)

From Stdlib Require Import ZArith Lia.
From stdpp Require Import options.
From S2P Require Import Prelude.

Module Pool.

Section WithTasks.
Context {T : Type}.

Inductive worker := Testing | Asleep | Running (t : T) | Left.

(** The object, with its threads' states, the [notify_one] calls still to be
    made, whether [notify_all] is, and, for the specification, the tasks
    appended and started. *)
Record threadpool := mkPool {
  m_taskList : list T;
  m_threads : list worker;
  m_stop : bool;
  m_thread_number : Z;
  notifying : nat;
  notifying_all : bool;
  appended : list T;
  started : list T;
  finished : list T
}.

(** The constructor throws for a number that is not positive. *)
Definition new (thread_number : Z) : res threadpool :=
  if thread_number <=? 0 then Fault Exited
  else Ok (mkPool [] [] false thread_number 0 false [] [] []).

Definition set_threads (ws : list worker) (p : threadpool) : threadpool :=
  mkPool (m_taskList p) ws (m_stop p) (m_thread_number p) (notifying p) (notifying_all p)
    (appended p) (started p) (finished p).

Definition init (p : threadpool) : threadpool :=
  set_threads (m_threads p ++ replicate (Z.to_nat (m_thread_number p)) Testing) p.

(** The critical section of [append]. *)
Definition append (t : T) (p : threadpool) : threadpool :=
  mkPool (m_taskList p ++ [t]) (m_threads p) (m_stop p) (m_thread_number p) (S (notifying p))
    (notifying_all p) (appended p ++ [t]) (started p) (finished p).

(** The critical section of [shutdown] and of the destructor. *)
Definition stop (p : threadpool) : threadpool :=
  mkPool (m_taskList p) (m_threads p) true (m_thread_number p) (notifying p) true
    (appended p) (started p) (finished p).

Definition wake (w : worker) : worker := match w with Asleep => Testing | _ => w end.

(** [m_cv.notify_all()] *)
Definition notify_all (p : threadpool) : threadpool :=
  mkPool (m_taskList p) (wake <$> m_threads p) (m_stop p) (m_thread_number p) (notifying p) false
    (appended p) (started p) (finished p).

(** [m_cv.notify_one()]: worker [i] if it sleeps; no one if none does. *)
Definition notify_one (i : nat) (p : threadpool) : option threadpool :=
  match notifying p with
  | O => None
  | S n =>
      let p' ws := mkPool (m_taskList p) ws (m_stop p) (m_thread_number p) n (notifying_all p)
                     (appended p) (started p) (finished p) in
      match m_threads p !! i with
      | Some Asleep => Some (p' (<[i := Testing]> (m_threads p)))
      | _ => if forallb (fun w => match w with Asleep => false | _ => true end) (m_threads p)
             then Some (p' (m_threads p)) else None
      end
  end.

(** The critical section of [threadFunc], for worker [i]. *)
Definition test (i : nat) (p : threadpool) : threadpool :=
  if m_stop p then set_threads (<[i := Left]> (m_threads p)) p
  else
    match m_taskList p with
    | [] => set_threads (<[i := Asleep]> (m_threads p)) p
    | t :: l => mkPool l (<[i := Running t]> (m_threads p)) (m_stop p) (m_thread_number p)
                  (notifying p) (notifying_all p) (appended p) (started p ++ [t]) (finished p)
    end.

(** [task()], to its end. *)
Definition finish (i : nat) (t : T) (p : threadpool) : threadpool :=
  mkPool (m_taskList p) (<[i := Testing]> (m_threads p)) (m_stop p) (m_thread_number p)
    (notifying p) (notifying_all p) (appended p) (started p) (finished p ++ [t]).

Inductive event :=
| Append (t : T) | Notify (i : nat) | Stop | NotifyAll
| Test (i : nat) | Spurious (i : nat) | Finish (i : nat).

Definition step (e : event) (p : threadpool) : option threadpool :=
  match e with
  | Append t => Some (append t p)
  | Notify i => notify_one i p
  | Stop => Some (stop p)
  | NotifyAll => if notifying_all p then Some (notify_all p) else None
  | Test i => match m_threads p !! i with Some Testing => Some (test i p) | _ => None end
  | Spurious i =>
      match m_threads p !! i with
      | Some Asleep => Some (set_threads (<[i := Testing]> (m_threads p)) p)
      | _ => None
      end
  | Finish i => match m_threads p !! i with Some (Running t) => Some (finish i t p) | _ => None end
  end.

Fixpoint run (es : list event) (p : threadpool) : option threadpool :=
  match es with
  | [] => Some p
  | e :: es' => match step e p with Some p' => run es' p' | None => None end
  end.

(** ** The invariant *)

(** A worker that will test the predicate before it sleeps. *)
Definition active (w : worker) : Prop := w = Testing \/ exists t, w = Running t.

Definition tasks_of (ws : list worker) : list T :=
  omap (fun w => match w with Running t => Some t | _ => None end) ws.

Record inv (p : threadpool) : Prop := {
  inv_order : started p ++ m_taskList p = appended p;
  inv_running : started p ≡ₚ finished p ++ tasks_of (m_threads p);
  inv_left : m_stop p = false -> Left ∉ m_threads p;
  inv_awake : m_stop p = false -> m_taskList p <> [] -> m_threads p <> [] ->
    (0 < notifying p)%nat \/ Exists active (m_threads p);
  inv_stopped : m_stop p = true -> notifying_all p = false -> Asleep ∉ m_threads p
}.

(** ** Lemmas *)

Lemma update_split {A} (l : list A) i x y :
  l !! i = Some x -> exists a b, l = a ++ x :: b /\ <[i := y]> l = a ++ y :: b.
Proof.
  intros H. exists (take i l), (drop (S i) l). split; [by rewrite take_drop_middle|].
  apply insert_take_drop. by eapply lookup_lt_Some.
Qed.

Lemma init_inv n p : new n = Ok p -> inv (init p).
Proof.
  unfold new. destruct (n <=? 0); [done|]. intros [= <-]. split; simpl; try done.
  - unfold tasks_of, init. simpl. induction (Z.to_nat n); simpl; auto.
  - by intros _ [? _]%elem_of_replicate.
Qed.

(** Changing the state of one worker. *)
Lemma update_notin (ws : list worker) i (y z : worker) : z ∉ ws -> z <> y -> z ∉ <[i := y]> ws.
Proof.
  intros Hz Hy Hin. apply list_elem_of_lookup in Hin as [j Hj].
  destruct (decide (i = j)) as [<-|Hne].
  - apply list_lookup_insert_Some in Hj as [(_ & -> & _)|(? & _)]; done.
  - rewrite list_lookup_insert_ne in Hj by done. by apply Hz, list_elem_of_lookup; exists j.
Qed.

Lemma update_active (ws : list worker) i (x y : worker) :
  ws !! i = Some x -> active y -> Exists active (<[i := y]> ws).
Proof.
  intros Hi Hy. destruct (update_split ws i x y Hi) as (a & b & _ & ->).
  apply Exists_app. right. by left.
Qed.

Lemma update_tasks (ws : list worker) i (x y : worker) :
  ws !! i = Some x -> tasks_of [x] ++ tasks_of (<[i := y]> ws) ≡ₚ tasks_of [y] ++ tasks_of ws.
Proof.
  intros Hi. destruct (update_split ws i x y Hi) as (a & b & -> & ->).
  assert (forall w, tasks_of (a ++ w :: b) ≡ₚ tasks_of [w] ++ tasks_of a ++ tasks_of b) as H.
  { intros w. unfold tasks_of. rewrite omap_app. csimpl. destruct w; simpl; try done.
    by rewrite <- Permutation_middle. }
  rewrite !H. rewrite !(app_assoc _ (tasks_of a)), !app_assoc.
  rewrite (Permutation_app_comm (tasks_of [x]) (tasks_of [y])). done.
Qed.

Lemma update_idle (ws : list worker) i (x y : worker) :
  ws !! i = Some x -> tasks_of [x] = [] -> tasks_of [y] = [] -> tasks_of (<[i := y]> ws) ≡ₚ tasks_of ws.
Proof. intros Hi Hx Hy. pose proof (update_tasks ws i x y Hi) as H. by rewrite Hx, Hy in H. Qed.

Lemma wake_tasks ws : tasks_of (wake <$> ws) = tasks_of ws.
Proof. unfold tasks_of. induction ws as [|w ws IH]; csimpl; [done|]. destruct w; simpl; by rewrite ?IH. Qed.

Lemma wake_awake (ws : list worker) : Asleep ∉ (wake <$> ws).
Proof. intros (w & Hw & _)%list_elem_of_fmap. by destruct w. Qed.

Lemma wake_left (ws : list worker) : Left ∉ ws -> Left ∉ (wake <$> ws).
Proof. intros H (w & Hw & Hin)%list_elem_of_fmap. destruct w; try discriminate Hw. done. Qed.

Lemma wake_active ws : Exists active ws -> Exists active (wake <$> ws).
Proof.
  intros H. apply Exists_fmap. eapply Exists_impl; [exact H|].
  intros w [->|[t ->]]; [by left | right; by exists t].
Qed.

(** Awake workers that have not left are active. *)
Lemma awake_active ws :
  ws <> [] -> Left ∉ ws ->
  forallb (fun w => match w with Asleep => false | _ => true end) ws = true -> Exists active ws.
Proof.
  destruct ws as [|w ws]; [done|]. intros _ Hl Hf. simpl in Hf. apply andb_true_iff in Hf as [Hw _].
  left. destruct w; [by left | done | right; eauto | by destruct Hl; left].
Qed.

Lemma notify_one_inv i p p' : inv p -> notify_one i p = Some p' -> inv p'.
Proof.
  intros [Ho Hr Hl Ha Hs] Hstep. unfold notify_one in Hstep.
  destruct (notifying p) as [|n] eqn:En; [done|].
  assert (m_threads p !! i = Some Asleep \/ m_threads p !! i <> Some Asleep) as [Ei|Ei]
    by (destruct (m_threads p !! i) as [[]|]; auto).
  - rewrite Ei in Hstep. injection Hstep as <-. split; simpl; auto.
    + by rewrite (update_idle _ _ _ Testing Ei).
    + intros H. apply update_notin; auto.
    + intros. right. eapply update_active; [done | by left].
    + intros H1 H2. apply update_notin; auto.
  - assert ((if forallb (fun w => match w with Asleep => false | _ => true end) (m_threads p)
             then Some (mkPool (m_taskList p) (m_threads p) (m_stop p) (m_thread_number p) n
               (notifying_all p) (appended p) (started p) (finished p)) else None) = Some p') as Hf.
    { destruct (m_threads p !! i) as [[]|]; done. }
    destruct (forallb _ _) eqn:Eall; [|done]. injection Hf as <-. split; simpl; auto.
    intros H1 H2 H3. right. apply awake_active; auto.
Qed.

Lemma test_inv i p : inv p -> m_threads p !! i = Some Testing -> inv (test i p).
Proof.
  intros [Ho Hr Hl Ha Hs] Hi. unfold test. destruct (m_stop p) eqn:Est.
  - split; simpl; rewrite ?Est; auto; try done.
    + by rewrite (update_idle _ _ _ Left Hi).
    + intros _ H. apply update_notin; auto.
  - destruct (m_taskList p) as [|t l] eqn:El; split; simpl; rewrite ?Est, ?El; auto; try done.
    + by rewrite (update_idle _ _ _ Asleep Hi).
    + intros _. apply update_notin; auto.
    + by rewrite <- app_assoc.
    + pose proof (update_tasks _ _ _ (Running t) Hi) as H. simpl in H. rewrite H, Hr.
      rewrite <- app_assoc. f_equiv. apply Permutation_app_comm.
    + intros _. apply update_notin; auto.
    + intros. right. eapply update_active; [done|]. right. eauto.
Qed.

Lemma pool_step_inv e p p' : inv p -> step e p = Some p' -> inv p'.
Proof.
  intros Hinv Hstep. pose proof Hinv as [Ho Hr Hl Ha Hs]. destruct e as [t|i| | |i|i|i]; simpl in Hstep.
  - injection Hstep as <-. split; simpl; auto; [by rewrite <- Ho, app_assoc|].
    intros. left. lia.
  - by eapply notify_one_inv.
  - injection Hstep as <-. split; simpl; auto; done.
  - destruct (notifying_all p) eqn:En; [|done]. injection Hstep as <-. split; simpl; auto.
    + by rewrite wake_tasks.
    + auto using wake_left.
    + intros H1 H2 H3. destruct (Ha H1 H2) as [|]; auto using wake_active.
      intros E. apply H3. by rewrite E.
    + intros _ _. apply wake_awake.
  - destruct (m_threads p !! i) as [[]|] eqn:Ei; try discriminate Hstep.
    injection Hstep as <-. by apply test_inv.
  - destruct (m_threads p !! i) as [[]|] eqn:Ei; try discriminate Hstep.
    injection Hstep as <-. split; simpl; auto.
    + by rewrite (update_idle _ _ _ Testing Ei).
    + intros H. apply update_notin; auto.
    + intros. right. eapply update_active; [done | by left].
    + intros H1 H2. apply update_notin; auto.
  - destruct (m_threads p !! i) as [[]|] eqn:Ei; try discriminate Hstep.
    injection Hstep as <-. split; simpl; auto.
    + pose proof (update_tasks _ _ _ Testing Ei) as H. simpl in H.
      rewrite Hr, <- H, <- app_assoc. done.
    + intros H. apply update_notin; auto.
    + intros. right. eapply update_active; [done | by left].
    + intros H1 H2. apply update_notin; auto.
Qed.

Lemma pool_run_inv es p p' : inv p -> run es p = Some p' -> inv p'.
Proof.
  revert p. induction es as [|e es IH]; simpl; intros p Hinv Hr; [congruence|].
  destruct (step e p) eqn:E; [|done]. eauto using pool_step_inv.
Qed.

Lemma run_app es es' p p' : run es p = Some p' -> run (es ++ es') p = run es' p'.
Proof.
  revert p. induction es as [|e es IH]; simpl; intros p Hr; [congruence|].
  destruct (step e p); [by apply IH | done].
Qed.

(** Workers are never lost. *)
Lemma step_workers e p p' : step e p = Some p' -> length (m_threads p') = length (m_threads p).
Proof.
  destruct e; simpl; unfold notify_one, test, finish; intros H;
    repeat (case_match; try discriminate H); injection H as <-; simpl;
    rewrite ?length_insert, ?length_fmap; done.
Qed.

Lemma run_workers es p p' : run es p = Some p' -> length (m_threads p') = length (m_threads p).
Proof.
  revert p. induction es as [|e es IH]; simpl; intros p Hr; [congruence|].
  destruct (step e p) eqn:E; [|done]. rewrite (IH _ Hr). by eapply step_workers.
Qed.

(** After a stop nothing starts and the flag stays. *)
Lemma step_stopped e p p' :
  m_stop p = true -> step e p = Some p' -> m_stop p' = true /\ started p' = started p.
Proof.
  intros Hs. destruct e; simpl; unfold notify_one, test, finish; rewrite ?Hs; intros H;
    repeat (case_match; try discriminate H); injection H as <-; done.
Qed.

Lemma run_stopped es p p' :
  m_stop p = true -> run es p = Some p' -> m_stop p' = true /\ started p' = started p.
Proof.
  revert p. induction es as [|e es IH]; simpl; intros p Hs Hr; [naive_solver|].
  destruct (step e p) as [p1|] eqn:E; [|done]. destruct (step_stopped _ _ _ Hs E) as [H1 H2].
  destruct (IH _ H1 Hr) as [H3 H4]. split; congruence.
Qed.

(** One worker that is not asleep leaves a stopped pool by itself. *)
Lemma leave_one i w p :
  m_stop p = true -> m_threads p !! i = Some w -> w <> Asleep ->
  exists es p', run es p = Some p' /\ m_stop p' = true /\
    m_threads p' = <[i := Left]> (m_threads p).
Proof.
  intros Hs Hi Hw. destruct w as [| |t|]; [|done| |].
  - exists [Test i]. simpl. rewrite Hi. unfold test. rewrite Hs. by eexists.
  - exists [Finish i; Test i]. simpl. rewrite Hi. simpl.
    rewrite list_lookup_insert_eq by (by eapply lookup_lt_Some).
    unfold test. simpl. rewrite Hs. eexists. split; [done|]. simpl. by rewrite list_insert_insert_eq.
  - exists [], p. simpl. by rewrite list_insert_id.
Qed.

Lemma leave_all n p :
  m_stop p = true -> Asleep ∉ m_threads p -> (n <= length (m_threads p))%nat ->
  exists es p', run es p = Some p' /\ m_stop p' = true /\
    m_threads p' = replicate n Left ++ drop n (m_threads p).
Proof.
  intros Hs Ha. induction n as [|n IH]; intros Hn; [by exists [], p|].
  destruct IH as (es & p1 & Hr & Hs1 & Ht1); [lia|].
  destruct (lookup_lt_is_Some_2 (m_threads p) n) as [w Hw]; [lia|].
  assert (m_threads p1 !! n = Some w) as Hw1.
  { rewrite Ht1, lookup_app_r by (rewrite length_replicate; lia).
    rewrite length_replicate, lookup_drop, <- Hw. f_equal. lia. }
  destruct (leave_one n w p1 Hs1 Hw1) as (es2 & p2 & Hr2 & Hs2 & Ht2).
  { intros ->. by apply Ha, list_elem_of_lookup; exists n. }
  exists (es ++ es2), p2. rewrite (run_app _ _ _ _ Hr). split_and!; [done..|].
  rewrite Ht2, Ht1. rewrite insert_app_r_alt by (rewrite length_replicate; lia).
  rewrite length_replicate, Nat.sub_diag, (drop_S _ _ _ Hw). simpl.
  by rewrite cons_middle, app_assoc, <- replicate_S_end.
Qed.

(** ** Properties *)

(** C24. Tasks start in the order they were appended and each exactly once; those
    started are the ones finished and the ones running; and while the pool is
    not stopped no wake-up is lost: when a task waits and no notification is
    on its way, some worker is at work or about to take it. *)
Theorem pool_fifo_awake n p0 es p :
  new n = Ok p0 -> run es (init p0) = Some p ->
  started p ++ m_taskList p = appended p /\
  started p ≡ₚ finished p ++ tasks_of (m_threads p) /\
  (m_stop p = false -> m_taskList p <> [] -> notifying p = 0%nat -> Exists active (m_threads p)).
Proof.
  intros Hn Hr. destruct (pool_run_inv _ _ _ (init_inv _ _ Hn) Hr) as [Ho Hru _ Ha _].
  split_and!; [done..|]. intros Hs Ht Hno. destruct (Ha Hs Ht) as [|]; [|lia|done].
  intros E. pose proof (run_workers _ _ _ Hr) as Hl. rewrite E in Hl. revert Hn Hl. unfold new.
  destruct (Z.leb_spec n 0); [done|]. intros [= <-]. simpl. rewrite length_replicate. lia.
Qed.

(** A shutdown ends and drops: once the flag is set and the sleepers are
    woken, the workers can all leave, so the joins return; but no task that
    was waiting ever starts, whatever happens next. *)
Theorem shutdown_drops_tasks n p0 es p :
  new n = Ok p0 -> run es (init p0) = Some p -> m_stop p = true -> notifying_all p = false ->
  (exists es' p', run es' p = Some p' /\ Forall (eq Left) (m_threads p')) /\
  (forall es' p', run es' p = Some p' -> started p' = started p).
Proof.
  intros Hn Hr Hs Hna. split.
  - destruct (pool_run_inv _ _ _ (init_inv _ _ Hn) Hr) as [_ _ _ _ Hawake].
    destruct (leave_all (length (m_threads p)) p Hs) as (es' & p' & Hr' & _ & Ht); [auto | lia|].
    exists es', p'. split; [done|]. rewrite Ht, drop_all, app_nil_r. by apply Forall_replicate.
  - intros es' p' Hr'. by apply (run_stopped es' p p').
Qed.

End WithTasks.

(** ** Witnesses *)

Definition two_workers : threadpool :=
  mkPool [] [Testing; Testing] false 2 0 false [] ([] : list nat) [].

Definition pool_events : list event :=
  [Test 0; Append 7%nat; Test 1; Append 8%nat; Notify 0; Test 0; Append 9%nat; Notify 0; Notify 0].

Lemma pool_fifo_awake_witness :
  exists p, run pool_events two_workers = Some p /\ started p = [7; 8]%nat /\ m_taskList p = [9]%nat /\
    Exists active (m_threads p).
Proof.
  eexists. split; [vm_compute; reflexivity|]. split; [reflexivity|]. split; [reflexivity|].
  apply (pool_fifo_awake 2 (mkPool [] [] false 2 0 false [] [] []) pool_events);
    [vm_compute; reflexivity | vm_compute; reflexivity | reflexivity | discriminate | reflexivity].
Defined.

Lemma shutdown_drops_tasks_witness :
  exists p, run (pool_events ++ [Stop; NotifyAll]) two_workers = Some p /\ m_taskList p = [9]%nat /\
    (exists es' p', run es' p = Some p' /\ Forall (eq Left) (m_threads p')) /\
    (forall es' p', run es' p = Some p' -> started p' = started p).
Proof.
  eexists. split; [vm_compute; reflexivity|]. split; [reflexivity|].
  apply (shutdown_drops_tasks 2 (mkPool [] [] false 2 0 false [] [] []) (pool_events ++ [Stop; NotifyAll]));
    vm_compute; reflexivity.
Defined.

End Pool.
