(* ===== verification/LockFreeQueue.v ===== *)
(** * LockFreeQueue: lockfreequeue.hpp

    The linked queue whose [push] any number of threads may be in.  The memory
    they share, nodes and values by address, and the atomics [head] and [tail]
    are one state; a thread inside [push] is at one of the places between two
    accesses of that memory, and a step of a thread is one access.  An
    execution is a list of steps of the threads in any order.

    The header calls three functions that it does not have (the counting of
    references: [increase_external_count], [free_external_counter] and
    [release_ref]); they are operations of the class [RefCounts], and
    [RefCountsLaws] says what counting references means.  It has no [pop]
    either, and no constructor that gives [head] and [tail] a first node: the
    theorems start from a queue where both have one ([ready]). *)

From Stdlib Require Import ZArith Lia.
From stdpp Require Import options.
From S2P Require Import Prelude.

#[local] Set Default Proof Using "Type*".

Module Lfq.

(** ** Data *)

Record counted_node_ptr := Counted {
  external_count : Z;
  ptr : option nat
}.

(** Bit fields of 30 and of 2 bits. *)
Record node_counter := Counter {
  internal_count : Z;
  external_counters : Z
}.

Definition counter (internal external : Z) : node_counter :=
  Counter (internal mod 2 ^ 30) (external mod 2 ^ 2).

Record node_t := Node {
  data : option nat;            (* a [T*], by address *)
  count : node_counter;
  next : counted_node_ptr
}.

(** [node()].  It does not initialise [data]: [bits] is what the memory holds. *)
Definition node (bits : option nat) : node_t := Node bits (counter 0 2) (Counted 0 None).

(** The functions the header lacks: on an atomic counter and a local copy of
    it, and on the counts of the node; [true] when the node is deleted. *)
Class RefCounts := {
  increase_external_count : counted_node_ptr -> counted_node_ptr -> counted_node_ptr * counted_node_ptr;
  free_external_counter : counted_node_ptr -> node_counter -> node_counter * bool;
  release_ref : node_counter -> node_counter * bool
}.

(** They count: [increase_external_count] leaves the pointer of the counter and
    reads it; an external counter is freed once at a time, and a node goes
    only when it has none left. *)
Class RefCountsLaws (R : RefCounts) := {
  increase_counter : forall c o, ptr (fst (increase_external_count c o)) = ptr c;
  increase_old : forall c o, ptr (snd (increase_external_count c o)) = ptr c;
  free_counter : forall o c, 0 < external_counters c < 4 ->
    external_counters (fst (free_external_counter o c)) = external_counters c - 1;
  free_deletes : forall o c, 0 < external_counters c < 4 ->
    snd (free_external_counter o c) = true -> external_counters c = 1;
  release_counter : forall c, external_counters (fst (release_ref c)) = external_counters c;
  release_deletes : forall c, snd (release_ref c) = true -> external_counters c = 0
}.

(** Where a thread is inside [push]: before each access. *)
Inductive place :=
| Load                   (* tail.load() *)
| Increase               (* increase_external_count(tail, old_tail) *)
| Cas                    (* old_tail.ptr->data.compare_exchange_strong *)
| SetNext                (* old_tail.ptr->next = new_next *)
| Exchange               (* tail.exchange(new_next) *)
| FreeCounter            (* free_external_counter(old_tail) *)
| ReleaseData            (* new_data.release() *)
| ReleaseRef.            (* old_tail.ptr->release_ref() *)

#[global] Instance place_eq_dec : EqDecision place.
Proof. solve_decision. Defined.

(** The locals of [push]. *)
Record frame := Frame {
  at_ : place;
  new_data : nat;
  new_next : counted_node_ptr;
  old_tail : counted_node_ptr
}.

Definition go (pl : place) (s : frame) : frame := Frame pl (new_data s) (new_next s) (old_tail s).
Definition set_old (c : counted_node_ptr) (s : frame) : frame := Frame (at_ s) (new_data s) (new_next s) c.

Section WithT.
Context {T : Type} `{R : RefCounts}.

(** The queue and the memory: the nodes, the values, the threads in [push]. *)
Record lock_free_queue := mkQueue {
  head : counted_node_ptr;
  tail : counted_node_ptr;
  nodes : gmap nat node_t;
  values : gmap nat T;
  pushes : gmap nat frame
}.

Definition set_tail (c : counted_node_ptr) (w : lock_free_queue) : lock_free_queue :=
  mkQueue (head w) c (nodes w) (values w) (pushes w).
Definition set_nodes (m : gmap nat node_t) (w : lock_free_queue) : lock_free_queue :=
  mkQueue (head w) (tail w) m (values w) (pushes w).
Definition set_push (t : nat) (s : frame) (w : lock_free_queue) : lock_free_queue :=
  mkQueue (head w) (tail w) (nodes w) (values w) (<[t := s]> (pushes w)).

(** [push(new_value)] up to its first access of the shared memory: the value
    and the node are allocated, at [d] and [p]. *)
Definition push (t : nat) (new_value : T) (d p : nat) (bits : option nat) (w : lock_free_queue) : lock_free_queue :=
  mkQueue (head w) (tail w) (<[p := node bits]> (nodes w)) (<[d := new_value]> (values w))
    (<[t := Frame Load d (Counted 1 (Some p)) (Counted 0 None)]> (pushes w)).

(** What [old_tail.ptr] points at; a dangling or null pointer is undefined. *)
Definition deref (c : counted_node_ptr) (w : lock_free_queue) : res (nat * node_t) :=
  match ptr c with
  | None => Fault Undefined
  | Some p => match nodes w !! p with Some n => Ok (p, n) | None => Fault Undefined end
  end.

(** The counts of a node after one of the functions on them. *)
Definition counted (p : nat) (n : node_t) (r : node_counter * bool) (w : lock_free_queue) : lock_free_queue :=
  if snd r then set_nodes (delete p (nodes w)) w
  else set_nodes (<[p := Node (data n) (fst r) (next n)]> (nodes w)) w.

(** The next access of the thread [t]. *)
Definition push_step (t : nat) (s : frame) (w : lock_free_queue) : res lock_free_queue :=
  match at_ s with
  | Load => Ok (set_push t (go Increase (set_old (tail w) s)) w)
  | Increase =>
      let '(c, o) := increase_external_count (tail w) (old_tail s) in
      Ok (set_push t (go Cas (set_old o s)) (set_tail c w))
  | Cas =>
      '(p, n) ← deref (old_tail s) w;
      match data n with
      | None => Ok (set_push t (go SetNext s)
                  (set_nodes (<[p := Node (Some (new_data s)) (count n) (next n)]> (nodes w)) w))
      | Some _ => Ok (set_push t (go ReleaseRef s) w)
      end
  | SetNext =>
      '(p, n) ← deref (old_tail s) w;
      Ok (set_push t (go Exchange s) (set_nodes (<[p := Node (data n) (count n) (new_next s)]> (nodes w)) w))
  | Exchange => Ok (set_push t (go FreeCounter (set_old (tail w) s)) (set_tail (new_next s) w))
  | FreeCounter =>
      '(p, n) ← deref (old_tail s) w;
      Ok (set_push t (go ReleaseData s) (counted p n (free_external_counter (old_tail s) (count n)) w))
  | ReleaseData => Ok (mkQueue (head w) (tail w) (nodes w) (values w) (delete t (pushes w)))
  | ReleaseRef =>
      '(p, n) ← deref (old_tail s) w;
      Ok (set_push t (go Increase s) (counted p n (release_ref (count n)) w))
  end.

(** ** Executions *)

Inductive event :=
| Call (t : nat) (new_value : T) (d p : nat) (bits : option nat)   (* a thread calls push *)
| Step (t : nat).                                                  (* and goes on *)

Definition step (e : event) (w : lock_free_queue) : res lock_free_queue :=
  match e with
  | Call t v d p bits => Ok (push t v d p bits w)
  | Step t => match pushes w !! t with Some s => push_step t s w | None => Fault Undefined end
  end.

Fixpoint run (es : list event) (w : lock_free_queue) : res lock_free_queue :=
  match es with
  | [] => Ok w
  | e :: es' => w ← step e w; run es' w
  end.

(** When an event can happen: a thread is in one call at a time, [new] returns
    fresh memory, and here with null bits; only a thread in [push] steps. *)
Definition can (e : event) (w : lock_free_queue) : Prop :=
  match e with
  | Call t _ d p bits => pushes w !! t = None /\ values w !! d = None /\ nodes w !! p = None /\ bits = None
  | Step t => is_Some (pushes w !! t)
  end.

Fixpoint possible (es : list event) (w : lock_free_queue) : Prop :=
  match es with
  | [] => True
  | e :: es' => can e w /\ forall w', step e w = Ok w' -> possible es' w'
  end.

#[global] Instance can_dec e w : Decision (can e w).
Proof. destruct e; simpl; apply _. Defined.

(** [possible], by evaluation. *)
Fixpoint check (es : list event) (w : lock_free_queue) : bool :=
  match es with
  | [] => true
  | e :: es' => bool_decide (can e w) && match step e w with Ok w' => check es' w' | Fault _ => true end
  end.

(** ** The specification: a sequence of values *)

(** The value a step appends: that of the thread whose exchange it is. *)
Definition appends (e : event) (w : lock_free_queue) : list T :=
  match e with
  | Call _ _ _ _ _ => []
  | Step t =>
      match pushes w !! t with
      | Some s => if decide (at_ s = Exchange) then option_list (values w !! new_data s) else []
      | None => []
      end
  end.

Fixpoint appended (es : list event) (w : lock_free_queue) : list T :=
  match es with
  | [] => []
  | e :: es' => appends e w ++ match step e w with Ok w' => appended es' w' | Fault _ => [] end
  end.

(** What the queue holds: the values from the node of [head], along [next], up
    to that of [tail]. *)
Fixpoint walk (fuel : nat) (c : option nat) (w : lock_free_queue) : option (list T) :=
  if decide (c = ptr (tail w)) then Some []
  else match fuel with
  | O => None
  | S fuel' =>
      p ← c; n ← nodes w !! p; d ← data n; v ← values w !! d;
      l ← walk fuel' (ptr (next n)) w; Some (v :: l)
  end.

Definition contents (w : lock_free_queue) : option (list T) := walk (size (nodes w)) (ptr (head w)) w.

(** A queue as its user needs it: [head] and [tail] at one empty node. *)
Definition ready (p : nat) : lock_free_queue :=
  mkQueue (Counted 1 (Some p)) (Counted 1 (Some p)) {[ p := node None ]} ∅ ∅.

(** ** The invariant *)

Definition node_is (m : gmap nat node_t) (p : nat) (P : node_t -> Prop) : Prop :=
  exists n, m !! p = Some n /\ P n.

Definition externals (n : node_t) : Z := external_counters (count n).

(** The node a thread brings, before it is linked. *)
Definition unlinked (m : gmap nat node_t) (linked : list nat) (s : frame) : Prop :=
  exists p, ptr (new_next s) = Some p /\ (p ∉ linked) /\
    node_is m p (fun n => data n = None /\ externals n = 2).

(** Between its successful exchange of [data] and that of [tail]. *)
Definition claims (s : frame) : Prop := at_ s = SetNext \/ at_ s = Exchange.

(** What holds of a thread, with the linked nodes [chain ++ [q]]. *)
Definition frame_ok (m : gmap nat node_t) (vals : gmap nat T) (chain : list nat) (q : nat) (s : frame) : Prop :=
  is_Some (vals !! new_data s) /\
  (exists p, ptr (new_next s) = Some p /\ is_Some (m !! p)) /\
  match at_ s with
  | Load | Increase => unlinked m (chain ++ [q]) s
  | Cas | ReleaseRef =>
      unlinked m (chain ++ [q]) s /\ exists p, ptr (old_tail s) = Some p /\ p ∈ chain ++ [q]
  | SetNext =>
      unlinked m (chain ++ [q]) s /\ ptr (old_tail s) = Some q /\
      node_is m q (fun n => data n = Some (new_data s))
  | Exchange =>
      unlinked m (chain ++ [q]) s /\ ptr (old_tail s) = Some q /\
      node_is m q (fun n => data n = Some (new_data s) /\ next n = new_next s)
  | FreeCounter => exists p, ptr (old_tail s) = Some p /\ p ∈ chain /\ node_is m p (fun n => externals n = 2)
  | ReleaseData => True
  end.

Definition apart (s r : frame) : Prop :=
  new_data s <> new_data r /\ ptr (new_next s) <> ptr (new_next r) /\
  (at_ s = FreeCounter -> at_ r = FreeCounter -> ptr (old_tail s) <> ptr (old_tail r)).

(** The nodes of [chain] hold [vs] and lead to [q], the node of [tail], which
    is claimed by a thread as soon as it has data. *)
Record inv (w : lock_free_queue) (chain : list nat) (q : nat) (vs : list T) : Prop := {
  i_head : ptr (head w) = hd_error (chain ++ [q]);
  i_tail : ptr (tail w) = Some q;
  i_nodup : NoDup (chain ++ [q]);
  i_length : length chain = length vs;
  i_link : forall i p, chain !! i = Some p -> node_is (nodes w) p (fun n =>
    1 <= externals n /\ ptr (next n) = (chain ++ [q]) !! S i /\
    exists d, data n = Some d /\ values w !! d = vs !! i);
  i_last : node_is (nodes w) q (fun n => externals n = 2 /\
    (is_Some (data n) -> exists t s, pushes w !! t = Some s /\ claims s));
  i_frame : forall t s, pushes w !! t = Some s -> frame_ok (nodes w) (values w) chain q s;
  i_apart : forall t u s r, t <> u -> pushes w !! t = Some s -> pushes w !! u = Some r -> apart s r
}.

(** ** Lemmas *)

Lemma node_is_insert m p P p0 n0 :
  node_is m p P -> (p = p0 -> P n0) -> node_is (<[p0 := n0]> m) p P.
Proof.
  intros (n & Hn & HP) H. destruct (decide (p = p0)) as [->|Hne].
  - exists n0. rewrite lookup_insert_eq. auto.
  - exists n. by rewrite lookup_insert_ne by congruence.
Qed.

Lemma node_is_mono m p (P Q : node_t -> Prop) :
  node_is m p P -> (forall n, P n -> Q n) -> node_is m p Q.
Proof. intros (n & Hn & HP) H. exists n. auto. Qed.

Lemma node_is_at m p (P : node_t -> Prop) n : node_is m p P -> m !! p = Some n -> P n.
Proof. intros (n' & Hn & HP) Hm. by simplify_eq. Qed.

Lemma apart_sym s r : apart s r -> apart r s.
Proof. intros (H1 & H2 & H3). repeat split; auto. intros Hr Hs. by apply not_eq_sym, H3. Qed.

Lemma unlinked_insert m l s p0 n0 : p0 ∈ l -> unlinked m l s -> unlinked (<[p0 := n0]> m) l s.
Proof.
  intros Hp (p & Hs & Hl & Hn). exists p. repeat split; [done..|].
  apply node_is_insert; [done | by intros ->].
Qed.

(** What another thread knows survives a change of a linked node it does not
    rely on. *)
Lemma frame_ok_insert m vals chain q r p0 n0 n0' :
  m !! p0 = Some n0 -> p0 ∈ chain ++ [q] ->
  (claims r -> p0 = q -> data n0' = data n0 /\ next n0' = next n0) ->
  (at_ r = FreeCounter -> ptr (old_tail r) = Some p0 -> externals n0' = externals n0) ->
  frame_ok m vals chain q r -> frame_ok (<[p0 := n0']> m) vals chain q r.
Proof.
  intros Hm Hp Hc Hf (Hv & (p & Hn & Hs) & H). split; [done|]. split.
  { exists p. split; [done|]. destruct (decide (p = p0)) as [->|];
      [by rewrite lookup_insert_eq | by rewrite lookup_insert_ne by congruence]. }
  unfold claims in Hc. destruct (at_ r).
  1-2: by apply unlinked_insert.
  1,6: by destruct H as [? ?]; split; [apply unlinked_insert|].
  - destruct H as (? & ? & Hq). repeat split; [by apply unlinked_insert | done |].
    apply node_is_insert; [done|]. intros <-. destruct Hc as [-> _]; auto.
    by apply (node_is_at _ _ _ _ Hq).
  - destruct H as (? & ? & Hq). repeat split; [by apply unlinked_insert | done |].
    apply node_is_insert; [done|]. intros <-. destruct Hc as [-> ->]; auto.
    by apply (node_is_at _ _ _ _ Hq).
  - destruct H as (p1 & ? & ? & Hq). exists p1. repeat split; [done..|].
    apply node_is_insert; [done|]. intros ->. rewrite Hf by done. by apply (node_is_at _ _ _ _ Hq).
  - done.
Qed.

Lemma not_in_init {A} (l : list A) x : NoDup (l ++ [x]) -> x ∉ l.
Proof. intros (_ & H & _)%NoDup_app Hx. by apply (H x Hx), list_elem_of_singleton. Qed.

(** Only one thread is between the two exchanges. *)
Lemma claims_unique w chain q vs t u s r :
  inv w chain q vs -> pushes w !! t = Some s -> pushes w !! u = Some r ->
  claims s -> claims r -> t = u.
Proof.
  intros I Ht Hu Hs Hr. destruct (decide (t = u)) as [|Hne]; [done|]. exfalso.
  destruct (i_apart _ _ _ _ I _ _ _ _ Hne Ht Hu) as (Hd & _).
  assert (forall t s, pushes w !! t = Some s -> claims s ->
            node_is (nodes w) q (fun n => data n = Some (new_data s))) as Hq.
  { intros t' s' Ht' Hs'. destruct (i_frame _ _ _ _ I _ _ Ht') as (_ & _ & H).
    destruct Hs' as [E|E]; rewrite E in H; destruct H as (_ & _ & H); [done|].
    by apply (node_is_mono _ _ _ _ H); intros ? [? _]. }
  destruct (Hq _ _ Ht Hs) as (n & Hn & En). pose proof (node_is_at _ _ _ _ (Hq _ _ Hu Hr) Hn).
  congruence.
Qed.

(** A step of [t] that keeps the linked nodes: it changes one of them. *)
Lemma inv_update w chain q vs t s s' c p0 n0 n0' :
  inv w chain q vs -> pushes w !! t = Some s ->
  nodes w !! p0 = Some n0 -> p0 ∈ chain ++ [q] -> ptr c = ptr (tail w) ->
  new_data s' = new_data s -> new_next s' = new_next s -> at_ s' <> FreeCounter ->
  (claims s -> claims s') ->
  (p0 ∈ chain -> data n0' = data n0 /\ next n0' = next n0 /\ 1 <= externals n0') ->
  (p0 = q -> externals n0' = externals n0 /\ (data n0' = data n0 \/ claims s')) ->
  (forall u r, u <> t -> pushes w !! u = Some r -> claims r -> p0 = q -> data n0' = data n0 /\ next n0' = next n0) ->
  (forall u r, u <> t -> pushes w !! u = Some r -> at_ r = FreeCounter ->
    ptr (old_tail r) = Some p0 -> externals n0' = externals n0) ->
  frame_ok (<[p0 := n0']> (nodes w)) (values w) chain q s' ->
  inv (mkQueue (head w) c (<[p0 := n0']> (nodes w)) (values w) (<[t := s']> (pushes w))) chain q vs.
Proof.
  intros I Ht H0 Hp Hc Hd Hn Hf Hcl Hchain Hq Hu1 Hu2 Hs'.
  assert (forall u r, <[t := s']> (pushes w) !! u = Some r ->
            u = t /\ r = s' \/ u <> t /\ pushes w !! u = Some r) as Hcase.
  { intros u r. destruct (decide (u = t)) as [->|Hne].
    - rewrite lookup_insert_eq. intros [= <-]. auto.
    - rewrite lookup_insert_ne by congruence. auto. }
  assert (forall r, apart s r -> apart s' r) as Hap.
  { intros r (A1 & A2 & A3). unfold apart. rewrite Hd, Hn. repeat split; auto; congruence. }
  destruct I as [I1 I2 I3 I4 I5 I6 I7 I8]. split; simpl; auto; [congruence|..].
  - intros i p Hi. apply node_is_insert; [by apply I5|]. intros ->.
    destruct (Hchain (list_elem_of_lookup_2 _ _ _ Hi)) as (-> & -> & He).
    split; [done|]. apply (node_is_at _ _ _ _ (I5 i p0 Hi) H0).
  - assert (is_Some (data n0) -> p0 = q -> exists t0 s0, <[t:=s']> (pushes w) !! t0 = Some s0 /\ claims s0) as Hold.
    { intros Hsome ->. destruct (node_is_at _ _ _ _ I6 H0) as [_ H]. destruct (H Hsome) as (u & r & Hu & Hr).
      destruct (decide (u = t)) as [->|Hne].
      - exists t, s'. rewrite lookup_insert_eq. simplify_eq. auto.
      - exists u, r. by rewrite lookup_insert_ne by congruence. }
    destruct (decide (p0 = q)) as [->|Hne].
    + exists n0'. rewrite lookup_insert_eq. split; [done|]. destruct (Hq eq_refl) as [-> Hor].
      split; [by apply (node_is_at _ _ _ _ I6 H0)|]. destruct Hor as [->|Hor]; [auto|].
      intros _. exists t, s'. by rewrite lookup_insert_eq.
    + destruct I6 as (n & Hnq & Hext & Hcla). exists n. rewrite lookup_insert_ne by congruence.
      repeat split; [done..|]. intros Hsome. destruct (Hcla Hsome) as (u & r & Hu & Hr).
      destruct (decide (u = t)) as [->|Hne'].
      * exists t, s'. rewrite lookup_insert_eq. simplify_eq. auto.
      * exists u, r. by rewrite lookup_insert_ne by congruence.
  - intros u r [(-> & ->)|(Hne & Hu)]%Hcase; [done|].
    apply (frame_ok_insert _ _ _ _ _ p0 n0 n0'); eauto.
  - intros u1 u2 r1 r2 Hne [(-> & ->)|(? & ?)]%Hcase [(-> & ->)|(? & ?)]%Hcase; [done|..].
    + by apply Hap, (I8 t u2).
    + by apply apart_sym, Hap, (I8 t u1).
    + by apply (I8 u1 u2).
Qed.

(** A step that changes no node. *)
Lemma inv_keep w chain q vs t s s' c :
  inv w chain q vs -> pushes w !! t = Some s -> ptr c = ptr (tail w) ->
  new_data s' = new_data s -> new_next s' = new_next s -> at_ s' <> FreeCounter ->
  ~ claims s -> frame_ok (nodes w) (values w) chain q s' ->
  inv (mkQueue (head w) c (nodes w) (values w) (<[t := s']> (pushes w))) chain q vs.
Proof.
  intros I Ht Hc Hd Hn Hf Hcl Hs'. destruct (i_last _ _ _ _ I) as (n & Hq & _).
  rewrite <- (insert_id (nodes w) q n Hq).
  apply (inv_update w chain q vs t s s' c q n n); try done.
  - apply elem_of_app. right. by apply list_elem_of_singleton.
  - intros []%(not_in_init chain q). apply (i_nodup _ _ _ _ I).
  - auto.
  - by rewrite insert_id.
Qed.

Lemma node_is_alloc m p n p' P : m !! p = None -> node_is m p' P -> node_is (<[p := n]> m) p' P.
Proof. intros Hp H. apply node_is_insert; [done|]. intros ->. by destruct H as (? & ? & _); simplify_eq. Qed.

Lemma frame_ok_alloc m vals chain q s p n d v :
  m !! p = None -> vals !! d = None ->
  frame_ok m vals chain q s -> frame_ok (<[p := n]> m) (<[d := v]> vals) chain q s.
Proof.
  intros Hp Hd (Hv & (p1 & Hn & Hs) & H).
  assert (unlinked m (chain ++ [q]) s -> unlinked (<[p := n]> m) (chain ++ [q]) s) as Hun.
  { intros (p2 & ? & ? & ?). exists p2. repeat split; [done..|]. by apply node_is_alloc. }
  split; [|split].
  - apply lookup_insert_is_Some. destruct (decide (d = new_data s)); auto.
  - exists p1. split; [done|]. apply lookup_insert_is_Some. destruct (decide (p = p1)); auto.
  - destruct (at_ s).
    1-2: auto. 1,6: by destruct H; auto.
    1-2: destruct H as (? & ? & ?); repeat split; [auto | done | by apply node_is_alloc].
    + destruct H as (p2 & ? & ? & ?). exists p2. repeat split; [done..|]. by apply node_is_alloc.
    + done.
Qed.

(** A call allocates. *)
Lemma inv_push w chain q vs t v d p :
  inv w chain q vs -> can (Call t v d p None) w -> inv (push t v d p None w) chain q vs.
Proof.
  intros [I1 I2 I3 I4 I5 I6 I7 I8] (Ht & Hd & Hp & _).
  assert (forall u r, <[t := Frame Load d (Counted 1 (Some p)) (Counted 0 None)]> (pushes w) !! u = Some r ->
            u = t /\ r = Frame Load d (Counted 1 (Some p)) (Counted 0 None) \/ u <> t /\ pushes w !! u = Some r) as Hcase.
  { intros u r. destruct (decide (u = t)) as [->|Hne].
    - rewrite lookup_insert_eq. intros [= <-]. auto.
    - rewrite lookup_insert_ne by congruence. auto. }
  assert (forall u r, pushes w !! u = Some r -> apart r (Frame Load d (Counted 1 (Some p)) (Counted 0 None))) as Hap.
  { intros u r Hu. destruct (I7 u r Hu) as ((x & Hx) & (p1 & Hn & (n1 & Hs)) & _).
    repeat split; simpl; congruence. }
  assert (forall x, node_is (nodes w) x (fun _ => True) -> x <> p) as Hnp.
  { intros x (n & Hn & _) ->. congruence. }
  split; simpl; auto.
  - intros i p0 Hi. apply node_is_alloc; [done|]. apply (node_is_mono _ _ _ _ (I5 i p0 Hi)).
    intros n (? & ? & d' & ? & Hv). repeat split; [done..|]. exists d'. split; [done|].
    rewrite lookup_insert_ne; [done|]. intros ->. rewrite Hd in Hv.
    apply lookup_lt_Some in Hi. rewrite I4 in Hi. apply lookup_lt_is_Some in Hi as [? ?]. congruence.
  - apply node_is_alloc; [done|]. apply (node_is_mono _ _ _ _ I6). intros n (? & Hcl). split; [done|].
    intros Hs. destruct (Hcl Hs) as (u & r & Hu & Hr). exists u, r.
    rewrite lookup_insert_ne by congruence. auto.
  - intros u r [(-> & ->)|(Hne & Hu)]%Hcase; [|apply frame_ok_alloc; [done | done | by apply (I7 u)]].
    repeat split; simpl.
    + by rewrite lookup_insert_eq.
    + exists p. by rewrite lookup_insert_eq.
    + exists p. repeat split; [|exists (node None); by rewrite lookup_insert_eq].
      intros [Hx|Hx]%elem_of_app.
      * apply list_elem_of_lookup in Hx as (i & Hi). apply (Hnp p); [|done].
        by apply (node_is_mono _ _ _ _ (I5 i p Hi)).
      * apply list_elem_of_singleton in Hx as ->. apply (Hnp q); [|done]. by apply (node_is_mono _ _ _ _ I6).
  - intros u1 u2 r1 r2 Hne [(-> & ->)|(? & ?)]%Hcase [(-> & ->)|(? & ?)]%Hcase; [done|..].
    + eapply apart_sym, Hap; eauto.
    + eapply Hap; eauto.
    + by apply (I8 u1 u2).
Qed.

(** The nodes and what hangs on them when [q] joins the chain. *)
Lemma links_extend w chain q vs p d v :
  inv w chain q vs -> values w !! d = Some v ->
  node_is (nodes w) q (fun n => data n = Some d /\ ptr (next n) = Some p) ->
  forall i x, (chain ++ [q]) !! i = Some x -> node_is (nodes w) x (fun n =>
    1 <= externals n /\ ptr (next n) = ((chain ++ [q]) ++ [p]) !! S i /\
    exists d', data n = Some d' /\ values w !! d' = (vs ++ [v]) !! i).
Proof.
  intros I Hv Hq i x. pose proof (i_length _ _ _ _ I) as I4. rewrite lookup_app_Some. intros [Hi|(Hge & Hi)].
  - apply (node_is_mono _ _ _ _ (i_link _ _ _ _ I i x Hi)). intros n (? & Hn & d' & ? & Hd).
    apply lookup_lt_Some in Hi. repeat split; [done| |exists d'; split; [done|]].
    + rewrite Hn, (lookup_app_l (chain ++ [q])); [done|]. rewrite length_app. simpl. lia.
    + rewrite lookup_app_l by lia. done.
  - apply list_lookup_singleton_Some in Hi as [Hi <-]. assert (i = length chain) as -> by lia.
    destruct Hq as (n & Hn & Hd & Hnx). exists n. split; [done|].
    destruct (node_is_at _ _ _ _ (i_last _ _ _ _ I) Hn) as [He _]. split; [lia|]. split.
    + rewrite Hnx. replace (S (length chain)) with (length (chain ++ [q]) + 0)%nat by (rewrite length_app; simpl; lia).
      by rewrite lookup_app_r, Nat.add_comm, Nat.add_sub by lia.
    + exists d. split; [done|]. rewrite Hv, I4. rewrite lookup_app_r, Nat.sub_diag by lia. done.
Qed.

(** What a thread without a claim knows when [p], which is not its node, joins
    the linked ones. *)
Lemma frame_ok_extend m vals chain q p r :
  frame_ok m vals chain q r -> ~ claims r -> ptr (new_next r) <> Some p -> frame_ok m vals (chain ++ [q]) p r.
Proof.
  intros (H1 & H2 & H) Hnc Hdiff. split; [done|]. split; [done|].
  assert (unlinked m (chain ++ [q]) r -> unlinked m ((chain ++ [q]) ++ [p]) r) as Hun.
  { intros (p1 & Hp1 & Hnin & Hno). exists p1. split; [done|]. split; [|done].
    intros [?| ->%list_elem_of_singleton]%elem_of_app; done. }
  unfold claims in Hnc. destruct (at_ r); try (by destruct Hnc; auto); auto.
  - destruct H as (? & p1 & ? & ?). split; [auto|]. exists p1. split; [done|]. by apply elem_of_app; left.
  - destruct H as (p1 & ? & ? & ?). exists p1. split; [done|]. split; [by apply elem_of_app; left | done].
  - destruct H as (? & p1 & ? & ?). split; [auto|]. exists p1. split; [done|]. by apply elem_of_app; left.
Qed.

(** The counter of the last node is freed by no thread yet. *)
Lemma last_not_freed w chain q vs u r :
  inv w chain q vs -> pushes w !! u = Some r -> at_ r = FreeCounter -> ptr (old_tail r) <> Some q.
Proof.
  intros I Hu E. destruct (i_frame _ _ _ _ I _ _ Hu) as (_ & _ & H). rewrite E in H.
  destruct H as (p1 & -> & Hin & _). intros [= E1]. subst p1. by apply (not_in_init _ _ (i_nodup _ _ _ _ I)).
Qed.

(** The exchange of [tail] links the thread's node. *)
Lemma inv_exchange w chain q vs t s v :
  inv w chain q vs -> pushes w !! t = Some s -> at_ s = Exchange -> values w !! new_data s = Some v ->
  exists p, inv (set_push t (go FreeCounter (set_old (tail w) s)) (set_tail (new_next s) w)) (chain ++ [q]) p (vs ++ [v]).
Proof.
  intros I Ht Hat Hv.
  destruct (i_frame _ _ _ _ I _ _ Ht) as (Hval & Hnew & Hf). rewrite Hat in Hf.
  destruct Hf as ((p & Hp & Hnp & Hpn) & Hold & Hq). exists p.
  assert (forall u r, <[t := go FreeCounter (set_old (tail w) s)]> (pushes w) !! u = Some r ->
            u = t /\ r = go FreeCounter (set_old (tail w) s) \/ u <> t /\ pushes w !! u = Some r) as Hcase.
  { intros u r. destruct (decide (u = t)) as [->|Hne];
      [rewrite lookup_insert_eq; intros [= <-]; auto | rewrite lookup_insert_ne by congruence; auto]. }
  assert (forall u r, u <> t -> pushes w !! u = Some r -> apart (go FreeCounter (set_old (tail w) s)) r) as Hap.
  { intros u r Hne Hu. destruct (i_apart _ _ _ _ I t u s r) as (A1 & A2 & _); [done..|].
    split; [done|]. split; [done|]. simpl. rewrite (i_tail _ _ _ _ I). intros _ Hr.
    by apply not_eq_sym, (last_not_freed _ _ _ _ _ _ I Hu). }
  split; simpl; auto.
  - by rewrite (i_head _ _ _ _ I); destruct chain.
  - apply NoDup_app. split; [apply I|]. split; [|by apply NoDup_singleton].
    intros x Hx E%list_elem_of_singleton. by subst x.
  - rewrite !length_app, (i_length _ _ _ _ I). done.
  - apply (links_extend w chain q vs p (new_data s) v); [done..|].
    apply (node_is_mono _ _ _ _ Hq). intros n [? ->]. by split.
  - apply (node_is_mono _ _ _ _ Hpn). intros n [Hd ?]. split; [done|]. rewrite Hd. by intros [? ?].
  - intros u r [(-> & ->)|(Hne & Hu)]%Hcase.
    + split; [done|]. split; [done|]. simpl. exists q. split; [apply I|].
      split; [by apply elem_of_app; right; apply list_elem_of_singleton|].
      apply (node_is_mono _ _ _ _ (i_last _ _ _ _ I)). by intros n [? _].
    + apply frame_ok_extend; [by apply (i_frame _ _ _ _ I u) | |].
      * intros Hr. apply Hne. apply (claims_unique _ _ _ _ _ _ _ _ I Hu Ht Hr). by right.
      * destruct (i_apart _ _ _ _ I t u s r) as (_ & Hdiff & _); [done..|]. congruence.
  - intros u1 u2 r1 r2 Hne [(-> & ->)|(? & ?)]%Hcase [(-> & ->)|(? & ?)]%Hcase; [done|..].
    + by apply (Hap u2).
    + by apply apart_sym, (Hap u1).
    + by apply (i_apart _ _ _ _ I u1 u2).
Qed.

Lemma linked_node w chain q vs p :
  inv w chain q vs -> p ∈ chain ++ [q] -> exists n, nodes w !! p = Some n /\ 1 <= externals n.
Proof.
  intros I [Hp|Hp]%elem_of_app.
  - apply list_elem_of_lookup in Hp as (i & Hi).
    destruct (i_link _ _ _ _ I i p Hi) as (n & ? & ? & _). eauto.
  - apply list_elem_of_singleton in Hp as ->. destruct (i_last _ _ _ _ I) as (n & ? & ? & _).
    exists n. split; [done | lia].
Qed.

Lemma frame_data w chain q vs t s :
  inv w chain q vs -> pushes w !! t = Some s -> is_Some (values w !! new_data s).
Proof. intros I Ht. apply (i_frame _ _ _ _ I _ _ Ht). Qed.

Lemma tail_linked {chain : list nat} {q} : q ∈ chain ++ [q].
Proof. apply elem_of_app. right. by apply list_elem_of_singleton. Qed.

(** A thread that has returned is no concern of the others. *)
Lemma inv_return w chain q vs t s :
  inv w chain q vs -> pushes w !! t = Some s -> ~ claims s ->
  inv (mkQueue (head w) (tail w) (nodes w) (values w) (delete t (pushes w))) chain q vs.
Proof.
  intros [I1 I2 I3 I4 I5 I6 I7 I8] Ht Hc. split; simpl; auto.
  - apply (node_is_mono _ _ _ _ I6). intros n (? & H). split; [done|]. intros Hs.
    destruct (H Hs) as (u & r & Hu & Hr). exists u, r. split; [|done].
    rewrite lookup_delete_ne; [done|]. intros ->. by simplify_eq.
  - intros u r Hu. apply (I7 u). by apply lookup_delete_Some in Hu as [_ ?].
  - intros u1 u2 r1 r2 Hne H1 H2. apply lookup_delete_Some in H1 as [_ ?], H2 as [_ ?].
    by apply (I8 u1 u2).
Qed.

Section WithLaws.
Context `{L : !RefCountsLaws R}.

(** The accesses of a thread, one lemma for those that dereference. *)
Lemma step_cas w chain q vs t s :
  inv w chain q vs -> pushes w !! t = Some s -> at_ s = Cas ->
  exists w', push_step t s w = Ok w' /\ inv w' chain q vs.
Proof.
  intros I Ht Hat. destruct (i_frame _ _ _ _ I _ _ Ht) as (Hv & Hn & Hf).
  rewrite Hat in Hf. destruct Hf as (Hun & p & Hp & Hin).
  destruct (linked_node _ _ _ _ _ I Hin) as (n & Hpn & He).
  unfold push_step, deref. rewrite Hat, Hp, Hpn. simpl. destruct (data n) eqn:Hd.
  - eexists. split; [done|]. apply (inv_keep w chain q vs t s); try done.
    { intros [?|?]; congruence. }
    split; [done|]. split; [done|]. simpl. eauto.
  - assert (p = q) as ->.
    { apply elem_of_app in Hin as [Hin|Hin]; [|by apply list_elem_of_singleton in Hin].
      apply list_elem_of_lookup in Hin as (i & Hi).
      destruct (node_is_at _ _ _ _ (i_link _ _ _ _ I i p Hi) Hpn) as (_ & _ & d & ? & _). congruence. }
    assert (q ∉ chain) as Hq by apply (not_in_init _ _ (i_nodup _ _ _ _ I)).
    eexists. split; [done|].
    apply (inv_update w chain q vs t s (go SetNext s) (tail w) q n); try done.
    + intros [?|?]; congruence.
    + intros _. split; [done|]. right. by left.
    + intros u r _ Hu Hr _. destruct (i_frame _ _ _ _ I _ _ Hu) as (_ & _ & Hf).
      destruct Hr as [E|E]; rewrite E in Hf; destruct Hf as (_ & _ & Hf);
        pose proof (node_is_at _ _ _ _ Hf Hpn) as Hx; simpl in Hx; [|destruct Hx]; congruence.
    + destruct Hn as (p1 & ? & ?). split; [done|]. split.
      { exists p1. split; [done|]. apply lookup_insert_is_Some. destruct (decide (q = p1)); auto. }
      simpl. split; [by apply unlinked_insert|]. split; [done|]. eexists. by rewrite lookup_insert_eq.
Qed.

Lemma step_set_next w chain q vs t s :
  inv w chain q vs -> pushes w !! t = Some s -> at_ s = SetNext ->
  exists w', push_step t s w = Ok w' /\ inv w' chain q vs.
Proof.
  intros I Ht Hat. destruct (i_frame _ _ _ _ I _ _ Ht) as (Hv & Hn & Hf).
  rewrite Hat in Hf. destruct Hf as (Hun & Hp & n & Hpn & Hd).
  assert (q ∉ chain) as Hq by apply (not_in_init _ _ (i_nodup _ _ _ _ I)).
  unfold push_step, deref. rewrite Hat, Hp, Hpn. eexists. split; [done|].
  apply (inv_update w chain q vs t s (go Exchange s) (tail w) q n); try done.
  - apply tail_linked.
  - intros _. by right.
  - intros _. split; [done|]. by left.
  - intros u r Hne Hu Hr. destruct Hne. symmetry.
    apply (claims_unique _ _ _ _ _ _ _ _ I Ht Hu); [by left | done].
  - destruct Hn as (p1 & ? & ?). split; [done|]. split.
    { exists p1. split; [done|]. apply lookup_insert_is_Some. destruct (decide (q = p1)); auto. }
    simpl. split; [apply unlinked_insert; [apply tail_linked | done]|]. split; [done|].
    eexists. by rewrite lookup_insert_eq.
Qed.

(** The counts of a linked node change, and keep a counter. *)
Lemma step_counts w chain q vs t s s' p n r :
  inv w chain q vs -> pushes w !! t = Some s -> nodes w !! p = Some n -> p ∈ chain ++ [q] ->
  snd r = false -> ~ claims s -> at_ s' = Increase /\ at_ s = ReleaseRef \/ at_ s' = ReleaseData ->
  new_data s' = new_data s -> new_next s' = new_next s ->
  1 <= external_counters (fst r) ->
  external_counters (fst r) = externals n \/ p ∈ chain /\ at_ s = FreeCounter /\ ptr (old_tail s) = Some p ->
  inv (set_push t s' (counted p n r w)) chain q vs.
Proof.
  intros I Ht Hn Hp Hr Hc Hs' Hd Hnx Hext Hor. unfold counted. rewrite Hr.
  assert (q ∉ chain) as Hq by apply (not_in_init _ _ (i_nodup _ _ _ _ I)).
  apply (inv_update w chain q vs t s s' (tail w) p n); try done.
  - destruct Hs' as [[-> _]| ->]; done.
  - intros ->. split; [|by left]. by destruct Hor as [?|[? _]].
  - intros u r' Hne Hu Hf Hpu. destruct Hor as [?|(_ & Hf' & Hpt)]; [done|].
    destruct (i_apart _ _ _ _ I t u s r') as (_ & _ & Ha); [done..|]. destruct (Ha Hf' Hf). congruence.
  - destruct (i_frame _ _ _ _ I _ _ Ht) as (Hv & (p1 & Hp1 & Hs1) & Hf). split; [by rewrite Hd|]. split.
    { rewrite Hnx. exists p1. split; [done|]. apply lookup_insert_is_Some. destruct (decide (p = p1)); auto. }
    destruct Hs' as [[-> Hat]| ->]; [|done]. rewrite Hat in Hf. destruct Hf as [Hun _].
    unfold unlinked in *. rewrite Hnx. by apply unlinked_insert.
Qed.

(** Every step of a thread that is in [push] succeeds and keeps the invariant. *)
Lemma push_step_inv w chain q vs t s :
  inv w chain q vs -> pushes w !! t = Some s ->
  exists w' chain' q', push_step t s w = Ok w' /\ inv w' chain' q' (vs ++ appends (Step t) w).
Proof.
  intros I Ht. simpl. rewrite Ht.
  destruct (frame_data _ _ _ _ _ _ I Ht) as (v & Hv).
  destruct (i_frame _ _ _ _ I _ _ Ht) as (_ & Hn & Hf).
  assert (at_ s <> SetNext -> at_ s <> Exchange -> ~ claims s) as Hnc by (intros ?? [?|?]; done).
  destruct (at_ s) eqn:Hat; cbn [decide decide_rel place_eq_dec]; rewrite ?app_nil_r.
  - exists (set_push t (go Increase (set_old (tail w) s)) w), chain, q. unfold push_step. rewrite Hat. split; [done|].
    apply (inv_keep w chain q vs t s); auto; try done.
  - unfold push_step. rewrite Hat. destruct (increase_external_count (tail w) (old_tail s)) as [c o] eqn:Ei.
    pose proof (increase_counter (tail w) (old_tail s)) as Ec. pose proof (increase_old (tail w) (old_tail s)) as Eo.
    rewrite Ei in Ec, Eo. simpl in Ec, Eo. do 3 eexists. split; [done|].
    apply (inv_keep w chain q vs t s); auto; try done. split; [done|]. split; [done|].
    simpl. split; [done|]. exists q. rewrite Eo, (i_tail _ _ _ _ I). split; [done | apply tail_linked].
  - destruct (step_cas w chain q vs t s) as (w' & ? & ?); eauto.
  - destruct (step_set_next w chain q vs t s) as (w' & ? & ?); eauto.
  - rewrite Hv. destruct (inv_exchange w chain q vs t s v) as (p & Hp); auto.
    unfold push_step. rewrite Hat. eauto.
  - destruct Hf as (p & Hp & Hin & Hpn). assert (p ∈ chain ++ [q]) as Hin' by (apply elem_of_app; by left).
    destruct (linked_node _ _ _ _ _ I Hin') as (n & Hn' & _).
    pose proof (node_is_at _ _ _ _ Hpn Hn') as He. unfold externals in He. simpl in He.
    unfold push_step, deref. rewrite Hat, Hp, Hn'. do 3 eexists. split; [done|].
    apply (step_counts w chain q vs t s _ p n); auto.
    + destruct (snd _) eqn:E; [|done]. apply free_deletes in E; lia.
    + rewrite free_counter; lia.
  - do 3 eexists. unfold push_step. rewrite Hat. split; [done|]. apply (inv_return w chain q vs t s); auto.
  - destruct Hf as (_ & p & Hp & Hin). destruct (linked_node _ _ _ _ _ I Hin) as (n & Hn' & He).
    unfold push_step, deref. rewrite Hat, Hp, Hn'. do 3 eexists. split; [done|].
    apply (step_counts w chain q vs t s _ p n); auto.
    + destruct (snd _) eqn:E; [|done]. apply release_deletes in E. unfold externals in He. lia.
    + by rewrite release_counter.
    + left. by rewrite release_counter.
Qed.

Lemma queue_step_inv w chain q vs e :
  inv w chain q vs -> can e w ->
  exists w' chain' q', step e w = Ok w' /\ inv w' chain' q' (vs ++ appends e w).
Proof.
  intros I Hc. destruct e as [t v d p bits|t].
  - destruct Hc as (? & ? & ? & ->). simpl. rewrite app_nil_r.
    exists (push t v d p None w), chain, q. split; [done|]. by apply inv_push.
  - destruct Hc as [s Ht]. destruct (push_step_inv w chain q vs t s I Ht) as (w' & c & q' & ? & ?).
    exists w', c, q'. split; [|done]. simpl. by rewrite Ht.
Qed.

Lemma run_inv es w chain q vs :
  inv w chain q vs -> possible es w ->
  exists w' chain' q', run es w = Ok w' /\ inv w' chain' q' (vs ++ appended es w).
Proof.
  revert w chain q vs. induction es as [|e es IH]; intros w chain q vs I; simpl.
  { intros _. exists w, chain, q. by rewrite app_nil_r. }
  intros [Hc Hp]. destruct (queue_step_inv w chain q vs e I Hc) as (w1 & c1 & q1 & Hs & I1).
  destruct (IH w1 c1 q1 _ I1 (Hp _ Hs)) as (w2 & c2 & q2 & Hr & I2).
  rewrite Hs. simpl.
  exists w2, c2, q2. split; [done|]. by rewrite app_assoc.
Qed.

End WithLaws.

Lemma ready_inv p : inv (ready p) [] p [].
Proof.
  split; simpl; try done.
  - apply NoDup_singleton.
  - exists (node None). rewrite lookup_singleton_eq. split; [done|]. split; [done|]. by intros [? ?].
Qed.

(** What the invariant says of what a reader finds. *)
Lemma walk_drop w chain q vs k fuel :
  inv w chain q vs -> (k <= length chain)%nat -> (length chain - k <= fuel)%nat ->
  walk fuel ((chain ++ [q]) !! k) w = Some (drop k vs).
Proof.
  intros I. revert k. induction fuel as [|fuel IH]; intros k Hk Hf.
  - assert (k = length chain) as -> by lia. rewrite lookup_app_r, Nat.sub_diag by lia. simpl.
    rewrite decide_True by (symmetry; apply (i_tail _ _ _ _ I)).
    by rewrite (i_length _ _ _ _ I), drop_ge by lia.
  - destruct (decide (k = length chain)) as [->|Hne].
    + rewrite lookup_app_r, Nat.sub_diag by lia. simpl.
      rewrite decide_True by (symmetry; apply (i_tail _ _ _ _ I)).
      by rewrite (i_length _ _ _ _ I), drop_ge by lia.
    + destruct (lookup_lt_is_Some_2 chain k) as [p Hp]; [lia|].
      destruct (lookup_lt_is_Some_2 vs k) as [v Hv]; [rewrite <- (i_length _ _ _ _ I); lia|].
      rewrite lookup_app_l, Hp by lia. simpl. rewrite decide_False.
      2:{ rewrite (i_tail _ _ _ _ I). intros [= ->]. apply (not_in_init _ _ (i_nodup _ _ _ _ I)).
          by apply list_elem_of_lookup_2 in Hp. }
      destruct (i_link _ _ _ _ I k p Hp) as (n & -> & _ & Hnx & d & Hd & Hvd). simpl.
      rewrite Hd. simpl. rewrite Hvd, Hv. simpl. rewrite Hnx, IH by lia. simpl.
      by rewrite (drop_S _ _ _ Hv).
Qed.

Lemma chain_size w chain q vs : inv w chain q vs -> (length chain <= size (nodes w))%nat.
Proof.
  intros I. rewrite <- size_dom.
  pose proof (size_list_to_set (C:=gset nat) (chain ++ [q]) (i_nodup _ _ _ _ I)) as Hs.
  rewrite length_app in Hs. simpl in Hs.
  enough (size (list_to_set (chain ++ [q]) : gset nat) <= size (dom (nodes w)))%nat by lia.
  apply subseteq_size. intros x Hx%elem_of_list_to_set. apply elem_of_dom.
  destruct (linked_node _ _ _ _ _ I Hx) as (n & Hn & _). by exists n.
Qed.

Lemma inv_contents w chain q vs : inv w chain q vs -> contents w = Some vs.
Proof.
  intros I. unfold contents. rewrite (i_head _ _ _ _ I).
  replace (hd_error (chain ++ [q])) with ((chain ++ [q]) !! 0%nat) by (by destruct chain).
  rewrite (walk_drop w chain q vs 0 _ I); [done | lia |].
  pose proof (chain_size _ _ _ _ I). lia.
Qed.

(** ** The values on their way *)

Definition before_exchange (s : frame) : bool :=
  match at_ s with FreeCounter | ReleaseData => false | _ => true end.

Definition pending_of (vals : gmap nat T) (s : frame) : option T :=
  if before_exchange s then vals !! new_data s else None.

Definition pending_in (vals : gmap nat T) (m : gmap nat frame) : list T :=
  omap (fun ts => pending_of vals (snd ts)) (map_to_list m).

(** The values of the calls that have not linked theirs yet. *)
Definition pending (w : lock_free_queue) : list T := pending_in (values w) (pushes w).

Definition called_by (e : event) : list T :=
  match e with Call _ v _ _ _ => [v] | Step _ => [] end.

Fixpoint called (es : list event) : list T :=
  match es with [] => [] | e :: es' => called_by e ++ called es' end.

Lemma pending_in_insert vals m t s :
  m !! t = None -> pending_in vals (<[t := s]> m) ≡ₚ option_list (pending_of vals s) ++ pending_in vals m.
Proof.
  intros Ht. unfold pending_in. rewrite (map_to_list_insert m t s Ht). simpl.
  by destruct (pending_of vals s).
Qed.

Lemma pending_in_replace vals m t s s' :
  m !! t = Some s ->
  option_list (pending_of vals s) ++ pending_in vals (<[t := s']> m) ≡ₚ
  option_list (pending_of vals s') ++ pending_in vals m.
Proof.
  intros Ht. rewrite <- (insert_delete_id m t s Ht) at 2. rewrite <- (insert_delete_eq m t s').
  rewrite !pending_in_insert by apply lookup_delete_eq. apply Permutation_app_swap_app.
Qed.

Lemma pending_in_delete vals m t s :
  m !! t = Some s ->
  pending_in vals m ≡ₚ option_list (pending_of vals s) ++ pending_in vals (delete t m).
Proof.
  intros Ht. rewrite <- (insert_delete_id m t s Ht) at 1. apply pending_in_insert, lookup_delete_eq.
Qed.

Lemma pending_in_values vals m d v :
  (forall t s, m !! t = Some s -> new_data s <> d) ->
  pending_in (<[d := v]> vals) m = pending_in vals m.
Proof.
  intros H. unfold pending_in. apply list_omap_ext, Forall_Forall2_diag, Forall_forall.
  intros [t s] Hin%elem_of_map_to_list. unfold pending_of. simpl.
  rewrite lookup_insert_ne; [done|]. apply not_eq_sym. eauto.
Qed.

(** A step of a thread links its value, or leaves what is on its way. *)
Lemma push_step_pending t s w w' :
  pushes w !! t = Some s -> push_step t s w = Ok w' ->
  pending w ≡ₚ appends (Step t) w ++ pending w'.
Proof.
  intros Ht H. unfold pending, appends. rewrite Ht.
  assert (forall s', option_list (pending_of (values w) s') = option_list (pending_of (values w) s) ->
            pending_in (values w) (pushes w) ≡ₚ pending_in (values w) (<[t := s']> (pushes w))) as Hsame.
  { intros s' E. apply (Permutation_app_inv_l (option_list (pending_of (values w) s))).
    symmetry. rewrite <- E at 2. by apply pending_in_replace. }
  assert (forall p n r, values (counted p n r w) = values w /\ pushes (counted p n r w) = pushes w) as Hc.
  { intros p n r. unfold counted. by destruct (snd r). }
  unfold push_step in H. destruct (at_ s) eqn:Hat; cbn [decide decide_rel place_eq_dec].
  all: try (bind_inv H; destruct x as [p n]).
  - simplify_eq. simpl. apply Hsame. unfold pending_of, before_exchange. by rewrite Hat.
  - destruct (increase_external_count _ _) as [c o]. simplify_eq. simpl. apply Hsame.
    unfold pending_of, before_exchange. by rewrite Hat.
  - destruct (data n); simplify_eq; simpl; apply Hsame; unfold pending_of, before_exchange; by rewrite Hat.
  - simplify_eq. simpl. apply Hsame. unfold pending_of, before_exchange. by rewrite Hat.
  - simplify_eq. simpl. pose proof (pending_in_replace (values w) (pushes w) t s (go FreeCounter (set_old (tail w) s)) Ht) as P.
    replace (pending_of (values w) s) with (values w !! new_data s) in P
      by (unfold pending_of, before_exchange; by rewrite Hat).
    by symmetry.
  - simplify_eq. simpl. destruct (Hc p n (free_external_counter (old_tail s) (count n))) as [-> ->].
    apply Hsame. unfold pending_of, before_exchange. by rewrite Hat.
  - simplify_eq. simpl. rewrite (pending_in_delete _ _ t s Ht) at 1.
    unfold pending_of, before_exchange. by rewrite Hat.
  - simplify_eq. simpl. destruct (Hc p n (release_ref (count n))) as [-> ->].
    apply Hsame. unfold pending_of, before_exchange. by rewrite Hat.
Qed.

Lemma step_pending w chain q vs e w' :
  inv w chain q vs -> can e w -> step e w = Ok w' ->
  called_by e ++ pending w ≡ₚ appends e w ++ pending w'.
Proof.
  intros I Hc H. destruct e as [t v d p bits|t].
  - destruct Hc as (Ht & Hd & _). simpl in H. simplify_eq. unfold pending. simpl.
    rewrite pending_in_insert by done. unfold pending_of at 1. simpl. rewrite lookup_insert_eq. simpl.
    rewrite pending_in_values; [done|]. intros u r Hu E.
    destruct (frame_data _ _ _ _ _ _ I Hu) as [x Hx]. subst d; congruence.
  - destruct Hc as [s Ht]. simpl in H. rewrite Ht in H. by apply (push_step_pending t s).
Qed.

Lemma run_pending `{L : !RefCountsLaws R} es w chain q vs w' :
  inv w chain q vs -> possible es w -> run es w = Ok w' ->
  called es ++ pending w ≡ₚ appended es w ++ pending w'.
Proof.
  revert w chain q vs. induction es as [|e es IH]; intros w chain q vs I Hp H.
  { simpl in H. by simplify_eq. }
  destruct Hp as [Hc Hp]. destruct (queue_step_inv w chain q vs e I Hc) as (w1 & c1 & q1 & Hs & I1).
  simpl in *. rewrite Hs in H |- *. simpl in H.
  pose proof (step_pending w chain q vs e w1 I Hc Hs) as P1.
  pose proof (IH w1 c1 q1 _ I1 (Hp _ Hs) H) as P2.
  rewrite <- !app_assoc, <- P2, (Permutation_app_swap_app (called_by e)), P1.
  apply Permutation_app_swap_app.
Qed.

(** ** Progress *)

(** While a thread is between its two exchanges, the steps of the others link
    nothing. *)
Lemma claimed_step_links_nothing w chain q vs t s e :
  inv w chain q vs -> pushes w !! t = Some s -> claims s -> e <> Step t -> appends e w = [].
Proof.
  intros I Ht Hs He. destruct e as [|u]; [done|]. simpl.
  destruct (pushes w !! u) as [r|] eqn:Hu; [|done]. destruct (decide (at_ r = Exchange)); [|done].
  destruct He. f_equal. apply (claims_unique _ _ _ _ _ _ _ _ I Hu Ht); [by right | done].
Qed.

Lemma step_other t s e w w' :
  pushes w !! t = Some s -> can e w -> e <> Step t -> step e w = Ok w' -> pushes w' !! t = Some s.
Proof.
  intros Ht Hc He H. destruct e as [u v d p bits|u].
  - destruct Hc as (Hu & _). simpl in H. simplify_eq. simpl. rewrite lookup_insert_ne by congruence. done.
  - assert (u <> t) as Hne by congruence. simpl in H. destruct (pushes w !! u) as [r|]; [|done].
    assert (forall p n c, pushes (counted p n c w) = pushes w) as Hcn.
    { intros p n c. unfold counted. by destruct (snd c). }
    unfold push_step in H. destruct (at_ r).
    all: try (bind_inv H; destruct x as [p n]).
    2: destruct (increase_external_count _ _) as [c o].
    3: destruct (data n).
    all: simplify_eq; simpl; rewrite ?Hcn, ?lookup_insert_ne, ?lookup_delete_ne by congruence; done.
Qed.

Section Alone.
Context `{L : !RefCountsLaws R}.

Lemma execution_app es1 es2 w : run (es1 ++ es2) w = (w' ← run es1 w; run es2 w').
Proof. revert w. induction es1; intros w; simpl; [done|]. by destruct (step _ _); simpl. Qed.

Lemma possible_app es es' x w :
  possible (es ++ es') x -> run es x = Ok w -> possible es x /\ possible es' w.
Proof.
  revert x. induction es as [|e es IH]; simpl; intros x Hp Hr; [by simplify_eq|].
  destruct Hp as [Hc Hp]. bind_inv Hr. destruct (IH _ (Hp _ Hx) Hr) as [H1 H2].
  split; [|done]. split; [done|]. intros y Hy. rewrite Hx in Hy. by simplify_eq.
Qed.

Lemma check_possible es w : check es w = true -> possible es w.
Proof.
  revert w. induction es as [|e es IH]; intros w; simpl; [done|].
  intros [Hc H]%andb_true_iff. apply bool_decide_eq_true in Hc. split; [done|].
  intros w' Hw. rewrite Hw in H. auto.
Qed.

(** One access of the thread [t], as an equation. *)
Lemma run_step t es w s w' :
  pushes w !! t = Some s -> push_step t s w = Ok w' -> run (Step t :: es) w = run es w'.
Proof. intros Ht H. simpl. by rewrite Ht, H. Qed.

Lemma alone w chain q vs t s n :
  inv w chain q vs -> pushes w !! t = Some s -> at_ s = Load ->
  nodes w !! q = Some n -> data n = None ->
  exists w', run (replicate 7 (Step t)) w = Ok w' /\ pushes w' = delete t (pushes w) /\
    ptr (tail w') = ptr (new_next s).
Proof.
  intros I Ht Hat Hq Hd. pose proof (i_tail _ _ _ _ I) as Hptr.
  simpl replicate.
  erewrite run_step; [|done | unfold push_step; rewrite Hat; done].
  destruct (increase_external_count (tail w) (tail w)) as [c o] eqn:Ei.
  pose proof (increase_counter (tail w) (tail w)) as Ec. pose proof (increase_old (tail w) (tail w)) as Eo.
  rewrite Ei in Ec, Eo. simpl in Ec, Eo. rewrite Hptr in Ec, Eo.
  erewrite run_step; [|simpl; by rewrite lookup_insert_eq | unfold push_step; simpl; rewrite Ei; done].
  erewrite run_step; [|simpl; by rewrite lookup_insert_eq |
    unfold push_step, deref; simpl; rewrite Eo; simpl; rewrite Hq; simpl; rewrite Hd; done].
  erewrite run_step; [|simpl; by rewrite lookup_insert_eq |
    unfold push_step, deref; simpl; rewrite Eo; simpl; rewrite lookup_insert_eq; simpl; done].
  erewrite run_step; [|simpl; by rewrite lookup_insert_eq | unfold push_step; simpl; done].
  erewrite run_step; [|simpl; by rewrite lookup_insert_eq |
    unfold push_step, deref; simpl; rewrite Ec; simpl; rewrite lookup_insert_eq; simpl; done].
  erewrite run_step; [|simpl; by rewrite lookup_insert_eq | unfold push_step; simpl; done].
  eexists. split; [done|]. unfold counted. destruct (snd _); simpl.
  all: by rewrite !insert_insert_eq, delete_insert_eq.
Qed.

(** ** Theorems *)




End Alone.
End WithT.

(** ** Concrete runs *)

(** Counting, as the functions' names say. *)
#[local] Instance counting : RefCounts := {|
  increase_external_count c _ := (Counted (external_count c + 1) (ptr c), Counted (external_count c + 1) (ptr c));
  free_external_counter o c :=
    let c' := counter (internal_count c + (external_count o - 2)) (external_counters c - 1) in
    (c', (internal_count c' =? 0) && (external_counters c =? 1));
  release_ref c :=
    (Counter ((internal_count c - 1) mod 2 ^ 30) (external_counters c),
     ((internal_count c - 1) mod 2 ^ 30 =? 0) && (external_counters c =? 0))
|}.

#[local] Instance counting_laws : RefCountsLaws counting.
Proof.
  split; simpl; try done.
  - intros o c Hc. apply Z.mod_small. lia.
  - intros o c _ H. reflect_bools. lia.
  - intros c H. reflect_bools. lia.
Qed.

(** Two threads at once: the first claims the node and links its value while
    the second finds the node taken and tries again. *)
Definition two_pushes : list (@event nat) :=
  [Call 1 10 0 101 None; Call 2 20 1 102 None;
   Step 1; Step 2; Step 1; Step 2; Step 1; Step 2; Step 1; Step 2; Step 1; Step 2;
   Step 1; Step 1; Step 2; Step 2; Step 2; Step 2; Step 2]%nat.

(** The first thread has claimed the node. *)
Definition claimed : list (@event nat) :=
  [Call 1 10 0 101 None; Call 2 20 1 102 None; Step 1; Step 1; Step 1]%nat.

(** The second in the loop of [push], three turns. *)
Definition spinning : list (@event nat) := replicate 10 (Step 2)%nat.

Definition one_call : list (@event nat) := [Call 1 10 0 101 None]%nat.

Definition result_of (es : list (@event nat)) : lock_free_queue :=
  match run es (ready 100) with Ok w => w | Fault _ => ready 100 end.




End Lfq.
