(* ===== verification/TestMuduo.v ===== *)
(** * TestMuduo: testMuduo.cpp

    The program the repository keeps to run the same page over the original
    muduo library: an echo server, the response callback, and main().  Muduo is
    not part of the repository; its classes are the type classes below, with
    what this program relies on as their laws: a buffer gives up all it holds, a
    connection sends what it is given, and a setter of a response sets its
    field.  A function that logs returns the line. *)

From Stdlib Require Import ZArith Lia Ascii String.
From stdpp Require Import options.
From S2P Require Import Prelude CStd Buffer HttpRequest HttpResponse HttpServer Pages.

Module TestMuduo.

(** ** The library *)

(** [muduo::net::Buffer]: what it holds, and what a read of the socket adds. *)
Class MuduoBuffer (B : Type) := {
  readable : B -> bytes;
  arrive : bytes -> B -> B;
  retrieveAllAsString : B -> bytes * B;
  arrive_readable : forall d b, readable (arrive d b) = readable b ++ d;
  retrieve_all : forall b, (retrieveAllAsString b).1 = readable b;
  retrieve_empties : forall b, readable (retrieveAllAsString b).2 = []
}.

(** [muduo::net::TcpConnection]: [sent] is what was given to [send] so far. *)
Class MuduoConnection (C : Type) := {
  name : C -> bytes;
  peerAddress : C -> bytes;
  localAddress : C -> bytes;
  connected : C -> bool;
  sent : C -> bytes;
  send : bytes -> C -> C;
  send_sent : forall m c, sent (send m c) = sent c ++ m;
  send_name : forall m c, name (send m c) = name c
}.

(** [muduo::net::HttpRequest] and [HttpResponse]: what is set in a response. *)
Record seen := mkSeen {
  s_code : Z;
  s_message : bytes;
  s_type : bytes;
  s_close : bool;
  s_body : bytes
}.

Class MuduoHttp (Req Resp : Type) := {
  query : Req -> bytes;
  setStatusCode : Z -> Resp -> Resp;
  setStatusMessage : bytes -> Resp -> Resp;
  setContentType : bytes -> Resp -> Resp;
  setCloseConnection : bool -> Resp -> Resp;
  setBody : bytes -> Resp -> Resp;
  look : Resp -> seen;
  look_code : forall x r, look (setStatusCode x r) =
    mkSeen x (s_message (look r)) (s_type (look r)) (s_close (look r)) (s_body (look r));
  look_message : forall x r, look (setStatusMessage x r) =
    mkSeen (s_code (look r)) x (s_type (look r)) (s_close (look r)) (s_body (look r));
  look_type : forall x r, look (setContentType x r) =
    mkSeen (s_code (look r)) (s_message (look r)) x (s_close (look r)) (s_body (look r));
  look_close : forall x r, look (setCloseConnection x r) =
    mkSeen (s_code (look r)) (s_message (look r)) (s_type (look r)) x (s_body (look r));
  look_body : forall x r, look (setBody x r) =
    mkSeen (s_code (look r)) (s_message (look r)) (s_type (look r)) (s_close (look r)) x
}.

Definition k200Ok : Z := 200.

(** ** The echo server *)

Section Echo.
Context {B C : Type} `{!MuduoBuffer B} `{!MuduoConnection C}.

Definition onConnection (conn : C) : bytes :=
  bs "EchoServer - " ++ peerAddress conn ++ bs " -> " ++ localAddress conn ++ bs " is " ++
  (if connected conn then bs "UP" else bs "DOWN").

(** [time]: the text of the time of the read. *)
Definition onMessage (conn : C) (buf : B) (time : bytes) : bytes * C * B :=
  let '(msg, buf) := retrieveAllAsString buf in
  let line := name conn ++ bs " echo " ++ to_string (zlen msg) ++ bs " bytes, " ++
              bs "data received at " ++ time in
  (line, send msg conn, buf).

(** [muduo::net::TcpServer], as the constructor uses it. *)
Context {Loop Addr TcpServer : Type}.
Context (TcpServer_new : Loop -> Addr -> bytes -> TcpServer).
Context (setConnectionCallback : (C -> bytes) -> TcpServer -> TcpServer).
Context (setMessageCallback : (C -> B -> bytes -> bytes * C * B) -> TcpServer -> TcpServer).
Context (TcpServer_start : TcpServer -> TcpServer).

Record EchoServer := mkEcho { server_ : TcpServer }.

Definition EchoServer_new (loop : Loop) (listenAddr : Addr) : EchoServer :=
  let server := TcpServer_new loop listenAddr (bs "EchoServer") in
  let server := setConnectionCallback onConnection server in
  mkEcho (setMessageCallback onMessage server).

Definition start (s : EchoServer) : EchoServer := mkEcho (TcpServer_start (server_ s)).

(** Data arrives, piece by piece, with the time of each read. *)
Fixpoint serve_pieces (l : list (bytes * bytes)) (conn : C) (buf : B) : list bytes * C * B :=
  match l with
  | [] => ([], conn, buf)
  | (d, time) :: l' =>
      let '(line, conn, buf) := onMessage conn (arrive d buf) time in
      let '(lines, conn, buf) := serve_pieces l' conn buf in
      (line :: lines, conn, buf)
  end.

(** The echo server sends back what was received: however the data is cut
    into reads, the connection is sent exactly what was in the buffer and then
    all that arrived, in order, nothing is left in the buffer, and there is one
    log line for each read. *)
Theorem echo_sends_back l conn buf :
  let '(lines, conn', buf') := serve_pieces l conn buf in
  sent conn' ++ readable buf' = sent conn ++ readable buf ++ concat l.*1 /\
  (l <> [] -> readable buf' = []) /\ length lines = length l.
Proof.
  revert conn buf. induction l as [|[d time] l IH]; intros conn buf; simpl.
  { by rewrite app_nil_r. }
  unfold onMessage. destruct (retrieveAllAsString (arrive d buf)) as [msg buf1] eqn:E.
  pose proof (retrieve_all (arrive d buf)) as Hmsg. pose proof (retrieve_empties (arrive d buf)) as Hempty.
  rewrite E in Hmsg, Hempty. simpl in Hmsg, Hempty. rewrite arrive_readable in Hmsg.
  specialize (IH (send msg conn) buf1). destruct (serve_pieces l (send msg conn) buf1) as [[lines conn'] buf'] eqn:Es.
  destruct IH as (H1 & H2 & H3). rewrite send_sent, Hempty, Hmsg in H1. simpl in H1.
  split_and!; [by rewrite H1, <- !app_assoc | | by rewrite <- H3].
  intros _. destruct l as [|p l]; [|by apply H2]. simpl in Es. by injection Es as <- <- <-.
Qed.

End Echo.

(** ** The response callback *)

(** The raw string of the file, which is that of httpresponsefile.h character
    for character. *)
Definition website : bytes := Pages.website.

Section Http.
Context {Req Resp : Type} `{!MuduoHttp Req Resp}.

Definition onRequest (req : Req) (resp : Resp) : Resp :=
  let _query := query req in
  let resp := setStatusCode k200Ok resp in
  let resp := setStatusMessage (bs "OK") resp in
  let resp := setContentType (bs "text/html") resp in
  let resp := setCloseConnection false resp in
  setBody website resp.

(** The program and the server of main.cpp serve the same page: to a GET of
    the root, [resCallback] over this library gives the status, the message,
    the type and the body that [onRequest] gives over muduo, whatever the
    response they start from held; but [onRequest] gives them to every
    request, and always keeps the connection open, where [resCallback] leaves
    that as it is. *)
Theorem same_page (req : Req) (resp : Resp) request response :
  Request.m_method request = Request.kGet -> Request.m_path request = bs "/" ->
  let r := Server.resCallback request response in
  look (onRequest req resp) =
    mkSeen (Response.status_value (Response.m_status_code r)) (Response.m_status_message r)
      (Response.m_type r) false (Response.m_body r) /\
  Response.m_close_connection r = Response.m_close_connection response.
Proof.
  intros Hget Hroot. unfold Server.resCallback. rewrite Hget, Hroot, !decide_True by done.
  split; [|done]. unfold onRequest. by rewrite look_body, look_close, look_type, look_message, look_code.
Qed.

End Http.

(** ** main() *)

(** The calls of main() on the library, in order. *)
Inductive call :=
| LogInfo (line : bytes)
| EventLoop_ctor
| InetAddress_ctor (ip : bytes) (port : Z)
| HttpServer_ctor (server_name : bytes)
| SetThreadNum (n : Z)
| SetHttpCallback
| HttpServer_start
| EventLoop_loop.

Definition main (pid : Z) : list call :=
  [LogInfo (bs "pid = " ++ to_string pid); EventLoop_ctor; InetAddress_ctor (bs "0.0.0.0") 1234;
   HttpServer_ctor (bs "MyHTTPServer"); SetThreadNum 3; SetHttpCallback; HttpServer_start; EventLoop_loop].

(** ** The laws hold of concrete classes *)

(** A buffer that is its contents, a connection that is what it sent. *)
#[global] Program Instance bytes_buffer : MuduoBuffer bytes :=
  {| readable b := b; arrive d b := b ++ d; retrieveAllAsString b := (b, []) |}.
Solve Obligations with done.

#[global] Program Instance bytes_connection : MuduoConnection bytes :=
  {| name _ := bs "c#1"; peerAddress _ := bs "1.2.3.4:5"; localAddress _ := bs "0.0.0.0:1234";
     connected _ := true; sent c := c; send m c := c ++ m |}.
Solve Obligations with done.

#[global] Program Instance seen_http : MuduoHttp bytes seen :=
  {| query q := q;
     setStatusCode x r := mkSeen x (s_message r) (s_type r) (s_close r) (s_body r);
     setStatusMessage x r := mkSeen (s_code r) x (s_type r) (s_close r) (s_body r);
     setContentType x r := mkSeen (s_code r) (s_message r) x (s_close r) (s_body r);
     setCloseConnection x r := mkSeen (s_code r) (s_message r) (s_type r) x (s_body r);
     setBody x r := mkSeen (s_code r) (s_message r) (s_type r) (s_close r) x;
     look r := r |}.
Solve Obligations with done.

Example echo_two_reads :
  serve_pieces [(bs "he", bs "t1"); (bs "llo", bs "t2")] ([] : bytes) ([] : bytes) =
  ([bs "c#1 echo 2 bytes, data received at t1"; bs "c#1 echo 3 bytes, data received at t2"], bs "hello", []).
Proof. vm_compute. reflexivity. Qed.

Definition get_root : Request.HttpRequest :=
  Request.setPath (bs "/") (Request.setMethod (bs "GET") Request.new).

Lemma same_page_witness :
  let r := Server.resCallback get_root (Response.new true) in
  look (onRequest (bs "") (mkSeen 0 [] [] true [])) =
    mkSeen (Response.status_value (Response.m_status_code r)) (Response.m_status_message r)
      (Response.m_type r) false (Response.m_body r) /\
  Response.m_close_connection r = Response.m_close_connection (Response.new true).
Proof. apply (same_page (bs "") (mkSeen 0 [] [] true []) get_root (Response.new true)); done. Defined.

End TestMuduo.
